(* ===== verification/_CoqProject ===== *)
-Q . S2P
Prelude.v
Text.v
Logger.v
Heap.v
Bump.v
LinkedList.v
FixedBlock.v
Frames.v
Benchmark.v
Paging.v
UserStack.v
Hierarchy.v
Vga.v
Keyboard.v
Abi.v
Sync.v
Isf.v
Thread.v
Diagnostics.v
Mapping.v
Kernel.v
Syscall.v
Spawn.v
Irq.v
Locks.v
Scancodes.v
Arena.v
System.v
Loader.v
Printed.v
Stacks.v
Registers.v
Asm.v
Memory.v
TableMapper.v
Walker.v
AddressSpace.v
Release.v
PageFault.v
Api.v
Ipc.v
Lifecycle.v
Console.v
Runtime.v
Shell.v
Boot.v
Setup.v
Start.v
