(* ===== verification/Prelude.v ===== *)
(** * zephyrRS: a verification library for the kernel and its user programs

    zephyrRS (src/zephyrRS) is an x86-64 kernel in Rust with a user-side API
    crate and a shell.  Threads run in round robin under a timer interrupt, talk
    through rendezvous sockets with one slot each, and enter the kernel by
    [syscall].  The kernel hands out physical frames from the boot loader's
    memory map, builds an address space per process by copying its own page
    tables, gives every thread a user stack in a fixed slot, and has a heap.

    ** Files

    Shared: this file (integers, outcomes, slices, loops, tactics, hint
    databases) and Text.v (UTF-8, the text of numbers).

    Memory (kernel/src/mem).
    - Logger.v: memory/memory_logger.rs, the counters of [MemoryLogger].
    - Heap.v: layouts, [align_up] of allocator.rs and the class
      [HeapAllocatorLaws], what a [GlobalAlloc] promises: [client] plays any
      sequence of correct calls, [placed] says that live blocks are inside the
      heap and disjoint.  Bump.v, LinkedList.v and FixedBlock.v are the three
      allocators, each with its instance of these laws; the fallback of the
      fixed-size block allocator is a third-party heap, the class
      [FallbackHeap].
    - Frames.v: [PageFrameAllocator] of memory.rs over the boot loader's map,
      and the class [FrameAllocator], its contract for the files after it.
      Benchmark.v: [test_alloc_times].
    - Paging.v: the page tables of memory.rs: creation, copy, release.  Tables
      are a function from physical address and index to entries; an entry is a
      type with the operations of the x86_64 crate (class [PageTableEntry]).
    - UserStack.v: [allocate_user_stack], [free_user_stack] and the on-demand
      page of memory.rs, on the state of Paging.v.
    - Hierarchy.v: such tables as a tree that maps pages: what changing one
      entry does to the walks, the frames in use and the other trees
      ([steps_to], [confined], [apart]).
    - Mapping.v: user heap, program pages, kernel heap, on the [Mapper] of the
      x86_64 crate (class [MapperLaws]).
    - Memory.v: the interface of Kernel.v implemented by all of these.
    - TableMapper.v: the [Mapper] of the crate again, as an operation on the
      tables of Paging.v: class [TableMapperLaws], its documented behaviour on a
      tree of tables.  Whatever meets it is a [Mapper] for Mapping.v and, with
      the bytes of memory, the memory of Loader.v.  Walker.v: an instance, a
      plain walk of the levels, on which theorems are run; it stands for no
      code of the repository.
    - AddressSpace.v: the components on that one memory, from the copy of the
      kernel's tables to the spawned thread; Release.v: from there to the drop
      of the process.

    Devices (kernel/src/dev).
    - Vga.v: vga_buffer.rs, the [Writer] over the text buffer; Console.v: from
      [write_str] of a program to the screen; Printed.v: what is printed is text.
    - Keyboard.v: keyboard.rs, what a decoded key does to the console;
      Scancodes.v: its stream of scancodes, between interrupts and polls.

    Threads (kernel/src/proc, sync.rs, syscall.rs, boot).
    - Abi.v: messages and error codes.  Sync.v: sync.rs, the state machine
      [Socket], against the class [SocketThread] (a thread is something one
      can answer).  Isf.v: saved contexts, [ISF] in memory.
    - Thread.v: the data of process.rs and the handle table of a process; its
      threads are an instance of [SocketThread].  Diagnostics.v: [Display].
    - Kernel.v: the statics as one record [kernel] and the scheduler, with the
      class [MemoryManager] for what process.rs asks of memory.rs.
    - Syscall.v: every system call, with fork, exit and the drops exit causes.
      Spawn.v: thread creation.  Loader.v: from an ELF file to a thread.
    - Irq.v: the timer and keyboard handlers; PageFault.v: the fault handlers.
    - Arena.v: concrete instances of the classes, on which theorems are run.
    - System.v: all entry points as one step relation, its reachable states
      and their invariant.  Stacks.v and Registers.v: kernel stacks and saved
      registers in these states.
    - Asm.v: the assembly of interrupts.rs and syscall.rs, instruction by
      instruction, as a refinement of those steps.
    - Locks.v: the locks each function takes and where interrupts are masked.

    User side (api/src, bin/src).
    - Api.v: api/src/syscall.rs, each stub as the registers it sends and what
      it makes of the registers it gets.  Ipc.v and Lifecycle.v compose stubs,
      calls, sockets and scheduler.
    - Runtime.v: programs as interaction trees over the calls of the API, and
      [obeys], a program logic for them.  Shell.v: bin/src/main.rs.

    Start (kernel/src/main.rs, lib.rs, boot).
    - Boot.v: descriptor tables, the first kernel thread, the console listener.
      Setup.v: interrupt descriptor table, [kernel::init], model-specific
      registers, [memory::init], [kernel_main] up to the first timer interrupt.
      Start.v: the composition, from [kernel_main] to the first call of the
      shell, and the kernel's own address space after [memory::init].

    ** How the code is modelled

    Effects are explicit: an operation takes the state and returns the new one
    in [outcome], where [Panic] is a Rust panic and [Hang] a loop whose
    condition can never become true.  Integers are [Z] and [wrap64] is written
    where 64-bit arithmetic can wrap.  References ([Arc], [Box], raw context
    pointers) are keys or addresses in explicit heaps, so aliasing is visible.

    One CPU runs the kernel, and system calls and handlers run with interrupts
    masked, so each is one atomic step; concurrency is the order of the steps.
    Locks.v justifies that for every lock but three, and shows what goes wrong
    with one of them.  Kernel threads do run with interrupts enabled: their
    operations are single steps too, which leaves out that the timer can
    arrive in the middle of one.

    What [print!] writes is appended to the field [printed] of the state, and
    the screen is a function of it (Console.v).

    Loops are [for_each] over the list of their indices, or structural; page
    table recursion is on the level (four at most).  Fuel occurs twice: in
    [Api.wait_loop], for which [Api.retry_terminates] shows that 101 rounds are
    enough, and in the digits of a number, 64 for a number below 2^64.  Loops of
    user programs that do not end are interaction trees.

    Third-party code is a class with its documented behaviour ([PageTableEntry],
    [Mapper], [TableMapper], [VirtPages], [FallbackHeap], [ElfParser], [KeyboardDecoder],
    [ArrayQueue], [AtomicWaker], [Selectors]), and so is what compiled code does
    to registers ([CallingConvention]); every theorem that uses such laws has a
    witness with an instance.  The laws of the mapper hold for tables that are
    valid, a tree of present entries on frames the allocator does not own, and
    for flags of pages; every operation keeps the tables valid, and
    [Setup.memory_initialised] starts from valid ones.

    ** What is proved

    - Ownership: a thread is in one place and none appears or disappears
      ([System.threads_owned_once], [Lifecycle.syscall_accounting]); kernel
      stacks are disjoint ([Stacks.stacks_disjoint]); a frame has one owner
      ([Frames.frames_exclusive]); heap blocks are disjoint
      ([FixedBlock.fixed_block_safe]).
    - Isolation and entry code: a preempted thread resumes with all its
      registers, whatever runs, exits or idles meanwhile
      ([Asm.preemption_transparent]); the assembly refines the steps
      ([Asm.syscall_refines], [Asm.timer_refines]); each interrupt has its
      stack ([Setup.interrupt_stacks]).
    - Locks: masked code does not wait ([Locks.Locks.masked_waits]).
    - Communication: order and delivery ([Sync.socket_fifo],
      [Sync.socket_request_reply]) and, from stub to stub,
      [Ipc.receive_then_send] and [Ipc.send_then_receive]; a key press reaches
      its reader ([Irq.key_press]); scancodes are not reordered
      ([Scancodes.scancode_stream]).
    - Scheduling and life cycle: [Kernel.round_robin],
      [Lifecycle.fork_returns_twice], [Api.retry_terminates].
    - Address spaces: a spawn changes no other space
      ([AddressSpace.address_spaces_isolated]) and a program gives back the
      frames it took ([Release.program_memory_returned]); the parts are
      [Paging.copy_translates], [UserStack.user_stack_mapped],
      [UserStack.user_stack_freed], [Mapping.pages_roundtrip],
      [PageFault.page_fault_ondemand].
    - Loading: [Loader.program_loaded], [Loader.program_spawned]; the check of
      a segment adds with wrap-around, and [Loader.guard_bypassed] is a segment
      that passes it with no page mapped.
    - Start: [Setup.kernel_boots], [Setup.memory_initialised],
      [Setup.syscall_initialised], [Start.system_starts].
    - The shell keeps its protocols whatever the kernel answers
      ([Shell.shell_session], [Shell.worker_reports]).
    - The console is a terminal ([Vga.console_is_terminal]), shows what programs
      print ([Console.user_print_shows]), and gets text only
      ([Printed.printed_utf8]).
    - Where the code does not do what it seems to mean, the theorem states what
      it does: [UserStack.user_stack_freed] (the slots are spent for good),
      [Mapping.user_heap_aliased] (one frame for the whole user heap),
      [PageFault.page_fault_never_exits], [Boot.listener_survives] (a message
      that panics the kernel), [Setup.memory_initialised] (the free memory is
      overstated), [Locks.Locks.masked_waits] (the lock of [ID_SOCKET]).  Lemmas
      do the same for [frames_in_order], [linked_list_forgets],
      [stack_slot_63_panics], [notify_drops_waiter] and [arrow_keys].

    ** What is not modelled

    The serial port (the device, and the lines written to it: log lines, the
    stack monitor, [print_details]; its lock is in Locks.v): they are output no
    code reads.  What the interrupt controllers do after they are set up, and
    an interrupt that arrives during [kernel_main]; the operations of a kernel
    thread as sequences of interruptible steps; the processor's cache of
    translations; functions nothing calls that only read a
    register or a pointer ([create_user_pagetable], time stamps); the test
    runner, the integration tests and the build scripts; third-party crates
    beyond their contracts. *)
From Stdlib Require Export ZArith Lia.
From stdpp Require Export base tactics decidable option list list_numbers
  gmap fin_maps sets strings.

#[export] Set Default Goal Selector "!".

(** ** Machine integers

    [u64] and [usize] are 64-bit on the only target (x86_64-zephyr.json); the
    kernel and the user program are built with [--release], so [+] and [-] on
    them wrap around.  A value is a [Z] in [0, 2^64); every definition that
    does arithmetic writes the wrap-around with [wrap64]. *)

Declare Scope rust_scope.
Delimit Scope rust_scope with rust.
Open Scope Z_scope.

Definition wrap64 (z : Z) : Z := z mod 2 ^ 64.
Arguments wrap64 : simpl never.

Notation "a +w b" := (wrap64 (a + b)%Z)
  (at level 50, left associativity) : rust_scope.
Notation "a -w b" := (wrap64 (a - b)%Z)
  (at level 50, left associativity) : rust_scope.

Open Scope rust_scope.

Definition is_u64 (z : Z) : Prop := 0 <= z < 2 ^ 64.

#[export] Instance is_u64_dec z : Decision (is_u64 z).
Proof. unfold is_u64. apply _. Defined.

(** [usize::checked_add] and [usize::saturating_add]. *)
Definition checked_add (a b : Z) : option Z :=
  if decide (a + b < 2 ^ 64) then Some (a + b) else None.

Definition saturating_add (a b : Z) : Z := Z.min (a + b) (2 ^ 64 - 1).

(** ** Outcomes

    What a call does besides returning: [Panic] is a Rust panic (an index out
    of bounds, an [unwrap] of [None], an explicit [panic!]), [Hang] is a spin
    loop whose condition can never become true. *)
Inductive outcome (A : Type) : Type :=
| Done (a : A)
| Panic
| Hang.
Arguments Done {A} a.
Arguments Panic {A}.
Arguments Hang {A}.

(** The value of a call that is known to return. *)
Definition done_or {A} (d : A) (m : outcome A) : A :=
  match m with
  | Done a => a
  | _ => d
  end.

#[export] Instance outcome_ret : MRet outcome := fun _ => Done.
#[export] Instance outcome_bind : MBind outcome := fun _ _ f m =>
  match m with
  | Done a => f a
  | Panic => Panic
  | Hang => Hang
  end.

#[export] Instance outcome_eq_dec {A} `{EqDecision A} : EqDecision (outcome A).
Proof. solve_decision. Defined.

(** Rust's [Result]. *)
Inductive result (A E : Type) : Type :=
| Ok (a : A)
| Err (e : E).
Arguments Ok {A E} a.
Arguments Err {A E} e.

#[export] Instance result_eq_dec {A E} `{EqDecision A, EqDecision E} :
  EqDecision (result A E).
Proof. solve_decision. Defined.

(** ** Slices and arrays indexed by [usize]

    [vget] is [slice::get], [vindex] and [vset] are [a\[i\]] and [a\[i\] = x],
    which panic out of bounds. *)
Definition vget {A} (l : list A) (i : Z) : option A :=
  if decide (0 <= i < Z.of_nat (length l)) then l !! Z.to_nat i else None.

Definition vindex {A} (l : list A) (i : Z) : outcome A :=
  match vget l i with
  | Some a => Done a
  | None => Panic
  end.

Definition vset {A} (l : list A) (i : Z) (x : A) : outcome (list A) :=
  if decide (0 <= i < Z.of_nat (length l))
  then Done (<[Z.to_nat i := x]> l)
  else Panic.

(** A [for] loop over [xs] with the state [s]. *)
Fixpoint for_each {X S} (xs : list X) (f : X -> S -> outcome S) (s : S) : outcome S :=
  match xs with
  | [] => Done s
  | x :: xs => s ← f x s; for_each xs f s
  end.

(** Invert a chain of binds that ended in [Done]. *)
Lemma outcome_bind_Done {A B} (m : outcome A) (f : A -> outcome B) b :
  m ≫= f = Done b -> exists a, m = Done a /\ f a = Done b.
Proof. destruct m; simpl; try done. eauto. Qed.

Lemma Done_inj {A} (a b : A) : Done a = Done b -> a = b.
Proof. by intros [=]. Qed.

(** Run a concrete call: its answer is evaluated, the state is left as it is. *)
Lemma done_or_snd {A B} `{EqDecision A} (d : A * B) (m : outcome (A * B)) (a : A) :
  match m with Done (a', _) => bool_decide (a' = a) | _ => false end = true ->
  m = Done (a, (done_or d m).2).
Proof. destruct m as [[a' b]| |]; [|done..]. by intros ->%bool_decide_eq_true. Qed.

Lemma done_or_is {A} (d : A) (m : outcome A) :
  match m with Done _ => true | _ => false end = true -> m = Done (done_or d m).
Proof. by destruct m. Qed.

(** ** Automation *)

Create HintDb zephyr.
Create Rewrite HintDb zephyr_rw.

(** Case analysis on the conditions of the modelled code. *)
Ltac split_cases :=
  repeat (case_decide || case_match); simplify_eq/=.

(** Name the intermediate results of a successful chain of binds. *)
Ltac bind_Done H :=
  let a := fresh "r" in let Ha := fresh "Hr" in
  apply outcome_bind_Done in H as (a & Ha & H).

(** Unfold the 64-bit operations and decide what is left with [lia]. *)
Ltac word_lia :=
  unfold is_u64, wrap64 in *; Z.div_mod_to_equations; lia.

(** ** Shared lemmas *)

Lemma wrap64_small z : is_u64 z -> wrap64 z = z.
Proof. intros ?. apply Z.mod_small. done. Qed.

Lemma wrap64_is_u64 z : is_u64 (wrap64 z).
Proof. apply Z.mod_pos_bound. lia. Qed.

Lemma wrap64_add_l a b : wrap64 (wrap64 a + b) = wrap64 (a + b).
Proof. unfold wrap64. apply Zplus_mod_idemp_l. Qed.

Lemma wrap64_add_r a b : wrap64 (a + wrap64 b) = wrap64 (a + b).
Proof. unfold wrap64. apply Zplus_mod_idemp_r. Qed.

Lemma wrap64_add_sub a b s : wrap64 (wrap64 (a - s) + wrap64 (b + s)) = wrap64 (a + b).
Proof. rewrite wrap64_add_l, wrap64_add_r. f_equal. lia. Qed.

#[export] Hint Resolve wrap64_is_u64 : zephyr.
#[export] Hint Rewrite wrap64_add_l wrap64_add_r wrap64_add_sub : zephyr_rw.

Section Vectors.
Context {A : Type}.
Implicit Types (l : list A) (i j : Z) (x : A).

Lemma vget_lookup l (n : nat) : vget l (Z.of_nat n) = l !! n.
Proof.
  unfold vget. rewrite Nat2Z.id. case_decide; [done|].
  symmetry. apply lookup_ge_None. lia.
Qed.

Lemma vindex_lookup l (n : nat) x :
  vindex l (Z.of_nat n) = Done x <-> l !! n = Some x.
Proof. unfold vindex. rewrite vget_lookup. destruct (l !! n); naive_solver. Qed.

Lemma vget_Some l i x :
  vget l i = Some x <-> 0 <= i /\ l !! Z.to_nat i = Some x.
Proof.
  unfold vget. case_decide as Hi; split.
  - intros; split; [lia|done].
  - intros [_ ?]; done.
  - done.
  - intros [? Hl]. apply lookup_lt_Some in Hl. lia.
Qed.

Lemma vset_Done l i x l' :
  vset l i x = Done l' <->
  0 <= i < Z.of_nat (length l) /\ l' = <[Z.to_nat i := x]> l.
Proof.
  unfold vset. case_decide as Hi; split.
  - by intros [= <-].
  - by intros [_ ->].
  - done.
  - by intros [? _].
Qed.

Lemma vset_in l i x :
  0 <= i < Z.of_nat (length l) -> vset l i x = Done (<[Z.to_nat i := x]> l).
Proof. intros. apply vset_Done. done. Qed.

Lemma vget_insert l i j x :
  0 <= i < Z.of_nat (length l) -> 0 <= j ->
  vget (<[Z.to_nat i := x]> l) j = if decide (i = j) then Some x else vget l j.
Proof.
  intros Hi Hj. unfold vget. rewrite length_insert.
  destruct (decide (i = j)) as [<-|Hne].
  - rewrite decide_True by lia. apply list_lookup_insert_eq. lia.
  - case_decide; [|done]. apply list_lookup_insert_ne. lia.
Qed.
End Vectors.

Lemma for_each_app {X S} (xs ys : list X) (f : X -> S -> outcome S) s :
  for_each (xs ++ ys) f s = for_each xs f s ≫= for_each ys f.
Proof.
  revert s. induction xs as [|x xs IH]; intros s; [done|].
  simpl. destruct (f x s) as [s1| |]; simpl; [apply IH|done..].
Qed.

(** A loop keeps an invariant indexed by the elements it has done. *)
Lemma for_each_inv {X S} (P : list X -> S -> Prop) (f : X -> S -> outcome S) xs s s' :
  P [] s ->
  (forall dn x rest s1 s2, xs = dn ++ x :: rest -> P dn s1 -> f x s1 = Done s2 ->
    P (dn ++ [x]) s2) ->
  for_each xs f s = Done s' -> P xs s'.
Proof.
  intros H0 Hstep. enough (Hgen : forall dn rest s1, xs = dn ++ rest -> P dn s1 ->
    for_each rest f s1 = Done s' -> P xs s') by (by apply (Hgen [] xs s)).
  intros dn rest. revert dn. induction rest as [|x rest IH]; intros dn s1 Hxs Hp Hrun.
  - simpl in Hrun. simplify_eq. by rewrite app_nil_r.
  - simpl in Hrun. bind_Done Hrun. apply (IH (dn ++ [x]) r); [by rewrite <-app_assoc| |done].
    by eapply Hstep.
Qed.

(** A loop whose body cannot fail while the invariant holds does not fail. *)
Lemma for_each_total {X S} (P : list X -> S -> Prop) (f : X -> S -> outcome S) xs s :
  P [] s ->
  (forall dn x rest s1, xs = dn ++ x :: rest -> P dn s1 ->
    exists s2, f x s1 = Done s2 /\ P (dn ++ [x]) s2) ->
  exists s', for_each xs f s = Done s' /\ P xs s'.
Proof.
  intros H0 Hstep. enough (Hgen : forall dn rest s1, xs = dn ++ rest -> P dn s1 ->
    exists s', for_each rest f s1 = Done s' /\ P xs s') by (by apply (Hgen [] xs s)).
  intros dn rest. revert dn. induction rest as [|x rest IH]; intros dn s1 Hxs Hp.
  - exists s1. by rewrite app_nil_r in Hxs; subst.
  - destruct (Hstep dn x rest s1 Hxs Hp) as (s2 & Hf & Hp2). simpl. rewrite Hf. simpl.
    apply (IH (dn ++ [x]) s2); [by rewrite <-app_assoc|done].
Qed.

(** The iteration [dn ++ x :: rest] of a counting loop. *)
Lemma seqZ_split m n dn x rest :
  seqZ m n = dn ++ x :: rest ->
  x = m + Z.of_nat (length dn) /\ Z.of_nat (length dn) < n.
Proof.
  intros Heq. assert (Hx : seqZ m n !! length dn = Some x).
  { rewrite Heq. by apply list_lookup_middle. }
  apply lookup_seqZ in Hx. lia.
Qed.

(** Overwriting position [s + k] extends the overwritten part by one. *)
Lemma overwrite_step {A} (dst src : list A) (s k : nat) c :
  (s + k < length dst)%nat -> src !! k = Some c ->
  <[(s + k)%nat := c]> (take s dst ++ take k src ++ drop (s + k) dst) =
    take s dst ++ take (S k) src ++ drop (s + S k) dst.
Proof.
  intros Hl Hc. apply lookup_lt_Some in Hc as Hk.
  destruct (lookup_lt_is_Some_2 dst (s + k) Hl) as [d Hd].
  rewrite (drop_S _ _ _ Hd), (take_S_r _ _ _ Hc).
  replace (s + k)%nat with (length (take s dst) + (length (take k src) + 0))%nat at 1
    by (rewrite !length_take; lia).
  rewrite !insert_app_r. cbn [insert list_insert]. rewrite <-app_assoc. cbn [app].
  by replace (s + S k)%nat with (S (s + k)) by lia.
Qed.

(** A filter that everything passes. *)
Lemma list_filter_all {A} (P : A -> Prop) `{!forall x, Decision (P x)} (l : list A) :
  Forall P l -> filter P l = l.
Proof. induction 1 as [|x l Hx _ IH]; [done|]. by rewrite filter_cons_True, IH. Qed.

Lemma list_filter_none {A} (P : A -> Prop) `{!forall x, Decision (P x)} (l : list A) :
  Forall (fun x => ~ P x) l -> filter P l = [].
Proof. induction 1 as [|x l Hx _ IH]; [done|]. by rewrite filter_cons_False. Qed.

Section Rotations.
Context {A : Type}.
Implicit Types (l q : list A) (x : A).

(** Moving the head of a rotated list to its end rotates once more. *)
Lemma rotate_step l n x q :
  (n < length l)%nat ->
  x :: q = drop n l ++ take n l ->
  drop (n + 1) l ++ take (n + 1) l = q ++ [x].
Proof.
  intros Hn Heq. destruct (lookup_lt_is_Some_2 l n Hn) as [y Hy].
  rewrite (drop_S l y n Hy) in Heq. injection Heq as -> ->.
  rewrite Nat.add_1_r, (take_S_r l n y Hy), app_assoc. done.
Qed.

Lemma drop_step l r n x q :
  (n < length l)%nat -> x :: q = drop n l ++ r -> drop (n + 1) l ++ r = q.
Proof.
  intros Hn Heq. destruct (lookup_lt_is_Some_2 l n Hn) as [y Hy].
  rewrite (drop_S l y n Hy) in Heq. injection Heq as -> ->. by rewrite Nat.add_1_r.
Qed.
End Rotations.
