(* ===== verification/Text.v ===== *)
(** * Text

    Strings are lists of UTF-8 bytes, each a [Z] in [0, 256).  What the kernel
    uses of core::fmt and core::str: the characters of integers, the encoding
    of a character and the test for well-formed UTF-8. *)
From S2P Require Import Prelude.
From Stdlib Require Ascii String.

(** The bytes of a literal. *)
Definition text (s : string) : list Z :=
  (fun c => Z.of_N (Ascii.N_of_ascii c)) <$> String.list_ascii_of_string s.

Definition digit (d : Z) : Z := if decide (d < 10) then 0x30 + d else 0x61 + (d - 10).

(** The digits of [z] in the given base, most significant first; 64 digits
    are enough for a [u64] in any base. *)
Fixpoint digits (fuel : nat) (base z : Z) (acc : list Z) : list Z :=
  match fuel with
  | O => acc
  | S fuel =>
      let acc := digit (z mod base) :: acc in
      if decide (z / base = 0) then acc else digits fuel base (z / base) acc
  end.

(** [{}] of a u64, [{:#x}] of a u64 and [{:?}] of a pointer. *)
Definition decimal (z : Z) : list Z := digits 64 10 z [].
Definition hexadecimal (z : Z) : list Z := text "0x" ++ digits 64 16 z [].

(** [{:#016X}]: capitals, padded with zeros to a width of 16. *)
Definition upper (c : Z) : Z := if decide (0x61 <= c) then c - 0x20 else c.
Definition hexadecimal_016 (z : Z) : list Z :=
  let ds := upper <$> digits 64 16 z [] in
  text "0x" ++ replicate (14 - length ds) 0x30 ++ ds.

Arguments text : simpl never.
Arguments decimal : simpl never.
Arguments hexadecimal : simpl never.

(** [char::encode_utf8] *)
Definition encode_utf8 (c : Z) : list Z :=
  if decide (c < 0x80) then [c]
  else if decide (c < 0x800) then [0xC0 + c / 64; 0x80 + c mod 64]
  else if decide (c < 0x10000) then
    [0xE0 + c / 4096; 0x80 + c / 64 mod 64; 0x80 + c mod 64]
  else [0xF0 + c / 262144; 0x80 + c / 4096 mod 64; 0x80 + c / 64 mod 64; 0x80 + c mod 64].

(** A [char]: a Unicode scalar value. *)
Definition is_char (c : Z) : Prop := 0 <= c < 0xD800 \/ 0xE000 <= c < 0x110000.

#[export] Instance is_char_dec c : Decision (is_char c).
Proof. unfold is_char. apply _. Defined.

(** [char::from_u32] of [value as u32]. *)
Definition char_from_u32 (value : Z) : option Z :=
  let c := value mod 2 ^ 32 in if decide (is_char c) then Some c else None.

Definition within_bytes (lo hi b : Z) : bool := (lo <=? b) && (b <=? hi).

(** [str::from_utf8(..).is_ok()]: the well-formed byte sequences of the
    Unicode standard. *)
Fixpoint is_utf8 (s : list Z) : bool :=
  match s with
  | [] => true
  | b :: s =>
      if within_bytes 0 0x7F b then is_utf8 s
      else if within_bytes 0xC2 0xDF b then
        match s with
        | b1 :: s => within_bytes 0x80 0xBF b1 && is_utf8 s
        | [] => false
        end
      else if within_bytes 0xE0 0xEF b then
        match s with
        | b1 :: b2 :: s =>
            within_bytes (if b =? 0xE0 then 0xA0 else 0x80) (if b =? 0xED then 0x9F else 0xBF) b1 &&
            within_bytes 0x80 0xBF b2 && is_utf8 s
        | _ => false
        end
      else if within_bytes 0xF0 0xF4 b then
        match s with
        | b1 :: b2 :: b3 :: s =>
            within_bytes (if b =? 0xF0 then 0x90 else 0x80) (if b =? 0xF4 then 0x8F else 0xBF) b1 &&
            within_bytes 0x80 0xBF b2 && within_bytes 0x80 0xBF b3 && is_utf8 s
        | _ => false
        end
      else false
  end.

(** ** Lemmas *)

Lemma within_bytes_spec lo hi b : within_bytes lo hi b = true <-> lo <= b <= hi.
Proof. unfold within_bytes. rewrite andb_true_iff, !Z.leb_le. done. Qed.

Lemma within_bytes_true lo hi b : lo <= b <= hi -> within_bytes lo hi b = true.
Proof. by rewrite within_bytes_spec. Qed.

Lemma within_bytes_false lo hi b : ~ (lo <= b <= hi) -> within_bytes lo hi b = false.
Proof. intros Hn. apply not_true_is_false. by rewrite within_bytes_spec. Qed.

(** A printed character is well-formed text. *)
Lemma is_utf8_encode c s : is_char c -> is_utf8 (encode_utf8 c ++ s) = is_utf8 s.
Proof.
  intros Hc. unfold encode_utf8.
  repeat case_decide; unfold is_char in Hc; cbn [app is_utf8].
  - by rewrite within_bytes_true by lia.
  - rewrite within_bytes_false by (Z.div_mod_to_equations; lia).
    rewrite !within_bytes_true by (Z.div_mod_to_equations; lia). done.
  - rewrite !(within_bytes_false _ _ (0xE0 + _)) by (Z.div_mod_to_equations; lia).
    rewrite (within_bytes_true 0xE0) by (Z.div_mod_to_equations; lia).
    rewrite !(within_bytes_true 0x80 0xBF (0x80 + c mod 64)) by (Z.div_mod_to_equations; lia).
    rewrite within_bytes_true; [done|].
    destruct (Z.eqb_spec (0xE0 + c / 4096) 0xE0), (Z.eqb_spec (0xE0 + c / 4096) 0xED);
      Z.div_mod_to_equations; lia.
  - rewrite !(within_bytes_false _ _ (0xF0 + _)) by (Z.div_mod_to_equations; lia).
    rewrite (within_bytes_true 0xF0) by (Z.div_mod_to_equations; lia).
    rewrite !(within_bytes_true 0x80 0xBF (0x80 + _ mod 64)) by (Z.div_mod_to_equations; lia).
    rewrite within_bytes_true; [done|].
    destruct (Z.eqb_spec (0xF0 + c / 262144) 0xF0), (Z.eqb_spec (0xF0 + c / 262144) 0xF4);
      Z.div_mod_to_equations; lia.
Qed.

Lemma is_utf8_app s1 s2 : is_utf8 s1 = true -> is_utf8 (s1 ++ s2) = is_utf8 s2.
Proof.
  remember (length s1) as n eqn:Hn. assert (Hle : (length s1 <= n)%nat) by lia. clear Hn.
  revert s1 Hle. induction n as [|n IH]; intros [|b s1] Hle; cbn in Hle; try done; [lia|].
  cbn [app is_utf8].
  destruct (within_bytes 0 0x7F b); [intros; apply IH; [lia|done]|].
  destruct (within_bytes 0xC2 0xDF b).
  { destruct s1 as [|b1 s1]; [done|]. cbn in Hle |- *. intros [-> Hs]%andb_true_iff.
    apply IH; [lia|done]. }
  destruct (within_bytes 0xE0 0xEF b).
  { destruct s1 as [|b1 [|b2 s1]]; [done..|]. cbn in Hle |- *.
    intros [[-> ->]%andb_true_iff Hs]%andb_true_iff. apply IH; [lia|done]. }
  destruct (within_bytes 0xF0 0xF4 b); [|done].
  destruct s1 as [|b1 [|b2 [|b3 s1]]]; [done..|]. cbn in Hle |- *.
  intros [[[-> ->]%andb_true_iff ->]%andb_true_iff Hs]%andb_true_iff. apply IH; [lia|done].
Qed.

(** What the kernel's own messages are made of is well-formed. *)
Lemma ascii_utf8 s : Forall (fun c => 0 <= c < 0x80) s -> is_utf8 s = true.
Proof. induction 1 as [|c s Hc _ IH]; [done|]. cbn. by rewrite within_bytes_true by lia. Qed.

Definition is_ascii (s : string) : bool :=
  forallb (fun c => N.ltb (Ascii.N_of_ascii c) 128) (String.list_ascii_of_string s).

Lemma text_utf8 s : is_ascii s = true -> is_utf8 (text s) = true.
Proof.
  intros Hs. apply ascii_utf8. unfold text, is_ascii in *. rewrite Forall_fmap.
  apply Forall_forall. intros c Hc. rewrite forallb_forall in Hs.
  apply list_elem_of_In, Hs, N.ltb_lt in Hc. cbn. lia.
Qed.

Lemma digits_ascii fuel base : 0 < base <= 16 -> forall z acc,
  Forall (fun c => 0 <= c < 0x80) acc -> Forall (fun c => 0 <= c < 0x80) (digits fuel base z acc).
Proof.
  intros Hb. induction fuel as [|fuel IH]; intros z acc Hacc; [done|]. cbn.
  assert (Hd : 0 <= digit (z mod base) < 0x80)
    by (pose proof (Z.mod_pos_bound z base); unfold digit; case_decide; lia).
  case_decide; [by constructor|]. apply IH. by constructor.
Qed.

Lemma decimal_utf8 z : is_utf8 (decimal z) = true.
Proof. apply ascii_utf8. unfold decimal. by apply digits_ascii. Qed.

Lemma hexadecimal_utf8 z : is_utf8 (hexadecimal z) = true.
Proof.
  unfold hexadecimal. rewrite is_utf8_app by by apply text_utf8. apply ascii_utf8. by apply digits_ascii.
Qed.

Lemma app_utf8 s1 s2 : is_utf8 s1 = true -> is_utf8 s2 = true -> is_utf8 (s1 ++ s2) = true.
Proof. intros H1 H2. by rewrite is_utf8_app. Qed.

Lemma encode_is_utf8 c : is_char c -> is_utf8 (encode_utf8 c) = true.
Proof. intros Hc. rewrite <-(app_nil_r (encode_utf8 c)). by rewrite is_utf8_encode. Qed.

Create HintDb utf8.
#[export] Hint Resolve app_utf8 decimal_utf8 hexadecimal_utf8 encode_is_utf8 : utf8.
#[export] Hint Extern 1 (is_utf8 (text _) = true) => by apply text_utf8 : utf8.
#[export] Hint Extern 2 (is_utf8 [_] = true) => reflexivity : utf8.

#[export] Hint Rewrite @is_utf8_encode using done : zephyr_rw.

Example decimal_1056 : decimal 1056 = text "1056" /\ decimal 0 = text "0".
Proof. done. Qed.

Example hexadecimal_af0 : hexadecimal 0xaf0 = text "0xaf0".
Proof. done. Qed.

(** Formatted numbers stay folded in proofs; they still compute in examples. *)
#[global] Opaque text decimal hexadecimal.
