(* ===== verification/Logger.v ===== *)
(** * The memory logger (kernel/src/mem/memory/memory_logger.rs)

    [MemoryLogger] is the structure behind the global [MEMORYLOGGER]: running
    totals of the frame allocator's traffic.  The operations below keep every
    assignment of the source; the serial output they end with is not modelled. *)
From S2P Require Import Prelude.

Record MemoryRegion := mkMemoryRegion {
  start_address : Z;
  end_address : Z;
}.

Record MemoryLogger := mkMemoryLogger {
  total_memory : Z;
  used_memory : Z;
  free_memory : Z;
  allocation_successes : Z;
  allocation_failures : Z;
  allocation_region : MemoryRegion;
  deallocation_successes : Z;
  deallocation_failures : Z;
  deallocation_region : MemoryRegion;
  peak_memory_usage : Z;
  memory_regions : list MemoryRegion;
}.

Module Logger.

(** [MemoryLogger::new] *)
Definition new : MemoryLogger :=
  {| total_memory := 0; used_memory := 0; free_memory := 0;
     allocation_successes := 0; allocation_failures := 0;
     allocation_region := mkMemoryRegion 0 0;
     deallocation_successes := 0; deallocation_failures := 0;
     deallocation_region := mkMemoryRegion 0 0;
     peak_memory_usage := 0; memory_regions := [] |}.

(** [MemoryLogger::setTotalMemory] *)
Definition setTotalMemory (total : Z) (l : MemoryLogger) : MemoryLogger :=
  {| total_memory := total; used_memory := used_memory l; free_memory := total;
     allocation_successes := allocation_successes l;
     allocation_failures := allocation_failures l;
     allocation_region := allocation_region l;
     deallocation_successes := deallocation_successes l;
     deallocation_failures := deallocation_failures l;
     deallocation_region := deallocation_region l;
     peak_memory_usage := peak_memory_usage l;
     memory_regions := memory_regions l |}.

(** [MemoryLogger::log_allocation] *)
Definition log_allocation (mem_region : MemoryRegion) (size : Z) (success : bool)
    (l : MemoryLogger) : MemoryLogger :=
  if success then
    let used := used_memory l +w size in
    {| total_memory := total_memory l;
       used_memory := used;
       free_memory := free_memory l -w size;
       allocation_successes := allocation_successes l +w 1;
       allocation_failures := allocation_failures l;
       allocation_region := mem_region;
       deallocation_successes := deallocation_successes l;
       deallocation_failures := deallocation_failures l;
       deallocation_region := deallocation_region l;
       peak_memory_usage :=
         if decide (used > peak_memory_usage l) then used else peak_memory_usage l;
       memory_regions := memory_regions l |}
  else
    {| total_memory := total_memory l; used_memory := used_memory l;
       free_memory := free_memory l;
       allocation_successes := allocation_successes l;
       allocation_failures := allocation_failures l +w 1;
       allocation_region := allocation_region l;
       deallocation_successes := deallocation_successes l;
       deallocation_failures := deallocation_failures l;
       deallocation_region := deallocation_region l;
       peak_memory_usage := peak_memory_usage l;
       memory_regions := memory_regions l |}.

(** [MemoryLogger::log_deallocation] *)
Definition log_deallocation (mem_region : MemoryRegion) (size : Z) (success : bool)
    (l : MemoryLogger) : MemoryLogger :=
  if success then
    {| total_memory := total_memory l;
       used_memory := used_memory l -w size;
       free_memory := free_memory l +w size;
       allocation_successes := allocation_successes l;
       allocation_failures := allocation_failures l;
       allocation_region := allocation_region l;
       deallocation_successes := deallocation_successes l +w 1;
       deallocation_failures := deallocation_failures l;
       deallocation_region := mem_region;
       peak_memory_usage := peak_memory_usage l;
       memory_regions := memory_regions l |}
  else
    {| total_memory := total_memory l; used_memory := used_memory l;
       free_memory := free_memory l;
       allocation_successes := allocation_successes l;
       allocation_failures := allocation_failures l;
       allocation_region := allocation_region l;
       deallocation_successes := deallocation_successes l;
       deallocation_failures := deallocation_failures l +w 1;
       deallocation_region := deallocation_region l;
       peak_memory_usage := peak_memory_usage l;
       memory_regions := memory_regions l |}.

(** ** Histories of calls *)

Inductive event :=
| Alloc (r : MemoryRegion) (size : Z) (success : bool)
| Dealloc (r : MemoryRegion) (size : Z) (success : bool).

Definition apply_event (l : MemoryLogger) (e : event) : MemoryLogger :=
  match e with
  | Alloc r size success => log_allocation r size success l
  | Dealloc r size success => log_deallocation r size success l
  end.

Definition run (l : MemoryLogger) (es : list event) : MemoryLogger :=
  fold_left apply_event es l.

(** The usage a history amounts to, on unbounded integers. *)
Definition delta (e : event) : Z :=
  match e with
  | Alloc _ size true => size
  | Dealloc _ size true => - size
  | _ => 0
  end.

(** The usage after each prefix of a history that starts at [u]. *)
Fixpoint usages (u : Z) (es : list event) : list Z :=
  match es with
  | [] => []
  | e :: es' => (u + delta e) :: usages (u + delta e) es'
  end.

(** No size is negative and no prefix of the history takes the usage below 0
    or above the total. *)
Fixpoint within (total u : Z) (es : list event) : Prop :=
  match es with
  | [] => True
  | e :: es' =>
      match e with Alloc _ size _ | Dealloc _ size _ => 0 <= size end /\
      0 <= u + delta e <= total /\ within total (u + delta e) es'
  end.

(** ** Lemmas *)

Lemma apply_event_balance l e :
  wrap64 (free_memory (apply_event l e) + used_memory (apply_event l e)) =
  wrap64 (free_memory l + used_memory l).
Proof.
  destruct e as [r size []|r size []]; simpl; try done.
  - apply wrap64_add_sub.
  - rewrite Z.add_comm, wrap64_add_sub. f_equal. lia.
Qed.

Lemma run_balance l es :
  wrap64 (free_memory (run l es) + used_memory (run l es)) =
  wrap64 (free_memory l + used_memory l).
Proof.
  revert l. induction es as [|e es IH]; intros l; [done|].
  unfold run in *. simpl. rewrite IH. apply apply_event_balance.
Qed.

Lemma apply_event_exact l e total u :
  used_memory l = u -> free_memory l = total - u -> 0 <= u <= total ->
  total < 2 ^ 64 -> u <= peak_memory_usage l ->
  within total u [e] ->
  used_memory (apply_event l e) = u + delta e /\
  free_memory (apply_event l e) = total - (u + delta e) /\
  peak_memory_usage (apply_event l e) = Z.max (peak_memory_usage l) (u + delta e).
Proof.
  intros Hu Hf Hut Ht Hp (Hs & Hb & _).
  destruct e as [r size []|r size []]; simpl in *; rewrite ?Hu, ?Hf.
  all: rewrite ?wrap64_small by (unfold is_u64; lia).
  all: repeat case_decide; lia.
Qed.

Lemma run_exact es : forall l total u,
  used_memory l = u -> free_memory l = total - u -> 0 <= u <= total ->
  total < 2 ^ 64 -> u <= peak_memory_usage l ->
  within total u es ->
  used_memory (run l es) = foldl Z.add u (delta <$> es) /\
  free_memory (run l es) = total - used_memory (run l es) /\
  peak_memory_usage (run l es) =
    foldl Z.max (peak_memory_usage l) (usages u es).
Proof.
  induction es as [|e es IH]; intros l total u Hu Hf Hut Ht Hp Hw;
    [simpl; naive_solver lia|].
  destruct Hw as (Hs & Hb & Hw).
  destruct (apply_event_exact l e total u) as (Hu' & Hf' & Hp');
    [done..|simpl; tauto|].
  destruct (IH (apply_event l e) total (u + delta e)) as (H1 & H2 & H3);
    [done..|lia|done|].
  simpl. rewrite H1, Hp' in *. unfold run in *. simpl. auto.
Qed.

End Logger.

(** ** Properties *)

(** The logger's accounts.  After [setTotalMemory] on a new logger, for
    every history of logged allocations and deallocations that stays between 0
    and the total, [used_memory] is the balance of the successful calls,
    [free_memory] is the rest of the total, and [peak_memory_usage] is the
    highest usage any prefix of the history reached. *)
Lemma logger_accounts (total : Z) (es : list Logger.event)
    (Htotal : 0 <= total < 2 ^ 64) (Hwithin : Logger.within total 0 es) :
  let l := Logger.run (Logger.setTotalMemory total Logger.new) es in
  used_memory l = foldl Z.add 0 (Logger.delta <$> es) /\
  free_memory l = total - used_memory l /\
  peak_memory_usage l = foldl Z.max 0 (Logger.usages 0 es).
Proof.
  apply (Logger.run_exact es (Logger.setTotalMemory total Logger.new) total 0); cbn; lia || done.
Qed.

(** Whatever happens, wrap-around included, no call changes the sum of the
    free and the used memory: an allocation logged before [setTotalMemory]
    (those of [init_heap]) stays in that sum for good. *)
Lemma logger_balance (before after : list Logger.event) (total : Z) :
  let l0 := Logger.run Logger.new before in
  let l := Logger.run (Logger.setTotalMemory total l0) after in
  wrap64 (free_memory l + used_memory l) = wrap64 (total + used_memory l0).
Proof. intros l0 l. unfold l. by rewrite Logger.run_balance. Qed.

Lemma logger_accounts_witness :
  let r := mkMemoryRegion 0x1000 0x2000 in
  let l := Logger.run (Logger.setTotalMemory 0x10000 Logger.new)
    [Logger.Alloc r 4096 true; Logger.Alloc r 4096 true; Logger.Dealloc r 4096 true] in
  used_memory l = 4096 /\ free_memory l = 0x10000 - used_memory l /\ peak_memory_usage l = 8192.
Proof.
  apply (logger_accounts 0x10000); [done|]. repeat split; discriminate.
Defined.
