(* ===== verification/Heap.v ===== *)
(** * What a heap is

    [core::alloc::Layout] as the allocators use it, [align_up]
    (kernel/src/mem/allocator.rs), the interface of [GlobalAlloc] the three
    allocators implement, and the clients that use it correctly.  A null
    pointer is [None]; the lock around an allocator is held for the whole of
    each call. *)
From S2P Require Import Prelude.

(** [Layout]: [align] is a power of two. *)
Record Layout := mkLayout {
  size : Z;
  align : Z;
}.

#[export] Instance Layout_eq_dec : EqDecision Layout.
Proof. solve_decision. Defined.

(** The layouts [GlobalAlloc::alloc] may be called with: [from_size_align]
    accepts them (the size, rounded up to the alignment, fits in [isize]) and
    the size is not zero. *)
Definition layout_ok (l : Layout) : Prop :=
  (exists k : nat, align l = 2 ^ Z.of_nat k) /\ 0 < size l /\ size l + align l <= 2 ^ 63.

(** [!x] on usize. *)
Definition not64 (x : Z) : Z := Z.land (Z.lnot x) (Z.ones 64).

(** [align_up] *)
Definition align_up (addr align : Z) : Z :=
  Z.land (addr +w align -w 1) (not64 (align -w 1)).

(** A block of memory in use: where it starts and the layout it was given for. *)
Abbreviation block := (Z * Layout)%type.

Definition block_end (b : block) : Z := b.1 + size b.2.

Definition disjoint_blocks (b1 b2 : block) : Prop :=
  block_end b1 <= b2.1 \/ block_end b2 <= b1.1.

#[export] Instance disjoint_blocks_dec b1 b2 : Decision (disjoint_blocks b1 b2).
Proof. unfold disjoint_blocks. apply _. Defined.

(** Pairwise disjoint blocks. *)
Fixpoint apart_blocks (bs : list block) : Prop :=
  match bs with
  | [] => True
  | b :: bs => Forall (disjoint_blocks b) bs /\ apart_blocks bs
  end.

(** Blocks inside [lo, hi), aligned, and pairwise disjoint. *)
Record placed (lo hi : Z) (bs : list block) : Prop := {
  placed_range : Forall (fun b => lo <= b.1 /\ block_end b <= hi) bs;
  placed_aligned : Forall (fun b => b.1 mod align b.2 = 0) bs;
  placed_apart : apart_blocks bs;
}.

(** ** The interface *)

(** [GlobalAlloc] *)
Class HeapAllocator (A : Type) := {
  heap_alloc : Layout -> A -> outcome (option Z * A);
  heap_dealloc : Z -> Layout -> A -> outcome A;
}.

(** Its contract: [heap_inv a live] says that [live] are the blocks in the hands
    of the heap's users. *)
Class HeapAllocatorLaws (A : Type) `{HeapAllocator A} (lo hi : Z) := {
  heap_inv : A -> list block -> Prop;
  heap_inv_placed a live : heap_inv a live -> placed lo hi live;
  heap_inv_alloc l a live p a' :
    layout_ok l -> heap_inv a live -> heap_alloc l a = Done (p, a') ->
    heap_inv a' (match p with Some p => (p, l) :: live | None => live end);
  heap_inv_dealloc p l a live live' a' :
    live ≡ₚ (p, l) :: live' -> heap_inv a live -> heap_dealloc p l a = Done a' ->
    heap_inv a' live';
}.

(** A client asks for blocks and returns blocks it holds, with the layout they
    were given for; [live] are the blocks it holds. *)
Inductive heap_call := Request (l : Layout) | Return (i : nat).

Fixpoint client {A} `{HeapAllocator A} (calls : list heap_call) (live : list block) (a : A) :
    outcome (list block * A) :=
  match calls with
  | [] => Done (live, a)
  | Request l :: calls =>
      '(p, a) ← heap_alloc l a;
      client calls (match p with Some p => (p, l) :: live | None => live end) a
  | Return i :: calls =>
      match live !! i with
      | Some (p, l) => a ← heap_dealloc p l a; client calls (delete i live) a
      | None => client calls live a
      end
  end.

Definition call_ok (c : heap_call) : Prop :=
  match c with
  | Request l => layout_ok l
  | Return _ => True
  end.

(** ** Lemmas *)

Lemma request_ok (k : nat) s :
  0 < s -> s + 2 ^ Z.of_nat k <= 2 ^ 63 -> call_ok (Request (mkLayout s (2 ^ Z.of_nat k))).
Proof. intros. split; [by exists k|done]. Qed.

Lemma land_not64 x k :
  0 <= x < 2 ^ 64 -> 0 <= k -> Z.land x (not64 (2 ^ k - 1)) = x - x mod 2 ^ k.
Proof.
  intros Hx Hk. unfold not64. rewrite (Z.land_comm (Z.lnot _)), Z.land_assoc.
  rewrite Z.land_ones, Z.mod_small by lia.
  replace (Z.land x (Z.lnot (2 ^ k - 1))) with (Z.ldiff x (Z.ones k)).
  - rewrite Z.ldiff_ones_r, Z.shiftl_mul_pow2, Z.shiftr_div_pow2 by lia.
    pose proof (Z.div_mod x (2 ^ k) ltac:(lia)). lia.
  - rewrite Z.ones_equiv, <-Z.sub_1_r. apply Z.bits_inj'. intros n Hn.
    by rewrite Z.ldiff_spec, Z.land_spec, Z.lnot_spec.
Qed.

(** [align_up] is the least multiple of the alignment that is not below the
    address, as long as rounding up does not wrap. *)
Lemma align_up_spec addr al :
  (exists k : nat, al = 2 ^ Z.of_nat k) -> 0 <= addr -> addr + al <= 2 ^ 64 ->
  align_up addr al mod al = 0 /\ addr <= align_up addr al < addr + al.
Proof.
  intros [k ->] Ha Hb. pose proof (Z.pow_pos_nonneg 2 (Z.of_nat k)) as Hp.
  unfold align_up. set (p := 2 ^ Z.of_nat k) in *.
  assert (Hx : addr +w p -w 1 = addr + p - 1).
  { destruct (decide (addr + p < 2 ^ 64)).
    - rewrite (wrap64_small (addr + p)), wrap64_small; unfold is_u64; lia.
    - replace (addr + p) with (2 ^ 64) by lia. reflexivity. }
  rewrite Hx, wrap64_small by (unfold is_u64; lia).
  unfold p. rewrite land_not64 by lia. fold p. split.
  - replace (addr + p - 1 - (addr + p - 1) mod p) with ((addr + p - 1) / p * p)
      by (pose proof (Z.div_mod (addr + p - 1) p ltac:(lia)); lia).
    apply Z.mod_mul. lia.
  - pose proof (Z.mod_pos_bound (addr + p - 1) p ltac:(lia)). lia.
Qed.

Lemma disjoint_blocks_sym b1 b2 : disjoint_blocks b1 b2 -> disjoint_blocks b2 b1.
Proof. unfold disjoint_blocks. tauto. Qed.

#[export] Instance apart_blocks_proper : Proper ((≡ₚ) ==> iff) apart_blocks.
Proof.
  intros bs1 bs2 Hp. induction Hp as [|b bs1 bs2 Hp IH|b b' bs|bs1 bs2 bs3 _ IH1 _ IH2]; simpl.
  - done.
  - by rewrite IH, Hp.
  - rewrite !Forall_cons. pose proof (disjoint_blocks_sym b b').
    pose proof (disjoint_blocks_sym b' b). tauto.
  - by rewrite IH1.
Qed.

Lemma apart_blocks_lookup bs i j b1 b2 :
  apart_blocks bs -> bs !! i = Some b1 -> bs !! j = Some b2 -> i ≠ j -> disjoint_blocks b1 b2.
Proof.
  revert i j. induction bs as [|b bs IH]; intros i j Hd Hi Hj Hij; [done|]. destruct Hd as [Hb Hd].
  rewrite Forall_lookup in Hb. destruct i as [|i], j as [|j]; simplify_eq/=; [by eapply Hb| |].
  - by apply disjoint_blocks_sym; eapply Hb.
  - eapply IH; [done..|]. congruence.
Qed.

#[export] Instance placed_proper lo hi : Proper ((≡ₚ) ==> iff) (placed lo hi).
Proof.
  intros bs1 bs2 Hp. split; intros [Hr Ha Hd]; constructor; by (rewrite Hp || rewrite <-Hp).
Qed.

Lemma placed_cons lo hi b bs :
  placed lo hi (b :: bs) <->
  (lo <= b.1 /\ block_end b <= hi) /\ b.1 mod align b.2 = 0 /\
  Forall (disjoint_blocks b) bs /\ placed lo hi bs.
Proof.
  split.
  - intros [[? ?]%Forall_cons [? ?]%Forall_cons [? ?]].
    split; [done|]. split; [done|]. split; [done|]. by constructor.
  - intros (? & ? & ? & [? ? ?]). constructor; [by constructor..|done].
Qed.

Lemma placed_app_r lo hi bs1 bs2 : placed lo hi (bs1 ++ bs2) -> placed lo hi bs2.
Proof.
  induction bs1 as [|b bs1 IH]; [done|]. simpl. intros Hp. apply placed_cons in Hp as (_ & _ & _ & Hp). auto.
Qed.

Lemma placed_nil lo hi : placed lo hi [].
Proof. by constructor. Qed.

Lemma placed_weaken lo hi lo' hi' bs :
  lo' <= lo -> hi <= hi' -> placed lo hi bs -> placed lo' hi' bs.
Proof.
  intros Hlo Hhi [Hr Ha Hd]. constructor; try done. eapply Forall_impl; [exact Hr|]. intros b. cbn. lia.
Qed.

(** A block above all the others can be added. *)
Lemma placed_above lo hi hi' b bs :
  placed lo hi bs -> lo <= hi -> hi <= b.1 -> block_end b <= hi' -> 0 <= size b.2 ->
  b.1 mod align b.2 = 0 -> placed lo hi' (b :: bs).
Proof.
  intros Hp Hlh Hb He Hs Ha. apply placed_cons. unfold block_end in *.
  split; [lia|]. split; [done|]. split.
  - destruct Hp as [Hr _ _]. eapply Forall_impl; [exact Hr|]. simpl. intros b' [_ Hb'].
    right. unfold block_end in *. lia.
  - apply (placed_weaken lo hi); [lia|lia|done].
Qed.

(** A block inside another one. *)
Definition inside (b' b : block) : Prop := b.1 <= b'.1 /\ block_end b' <= block_end b.

Lemma disjoint_inside b b' x : disjoint_blocks b x -> inside b' b -> disjoint_blocks b' x.
Proof. unfold disjoint_blocks, inside. lia. Qed.

(** A placed block may be replaced by an aligned block inside it. *)
Lemma placed_inside lo hi b b' bs :
  placed lo hi (b :: bs) -> inside b' b -> b'.1 mod align b'.2 = 0 -> placed lo hi (b' :: bs).
Proof.
  rewrite !placed_cons. intros ([? ?] & _ & Hd & Hp) Hin Ha. pose proof Hin as [? ?].
  split; [lia|]. split; [done|]. split; [|done].
  eapply Forall_impl; [exact Hd|]. intros x Hx. by eapply disjoint_inside.
Qed.

(** A placed block may be split. *)
Lemma placed_split lo hi b b1 b2 bs :
  placed lo hi (b :: bs) -> inside b1 b -> inside b2 b -> disjoint_blocks b1 b2 ->
  b1.1 mod align b1.2 = 0 -> b2.1 mod align b2.2 = 0 -> placed lo hi (b1 :: b2 :: bs).
Proof.
  intros Hp Hi1 Hi2 Hd Ha1 Ha2. apply (placed_inside _ _ _ b1) in Hp as Hp1; [|done..].
  apply (placed_inside _ _ _ b2) in Hp as Hp2; [|done..].
  apply placed_cons in Hp1 as (Hr & _ & Hf & _). apply placed_cons.
  split; [done|]. split; [done|]. split; [by constructor|done].
Qed.

Lemma placed_submseteq lo hi bs1 bs2 : bs1 ⊆+ bs2 -> placed lo hi bs2 -> placed lo hi bs1.
Proof.
  intros Hs Hp. apply submseteq_Permutation in Hs as [bs Heq]. rewrite Heq, Permutation_app_comm in Hp.
  by apply placed_app_r in Hp.
Qed.

(** Blocks whose rooms are placed are placed. *)
Lemma placed_rooms (room : block -> block) lo hi live :
  (forall b, layout_ok b.2 -> inside b (room b) /\
    ((room b).1 mod align (room b).2 = 0 -> b.1 mod align b.2 = 0)) ->
  Forall (fun b => layout_ok b.2) live -> placed lo hi (room <$> live) -> placed lo hi live.
Proof.
  intros Hroom Hl. induction Hl as [|b live Hb Hl IH]; [intros; apply placed_nil|].
  cbn. rewrite !placed_cons. intros (Hr & Ha & Hd & Hp).
  destruct (Hroom b Hb) as [Hin Hal]. pose proof Hin as [Hi1 Hi2].
  split; [lia|]. split; [auto|]. split; [|auto].
  rewrite Forall_fmap in Hd. rewrite Forall_forall in Hd, Hl. apply Forall_forall.
  intros x Hx. apply (disjoint_inside (room b)); [|done]. apply disjoint_blocks_sym.
  apply (disjoint_inside (room x)); [by apply disjoint_blocks_sym, Hd|].
  apply Hroom. by apply Hl.
Qed.

(** Blocks that are not empty have distinct addresses, so there are at most as
    many as the range has bytes. *)
Lemma placed_length lo hi bs :
  lo <= hi -> placed lo hi bs -> Forall (fun b => 0 < size b.2) bs ->
  Z.of_nat (length bs) <= hi - lo.
Proof.
  intros Hle [Hr _ Hd] Hs.
  assert (Hin : forall x, x ∈ bs.*1 -> x ∈ seqZ lo (hi - lo)).
  { intros x Hx. apply list_elem_of_fmap in Hx as (b & -> & Hb).
    rewrite Forall_forall in Hr, Hs. specialize (Hr b Hb). specialize (Hs b Hb).
    apply elem_of_seqZ. unfold block_end in Hr. simpl in *. lia. }
  assert (Hnd : NoDup bs.*1).
  { clear Hin Hr. induction bs as [|b bs IH]; [apply NoDup_nil_2|]. destruct Hd as [Hb Hd].
    apply Forall_cons in Hs as [Hsb Hs]. simpl. constructor; [|auto].
    intros Hx. apply list_elem_of_fmap in Hx as (b' & Heq & Hb').
    rewrite Forall_forall in Hb, Hs. specialize (Hb b' Hb'). specialize (Hs b' Hb').
    unfold disjoint_blocks, block_end in Hb. simpl in *. lia. }
  pose proof (submseteq_length _ _ (NoDup_submseteq _ _ Hnd Hin)) as Hl.
  rewrite length_fmap, length_seqZ in Hl. lia.
Qed.

Lemma delete_split {X} (l : list X) i x : l !! i = Some x -> l ≡ₚ x :: delete i l.
Proof. apply delete_Permutation. Qed.

(** An invariant of an allocator and the blocks of its client holds after
    every correct use. *)
Lemma client_inv {A} `{HeapAllocator A} (I : A -> list block -> Prop) :
  (forall l a live p a', layout_ok l -> I a live -> heap_alloc l a = Done (p, a') ->
    I a' (match p with Some p => (p, l) :: live | None => live end)) ->
  (forall i p l a live a', live !! i = Some (p, l) -> I a live ->
    heap_dealloc p l a = Done a' -> I a' (delete i live)) ->
  forall calls live a live' a', Forall call_ok calls -> I a live ->
    client calls live a = Done (live', a') -> I a' live'.
Proof.
  intros Halloc Hdealloc calls. induction calls as [|[l|i] calls IH]; intros live a live' a' Hok HI Hrun.
  - simpl in Hrun. by simplify_eq.
  - apply Forall_cons in Hok as [Hl Hok]. simpl in Hrun. bind_Done Hrun. destruct r as [p a1].
    eapply IH; [done| |done]. by eapply Halloc.
  - apply Forall_cons in Hok as [_ Hok]. simpl in Hrun.
    destruct (live !! i) as [[p l]|] eqn:Hi; [|by eapply IH].
    bind_Done Hrun. eapply IH; [done| |done]. by eapply Hdealloc.
Qed.

(** A client of a heap that keeps its contract keeps the invariant. *)
Lemma client_heap_inv `{HeapAllocatorLaws A lo hi} calls live a live' a' :
  Forall call_ok calls -> heap_inv a live ->
  client calls live a = Done (live', a') -> heap_inv a' live'.
Proof.
  apply client_inv.
  - intros. by eapply heap_inv_alloc.
  - intros i p l a1 live1 a2 Hi Hinv Hd.
    eapply heap_inv_dealloc; [|exact Hinv|exact Hd]. by apply delete_split.
Qed.
