(* ===== verification/Bump.v ===== *)
(** * The bump allocator (kernel/src/mem/allocator/bump.rs)

    Allocations move a pointer up; the pointer returns to the start of the
    heap when no allocation is left. *)
From S2P Require Import Prelude Heap.

Module Bump.

(** [BumpAllocator] *)
Record BumpAllocator := mkBumpAllocator {
  heap_start : Z;
  heap_end : Z;
  next_free : Z;
  allocation_count : Z;
}.

(** [BumpAllocator::new] and [BumpAllocator::init] *)
Definition new : BumpAllocator := mkBumpAllocator 0 0 0 0.

Definition init (start heap_size : Z) (bump : BumpAllocator) : BumpAllocator :=
  mkBumpAllocator start (saturating_add start heap_size) start (allocation_count bump).

(** [alloc] *)
Definition alloc (layout : Layout) (bump : BumpAllocator) : option Z * BumpAllocator :=
  let alloc_start := align_up (next_free bump) (align layout) in
  match checked_add alloc_start (size layout) with
  | None => (None, bump)
  | Some alloc_end =>
      if decide (alloc_end > heap_end bump) then (None, bump)
      else (Some alloc_start,
            mkBumpAllocator (heap_start bump) (heap_end bump) alloc_end
              (allocation_count bump +w 1))
  end.

(** [dealloc] *)
Definition dealloc (_ptr : Z) (_layout : Layout) (bump : BumpAllocator) : BumpAllocator :=
  let count := allocation_count bump -w 1 in
  mkBumpAllocator (heap_start bump) (heap_end bump)
    (if decide (count = 0) then heap_start bump else next_free bump) count.

End Bump.

#[export] Instance bump_heap : HeapAllocator Bump.BumpAllocator := {|
  heap_alloc l bump := Done (Bump.alloc l bump);
  heap_dealloc p l bump := Done (Bump.dealloc p l bump);
|}.

(** The pointer lies above all the live blocks, which are counted; the heap
    ends low enough for the arithmetic on addresses not to wrap. *)
Record bump_inv (lo hi : Z) (bump : Bump.BumpAllocator) (live : list block) : Prop := {
  bi_start : Bump.heap_start bump = lo;
  bi_end : Bump.heap_end bump = hi;
  bi_next : lo <= Bump.next_free bump <= hi;
  bi_count : Bump.allocation_count bump = Z.of_nat (length live);
  bi_placed : placed lo (Bump.next_free bump) live;
  bi_sizes : Forall (fun b => 0 < size b.2) live;
}.

Section Invariant.
Context (lo hi : Z) (Hlo : 0 <= lo) (Hhi : hi <= 2 ^ 63).

Lemma bump_live_bound bump live :
  bump_inv lo hi bump live -> Z.of_nat (length live) <= 2 ^ 63.
Proof. intros [_ _ H3 _ H5 H6]. apply placed_length in H5; [|lia|done]. lia. Qed.

Lemma bump_alloc_inv l bump live p bump' :
  layout_ok l -> bump_inv lo hi bump live -> Bump.alloc l bump = (p, bump') ->
  bump_inv lo hi bump' (match p with Some p => (p, l) :: live | None => live end).
Proof.
  intros (Hal & Hs & Hls) Hinv Ha. pose proof (bump_live_bound _ _ Hinv) as Hlen.
  destruct Hinv as [H1 H2 H3 H4 H5 H6]. unfold Bump.alloc in Ha.
  destruct (align_up_spec (Bump.next_free bump) (align l)) as [Hm Hr]; [done|lia|lia|].
  set (start := align_up _ _) in *. unfold checked_add in Ha.
  repeat case_decide; simplify_eq; try by constructor.
  constructor; cbn; try done; try lia.
  - rewrite H4, wrap64_small by (unfold is_u64; lia). lia.
  - eapply placed_above; unfold block_end; cbn; try done; lia.
  - by constructor.
Qed.

Lemma bump_dealloc_inv p l bump live live' :
  live ≡ₚ (p, l) :: live' -> bump_inv lo hi bump live ->
  bump_inv lo hi (Bump.dealloc p l bump) live'.
Proof.
  intros Hperm Hinv. pose proof (bump_live_bound _ _ Hinv) as Hlen.
  destruct Hinv as [H1 H2 H3 H4 H5 H6]. rewrite Hperm in H4, H5, H6, Hlen. simpl in H4, Hlen.
  assert (Hc : Bump.allocation_count bump -w 1 = Z.of_nat (length live')).
  { rewrite H4, wrap64_small by (unfold is_u64; lia). lia. }
  apply placed_cons in H5 as (_ & _ & _ & H5). apply Forall_cons in H6 as [_ H6].
  constructor; cbn; rewrite ?Hc; try done.
  - case_decide; lia.
  - case_decide as Hz; [|done]. destruct live'; [apply placed_nil|simpl in Hz; lia].
Qed.

(** The allocator keeps the contract of a heap. *)
Program Definition bump_laws : HeapAllocatorLaws Bump.BumpAllocator lo hi := {|
  heap_inv := bump_inv lo hi;
|}.
Next Obligation.
  intros bump live [_ _ Hn _ Hp _]. by apply (placed_weaken lo (Bump.next_free bump)); [lia|lia|].
Qed.
Next Obligation.
  intros l bump live p bump' Hl Hi [= Ha]. destruct (Bump.alloc l bump) eqn:E. simplify_eq.
  by eapply bump_alloc_inv.
Qed.
Next Obligation. intros p l bump live live' bump' Hp Hi [= <-]. by eapply bump_dealloc_inv. Qed.
End Invariant.

(** ** Properties *)

(** The bump allocator is a heap.  From [init], whatever a correct client
    asks for and returns, the blocks it holds are aligned, inside the heap and
    pairwise disjoint; and once it holds none, the whole heap is available
    again. *)
Lemma bump_safe (start heap_size : Z) (calls : list heap_call) (live : list block)
    (bump : Bump.BumpAllocator)
    (Hstart : 0 <= start) (Hsize : 0 <= heap_size) (Hend : start + heap_size <= 2 ^ 63)
    (Hcalls : Forall call_ok calls)
    (Hrun : client calls [] (Bump.init start heap_size Bump.new) = Done (live, bump)) :
  placed start (start + heap_size) live /\
  Bump.allocation_count bump = Z.of_nat (length live) /\
  (forall i p l, live !! i = Some (p, l) -> delete i live = [] ->
    Bump.next_free (Bump.dealloc p l bump) = start).
Proof.
  pose (bump_laws start (start + heap_size) Hstart Hend) as laws.
  assert (Hinv : bump_inv start (start + heap_size) bump live).
  { refine (client_heap_inv (H0 := laws) calls [] _ live bump Hcalls _ Hrun).
    constructor; cbn; try done; try lia; try apply placed_nil.
    all: unfold saturating_add; lia. }
  split; [|split].
  - destruct Hinv as [_ _ H3 _ H5 _]. by apply (placed_weaken start (Bump.next_free bump)); [lia|lia|].
  - apply Hinv.
  - intros i p l Hi Hd. pose proof (bump_dealloc_inv _ _ Hstart Hend _ _ _ _ _ (delete_split _ _ _ Hi) Hinv)
      as [H1 _ _ H4 _ _].
    rewrite Hd in H4. cbn in H4, H1 |- *. by rewrite H4, decide_True, (bi_start _ _ _ _ Hinv).
Qed.

(** Three blocks in a heap of 4096 bytes, the second returned. *)
Definition bump_calls : list heap_call :=
  [Request (mkLayout 10 1); Request (mkLayout 16 8); Request (mkLayout 100 64); Return 1].

Lemma bump_safe_witness :
  let live := [(0x444444440040, mkLayout 100 64); (0x444444440000, mkLayout 10 1)] in
  exists bump, client bump_calls [] (Bump.init 0x444444440000 4096 Bump.new) = Done (live, bump) /\
    placed 0x444444440000 0x444444441000 live /\
    Bump.allocation_count bump = 2 /\
    (forall i p l, live !! i = Some (p, l) -> delete i live = [] ->
      Bump.next_free (Bump.dealloc p l bump) = 0x444444440000).
Proof.
  eexists. split; [vm_compute; reflexivity|].
  apply (bump_safe 0x444444440000 4096 bump_calls); try done; try lia.
  constructor; [by apply (request_ok 0)|]. constructor; [by apply (request_ok 3)|].
  constructor; [by apply (request_ok 6)|]. by repeat constructor.
Defined.
