(* ===== verification/LinkedList.v ===== *)
(** * The linked-list allocator (kernel/src/mem/allocator/linked_list.rs)

    A chain of free blocks.  The chain is owned by the allocator (each node is
    the only reference to the next), so it is a list of addresses and sizes. *)
From S2P Require Import Prelude Heap.

Module LinkedList.

(** [mem::size_of::<ListNode>()] and [mem::align_of::<ListNode>()] on x86_64. *)
Definition NODE_SIZE : Z := 16.
Definition NODE_ALIGN : Z := 8.

(** [ListNode]: its address and [block_size]. *)
Definition ListNode : Type := Z * Z.
Definition start_address (n : ListNode) : Z := n.1.
Definition end_address (n : ListNode) : Z := n.1 +w n.2.

(** [LinkedListAllocator]: the nodes behind [head_node]. *)
Definition LinkedListAllocator : Type := list ListNode.

(** [add_free_block]: the new node has no successor and replaces whatever
    [head_node.next_node] was. *)
Definition add_free_block (address size : Z) (_self : LinkedListAllocator) :
    outcome LinkedListAllocator :=
  if decide (align_up address NODE_ALIGN ≠ address) then Panic
  else if decide (size < NODE_SIZE) then Panic
  else Done [(address, size)].

(** [new] and [initialize] *)
Definition new : LinkedListAllocator := [].
Definition initialize (heap_start heap_size : Z) (self : LinkedListAllocator) :
    outcome LinkedListAllocator := add_free_block heap_start heap_size self.

(** [allocate_from_block] *)
Definition allocate_from_block (block : ListNode) (size align : Z) : result Z unit :=
  let aligned_start := align_up (start_address block) align in
  match checked_add aligned_start size with
  | None => Err tt
  | Some aligned_end =>
      if decide (aligned_end > end_address block) then Err tt
      else
        let remaining_size := end_address block -w aligned_end in
        if decide (remaining_size > 0 /\ remaining_size < NODE_SIZE) then Err tt
        else Ok aligned_start
  end.

(** [find_suitable_block]: the first node that fits, its allocation, and the
    chain without it. *)
Fixpoint find_suitable_block (size align : Z) (nodes : list ListNode) :
    option (ListNode * Z) * list ListNode :=
  match nodes with
  | [] => (None, [])
  | region :: next =>
      match allocate_from_block region size align with
      | Ok alloc_start => (Some (region, alloc_start), next)
      | Err _ =>
          let '(found, next) := find_suitable_block size align next in
          (found, region :: next)
      end
  end.

(** [adjust_layout]: [Layout::align_to], which fails when the size rounded up
    does not fit in [isize], then [pad_to_align]. *)
Definition adjust_layout (layout : Layout) : outcome (Z * Z) :=
  let al := Z.max (align layout) NODE_ALIGN in
  if decide (size layout > 2 ^ 63 - al) then Panic
  else Done (Z.max (align_up (size layout) al) NODE_SIZE, al).

(** [alloc] *)
Definition alloc (layout : Layout) (self : LinkedListAllocator) :
    outcome (option Z * LinkedListAllocator) :=
  '(required_size, alignment) ← adjust_layout layout;
  match find_suitable_block required_size alignment self with
  | (Some (block, start), allocator) =>
      match checked_add start required_size with
      | None => Panic
      | Some end_addr =>
          let remaining_size := end_address block -w end_addr in
          allocator ← (if decide (remaining_size > 0)
                       then add_free_block end_addr remaining_size allocator
                       else Done allocator);
          Done (Some start, allocator)
      end
  | (None, allocator) => Done (None, allocator)
  end.

(** [dealloc] *)
Definition dealloc (ptr : Z) (layout : Layout) (self : LinkedListAllocator) :
    outcome LinkedListAllocator :=
  '(required_size, _) ← adjust_layout layout;
  add_free_block ptr required_size self.

End LinkedList.

#[export] Instance linked_list_heap : HeapAllocator LinkedList.LinkedListAllocator := {|
  heap_alloc := LinkedList.alloc;
  heap_dealloc := LinkedList.dealloc;
|}.

(** ** Lemmas *)

Lemma find_suitable_block_spec req al nodes found rest :
  LinkedList.find_suitable_block req al nodes = (found, rest) ->
  match found with
  | Some (node, start) =>
      nodes ≡ₚ node :: rest /\ LinkedList.allocate_from_block node req al = Ok start
  | None => rest = nodes /\
      forall node, node ∈ nodes -> LinkedList.allocate_from_block node req al = Err tt
  end.
Proof.
  revert found rest. induction nodes as [|node nodes IH]; intros found rest Hf; simpl in Hf.
  - simplify_eq. split; [done|]. by intros ? ?%elem_of_nil.
  - destruct (LinkedList.allocate_from_block node req al) as [start|[]] eqn:Ha; [by simplify_eq|].
    destruct (LinkedList.find_suitable_block req al nodes) as [found' rest'] eqn:Hf'.
    simplify_eq. specialize (IH found rest' eq_refl). destruct found as [[node' start]|].
    + destruct IH as [Hp Ha']. split; [|done]. rewrite Hp. constructor.
    + destruct IH as [-> Hn]. split; [done|]. intros n [->|Hin]%elem_of_cons; auto.
Qed.

(** The room a block takes once its layout is adjusted. *)
Definition occupied (b : block) : block :=
  let al := Z.max (align b.2) LinkedList.NODE_ALIGN in
  (b.1, mkLayout (Z.max (align_up (size b.2) al) LinkedList.NODE_SIZE) al).

Definition free_block (n : LinkedList.ListNode) : block := (n.1, mkLayout n.2 LinkedList.NODE_ALIGN).

Lemma max_pow2 al : (exists k : nat, al = 2 ^ Z.of_nat k) ->
  exists k : nat, Z.max al 8 = 2 ^ Z.of_nat k /\ (3 <= k)%nat /\ Z.max al 8 mod al = 0.
Proof.
  intros [k ->]. destruct (decide (k <= 3)%nat).
  - exists 3%nat. assert (2 ^ Z.of_nat k <= 2 ^ 3) by (apply Z.pow_le_mono_r; lia).
    rewrite Z.max_r by lia. split; [done|]. split; [done|].
    change 8 with (2 ^ 3). replace 3 with ((3 - Z.of_nat k) + Z.of_nat k) by lia.
    rewrite Z.pow_add_r by lia. apply Z.mod_mul. lia.
  - exists k. assert (2 ^ 3 <= 2 ^ Z.of_nat k) by (apply Z.pow_le_mono_r; lia).
    rewrite Z.max_l by lia. split; [done|]. split; [lia|]. apply Z.mod_same. lia.
Qed.

Lemma mod_mod_divide a m n : m mod n = 0 -> a mod m = 0 -> 0 < n -> 0 < m -> a mod n = 0.
Proof.
  intros Hm Ha Hn Hmp. apply Z.mod_divide; [lia|]. apply Z.divide_trans with m; apply Z.mod_divide; lia || done.
Qed.

(** What [adjust_layout] makes of a layout. *)
Lemma adjust_layout_spec l req al :
  layout_ok l -> LinkedList.adjust_layout l = Done (req, al) ->
  (forall p, occupied (p, l) = (p, mkLayout req al)) /\
  size l <= req < 2 ^ 63 /\ LinkedList.NODE_SIZE <= req /\ req mod 8 = 0 /\
  al mod align l = 0 /\ al mod 8 = 0 /\ al <= 2 ^ 63 /\ exists k : nat, al = 2 ^ Z.of_nat k.
Proof.
  intros (Hal & Hs & Hls) Hadj. unfold LinkedList.adjust_layout in Hadj.
  destruct (decide _) as [|Hb] in Hadj; [done|]. injection Hadj as <- <-.
  split; [done|]. unfold LinkedList.NODE_ALIGN, LinkedList.NODE_SIZE in *.
  destruct (max_pow2 (align l) Hal) as (k & Hk & Hk3 & Hm).
  assert (Hpos : 0 < align l) by (destruct Hal as [j ->]; lia).
  set (al := Z.max (align l) 8) in *.
  assert (Hal8 : al mod 8 = 0).
  { rewrite Hk. replace (Z.of_nat k) with (Z.of_nat (k - 3) + 3) by lia.
    rewrite Z.pow_add_r by lia. apply Z.mod_mul. lia. }
  destruct (align_up_spec (size l) al) as [Hm' Hr]; [by exists k|lia|lia|].
  assert (H8 : align_up (size l) al mod 8 = 0) by (apply (mod_mod_divide _ al); done || lia).
  split; [lia|]. split; [lia|]. split; [by apply Z.max_case|]. split; [done|].
  split; [done|]. split; [lia|by exists k].
Qed.

(** The free blocks and the room of the live ones are pairwise disjoint. *)
Record ll_inv (lo hi : Z) (nodes : LinkedList.LinkedListAllocator) (live : list block) : Prop := {
  li_placed : placed lo hi ((free_block <$> nodes) ++ (occupied <$> live));
  li_nodes : Forall (fun n => LinkedList.NODE_SIZE <= n.2) nodes;
  li_layouts : Forall (fun b => layout_ok b.2) live;
}.

Section Invariant.
Context (lo hi : Z) (Hlo : 0 <= lo) (Hhi : hi <= 2 ^ 63).

(** What a successful [allocate_from_block] says. *)
Lemma allocate_from_block_spec node req al start bs :
  placed lo hi (free_block node :: bs) -> 0 <= node.2 -> 0 <= req < 2 ^ 63 ->
  (exists k : nat, al = 2 ^ Z.of_nat k) -> al <= 2 ^ 63 ->
  LinkedList.allocate_from_block node req al = Ok start ->
  start mod al = 0 /\ 0 <= node.1 <= start /\ start + req <= node.1 + node.2 <= hi /\
  LinkedList.end_address node = node.1 + node.2 /\
  (node.1 + node.2 = start + req \/ LinkedList.NODE_SIZE <= node.1 + node.2 - (start + req)).
Proof.
  intros Hp Hn Hreq Hal Hal63 Ha. apply placed_cons in Hp as ([Hb1 Hb2] & _ & _ & _).
  unfold block_end in Hb2. cbn in Hb1, Hb2. unfold LinkedList.allocate_from_block in Ha.
  unfold LinkedList.end_address, LinkedList.start_address, checked_add, LinkedList.NODE_SIZE in *.
  rewrite (wrap64_small (node.1 + node.2)) in * by (unfold is_u64; lia).
  destruct (align_up_spec node.1 al) as [Hm Hr]; [done|lia|lia|].
  set (s := align_up _ _) in *. case_decide as H1; [|done].
  case_decide as H2; [done|]. rewrite wrap64_small in Ha by (unfold is_u64; lia).
  case_decide as H3; [done|]. simplify_eq. split_and!; try done; lia.
Qed.

Lemma ll_alloc_inv l nodes live p nodes' :
  layout_ok l -> ll_inv lo hi nodes live -> LinkedList.alloc l nodes = Done (p, nodes') ->
  ll_inv lo hi nodes' (match p with Some p => (p, l) :: live | None => live end).
Proof.
  intros Hl Hinv Hrun. unfold LinkedList.alloc in Hrun. bind_Done Hrun.
  destruct r as [req al]. apply adjust_layout_spec in Hr as Hspec; [|done].
  destruct Hspec as (Hocc & Hsize & Hmin & H8 & Hdiv & Hal8 & Hal63 & Hpow).
  destruct Hinv as [Hp Hnodes Hlay].
  destruct (LinkedList.find_suitable_block req al nodes) as [[[node start]|] rest] eqn:Hf;
    apply find_suitable_block_spec in Hf.
  2: { destruct Hf as [-> _]. simplify_eq. by constructor. }
  destruct Hf as [Hperm Ha]. rewrite Hperm in Hp, Hnodes.
  apply Forall_cons in Hnodes as [Hnode Hrest]. cbn in Hp, Hnode.
  assert (0 <= node.2 /\ 0 <= req < 2 ^ 63) as [Hn0 Hreq0].
  { destruct Hl as (_ & ? & _). unfold LinkedList.NODE_SIZE in *. lia. }
  pose proof (allocate_from_block_spec _ _ _ _ _ Hp Hn0 Hreq0 Hpow Hal63 Ha)
    as (Hm & Hn1 & Hend & Hea & Hrem).
  unfold checked_add in Hrun. rewrite Hea in Hrun. case_decide; [|done].
  rewrite wrap64_small in Hrun by (unfold is_u64, LinkedList.NODE_SIZE in *; lia).
  assert (Hlay' : Forall (fun b => layout_ok b.2) ((start, l) :: live)) by by constructor.
  case_decide as Hr0.
  - bind_Done Hrun. simplify_eq. unfold LinkedList.add_free_block in Hr1.
    repeat case_decide; simplify_eq. constructor; [| |done].
    2: { constructor; [|constructor]. cbn. lia. }
    cbn [fmap list_fmap app]. rewrite Hocc.
    apply (placed_split _ _ (free_block node)).
    + refine (placed_submseteq _ _ _ _ _ Hp). apply submseteq_skip, submseteq_inserts_l. done.
    + unfold inside, block_end. cbn. lia.
    + unfold inside, block_end. cbn. lia.
    + unfold disjoint_blocks, block_end. cbn. lia.
    + cbn. unfold LinkedList.NODE_ALIGN.
      assert (start mod 8 = 0) by (apply (mod_mod_divide _ al); try done; destruct Hpow as [k ->]; lia).
      clear Hm. Z.div_mod_to_equations. lia.
    + done.
  - cbn in Hrun. simplify_eq. constructor; [|done|done].
    cbn [fmap list_fmap]. rewrite <-Permutation_middle, Hocc.
    apply (placed_inside _ _ (free_block node)); [done| |done].
    unfold inside, block_end. cbn. lia.
Qed.

Lemma ll_dealloc_inv i p l nodes live nodes' :
  live !! i = Some (p, l) -> ll_inv lo hi nodes live ->
  LinkedList.dealloc p l nodes = Done nodes' -> ll_inv lo hi nodes' (delete i live).
Proof.
  intros Hi [Hp Hnodes Hlay] Hrun. rewrite (delete_split _ _ _ Hi) in Hlay, Hp.
  apply Forall_cons in Hlay as [Hl Hlay]. unfold LinkedList.dealloc in Hrun. bind_Done Hrun.
  destruct r as [req al]. apply adjust_layout_spec in Hr as Hspec; [|done].
  destruct Hspec as (Hocc & Hsize & Hmin & H8 & Hdiv & Hal8 & Hal63 & Hpow).
  unfold LinkedList.add_free_block in Hrun. repeat case_decide; simplify_eq.
  constructor; [|by constructor|done].
  apply placed_app_r in Hp. cbn [fmap list_fmap app] in *. rewrite Hocc in Hp.
  refine (placed_inside _ _ _ (free_block (p, req)) _ Hp _ _).
  - unfold inside, block_end. cbn. lia.
  - cbn. unfold LinkedList.NODE_ALIGN. apply placed_cons in Hp as (_ & Hm & _).
    cbn in Hm. apply (mod_mod_divide _ al); try done. destruct Hpow as [k ->]. lia.
Qed.
End Invariant.

(** A block is inside the room taken for it, which is at least as aligned. *)
Lemma occupied_inside b :
  layout_ok b.2 ->
  inside b (occupied b) /\ ((occupied b).1 mod align (occupied b).2 = 0 -> b.1 mod align b.2 = 0).
Proof.
  destruct b as [p l]. intros (Hal & Hs & Hls). cbn in Hal, Hs, Hls.
  destruct (max_pow2 (align l) Hal) as (k & Hk & Hk3 & Hm).
  assert (Hpos : 0 < align l) by (destruct Hal as [j ->]; lia).
  destruct (align_up_spec (size l) (Z.max (align l) 8)) as [_ Hr]; [by exists k|lia|lia|].
  unfold inside, block_end, occupied, LinkedList.NODE_ALIGN. cbn. split; [lia|].
  intros Ha. apply (mod_mod_divide _ (Z.max (align l) 8)); try done; lia.
Qed.

Lemma placed_occupied lo hi live :
  Forall (fun b => layout_ok b.2) live -> placed lo hi (occupied <$> live) -> placed lo hi live.
Proof. apply placed_rooms. intros b Hb. by apply occupied_inside. Qed.

#[export] Instance ll_inv_proper lo hi nodes : Proper ((≡ₚ) ==> iff) (ll_inv lo hi nodes).
Proof.
  intros live1 live2 Hp. split; intros [Hpl Hn Hl]; constructor; try done; by rewrite Hp || by rewrite <-Hp.
Qed.

(** The allocator keeps the contract of a heap. *)
Program Definition linked_list_laws lo hi (Hlo : 0 <= lo) (Hhi : hi <= 2 ^ 63) :
    HeapAllocatorLaws LinkedList.LinkedListAllocator lo hi := {|
  heap_inv := ll_inv lo hi;
|}.
Next Obligation.
  intros lo hi _ _ nodes live [Hp _ Hl]. apply placed_occupied; [done|]. by apply placed_app_r in Hp.
Qed.
Next Obligation. intros. by eapply ll_alloc_inv. Qed.
Next Obligation.
  intros lo hi Hlo Hhi p l nodes live live' nodes' Hp Hi Hd. rewrite Hp in Hi.
  by apply (ll_dealloc_inv lo hi 0 p l nodes ((p, l) :: live') nodes').
Qed.

(** ** Properties *)

(** The linked-list allocator is a heap.  From [initialize], whatever a
    correct client asks for and returns, the blocks it holds are aligned,
    inside the heap and pairwise disjoint, and disjoint from the free chain. *)
Lemma linked_list_safe (start heap_size : Z) (calls : list heap_call) (live : list block)
    (nodes0 nodes : LinkedList.LinkedListAllocator)
    (Hstart : 0 <= start) (Hend : start + heap_size <= 2 ^ 63)
    (Hinit : LinkedList.initialize start heap_size LinkedList.new = Done nodes0)
    (Hcalls : Forall call_ok calls)
    (Hrun : client calls [] nodes0 = Done (live, nodes)) :
  placed start (start + heap_size) live /\
  placed start (start + heap_size) ((free_block <$> nodes) ++ (occupied <$> live)).
Proof.
  pose (linked_list_laws start (start + heap_size) Hstart Hend) as laws.
  assert (Hinv : ll_inv start (start + heap_size) nodes live).
  { refine (client_heap_inv (H0 := laws) calls [] nodes0 live nodes Hcalls _ Hrun).
    unfold LinkedList.initialize, LinkedList.add_free_block, LinkedList.NODE_SIZE in Hinit.
      destruct (decide (align_up start LinkedList.NODE_ALIGN ≠ start)) as [|Ha]; [done|].
      case_decide; [done|]. simplify_eq. apply dec_stable in Ha.
      destruct (align_up_spec start LinkedList.NODE_ALIGN) as [Hm _];
        [by exists 3%nat|done|unfold LinkedList.NODE_ALIGN; lia|].
      rewrite Ha in Hm. constructor; [|constructor; [|constructor]|constructor].
      + apply placed_cons. unfold block_end. cbn. split; [lia|]. split; [done|].
        split; [constructor|apply placed_nil].
      + cbn. unfold LinkedList.NODE_SIZE. lia. }
  destruct Hinv as [Hp _ Hl]. split; [|done].
  apply placed_occupied; [done|]. by apply placed_app_r in Hp.
Qed.

(** Returning a block forgets the others.  [add_free_block] overwrites the
    head of the chain, so that after a [dealloc], whatever was free before, a
    request that needs more room than the returned block is refused. *)
Lemma linked_list_forgets (ptr req al req' al' : Z) (l l' : Layout)
    (nodes nodes' : LinkedList.LinkedListAllocator)
    (Hl : layout_ok l) (Hl' : layout_ok l') (Hptr : 0 <= ptr) (Hend : ptr + req <= 2 ^ 63)
    (Hadj : LinkedList.adjust_layout l = Done (req, al))
    (Hadj' : LinkedList.adjust_layout l' = Done (req', al')) (Hmore : req < req')
    (Hdealloc : LinkedList.dealloc ptr l nodes = Done nodes') :
  LinkedList.alloc l' nodes' = Done (None, nodes').
Proof.
  unfold LinkedList.dealloc in Hdealloc. rewrite Hadj in Hdealloc. cbn in Hdealloc.
  unfold LinkedList.add_free_block in Hdealloc. repeat case_decide; simplify_eq.
  apply adjust_layout_spec in Hadj as (_ & Hs & _); [|done].
  apply adjust_layout_spec in Hadj' as Hspec'; [|done].
  destruct Hspec' as (_ & Hs' & _ & _ & _ & _ & Hal63 & Hpow).
  destruct Hl as (_ & Hpos & _).
  unfold LinkedList.alloc. rewrite Hadj'. cbn. unfold LinkedList.allocate_from_block. cbn.
  destruct (align_up_spec ptr al') as [_ Hr]; [done|done|lia|].
  unfold LinkedList.end_address, checked_add. cbn. rewrite wrap64_small by (unfold is_u64; lia).
  case_decide; [|done]. rewrite decide_True by lia. done.
Qed.

(** *** At concrete inputs *)

Definition list_calls : list heap_call :=
  [Request (mkLayout 24 8); Request (mkLayout 100 64)].

Lemma linked_list_safe_witness :
  let live := [(0x444444440040, mkLayout 100 64); (0x444444440000, mkLayout 24 8)] in
  exists nodes, client list_calls [] [(0x444444440000, 4096)] = Done (live, nodes) /\
    placed 0x444444440000 0x444444441000 live /\
    placed 0x444444440000 0x444444441000 ((free_block <$> nodes) ++ (occupied <$> live)).
Proof.
  eexists. split; [vm_compute; reflexivity|].
  apply (linked_list_safe 0x444444440000 4096 list_calls _ [(0x444444440000, 4096)]); try done.
  constructor; [by apply (request_ok 3)|]. constructor; [by apply (request_ok 6)|]. constructor.
Defined.

(** 3900 bytes are free when 24 bytes are returned; then 32 bytes are refused. *)
Lemma linked_list_forgets_witness :
  LinkedList.alloc (mkLayout 32 8) [(0x1000, 24)] = Done (None, [(0x1000, 24)]).
Proof.
  apply (linked_list_forgets 0x1000 24 8 32 8 (mkLayout 24 8) (mkLayout 32 8) [(0x2000, 3900)]); try done.
  - by apply (request_ok 3).
  - by apply (request_ok 3).
Defined.
