(* ===== verification/FixedBlock.v ===== *)
(** * The fixed-size block allocator (kernel/src/mem/allocator/fixed_size_block.rs)

    The global allocator of the kernel: nine stacks of free blocks, one per
    size class, in front of a fallback heap (the crate linked_list_allocator,
    a parameter).  A stack is the chain of nodes behind a list head. *)
From S2P Require Import Prelude Heap Bump.

(** What the allocator uses of [linked_list_allocator::Heap]. *)
Class FallbackHeap (H : Type) := {
  fb_empty : H;
  fb_init : Z -> Z -> H -> H;
  allocate_first_fit : Layout -> H -> option Z * H;
  fb_deallocate : Z -> Layout -> H -> H;
}.

(** Its contract: [fb_inv lo hi h bs] says that [bs] are the blocks in the
    hands of the heap's user. *)
Class FallbackHeapLaws (H : Type) `{FallbackHeap H} (lo hi : Z) := {
  fb_inv : H -> list block -> Prop;
  fb_placed h bs : fb_inv h bs -> placed lo hi bs;
  fb_allocate l h bs p h' :
    layout_ok l -> fb_inv h bs -> allocate_first_fit l h = (p, h') ->
    fb_inv h' (match p with Some p => (p, l) :: bs | None => bs end);
  fb_release p l h bs bs' :
    bs ≡ₚ (p, l) :: bs' -> fb_inv h bs -> fb_inv (fb_deallocate p l h) bs';
}.

Module FixedBlock.
Section Operations.
Context {H : Type} `{FallbackHeap H}.

Definition BLOCK_SIZES : list Z := [8; 16; 32; 64; 128; 256; 512; 1024; 2048].

(** [mem::size_of::<ListNode>()]: one optional reference. *)
Definition NODE_SIZE : Z := 8.

Record FixedSizeBlockAllocator := mkFixedSizeBlockAllocator {
  list_heads : list (list Z);
  fallback_allocator : H;
}.

(** [new] and [init] *)
Definition new : FixedSizeBlockAllocator :=
  mkFixedSizeBlockAllocator (replicate (length BLOCK_SIZES) []) fb_empty.

Definition init (heap_start heap_size : Z) (self : FixedSizeBlockAllocator) :
    FixedSizeBlockAllocator :=
  mkFixedSizeBlockAllocator (list_heads self)
    (fb_init heap_start heap_size (fallback_allocator self)).

(** [fallback_allocation] *)
Definition fallback_allocation (layout : Layout) (self : FixedSizeBlockAllocator) :
    option Z * FixedSizeBlockAllocator :=
  let '(p, h) := allocate_first_fit layout (fallback_allocator self) in
  (p, mkFixedSizeBlockAllocator (list_heads self) h).

(** [find_block_index] *)
Definition find_block_index (layout : Layout) : option nat :=
  fst <$> list_find (fun s => s >= Z.max (size layout) (align layout)) BLOCK_SIZES.

Definition with_head (index : nat) (stack : list Z) (self : FixedSizeBlockAllocator) :
    FixedSizeBlockAllocator :=
  mkFixedSizeBlockAllocator (<[index := stack]> (list_heads self)) (fallback_allocator self).

(** [alloc] *)
Definition alloc (layout : Layout) (self : FixedSizeBlockAllocator) :
    outcome (option Z * FixedSizeBlockAllocator) :=
  match find_block_index layout with
  | Some index =>
      stack ← vindex (list_heads self) (Z.of_nat index);
      match stack with
      | node :: next_node => Done (Some node, with_head index next_node self)
      | [] =>
          block_size ← vindex BLOCK_SIZES (Z.of_nat index);
          Done (fallback_allocation (mkLayout block_size block_size) self)
      end
  | None => Done (fallback_allocation layout self)
  end.

(** [dealloc]; the last test is [NonNull::new(ptr).unwrap()]. *)
Definition dealloc (ptr : Z) (layout : Layout) (self : FixedSizeBlockAllocator) :
    outcome FixedSizeBlockAllocator :=
  match find_block_index layout with
  | Some index =>
      stack ← vindex (list_heads self) (Z.of_nat index);
      block_size ← vindex BLOCK_SIZES (Z.of_nat index);
      if decide (block_size < NODE_SIZE) then Panic
      else Done (with_head index (ptr :: stack) self)
  | None =>
      if decide (ptr = 0) then Panic
      else Done (mkFixedSizeBlockAllocator (list_heads self)
                   (fb_deallocate ptr layout (fallback_allocator self)))
  end.
End Operations.
Arguments FixedSizeBlockAllocator H : clear implicits.
End FixedBlock.

#[export] Instance fixed_block_heap {H} `{FallbackHeap H} :
  HeapAllocator (FixedBlock.FixedSizeBlockAllocator H) := {|
  heap_alloc := FixedBlock.alloc;
  heap_dealloc := FixedBlock.dealloc;
|}.

(** ** Lemmas *)

Ltac fixed_fields :=
  cbn [FixedBlock.with_head FixedBlock.list_heads FixedBlock.fallback_allocator].

(** The free blocks of a class, and of all the classes. *)
Definition class_blocks (s : Z) (stack : list Z) : list block :=
  (fun p => (p, mkLayout s s)) <$> stack.

Definition free_blocks (sizes : list Z) (heads : list (list Z)) : list block :=
  concat (zip_with class_blocks sizes heads).

(** The block a layout is served with. *)
Definition class_layout (l : Layout) : Layout :=
  match FixedBlock.find_block_index l with
  | Some i =>
      match FixedBlock.BLOCK_SIZES !! i with
      | Some s => mkLayout s s
      | None => l
      end
  | None => l
  end.

Definition class_block (b : block) : block := (b.1, class_layout b.2).

Lemma free_blocks_insert sizes heads (i : nat) s stack :
  sizes !! i = Some s -> (i < length heads)%nat ->
  free_blocks sizes (<[i := stack]> heads) ≡ₚ
    class_blocks s stack ++ free_blocks sizes (<[i := []]> heads).
Proof.
  revert i heads. induction sizes as [|s' sizes IH]; intros [|i] [|h heads] Hs Hl; simpl in *; try lia; try done.
  - by simplify_eq.
  - unfold free_blocks in *. simpl. rewrite (IH i heads) by (done || lia). solve_Permutation.
Qed.

Lemma free_blocks_split sizes heads (i : nat) s stack :
  sizes !! i = Some s -> heads !! i = Some stack ->
  free_blocks sizes heads ≡ₚ class_blocks s stack ++ free_blocks sizes (<[i := []]> heads).
Proof.
  intros Hs Hh. rewrite <-(list_insert_id heads i stack) at 1 by done.
  apply free_blocks_insert; [done|]. by eapply lookup_lt_Some.
Qed.

Lemma find_block_index_spec l i :
  FixedBlock.find_block_index l = Some i ->
  exists s, FixedBlock.BLOCK_SIZES !! i = Some s /\ size l <= s /\ align l <= s /\
    class_layout l = mkLayout s s.
Proof.
  intros Hf. assert (Hc := Hf). unfold FixedBlock.find_block_index in Hf.
  destruct (list_find _ _) as [[j s]|] eqn:Hl; [|done]. simpl in Hf. simplify_eq.
  apply list_find_Some in Hl as (Hs & Hge & _). exists s. split; [done|].
  unfold class_layout. rewrite Hc, Hs. split; [lia|]. split; [lia|done].
Qed.

Lemma block_sizes_pow2 (i : nat) s :
  FixedBlock.BLOCK_SIZES !! i = Some s -> s = 2 ^ Z.of_nat (i + 3) /\ 8 <= s <= 2048.
Proof. do 9 (destruct i as [|i]; [intros [= <-]; done|]). done. Qed.

(** A class block is a legal layout, holds the layout it serves, and is at
    least as aligned. *)
Lemma class_block_inside b :
  layout_ok b.2 ->
  layout_ok (class_layout b.2) /\ inside b (class_block b) /\
  ((class_block b).1 mod align (class_block b).2 = 0 -> b.1 mod align b.2 = 0).
Proof.
  destruct b as [p l]. intros Hl. cbn. unfold inside, block_end, class_block. cbn.
  destruct (FixedBlock.find_block_index l) as [i|] eqn:Hf.
  - destruct (find_block_index_spec l i Hf) as (s & Hs & H1 & H2 & ->).
    destruct (block_sizes_pow2 i s Hs) as [Hp Hb]. cbn.
    split; [split; [by exists (i + 3)%nat|cbn; lia]|]. split; [lia|].
    intros Ha. destruct Hl as ([k Hk] & _ & _). cbn in Hk. assert (0 < align l) by (rewrite Hk; lia).
    apply (Z.mod_divide p (align l)); [lia|]. apply (Z.mod_divide p s) in Ha; [|lia].
    apply Z.divide_trans with s; [|done]. rewrite Hk, Hp in *.
    assert (k <= i + 3)%nat by (apply Nat2Z.inj_le, (Z.pow_le_mono_r_iff 2); lia).
    exists (2 ^ (Z.of_nat (i + 3) - Z.of_nat k)). rewrite <-Z.pow_add_r by lia. f_equal. lia.
  - unfold class_layout. rewrite Hf. split; [done|]. split; [lia|done].
Qed.

Section Invariant.
Context {H : Type} `{FallbackHeapLaws H lo hi}.
Implicit Types (a : FixedBlock.FixedSizeBlockAllocator H).

(** The blocks taken from the fallback heap are the free ones on the stacks
    and those that serve the live ones. *)
Record fixed_inv a (live : list block) : Prop := {
  xi_heads : length (FixedBlock.list_heads a) = length FixedBlock.BLOCK_SIZES;
  xi_layouts : Forall (fun b => layout_ok b.2) live;
  xi_blocks : exists bs, fb_inv (FixedBlock.fallback_allocator a) bs /\
    bs ≡ₚ free_blocks FixedBlock.BLOCK_SIZES (FixedBlock.list_heads a) ++ (class_block <$> live);
}.

Lemma class_index l i a :
  FixedBlock.find_block_index l = Some i ->
  length (FixedBlock.list_heads a) = length FixedBlock.BLOCK_SIZES ->
  exists s stack, FixedBlock.BLOCK_SIZES !! i = Some s /\
    FixedBlock.list_heads a !! i = Some stack /\ 8 <= s /\ class_layout l = mkLayout s s /\
    vindex (FixedBlock.list_heads a) (Z.of_nat i) = Done stack /\
    vindex FixedBlock.BLOCK_SIZES (Z.of_nat i) = Done s.
Proof.
  intros Hf Hl. destruct (find_block_index_spec l i Hf) as (s & Hs & _ & _ & Hc).
  destruct (block_sizes_pow2 i s Hs) as [_ Hb].
  destruct (lookup_lt_is_Some_2 (FixedBlock.list_heads a) i) as [stack Hst].
  { rewrite Hl. by eapply lookup_lt_Some. }
  exists s, stack. split; [done|]. split; [done|]. split; [lia|]. split; [done|]. by rewrite !vindex_lookup.
Qed.

Lemma fixed_alloc_inv l a live p a' :
  layout_ok l -> fixed_inv a live -> FixedBlock.alloc l a = Done (p, a') ->
  fixed_inv a' (match p with Some p => (p, l) :: live | None => live end).
Proof.
  intros Hl [Hh Hlay (bs & Hinv & Hbs)] Hrun. unfold FixedBlock.alloc in Hrun.
  assert (Hfall : forall q h, layout_ok (class_layout l) ->
    allocate_first_fit (class_layout l) (FixedBlock.fallback_allocator a) = (q, h) ->
    fixed_inv (FixedBlock.mkFixedSizeBlockAllocator (FixedBlock.list_heads a) h)
      (match q with Some q => (q, l) :: live | None => live end)).
  { intros q h Hc Ha. apply (fb_allocate _ _ bs) in Ha; [|done..]. constructor; fixed_fields.
    - done.
    - destruct q; [by constructor|done].
    - eexists. split; [exact Ha|]. destruct q; [|done].
      rewrite fmap_cons, Hbs. apply Permutation_middle. }
  destruct (class_block_inside (0, l) Hl) as (Hcl & _).
  destruct (FixedBlock.find_block_index l) as [i|] eqn:Hf.
  - destruct (class_index l i a Hf Hh) as (s & stack & Hs & Hst & _ & Hc & Hv1 & Hv2).
    rewrite Hv1 in Hrun. cbn in Hrun. destruct stack as [|node next].
    + rewrite Hv2 in Hrun. cbn in Hrun. unfold FixedBlock.fallback_allocation in Hrun.
      rewrite <-Hc in Hrun. destruct (allocate_first_fit _ _) eqn:Ha. simplify_eq. by apply Hfall.
    + simplify_eq. constructor; fixed_fields.
      * by rewrite length_insert.
      * by constructor.
      * exists bs. split; [done|]. rewrite Hbs.
        rewrite (free_blocks_split _ _ _ _ _ Hs Hst), (free_blocks_insert _ _ i s next);
          [|done|by eapply lookup_lt_Some].
        rewrite fmap_cons. unfold class_block at 2. cbn [fst snd]. rewrite Hc.
        unfold class_blocks. rewrite fmap_cons. solve_Permutation.
  - cbn in Hrun. unfold FixedBlock.fallback_allocation in Hrun.
    assert (Hcl' : class_layout l = l) by (unfold class_layout; by rewrite Hf).
    rewrite <-Hcl' in Hrun at 1. destruct (allocate_first_fit _ _) eqn:Ha. simplify_eq. by apply Hfall.
Qed.

Lemma fixed_dealloc_inv i p l a live a' :
  live !! i = Some (p, l) -> fixed_inv a live -> FixedBlock.dealloc p l a = Done a' ->
  fixed_inv a' (delete i live).
Proof.
  intros Hi [Hh Hlay (bs & Hinv & Hbs)] Hrun. unfold FixedBlock.dealloc in Hrun.
  rewrite (delete_split _ _ _ Hi) in Hlay, Hbs. apply Forall_cons in Hlay as [Hl Hlay].
  rewrite fmap_cons in Hbs. unfold class_block in Hbs at 1. cbn [fst snd] in Hbs.
  destruct (FixedBlock.find_block_index l) as [j|] eqn:Hf.
  - destruct (class_index l j a Hf Hh) as (s & stack & Hs & Hst & Hs8 & Hc & Hv1 & Hv2).
    rewrite Hv1, Hv2 in Hrun. cbn in Hrun. case_decide; [done|]. simplify_eq.
    constructor; fixed_fields; [by rewrite length_insert|done|]. exists bs. split; [done|]. rewrite Hbs.
    rewrite (free_blocks_split _ _ _ _ _ Hs Hst), (free_blocks_insert _ _ j s (p :: stack));
      [|done|by eapply lookup_lt_Some].
    rewrite Hc. unfold class_blocks. rewrite fmap_cons. solve_Permutation.
  - case_decide; [done|]. simplify_eq. constructor; fixed_fields; [done|done|].
    eexists. split; [|reflexivity]. eapply fb_release; [|exact Hinv]. rewrite Hbs.
    unfold class_layout at 1. rewrite Hf. symmetry. apply Permutation_middle.
Qed.

Lemma placed_class live :
  Forall (fun b => layout_ok b.2) live -> placed lo hi (class_block <$> live) -> placed lo hi live.
Proof. apply placed_rooms. intros b Hb. by apply class_block_inside. Qed.

#[export] Instance fixed_inv_proper a : Proper ((≡ₚ) ==> iff) (fixed_inv a).
Proof.
  intros live1 live2 Hp.
  split; intros [Hh Hlay (bs & Hinv & Hbs)]; constructor; try done; try (by rewrite Hp || by rewrite <-Hp).
  - exists bs. by rewrite <-Hp.
  - exists bs. by rewrite Hp.
Qed.

Lemma fixed_inv_fresh h :
  fb_inv h [] ->
  fixed_inv (FixedBlock.mkFixedSizeBlockAllocator (replicate (length FixedBlock.BLOCK_SIZES) []) h) [].
Proof. constructor; [done|constructor|]. exists []. by split. Qed.

(** The allocator keeps the contract of a heap. *)
#[export] Program Instance fixed_block_laws :
  HeapAllocatorLaws (FixedBlock.FixedSizeBlockAllocator H) lo hi := {|
  heap_inv := fixed_inv;
|}.
Next Obligation.
  intros a live [_ Hlay (bs & Hb & Hperm)]. apply placed_class; [done|].
  apply fb_placed in Hb. rewrite Hperm in Hb. by apply placed_app_r in Hb.
Qed.
Next Obligation. intros. by eapply fixed_alloc_inv. Qed.
Next Obligation.
  intros p l a live live' a' Hp Hi Hd. rewrite Hp in Hi.
  exact (fixed_dealloc_inv 0 p l a ((p, l) :: live') a' eq_refl Hi Hd).
Qed.
End Invariant.

(** ** Properties *)

(** C33: the kernel heap is a heap.  On top of a fallback heap that keeps its
    contract, whatever a correct client asks for and returns, the blocks it
    holds are aligned, inside the heap and pairwise disjoint, although a
    returned block goes to the stack of its class and is handed out again for
    other layouts of the class. *)
Theorem fixed_block_safe {H : Type} `{FallbackHeapLaws H lo hi} (h : H)
    (calls : list heap_call) (live : list block) (a : FixedBlock.FixedSizeBlockAllocator H)
    (Hfresh : fb_inv h []) (Hcalls : Forall call_ok calls)
    (Hrun : client calls []
      (FixedBlock.mkFixedSizeBlockAllocator (replicate (length FixedBlock.BLOCK_SIZES) []) h) =
      Done (live, a)) :
  placed lo hi live.
Proof.
  apply (heap_inv_placed (lo := lo) (hi := hi) a). revert Hrun.
  refine (client_heap_inv _ _ _ _ _ Hcalls _). by apply fixed_inv_fresh.
Qed.

(** C34: [dealloc] and [alloc] are inverse on a class.  A block returned with a
    layout of at most 2048 bytes is the block the next request of the same
    class gets, and the allocator is then exactly as before: the fallback heap
    is not involved. *)
Lemma fixed_block_reuse {H : Type} `{FallbackHeap H} (p : Z) (l l' : Layout)
    (a a' : FixedBlock.FixedSizeBlockAllocator H)
    (Hsmall : is_Some (FixedBlock.find_block_index l))
    (Hclass : FixedBlock.find_block_index l' = FixedBlock.find_block_index l)
    (Hdealloc : FixedBlock.dealloc p l a = Done a') :
  FixedBlock.alloc l' a' = Done (Some p, a) /\
  FixedBlock.fallback_allocator a' = FixedBlock.fallback_allocator a.
Proof.
  destruct Hsmall as [i Hi]. unfold FixedBlock.dealloc in Hdealloc. rewrite Hi in Hdealloc.
  bind_Done Hdealloc. bind_Done Hdealloc. case_decide; [done|]. simplify_eq. split; [|done].
  unfold FixedBlock.alloc. rewrite Hclass, Hi. fixed_fields.
  apply vindex_lookup in Hr. rewrite (proj2 (vindex_lookup _ i (p :: r)))
    by (apply list_lookup_insert_eq; by eapply lookup_lt_Some).
  cbn [mbind outcome_bind]. unfold FixedBlock.with_head. fixed_fields.
  rewrite list_insert_insert_eq, list_insert_id by done. by destruct a.
Qed.

(** *** At concrete inputs *)

(** The bump allocator as the fallback heap. *)
Definition bump_fallback : FallbackHeap Bump.BumpAllocator := {|
  fb_empty := Bump.new;
  fb_init := Bump.init;
  allocate_first_fit := Bump.alloc;
  fb_deallocate := Bump.dealloc;
|}.

#[local] Existing Instance bump_fallback.

Definition HEAP_START : Z := 0x444444440000.
Definition HEAP_SIZE : Z := 300 * 1024.

#[local] Program Instance bump_fallback_laws :
  FallbackHeapLaws Bump.BumpAllocator HEAP_START (HEAP_START + HEAP_SIZE) := {|
  fb_inv := bump_inv HEAP_START (HEAP_START + HEAP_SIZE);
|}.
Next Obligation.
  intros h bs [_ _ Hn _ Hp _]. apply (placed_weaken HEAP_START (Bump.next_free h)); [lia|lia|done].
Qed.
Next Obligation.
  intros l h bs p h' Hl Hinv Ha. eapply bump_alloc_inv; [| |exact Hl|exact Hinv|exact Ha]; done.
Qed.
Next Obligation.
  intros p l h bs bs' Hp Hinv. eapply bump_dealloc_inv; [| |exact Hp|exact Hinv]; done.
Qed.

(** A block of 100 bytes is returned and serves a request of 80 bytes. *)
Definition fixed_calls : list heap_call :=
  [Request (mkLayout 100 8); Request (mkLayout 3000 4096); Return 1; Request (mkLayout 80 16)].

Definition kernel_heap : FixedBlock.FixedSizeBlockAllocator Bump.BumpAllocator :=
  FixedBlock.init HEAP_START HEAP_SIZE FixedBlock.new.

Lemma fixed_block_safe_witness :
  let live := [(0x444444440000, mkLayout 80 16); (0x444444441000, mkLayout 3000 4096)] in
  exists a, client fixed_calls [] kernel_heap = Done (live, a) /\
    placed HEAP_START (HEAP_START + HEAP_SIZE) live.
Proof.
  eexists. split; [vm_compute; reflexivity|].
  eapply (fixed_block_safe (Bump.init HEAP_START HEAP_SIZE Bump.new) fixed_calls).
  - constructor; done || apply placed_nil.
  - constructor; [by apply (request_ok 3)|]. constructor; [by apply (request_ok 12)|].
    constructor; [done|]. constructor; [by apply (request_ok 4)|constructor].
  - vm_compute. reflexivity.
Defined.

Lemma fixed_block_reuse_witness :
  exists a', FixedBlock.dealloc 0x5000 (mkLayout 100 8) kernel_heap = Done a' /\
    FixedBlock.alloc (mkLayout 80 16) a' = Done (Some 0x5000, kernel_heap) /\
    FixedBlock.fallback_allocator a' = FixedBlock.fallback_allocator kernel_heap.
Proof.
  eexists. split; [vm_compute; reflexivity|].
  eapply (fixed_block_reuse 0x5000 (mkLayout 100 8) (mkLayout 80 16)).
  - by eexists.
  - reflexivity.
  - vm_compute. reflexivity.
Defined.
