(* ===== verification/Frames.v ===== *)
(** * The physical frame allocator (kernel/src/mem/memory.rs)

    [PageFrameAllocator] over the memory map the bootloader provides.  A frame
    is named by its start address; the array [frame_usage] is indexed by frame
    number.  Every operation that logs also updates the memory logger. *)
From S2P Require Import Prelude Logger.

(** [bootloader::bootinfo::MemoryRegionType] *)
Inductive MemoryRegionType :=
| Usable | InUse | Reserved | AcpiReclaimable | AcpiNvs | BadMemory | KernelRegion
| KernelStackRegion | PageTableRegion | Bootloader | FrameZero | Empty | BootInfo | Package.

#[export] Instance MemoryRegionType_eq_dec : EqDecision MemoryRegionType.
Proof. solve_decision. Defined.

(** A region of the memory map: [range.start_addr()], [range.end_addr()]. *)
Record BootRegion := mkBootRegion {
  start_addr : Z;
  end_addr : Z;
  region_type : MemoryRegionType;
}.

(** What frames.rs uses of the crate x86_64: the frame an address lies in. *)
Class FrameOf := { containing_address : Z -> Z }.

(** The start address of a frame: page-aligned and a physical address, which
    has 52 bits. *)
Definition is_frame (f : Z) : Prop := f mod 4096 = 0 /\ 0 <= f < 2 ^ 52.

#[export] Instance is_frame_dec f : Decision (is_frame f).
Proof. unfold is_frame. apply _. Defined.

Class FrameOfLaws `{FrameOf} := {
  containing_address_frame a : is_frame (containing_address a);
  containing_address_start f : is_frame f -> containing_address f = f;
}.

Record PageFrameAllocator := mkPageFrameAllocator {
  memory_map : list BootRegion;
  next : Z;
  frame_usage : list bool;
}.

Definition FRAME_USAGE_LEN : nat := Z.to_nat 100000.
Definition FRAME_SIZE : Z := 4096.

Module Frames.
Section Operations.
Context `{FrameOf}.

(** [PageFrameAllocator::init] *)
Definition init (memory_map : list BootRegion) : PageFrameAllocator :=
  {| memory_map := memory_map; next := 0; frame_usage := replicate FRAME_USAGE_LEN false |}.

Definition usable_regions (a : PageFrameAllocator) : list BootRegion :=
  filter (fun r => region_type r = Usable) (memory_map a).

(** [total_frames] *)
Definition total_frames (a : PageFrameAllocator) : Z :=
  foldl (fun sum r => sum +w ((end_addr r -w start_addr r) / FRAME_SIZE)) 0 (usable_regions a).

(** [total_usable_size] *)
Definition total_usable_size (a : PageFrameAllocator) : Z :=
  foldl (fun sum r => sum +w (end_addr r -w start_addr r)) 0 (usable_regions a).

(** [(start..end).step_by(step)] *)
Definition step_by (start stop step : Z) : list Z :=
  (fun i => start + step * i) <$> seqZ 0 ((stop - start + step - 1) / step).

(** [usable_frames] *)
Definition usable_frames (a : PageFrameAllocator) : list Z :=
  containing_address <$>
    (usable_regions a ≫= fun r => step_by (start_addr r) (end_addr r) FRAME_SIZE).

Definition frame_number (frame : Z) : Z := frame / FRAME_SIZE.

(** [mark_frame_as_used] *)
Definition mark_frame_as_used (frame : Z) (a : PageFrameAllocator) : outcome PageFrameAllocator :=
  usage ← vset (frame_usage a) (frame_number frame) true;
  Done (mkPageFrameAllocator (memory_map a) (next a) usage).

(** [is_frame_free] *)
Definition is_frame_free (frame : Z) (a : PageFrameAllocator) : outcome bool :=
  used ← vindex (frame_usage a) (frame_number frame);
  Done (negb used).

Definition frame_region (frame : Z) : MemoryRegion :=
  mkMemoryRegion frame (frame +w FRAME_SIZE).

(** [allocate_frame]; [Iterator::nth] is the indexing of the list. *)
Definition allocate_frame (s : PageFrameAllocator * MemoryLogger) :
    outcome (option Z * (PageFrameAllocator * MemoryLogger)) :=
  let '(a, log) := s in
  match vget (usable_frames a) (next a) with
  | Some frame =>
      free ← is_frame_free frame a;
      if (free : bool) then
        a ← mark_frame_as_used frame a;
        let a := mkPageFrameAllocator (memory_map a) (next a +w 1) (frame_usage a) in
        Done (Some frame,
              (a, Logger.log_allocation (frame_region frame) FRAME_SIZE true log))
      else Done (None, s)
  | None => Done (None, s)
  end.

(** [deallocate_frame] *)
Definition deallocate_frame (frame : Z) (s : PageFrameAllocator * MemoryLogger) :
    PageFrameAllocator * MemoryLogger :=
  let '(a, log) := s in
  let frame_num := frame_number frame in
  let a :=
    if decide (frame_num < Z.of_nat (length (frame_usage a))) then
      let usage := <[Z.to_nat frame_num := false]> (frame_usage a) in
      let next := if decide (frame_num < next a) then frame_num else next a in
      mkPageFrameAllocator (memory_map a) next usage
    else a in
  (a, Logger.log_deallocation (frame_region frame) FRAME_SIZE true log).

(** Histories: [Allocate] asks for a frame, [Release] gives one back; [live]
    collects the frames that were handed out and not given back since. *)
Inductive request := Allocate | Release (frame : Z).

Fixpoint serve (rs : list request) (live : list Z) (s : PageFrameAllocator * MemoryLogger) :
    outcome (list Z * (PageFrameAllocator * MemoryLogger)) :=
  match rs with
  | [] => Done (live, s)
  | Allocate :: rs =>
      '(frame, s) ← allocate_frame s;
      serve rs (option_list frame ++ live) s
  | Release frame :: rs =>
      serve rs (filter (fun f => f ≠ frame) live) (deallocate_frame frame s)
  end.

(** [n] allocations in a row. *)
Fixpoint allocate_n (n : nat) (s : PageFrameAllocator * MemoryLogger) :
    outcome (list (option Z) * (PageFrameAllocator * MemoryLogger)) :=
  match n with
  | O => Done ([], s)
  | S n =>
      '(frame, s) ← allocate_frame s;
      '(frames, s) ← allocate_n n s;
      Done (frame :: frames, s)
  end.

(** A frame that is marked in [frame_usage]. *)
Definition is_used (a : PageFrameAllocator) (frame : Z) : Prop :=
  vget (frame_usage a) (frame_number frame) = Some true.

#[export] Instance is_used_dec a frame : Decision (is_used a frame).
Proof. unfold is_used. apply _. Defined.
End Operations.

Section Facts.
Context `{FrameOfLaws}.
Implicit Types (a : PageFrameAllocator) (l : MemoryLogger) (f g : Z).

Lemma usable_frame a f : f ∈ usable_frames a -> is_frame f.
Proof.
  unfold usable_frames. intros Hf. apply list_elem_of_fmap in Hf as (x & -> & _).
  apply containing_address_frame.
Qed.

Lemma usable_aligned a f : f ∈ usable_frames a -> f mod 4096 = 0.
Proof. intros Hf. by destruct (usable_frame a f Hf). Qed.

Lemma frame_number_inj f g :
  f mod 4096 = 0 -> g mod 4096 = 0 -> frame_number f = frame_number g -> f = g.
Proof. unfold frame_number, FRAME_SIZE. intros. Z.div_mod_to_equations. lia. Qed.

(** Everything [allocate_frame] can do. *)
Inductive allocate_spec a l : outcome (option Z * (PageFrameAllocator * MemoryLogger)) -> Prop :=
| AllocateFresh f usage :
    vget (usable_frames a) (next a) = Some f -> ~ is_used a f ->
    vset (frame_usage a) (frame_number f) true = Done usage ->
    allocate_spec a l (Done (Some f,
      (mkPageFrameAllocator (memory_map a) (next a +w 1) usage,
       Logger.log_allocation (frame_region f) FRAME_SIZE true l)))
| AllocateUsed f :
    vget (usable_frames a) (next a) = Some f -> is_used a f ->
    allocate_spec a l (Done (None, (a, l)))
| AllocateEnd :
    vget (usable_frames a) (next a) = None -> allocate_spec a l (Done (None, (a, l)))
| AllocatePanic f :
    vget (usable_frames a) (next a) = Some f -> vget (frame_usage a) (frame_number f) = None ->
    allocate_spec a l Panic.

Lemma allocate_frame_spec a l : allocate_spec a l (allocate_frame (a, l)).
Proof.
  unfold allocate_frame. destruct (vget (usable_frames a) (next a)) as [f|] eqn:Hf;
    [|by apply AllocateEnd].
  unfold is_frame_free, vindex.
  destruct (vget (frame_usage a) (frame_number f)) as [[]|] eqn:Hu; simpl.
  - by eapply AllocateUsed.
  - unfold mark_frame_as_used.
    assert (Hin : 0 <= frame_number f < Z.of_nat (length (frame_usage a))).
    { unfold vget in Hu. by case_decide. }
    rewrite (vset_in _ _ _ Hin). simpl.
    apply (AllocateFresh a l f (<[Z.to_nat (frame_number f) := true]> (frame_usage a))).
    + done.
    + unfold is_used. by rewrite Hu.
    + by apply vset_in.
  - by eapply AllocatePanic.
Qed.

Lemma is_used_set a n i b f :
  0 <= i < Z.of_nat (length (frame_usage a)) -> 0 <= frame_number f ->
  is_used (mkPageFrameAllocator (memory_map a) n (<[Z.to_nat i := b]> (frame_usage a))) f <->
  if decide (i = frame_number f) then b = true else is_used a f.
Proof.
  intros Hi Hf. unfold is_used. simpl. rewrite vget_insert by done.
  case_decide; [|done]. split; [by intros [= ->]|by intros ->].
Qed.

Lemma is_used_nonneg a f : is_used a f -> 0 <= frame_number f.
Proof. unfold is_used. intros Hv. by apply vget_Some in Hv as [? _]. Qed.

Lemma allocate_frame_used a l f a' l' :
  allocate_frame (a, l) = Done (Some f, (a', l')) ->
  f ∈ usable_frames a /\ ~ is_used a f /\ usable_frames a' = usable_frames a /\
  forall g, g mod 4096 = 0 -> is_used a' g <-> g = f \/ is_used a g.
Proof.
  intros Ha. pose proof (allocate_frame_spec a l) as Hs. rewrite Ha in Hs.
  inversion Hs as [f' usage Hf Hu Hv| | |]; subst.
  assert (Hin : f ∈ usable_frames a).
  { apply vget_Some in Hf as [_ Hf]. by eapply list_elem_of_lookup_2. }
  apply vset_Done in Hv as [Hb ->]. clear Hs Ha.
  split; [done|]. split; [done|]. split; [done|].
  intros g Hg. destruct (decide (0 <= frame_number g)) as [Hn|Hn].
  - rewrite (is_used_set a) by done. case_decide as Hd.
    + assert (g = f) as -> by (symmetry; apply frame_number_inj; [by eapply usable_aligned|done|done]).
      split; auto.
    + split; [auto|]. by intros [->|?].
  - split; [intros Hg'; by apply is_used_nonneg in Hg'|]. intros [->|Hg']; [lia|].
    by apply is_used_nonneg in Hg'.
Qed.

Lemma deallocate_frame_used a l f a' l' :
  deallocate_frame f (a, l) = (a', l') -> f mod 4096 = 0 -> 0 <= f ->
  usable_frames a' = usable_frames a /\
  forall g, g mod 4096 = 0 -> is_used a' g <-> is_used a g /\ g ≠ f.
Proof.
  unfold deallocate_frame. intros Hd Hf Hpos.
  assert (0 <= frame_number f) by (unfold frame_number, FRAME_SIZE; Z.div_mod_to_equations; lia).
  case_decide as Hb; simplify_eq; split; try done; intros g Hg.
  - destruct (decide (0 <= frame_number g)) as [Hn|Hn].
    + rewrite (is_used_set a) by lia. case_decide as Hd.
      * assert (g = f) as -> by (symmetry; by apply frame_number_inj). naive_solver.
      * split; [|naive_solver]. intros ?. split; [done|congruence].
    + split; [intros Hu|intros [Hu _]]; by apply is_used_nonneg in Hu.
  - split; [|naive_solver]. intros Hu. split; [done|]. intros ->.
    unfold is_used in Hu. apply vget_Some in Hu as [_ Hu]. apply lookup_lt_Some in Hu. lia.
Qed.

(** What is released is a frame. *)
Definition released_frame (r : request) : Prop :=
  match r with
  | Allocate => True
  | Release f => is_frame f
  end.

(** The frames handed out are distinct usable frames, all marked. *)
Record held_frames (frames : list Z) (live : list Z) a : Prop := {
  held_nodup : NoDup live;
  held_usable f : f ∈ live -> f ∈ frames;
  held_used f : f ∈ live -> is_used a f;
}.

Lemma held_frames_allocate frames live a l f a' l' :
  held_frames frames live a -> usable_frames a = frames ->
  allocate_frame (a, l) = Done (Some f, (a', l')) ->
  held_frames frames (f :: live) a' /\ (f ∉ live) /\ usable_frames a' = frames.
Proof.
  intros [Hn Hu Hm] <- Ha. apply allocate_frame_used in Ha as (Hf & Hfree & Heq & Hused).
  assert (f ∉ live) by (intros Hin; by apply Hfree, Hm).
  split; [|done]. constructor.
  - by constructor.
  - intros g Hg. apply elem_of_cons in Hg as [->|Hg]; auto.
  - intros g Hg. apply elem_of_cons in Hg as [->|Hg].
    + apply Hused; [by eapply usable_aligned|auto].
    + apply Hused; [eapply usable_aligned, Hu, Hg|auto].
Qed.

Lemma allocate_frame_None s s' : allocate_frame s = Done (None, s') -> s' = s.
Proof.
  destruct s as [a l]. intros Ha. pose proof (allocate_frame_spec a l) as Hs.
  rewrite Ha in Hs. by inversion Hs.
Qed.

Lemma held_frames_release frames live a l f a' l' :
  held_frames frames live a -> usable_frames a = frames -> f mod 4096 = 0 -> 0 <= f ->
  deallocate_frame f (a, l) = (a', l') ->
  held_frames frames (filter (fun g => g ≠ f) live) a' /\ usable_frames a' = frames.
Proof.
  intros [Hn Hu Hm] <- Hal Hpos Hd.
  apply deallocate_frame_used in Hd as [Heq Hused]; [|done..].
  split; [|done]. constructor.
  - by apply NoDup_filter.
  - intros g Hg. apply list_elem_of_filter in Hg as [_ Hg]. auto.
  - intros g Hg. apply list_elem_of_filter in Hg as [Hne Hg].
    apply Hused; [eapply usable_aligned, Hu, Hg|auto].
Qed.

Lemma serve_held frames rs : forall live s live' s',
  held_frames frames live s.1 -> usable_frames s.1 = frames -> Forall released_frame rs ->
  serve rs live s = Done (live', s') ->
  held_frames frames live' s'.1 /\ usable_frames s'.1 = frames.
Proof.
  induction rs as [|[|f] rs IH]; intros live [a l] live' s' Hh Heq Hrs Hrun.
  - simpl in Hrun. by simplify_eq.
  - apply Forall_cons in Hrs as [_ Hrs]. cbn -[allocate_frame] in Hrun.
    bind_Done Hrun. destruct r as [[f|] [a1 l1]].
    + destruct (held_frames_allocate frames live a l f a1 l1) as (? & ? & ?); [done..|].
      by apply (IH _ (a1, l1) live' s') in Hrun.
    + apply allocate_frame_None in Hr. simplify_eq. by apply (IH _ (a, l) live' s') in Hrun.
  - apply Forall_cons in Hrs as [[Hal [Hpos _]] Hrs]. cbn -[deallocate_frame] in Hrun.
    destruct (deallocate_frame f (a, l)) as [a1 l1] eqn:Hd.
    destruct (held_frames_release frames live a l f a1 l1) as (? & ?); [done..|].
    by apply (IH _ (a1, l1) live' s') in Hrun.
Qed.

(** The memory map describes distinct frames that the array can index. *)
Record tracked (frames : list Z) : Prop := {
  tracked_nodup : NoDup frames;
  tracked_aligned f : f ∈ frames -> f mod 4096 = 0;
  tracked_bound f : f ∈ frames -> 0 <= frame_number f < 100000;
}.

Lemma tracked_numbers frames : tracked frames -> NoDup (frame_number <$> frames).
Proof.
  intros [Hn Ha _]. apply NoDup_fmap_2_strong; [|done].
  intros f g Hf Hg. apply frame_number_inj; auto.
Qed.

Lemma tracked_length frames : tracked frames -> Z.of_nat (length frames) <= 100000.
Proof.
  intros Ht. assert (Hs : (frame_number <$> frames) ⊆+ seqZ 0 100000).
  { apply NoDup_submseteq; [by apply tracked_numbers|].
    intros n Hn. apply list_elem_of_fmap in Hn as (f & -> & Hf).
    apply elem_of_seqZ. destruct (tracked_bound _ Ht f Hf). lia. }
  apply submseteq_length in Hs. rewrite length_fmap, length_seqZ in Hs. lia.
Qed.

Lemma FRAME_USAGE_LEN_Z : Z.of_nat FRAME_USAGE_LEN = 100000.
Proof. unfold FRAME_USAGE_LEN. by rewrite Z2Nat.id. Qed.

Lemma vget_nat_in {A} (l : list A) (n : nat) x : l !! n = Some x -> vget l (Z.of_nat n) = Some x.
Proof. by rewrite vget_lookup. Qed.

(** The first [i] usable frames have been handed out, the others not. *)
Record drawn (i : nat) (frames : list Z) a : Prop := {
  drawn_frames : usable_frames a = frames;
  drawn_next : next a = Z.of_nat i;
  drawn_length : length (frame_usage a) = FRAME_USAGE_LEN;
  drawn_free j f : (i <= j)%nat -> frames !! j = Some f -> ~ is_used a f;
  drawn_used j f : (j < i)%nat -> frames !! j = Some f -> is_used a f;
}.

(** Within bounds, the array never panics. *)
Lemma allocate_frame_in frames a l f :
  tracked frames -> usable_frames a = frames -> length (frame_usage a) = FRAME_USAGE_LEN ->
  vget frames (next a) = Some f ->
  if decide (is_used a f) then allocate_frame (a, l) = Done (None, (a, l))
  else exists l', allocate_frame (a, l) = Done (Some f,
    (mkPageFrameAllocator (memory_map a) (next a +w 1)
      (<[Z.to_nat (frame_number f) := true]> (frame_usage a)), l')).
Proof.
  intros Ht Heq Hl Hf. assert (Hin : f ∈ frames).
  { apply vget_Some in Hf as [_ Hf]. by eapply list_elem_of_lookup_2. }
  pose proof (tracked_bound _ Ht f Hin) as Hb.
  assert (Hv : is_Some (vget (frame_usage a) (frame_number f))).
  { unfold vget. rewrite Hl, FRAME_USAGE_LEN_Z, decide_True by lia.
    apply lookup_lt_is_Some. rewrite Hl. pose proof FRAME_USAGE_LEN_Z. lia. }
  destruct Hv as [u Hu].
  case_decide as Hm; unfold is_used in Hm; rewrite Hu in Hm; destruct u; try done.
  all: unfold allocate_frame, is_frame_free, mark_frame_as_used, vindex; rewrite Heq, Hf, Hu.
  { done. }
  cbn -[vset]. rewrite vset_in by (rewrite Hl, FRAME_USAGE_LEN_Z; lia).
  cbn. eexists. done.
Qed.

Lemma allocate_frame_next frames a l i f :
  tracked frames -> drawn i frames a -> frames !! i = Some f ->
  exists a' l', allocate_frame (a, l) = Done (Some f, (a', l')) /\ drawn (S i) frames a'.
Proof.
  intros Ht [Heq Hi Hl Hfree Hused] Hf.
  pose proof (allocate_frame_in frames a l f Ht Heq Hl) as Ha.
  rewrite Hi, vget_lookup in Ha. specialize (Ha Hf).
  case_decide; [by destruct (Hfree i f)|]. destruct Ha as [l' Ha].
  pose proof (allocate_frame_used _ _ _ _ _ Ha) as (_ & _ & _ & Hu).
  pose proof (tracked_length _ Ht) as Hlen. apply lookup_lt_Some in Hf as Hlt.
  eexists _, l'. split; [exact Ha|]. constructor.
  - done.
  - cbn [next]. rewrite wrap64_small by (unfold is_u64; lia). lia.
  - cbn [frame_usage]. by rewrite length_insert.
  - intros j g Hj Hg Hm. apply Hu in Hm as [->|Hm].
    + pose proof (NoDup_lookup _ _ _ _ (tracked_nodup _ Ht) Hf Hg). lia.
    + by apply (Hfree j g) in Hm; [|lia|].
    + eapply tracked_aligned; [done|]. by eapply list_elem_of_lookup_2.
  - intros j g Hj Hg. apply Hu.
    + eapply tracked_aligned; [done|]. by eapply list_elem_of_lookup_2.
    + destruct (decide (j = i)) as [->|]; [left; congruence|right].
      apply (Hused j g); [lia|done].
Qed.

Lemma allocate_frame_end frames a l :
  drawn (length frames) frames a -> allocate_frame (a, l) = Done (None, (a, l)).
Proof.
  intros [Heq Hi _ _ _]. unfold allocate_frame.
  by rewrite Hi, Heq, vget_lookup, lookup_ge_None_2.
Qed.

Lemma allocate_n_spec frames n : forall a l i,
  tracked frames -> drawn i frames a -> (i <= length frames)%nat ->
  exists a' l', allocate_n n (a, l) = Done
    ((Some <$> take n (drop i frames)) ++ replicate (n - (length frames - i)) None, (a', l')) /\
    drawn (Nat.min (i + n) (length frames)) frames a'.
Proof.
  induction n as [|n IH]; intros a l i Ht Hd Hle.
  { exists a, l. split; [done|]. by rewrite Nat.add_0_r, Nat.min_l. }
  destruct (decide (i = length frames)) as [->|Hne].
  - destruct (IH a l (length frames)) as (a' & l' & Ha & Hd'); [done..|].
    cbn -[allocate_frame]. rewrite (allocate_frame_end frames) by done.
    cbn -[allocate_frame]. rewrite Ha.
    rewrite drop_all, !take_nil. cbn. rewrite Nat.sub_diag, !Nat.sub_0_r.
    exists a', l'. split; [done|]. by rewrite !Nat.min_r in * by lia.
  - destruct (lookup_lt_is_Some_2 frames i) as [f Hf]; [lia|].
    destruct (allocate_frame_next frames a l i f) as (a1 & l1 & Ha & Hd1); [done..|].
    destruct (IH a1 l1 (S i)) as (a' & l' & Ha' & Hd'); [done|done|lia|].
    cbn -[allocate_frame]. rewrite Ha. cbn -[allocate_frame]. rewrite Ha'. cbn.
    rewrite (drop_S _ _ _ Hf). cbn. exists a', l'.
    replace (i + S n)%nat with (S i + n)%nat by lia. split; [|done].
    do 3 f_equal. f_equal. f_equal. lia.
Qed.

Lemma drawn_init map : drawn 0 (usable_frames (init map)) (init map).
Proof.
  constructor; [done|done|apply length_replicate| |lia].
  intros j f _ _ Hu. unfold is_used, init in Hu. cbn [frame_usage] in Hu.
  apply vget_Some in Hu as [_ Hu]. by apply lookup_replicate in Hu as [? _].
Qed.

(** After everything was handed out, a released frame is what the allocator
    looks at next only if its number is its own index. *)
Lemma release_exhausted frames a l i f :
  tracked frames -> drawn (length frames) frames a -> frames !! i = Some f ->
  exists s', allocate_frame (deallocate_frame f (a, l)) =
    Done (if decide (frame_number f = Z.of_nat i) then Some f else None, s').
Proof.
  intros Ht [Heq Hn Hl _ Hused] Hf.
  assert (Hin : f ∈ frames) by (by eapply list_elem_of_lookup_2).
  pose proof (tracked_bound _ Ht f Hin) as Hb. apply lookup_lt_Some in Hf as Hlt.
  destruct (deallocate_frame f (a, l)) as [a' l'] eqn:Hd.
  assert (0 <= f) by (unfold frame_number, FRAME_SIZE in Hb; Z.div_mod_to_equations; lia).
  pose proof (deallocate_frame_used _ _ _ _ _ Hd (tracked_aligned _ Ht f Hin)) as [Heq' Hu]; [done|].
  unfold deallocate_frame in Hd. rewrite Hl, FRAME_USAGE_LEN_Z, Hn in Hd.
  rewrite decide_True in Hd by lia. injection Hd as Ha' _.
  assert (Hl' : length (frame_usage a') = FRAME_USAGE_LEN) by (subst a'; cbn; by rewrite length_insert).
  rewrite Heq in Heq'. destruct (decide (frame_number f < Z.of_nat (length frames))) as [Hs|Hs].
  - assert (Hn' : next a' = frame_number f) by (by subst a').
    destruct (lookup_lt_is_Some_2 frames (Z.to_nat (frame_number f))) as [g Hg]; [lia|].
    assert (Hv : vget frames (next a') = Some g) by (apply vget_Some; rewrite Hn'; split; [lia|done]).
    pose proof (allocate_frame_in frames a' l' g Ht Heq' Hl' Hv) as Ha.
    assert (Hg' : g ∈ frames) by (by eapply list_elem_of_lookup_2).
    destruct (decide (frame_number f = Z.of_nat i)) as [He|He].
    + rewrite He, Nat2Z.id in Hg. assert (g = f) as -> by congruence.
      case_decide as Hm; [apply Hu in Hm; [naive_solver|by eapply tracked_aligned]|].
      destruct Ha as [? ->]. by eexists.
    + case_decide as Hm; [rewrite Ha; by eexists|]. destruct Hm. apply Hu; [by eapply tracked_aligned|].
      split; [by eapply (Hused _ g); [|exact Hg]; lia|]. intros ->.
      pose proof (NoDup_lookup _ _ _ _ (tracked_nodup _ Ht) Hf Hg). lia.
  - rewrite decide_False by lia. assert (Hn' : next a' = Z.of_nat (length frames)) by (by subst a').
    unfold allocate_frame. rewrite Hn', Heq', vget_lookup, lookup_ge_None_2 by lia. by eexists.
Qed.
End Facts.

(** ** The totals of the memory map *)
Section Totals.
Context `{FrameOf}.

Definition sum_of (g : BootRegion -> Z) (rs : list BootRegion) : Z :=
  foldr (fun r acc => g r + acc) 0 rs.

(** A summing loop on u64 is the sum, wrapped. *)
Lemma foldl_wrap g rs : forall acc,
  is_u64 acc -> foldl (fun sum r => sum +w g r) acc rs = wrap64 (acc + sum_of g rs).
Proof.
  induction rs as [|r rs IH]; intros acc Ha; simpl.
  - rewrite Z.add_0_r. by rewrite wrap64_small.
  - rewrite IH by auto with zephyr. rewrite wrap64_add_l. f_equal. lia.
Qed.

Definition aligned_region (r : BootRegion) : Prop :=
  start_addr r mod 4096 = 0 /\ end_addr r mod 4096 = 0 /\
  0 <= start_addr r <= end_addr r /\ end_addr r < 2 ^ 64.

Lemma aligned_region_size r :
  aligned_region r ->
  end_addr r -w start_addr r = FRAME_SIZE * Z.of_nat (length (step_by (start_addr r) (end_addr r) FRAME_SIZE)).
Proof.
  intros (Hs & He & Hle & Hb). rewrite wrap64_small by (unfold is_u64; lia).
  unfold step_by, FRAME_SIZE. rewrite length_fmap, length_seqZ.
  rewrite Z2Nat.id by (apply Z.div_pos; lia). Z.div_mod_to_equations. lia.
Qed.

Lemma sum_of_sizes rs :
  Forall aligned_region rs ->
  sum_of (fun r => end_addr r -w start_addr r) rs =
    FRAME_SIZE * Z.of_nat (length (rs ≫= fun r => step_by (start_addr r) (end_addr r) FRAME_SIZE)) /\
  sum_of (fun r => (end_addr r -w start_addr r) / FRAME_SIZE) rs =
    Z.of_nat (length (rs ≫= fun r => step_by (start_addr r) (end_addr r) FRAME_SIZE)).
Proof.
  induction 1 as [|r rs Hr _ [IH1 IH2]]; [done|].
  cbn [sum_of foldr] in *. unfold sum_of in IH1, IH2. rewrite IH1, IH2.
  rewrite (aligned_region_size r Hr), bind_cons, length_app.
  rewrite Z.mul_comm, Z.div_mul by (unfold FRAME_SIZE; lia). lia.
Qed.
End Totals.
End Frames.

(** ** The interface to paging *)

(** What memory.rs asks of a frame allocator. *)
Class FrameAllocator (A : Type) := {
  fa_allocate : A -> outcome (option Z * A);
  fa_deallocate : Z -> A -> A;
}.

(** What it promises, in terms of the frames that are in use and of those it
    may hand out. *)
Class FrameAllocatorLaws (A : Type) `{FrameAllocator A} := {
  fa_used : A -> Z -> Prop;
  fa_usable : A -> Z -> Prop;
  fa_allocate_Some a f a' :
    fa_allocate a = Done (Some f, a') ->
    is_frame f /\ fa_usable a f /\ ~ fa_used a f /\
    (forall g, fa_usable a' g <-> fa_usable a g) /\
    (forall g, is_frame g -> fa_used a' g <-> g = f \/ fa_used a g);
  fa_allocate_None a a' : fa_allocate a = Done (None, a') -> a' = a;
  fa_deallocate_usable a f g : fa_usable (fa_deallocate f a) g <-> fa_usable a g;
  fa_deallocate_used a f g :
    is_frame f -> is_frame g -> fa_used (fa_deallocate f a) g <-> fa_used a g /\ g ≠ f;
}.

(** The frames the allocator will not hand out. *)
Definition taken `{FrameAllocatorLaws A} (a : A) (f : Z) : Prop := fa_used a f \/ ~ fa_usable a f.

#[export] Instance frames_allocator `{FrameOf} :
  FrameAllocator (PageFrameAllocator * MemoryLogger) := {|
  fa_allocate := Frames.allocate_frame;
  fa_deallocate := Frames.deallocate_frame;
|}.

#[export] Program Instance frames_allocator_laws `{FrameOfLaws} :
  FrameAllocatorLaws (PageFrameAllocator * MemoryLogger) := {|
  fa_used s f := Frames.is_used s.1 f;
  fa_usable s f := f ∈ Frames.usable_frames s.1;
|}.
Next Obligation.
  intros ? ? [a l] f [a' l'] Ha. apply Frames.allocate_frame_used in Ha as (Hf & Hn & Heq & Hu).
  split; [by eapply Frames.usable_frame|]. split; [done|]. split; [done|].
  split; [intros g; cbn [fst]; by rewrite Heq|]. intros g [Hg _]. by apply Hu.
Qed.
Next Obligation. intros ? ? a a' Ha. by apply Frames.allocate_frame_None in Ha. Qed.
Next Obligation.
  intros ? ? [a l] f g. cbn [fa_deallocate frames_allocator].
  unfold Frames.deallocate_frame. by case_decide.
Qed.
Next Obligation.
  intros ? ? [a l] f g [Hf [Hpos _]] [Hg _]. cbn [fa_deallocate frames_allocator].
  destruct (Frames.deallocate_frame f (a, l)) as [a' l'] eqn:Hd.
  apply Frames.deallocate_frame_used in Hd as [_ Hu]; [|done..]. by apply Hu.
Qed.

(** ** Properties *)

(** C6: a frame has one owner.  Whatever the sequence of allocations and
    releases, from whatever state of the allocator, the frames handed out and
    not given back since are marked as used; the next allocation returns a frame
    that was not, so none of them, and then all of them and the new one are
    pairwise distinct usable frames that are marked. *)
Theorem frames_exclusive `{FrameOfLaws} (rs : list Frames.request)
    (s s1 s2 : PageFrameAllocator * MemoryLogger) (live : list Z) (f : Z)
    (Hreleased : Forall Frames.released_frame rs)
    (Hrun : Frames.serve rs [] s = Done (live, s1))
    (Hnext : Frames.allocate_frame s1 = Done (Some f, s2)) :
  Forall (Frames.is_used s1.1) live /\ ~ Frames.is_used s1.1 f /\
  NoDup (f :: live) /\
  Forall (fun g => g ∈ Frames.usable_frames s.1 /\ Frames.is_used s2.1 g) (f :: live).
Proof.
  destruct (Frames.serve_held (Frames.usable_frames s.1) rs [] s live s1) as [Hh Heq];
    [constructor; [apply NoDup_nil_2|by intros ? ?%elem_of_nil..]|done..|].
  destruct s1 as [a1 l1], s2 as [a2 l2].
  destruct (Frames.held_frames_allocate _ _ _ _ _ _ _ Hh Heq Hnext) as ([Hn Hu Hm] & _ & _).
  apply Frames.allocate_frame_used in Hnext as (_ & Hfree & _).
  split; [apply Forall_forall, Hh|]. split; [done|]. split; [done|].
  apply Forall_forall. auto.
Qed.

(** From boot, the allocator hands out each usable frame of the memory
    map once, in the order of the map, without a panic, and then reports that
    there is none; a frame released when all are in use is found again only
    when its frame number happens to be its index among the usable frames. *)
Lemma frames_in_order `{FrameOfLaws} (map : list BootRegion) (log : MemoryLogger) (n : nat)
    (Htracked : Frames.tracked (Frames.usable_frames (Frames.init map))) :
  let frames := Frames.usable_frames (Frames.init map) in
  exists s, Frames.allocate_n n (Frames.init map, log) =
      Done ((Some <$> take n frames) ++ replicate (n - length frames) None, s) /\
    ((length frames <= n)%nat -> forall (i : nat) f, frames !! i = Some f ->
      exists s', Frames.allocate_frame (Frames.deallocate_frame f s) =
        Done (if decide (Frames.frame_number f = Z.of_nat i) then Some f else None, s')).
Proof.
  intros frames.
  destruct (Frames.allocate_n_spec frames n (Frames.init map) log 0) as (a & l & Ha & Hd);
    [done|apply Frames.drawn_init|lia|].
  exists (a, l). rewrite Ha, drop_0, Nat.sub_0_r. split; [done|].
  intros Hn i f Hf. rewrite Nat.min_r in Hd by lia. by eapply Frames.release_exhausted.
Qed.

(** The totals [init] reports are the frames the iterator yields: for a
    map whose usable regions are page-aligned, [total_frames] counts the list
    [usable_frames] and [total_usable_size] is 4096 bytes for each of them. *)
Lemma frame_totals `{FrameOf} (map : list BootRegion)
    (Halign : Forall Frames.aligned_region (Frames.usable_regions (Frames.init map)))
    (Hsize : FRAME_SIZE * Z.of_nat (length (Frames.usable_frames (Frames.init map))) < 2 ^ 64) :
  Frames.total_frames (Frames.init map) = Z.of_nat (length (Frames.usable_frames (Frames.init map))) /\
  Frames.total_usable_size (Frames.init map) = FRAME_SIZE * Frames.total_frames (Frames.init map).
Proof.
  unfold Frames.usable_frames, Frames.total_frames, Frames.total_usable_size, FRAME_SIZE in *.
  rewrite length_fmap in *. destruct (Frames.sum_of_sizes _ Halign) as [H1 H2].
  unfold FRAME_SIZE in *.
  rewrite !Frames.foldl_wrap by done. rewrite H1, H2, !Z.add_0_l.
  rewrite !wrap64_small by (unfold is_u64; lia). done.
Qed.

(** *** At concrete inputs *)

(** [PhysFrame::containing_address] aligns down (a 52-bit address). *)
Definition align_down_frames : FrameOf := {|
  containing_address a := a mod 2 ^ 52 - a mod 2 ^ 52 mod 4096;
|}.

Lemma align_down_laws : @FrameOfLaws align_down_frames.
Proof. constructor; intros a; unfold is_frame; cbn; intros; Z.div_mod_to_equations; lia. Qed.

(** Three usable frames, from number 2 on. *)
Definition small_map : list BootRegion :=
  [mkBootRegion 0 0x2000 Reserved; mkBootRegion 0x2000 0x5000 Usable].

Definition small_state : PageFrameAllocator * MemoryLogger :=
  (mkPageFrameAllocator small_map 0 (replicate 8 false), Logger.new).

Definition small_requests : list Frames.request :=
  [Frames.Allocate; Frames.Allocate; Frames.Release 0x2000].

Lemma frames_exclusive_witness :
  let s1 := (done_or ([], small_state)
    (@Frames.serve align_down_frames small_requests [] small_state)).2 in
  let s2 := (done_or (None, s1) (@Frames.allocate_frame align_down_frames s1)).2 in
  Forall (Frames.is_used s1.1) [0x3000] /\ ~ Frames.is_used s1.1 0x4000 /\
  NoDup [0x4000; 0x3000] /\
  Forall (fun g => g ∈ @Frames.usable_frames align_down_frames small_state.1 /\ Frames.is_used s2.1 g)
    [0x4000; 0x3000].
Proof.
  intros s1 s2.
  apply (@frames_exclusive align_down_frames align_down_laws small_requests small_state s1 s2
    [0x3000] 0x4000).
  - repeat constructor; discriminate.
  - vm_compute. reflexivity.
  - vm_compute. reflexivity.
Defined.

Lemma frames_in_order_witness :
  let frames := [0x2000; 0x3000; 0x4000] in
  exists s, @Frames.allocate_n align_down_frames 4 (@Frames.init small_map, Logger.new) =
      Done ((Some <$> take 4 frames) ++ replicate (4 - length frames) None, s) /\
    ((length frames <= 4)%nat -> forall (i : nat) f, frames !! i = Some f ->
      exists s', @Frames.allocate_frame align_down_frames (Frames.deallocate_frame f s) =
        Done (if decide (Frames.frame_number f = Z.of_nat i) then Some f else None, s')).
Proof.
  apply (@frames_in_order align_down_frames align_down_laws small_map Logger.new 4).
  constructor.
  - apply (bool_decide_unpack _). vm_compute. exact I.
  - intros f Hf. change (f ∈ [0x2000; 0x3000; 0x4000]) in Hf.
    rewrite !elem_of_cons, elem_of_nil in Hf. by destruct Hf as [->|[->|[->|[]]]].
  - intros f Hf. change (f ∈ [0x2000; 0x3000; 0x4000]) in Hf.
    rewrite !elem_of_cons, elem_of_nil in Hf. by destruct Hf as [->|[->|[->|[]]]].
Defined.

Lemma frame_totals_witness :
  Frames.total_frames (Frames.init small_map) = 3 /\
  Frames.total_usable_size (Frames.init small_map) = FRAME_SIZE * 3.
Proof.
  apply (@frame_totals align_down_frames small_map).
  - repeat constructor; discriminate.
  - vm_compute. reflexivity.
Defined.
