(* ===== verification/Benchmark.v ===== *)
(** * The allocator benchmark (test_alloc_times of kernel/src/mem/memory.rs)

    Ten rounds of 800 allocations, each round giving back what it got.  The time
    stamp counter is an argument; the frames it leaves in use are those that
    were. *)
From S2P Require Import Prelude Text Logger Frames.

Section Benchmark.
Context `{FrameOf}.
Implicit Types (s : PageFrameAllocator * MemoryLogger).

(** The second loop of a round. *)
Definition release_all (frames : list (option Z)) s : PageFrameAllocator * MemoryLogger :=
  foldl (fun s opt_frame =>
    match opt_frame with
    | Some frame => Frames.deallocate_frame frame s
    | None => s
    end) s frames.

Definition test_round (n : nat) s : outcome (PageFrameAllocator * MemoryLogger) :=
  '(frames, s) ← Frames.allocate_n n s;
  Done (release_all frames s).

(** [test_alloc_times]: the text it prints and the allocator;
    [time_stamp_counter] returns [count1] and then [count2]. *)
Definition test_alloc_times (count1 count2 : Z) s :
    outcome (list Z * (PageFrameAllocator * MemoryLogger)) :=
  s ← for_each (seqZ 0 10) (fun _ s => test_round 800 s) s;
  Done (text "Clock ticks: " ++ decimal ((count2 -w count1) / 1000000) ++ text " M" ++ [0x0A], s).
End Benchmark.

Section Facts.
Context `{FrameOfLaws}.
Implicit Types (s : PageFrameAllocator * MemoryLogger).

Definition got (frames : list (option Z)) : list Z := omap id frames.

(** What [n] allocations return was not in use and is now. *)
Lemma allocate_n_used n : forall s frames s', Frames.allocate_n n s = Done (frames, s') ->
  Forall (fun f => is_frame f /\ ~ Frames.is_used s.1 f) (got frames) /\
  forall g, is_frame g -> Frames.is_used s'.1 g <-> g ∈ got frames \/ Frames.is_used s.1 g.
Proof.
  induction n as [|n IH]; intros s frames s' Ha; cbn in Ha.
  { simplify_eq. split; [constructor|]. set_solver. }
  bind_Done Ha. destruct r as [f s1]. bind_Done Ha. destruct r as [fs s2]. simplify_eq.
  apply IH in Hr0 as [Hf Hu]. destruct f as [f|].
  - destruct s as [a l], s1 as [a1 l1]. apply Frames.allocate_frame_used in Hr as (Hin & Hn & _ & Hu1).
    assert (Hfr : is_frame f) by by eapply Frames.usable_frame.
    cbn [got omap list_omap id fst] in *. split.
    + constructor; [done|]. eapply Forall_impl; [exact Hf|]. intros g [Hg Hgn]. split; [done|].
      intros Hgu. apply Hgn, Hu1; [apply Hg|by right].
    + intros g Hg. rewrite (Hu g Hg), (Hu1 g (proj1 Hg)). set_solver.
  - apply Frames.allocate_frame_None in Hr as ->. done.
Qed.

Lemma release_all_used frames : forall s, Forall is_frame (got frames) ->
  forall g, is_frame g ->
    Frames.is_used (release_all frames s).1 g <-> Frames.is_used s.1 g /\ g ∉ got frames.
Proof.
  induction frames as [|[f|] frames IH]; intros s Hf g Hg; cbn [release_all foldl] in *.
  - set_solver.
  - apply Forall_cons in Hf as [Hff Hf]. destruct s as [a l].
    destruct (Frames.deallocate_frame f (a, l)) as [a' l'] eqn:Hd.
    apply Frames.deallocate_frame_used in Hd as [_ Hu]; [|apply Hff|apply Hff].
    fold (release_all frames (a', l')). rewrite (IH (a', l') Hf g Hg). cbn [fst].
    rewrite (Hu g (proj1 Hg)). cbn [got omap list_omap id]. set_solver.
  - by apply IH.
Qed.

Lemma test_round_neutral n s s' : test_round n s = Done s' ->
  forall g, is_frame g -> Frames.is_used s'.1 g <-> Frames.is_used s.1 g.
Proof.
  unfold test_round. intros Ht g Hg. bind_Done Ht. destruct r as [frames s1]. simplify_eq.
  apply allocate_n_used in Hr as [Hf Hu].
  rewrite release_all_used, (Hu g Hg); [|eapply Forall_impl; [exact Hf|by intros ? []]|done].
  rewrite Forall_forall in Hf. split; [naive_solver|]. intros Hgu. split; [by right|].
  intros Hin. by apply (Hf g Hin).
Qed.

(** The benchmark leaves the frames in use as they were. *)
Lemma benchmark_neutral count1 count2 s shown s' :
  test_alloc_times count1 count2 s = Done (shown, s') ->
  forall g, is_frame g -> Frames.is_used s'.1 g <-> Frames.is_used s.1 g.
Proof.
  unfold test_alloc_times. intros Ht g Hg. bind_Done Ht. apply Done_inj in Ht. injection Ht as _ <-.
  revert s Hr. generalize (seqZ 0 10) as rounds. induction rounds as [|i rounds IH]; intros s Hr; cbn [for_each] in Hr.
  - by simplify_eq.
  - bind_Done Hr. rewrite (IH _ Hr). by eapply test_round_neutral.
Qed.
End Facts.
