(* ===== verification/Paging.v ===== *)
(** * Page tables (kernel/src/mem/memory.rs)

    The four-level tables in physical memory: creation, the recursive copy
    behind [create_kernel_only_pagetable], and the recursive release behind
    [free_user_pagetables].  A table is named by its physical address (the
    code reaches it at [phys_memory_offset + address]); physical memory holds
    512 entries at every frame, whatever they are. *)
From S2P Require Import Prelude Logger Frames.

(** [PageTableFlags]: the bits of the processor's entries. *)
Definition PRESENT : Z := 1.
Definition WRITABLE : Z := 2.
Definition USER_ACCESSIBLE : Z := 4.
Definition HUGE_PAGE : Z := 0x80.
Definition USER_FLAGS : Z := Z.lor (Z.lor PRESENT WRITABLE) USER_ACCESSIBLE.

Definition contains (flags bits : Z) : bool := bool_decide (Z.land flags bits = bits).

(** What memory.rs uses of the crate's [PageTableEntry]. *)
Class PageTableEntry (E : Type) := {
  pte_new : E;
  pte_is_unused : E -> bool;
  pte_addr : E -> Z;
  pte_flags : E -> Z;
  pte_set_addr : Z -> Z -> E -> E;
  pte_set_flags : Z -> E -> E;
  pte_frame : E -> option Z;
}.

(** Its documented behaviour; [flags_ok] are the values a [PageTableFlags] can
    have. *)
Class PageTableEntryLaws (E : Type) `{PageTableEntry E} := {
  flags_ok : Z -> Prop;
  flags_ok_entry e : flags_ok (pte_flags e);
  flags_ok_empty : flags_ok 0;
  flags_ok_user : flags_ok USER_FLAGS;
  flags_ok_kernel : flags_ok (Z.lor PRESENT WRITABLE);
  flags_ok_or f g : flags_ok f -> flags_ok g -> flags_ok (Z.lor f g);
  flags_ok_and f g : flags_ok f -> flags_ok g -> flags_ok (Z.land f g);
  pte_new_unused : pte_is_unused pte_new = true;
  pte_unused e : pte_is_unused e = true <-> pte_addr e = 0 /\ pte_flags e = 0;
  pte_addr_frame e : is_frame (pte_addr e);
  pte_addr_set a f e : is_frame a -> flags_ok f -> pte_addr (pte_set_addr a f e) = a;
  pte_flags_set a f e : is_frame a -> flags_ok f -> pte_flags (pte_set_addr a f e) = f;
  pte_addr_set_flags f e : flags_ok f -> pte_addr (pte_set_flags f e) = pte_addr e;
  pte_flags_set_flags f e : flags_ok f -> pte_flags (pte_set_flags f e) = f;
  pte_frame_spec e :
    pte_frame e =
      if contains (pte_flags e) PRESENT
      then if contains (pte_flags e) HUGE_PAGE then None else Some (pte_addr e)
      else None;
}.

(** [MemoryInfo]: the frame allocator, the memory that holds the tables, and
    the kernel's own level 4 table. *)
Record MemoryInfo (A E : Type) := mkMemoryInfo {
  frame_allocator : A;
  tables : Z -> Z -> E;
  kernel_table : Z;
}.
Arguments mkMemoryInfo {A E}.
Arguments frame_allocator {A E}.
Arguments tables {A E}.
Arguments kernel_table {A E}.

Module Paging.
Section Operations.
Context {A E : Type} `{FrameAllocator A} `{PageTableEntry E} `{FrameOf}.
Implicit Types (m : MemoryInfo A E) (T : Z -> Z -> E).

Definition with_allocator (a : A) m : MemoryInfo A E :=
  mkMemoryInfo a (tables m) (kernel_table m).
Definition with_tables T m : MemoryInfo A E :=
  mkMemoryInfo (frame_allocator m) T (kernel_table m).

(** [table\[index\] = e] on the table at [table]. *)
Definition set_entry (table index : Z) (e : E) T : Z -> Z -> E :=
  fun t i => if decide (t = table /\ i = index) then e else T t i.

(** [PageTable::zero] *)
Definition zero (table : Z) T : Z -> Z -> E :=
  fun t i => if decide (t = table) then pte_new else T t i.

(** The indices of a table, in order. *)
Definition indices : list Z := seqZ 0 512.

(** [create_pagetable] *)
Definition create_pagetable m : outcome (Z * MemoryInfo A E) :=
  '(frame, a) ← fa_allocate (frame_allocator m);
  match frame with
  | Some phys => Done (phys, with_tables (zero phys (tables m)) (with_allocator a m))
  | None => Panic
  end.

Definition is_leaf (level : nat) (e : E) : bool :=
  (level =? 1)%nat || contains (pte_flags e) HUGE_PAGE.

(** The body of the loop of [copy_pages_rec]. *)
Definition copy_entry (level : nat) (recurse : Z -> Z -> MemoryInfo A E -> outcome (MemoryInfo A E))
    (from_table to_table i : Z) m : outcome (MemoryInfo A E) :=
  let entry := tables m from_table i in
  if pte_is_unused entry then Done m
  else if is_leaf level entry then
    Done (with_tables (set_entry to_table i
      (pte_set_addr (pte_addr entry) (pte_flags entry) (tables m to_table i)) (tables m)) m)
  else
    '(new_table, m) ← create_pagetable m;
    let m := with_tables (set_entry to_table i
      (pte_set_addr new_table (pte_flags entry) (tables m to_table i)) (tables m)) m in
    recurse (pte_addr entry) new_table m.

(** [copy_pages_rec]; [below] is [level - 1], and at level 1 every entry is
    a leaf. *)
Fixpoint copy_pages_rec (below : nat) (from_table to_table : Z) m :
    outcome (MemoryInfo A E) :=
  for_each indices
    (copy_entry (S below)
      match below with
      | O => fun _ _ m => Done m
      | S below => copy_pages_rec below
      end from_table to_table) m.

(** [copy_pagetables] *)
Definition copy_pagetables (level_4_table : Z) m : outcome (Z * MemoryInfo A E) :=
  '(table, m) ← create_pagetable m;
  m ← copy_pages_rec 3 level_4_table table m;
  Done (table, m).

(** [create_kernel_only_pagetable] *)
Definition create_kernel_only_pagetable m : outcome (Z * MemoryInfo A E) :=
  copy_pagetables (kernel_table m) m.

(** [PhysFrame::from_start_address(..).unwrap()] *)
Definition from_start_address (physaddr : Z) : outcome Z :=
  if decide (physaddr mod 4096 = 0) then Done physaddr else Panic.

Definition unwrap {X} (o : option X) : outcome X :=
  match o with
  | Some x => Done x
  | None => Panic
  end.

(** The body of the loop of [free_pages_rec]. *)
Definition free_entry (level : nat) (recurse : Z -> A -> outcome A) (entry : E) (a : A) :
    outcome A :=
  if pte_is_unused entry then Done a
  else if is_leaf level entry then
    if contains (pte_flags entry) USER_FLAGS then
      frame ← unwrap (pte_frame entry);
      Done (fa_deallocate frame a)
    else Done a
  else recurse (pte_addr entry) a.

(** [free_pages_rec]; the tables are only read. *)
Fixpoint free_pages_rec (T : Z -> Z -> E) (level : nat) (physaddr : Z) (a : A) : outcome A :=
  match level with
  | O => Done (fa_deallocate (containing_address physaddr) a)
  | S below =>
      a ← for_each indices
            (fun i => free_entry level (free_pages_rec T below) (T physaddr i)) a;
      frame ← from_start_address physaddr;
      Done (fa_deallocate frame a)
  end.

(** [free_user_pagetables] *)
Definition free_user_pagetables (level_4_physaddr : Z) m : outcome (MemoryInfo A E) :=
  a ← free_pages_rec (tables m) 4 level_4_physaddr (frame_allocator m);
  Done (with_allocator a m).
End Operations.

(** ** What a tree of tables means *)
Section Trees.
Context {E : Type} `{PageTableEntryLaws E}.
Implicit Types (T : Z -> Z -> E) (e : E).

Definition index_ok (i : Z) : Prop := 0 <= i < 512.

(** An entry that points to a table of the level below. *)
Definition points (below : nat) e : bool :=
  negb (pte_is_unused e) && negb (is_leaf (S below) e).

(** The tables of the tree at [root], whose level is [below + 1]. *)
Fixpoint in_tree T (below : nat) (root p : Z) : Prop :=
  p = root \/
  match below with
  | O => False
  | S b => exists i, index_ok i /\ points below (T root i) = true /\
             in_tree T b (pte_addr (T root i)) p
  end.

(** The processor's walk from [root] along a path of indices: the frame
    mapped, the flags met on the way, and the indices left at a huge page. *)
Fixpoint walk T (below : nat) (root : Z) (path : list Z) {struct path} :
    option (Z * list Z * list Z) :=
  match path with
  | [] => None
  | i :: path =>
      let e := T root i in
      if pte_is_unused e then None
      else if is_leaf (S below) e then Some (pte_addr e, [pte_flags e], path)
      else match below with
           | O => None
           | S b => '(frame, flags, rest) ← walk T b (pte_addr e) path;
                    Some (frame, pte_flags e :: flags, rest)
           end
  end.

Definition path_ok (path : list Z) : Prop := Forall index_ok path.

(** Two memories that hold the same entries on a tree agree on it. *)
Lemma in_tree_ext below T T' root p :
  (forall q i, in_tree T below root q -> T' q i = T q i) ->
  in_tree T' below root p <-> in_tree T below root p.
Proof.
  revert root. induction below as [|b IH]; intros root Hsame; [done|].
  assert (Hroot : forall i, T' root i = T root i) by (intros; apply Hsame; by left).
  assert (Hsub : forall i, index_ok i -> points (S b) (T root i) = true ->
    in_tree T' b (pte_addr (T root i)) p <-> in_tree T b (pte_addr (T root i)) p).
  { intros i Hi Hp. apply IH. intros q j Hq. apply Hsame. right. by exists i. }
  simpl. apply or_iff_compat_l. split; intros (i & Hi & Hp & Ht); exists i; split; try done.
  - rewrite Hroot in *. split; [done|]. by apply Hsub.
  - rewrite Hroot. split; [done|]. by apply Hsub.
Qed.

Lemma walk_ext below T T' root path :
  path_ok path -> (forall q i, in_tree T below root q -> T' q i = T q i) ->
  walk T' below root path = walk T below root path.
Proof.
  revert root path. induction below as [|b IH]; intros root [|i path] Hpath Hsame; try done.
  - simpl. rewrite (Hsame root i) by (by left). done.
  - apply Forall_cons in Hpath as [Hi Hpath].
    simpl. rewrite (Hsame root i) by (by left).
    destruct (pte_is_unused (T root i)) eqn:Hu; [done|].
    destruct (is_leaf (S (S b)) (T root i)) eqn:Hl; [done|].
    rewrite IH; [done|done|]. intros q j Hq. apply Hsame. right. exists i. split; [done|].
    split; [|done]. unfold points. by rewrite Hu, Hl.
Qed.

(** The tables below entry [i] of a table whose level is [below + 1]. *)
Definition child T (below : nat) (root i p : Z) : Prop :=
  match below with
  | O => False
  | S b => points below (T root i) = true /\ in_tree T b (pte_addr (T root i)) p
  end.

Lemma in_tree_child T below root p :
  in_tree T below root p <-> p = root \/ exists i, index_ok i /\ child T below root i p.
Proof. destruct below; simpl; naive_solver. Qed.

Lemma in_tree_frame T below root p : is_frame root -> in_tree T below root p -> is_frame p.
Proof.
  revert root. induction below as [|b IH]; intros root Hr.
  - by intros [->|[]].
  - intros [->|(i & _ & _ & Hp)]; [done|]. by eapply IH, Hp; apply pte_addr_frame.
Qed.

Lemma child_frame T below root i p : child T below root i p -> is_frame p.
Proof.
  destruct below as [|b]; [done|]. intros [_ Hp]. by eapply in_tree_frame, Hp; apply pte_addr_frame.
Qed.

Lemma child_ext T T' below root i p :
  T' root i = T root i -> (forall q j, child T below root i q -> T' q j = T q j) ->
  child T' below root i p <-> child T below root i p.
Proof.
  intros Heq Hsame. destruct below as [|b]; [done|]. unfold child in *. rewrite Heq.
  destruct (points (S b) (T root i)) eqn:Hp; [|by split; intros []].
  apply and_iff_compat_l, in_tree_ext. auto.
Qed.

(** Every table is reached in one way, and through entries that are present. *)
Fixpoint is_tree T (below : nat) (root : Z) : Prop :=
  match below with
  | O => True
  | S b =>
      (forall i, index_ok i -> points below (T root i) = true ->
        contains (pte_flags (T root i)) PRESENT = true /\ is_tree T b (pte_addr (T root i))) /\
      (forall i, index_ok i -> ~ child T below root i root) /\
      (forall i j p, index_ok i -> index_ok j ->
        child T below root i p -> child T below root j p -> i = j)
  end.

Lemma is_tree_ext below : forall T T' root,
  (forall q i, in_tree T below root q -> T' q i = T q i) ->
  is_tree T below root -> is_tree T' below root.
Proof.
  induction below as [|b IH]; intros T T' root Hs Ht; [done|]. destruct Ht as (Hsub & Hself & Hone).
  assert (Hroot : forall i, T' root i = T root i) by (intros; apply Hs; by left).
  assert (Hch : forall i p, index_ok i -> child T' (S b) root i p <-> child T (S b) root i p).
  { intros i p Hi. apply child_ext; [done|]. intros q j Hq. apply Hs. apply in_tree_child. right. by exists i. }
  split; [|split].
  - intros i Hi. rewrite Hroot. intros Hp. destruct (Hsub i Hi Hp) as [Hpr Htr]. split; [done|].
    eapply IH; [|exact Htr]. intros q j Hq. apply Hs. right. by exists i.
  - intros i Hi. rewrite Hch by done. by apply Hself.
  - intros i j p Hi Hj. rewrite !Hch by done. by apply Hone.
Qed.

(** One entry of such a tree. *)
Definition entry_tree T (below : nat) (root i : Z) : Prop :=
  forall b, below = S b -> points below (T root i) = true ->
    contains (pte_flags (T root i)) PRESENT = true /\ is_tree T b (pte_addr (T root i)).

Lemma is_tree_entry T below root i : is_tree T below root -> index_ok i -> entry_tree T below root i.
Proof. intros Ht Hi b -> Hp. by apply Ht. Qed.

Lemma entry_tree_ext T T' below root i :
  T' root i = T root i -> (forall q j, child T below root i q -> T' q j = T q j) ->
  entry_tree T below root i -> entry_tree T' below root i.
Proof.
  intros He Hs Ht b -> Hp. rewrite He in *. destruct (Ht b eq_refl Hp) as [Hpr Htr].
  split; [done|]. eapply is_tree_ext; [|exact Htr]. intros q j Hq. by apply Hs.
Qed.

(** When two entries start the same walks. *)
Lemma walk_entry T T' below root root' i path :
  pte_is_unused (T' root' i) = pte_is_unused (T root i) ->
  pte_flags (T' root' i) = pte_flags (T root i) ->
  (points below (T root i) = false -> pte_addr (T' root' i) = pte_addr (T root i)) ->
  (forall b, below = S b -> points below (T root i) = true ->
    walk T' b (pte_addr (T' root' i)) path = walk T b (pte_addr (T root i)) path) ->
  walk T' below root' (i :: path) = walk T below root (i :: path).
Proof.
  intros Hunused Hflags Haddr Hsub. simpl. unfold points, is_leaf in *.
  rewrite Hunused, Hflags. destruct (pte_is_unused (T root i)); [done|].
  destruct (_ || contains _ _); [by rewrite Haddr|].
  destruct below as [|b]; [done|]. by rewrite (Hsub b).
Qed.
End Trees.

(** ** Copying *)
Section Copy.
Context {A E : Type} `{FrameAllocatorLaws A} `{PageTableEntryLaws E}.
Implicit Types (m : MemoryInfo A E) (T : Z -> Z -> E).

Definition mtaken m (p : Z) : Prop := taken (frame_allocator m) p.
Definition mused m (p : Z) : Prop := fa_used (frame_allocator m) p.

(** [m'] differs from [m] by the frames [new], now in use. *)
Record extends (new : Z -> Prop) m m' : Prop := {
  ext_usable g : fa_usable (frame_allocator m') g <-> fa_usable (frame_allocator m) g;
  ext_used g : is_frame g -> mused m' g <-> new g \/ mused m g;
  ext_kernel : kernel_table m' = kernel_table m;
}.

Lemma extends_taken new m m' g :
  extends new m m' -> is_frame g -> mtaken m g -> mtaken m' g.
Proof.
  unfold mtaken, taken. intros [Hus Hu _] Hg [Hm|Hm]; [left; apply Hu; [done|by right]|right; by rewrite Hus].
Qed.

Lemma extends_not_taken new m m' g :
  extends new m m' -> is_frame g -> ~ mtaken m' g -> ~ mtaken m g.
Proof. intros He Hg Hn Hm. by apply Hn, (extends_taken new m). Qed.

Lemma create_pagetable_spec m t m' :
  create_pagetable m = Done (t, m') ->
  is_frame t /\ ~ mtaken m t /\ tables m' = zero t (tables m) /\ extends (fun g => g = t) m m'.
Proof.
  unfold create_pagetable. intros Hc. bind_Done Hc.
  destruct r as [[f|] a]; [|done]. simplify_eq/=.
  apply fa_allocate_Some in Hr as (Hf & Hus & Hn & Hus' & Hu).
  split; [done|]. split; [by intros [?|?]|]. split; [done|]. by constructor.
Qed.

Lemma walk_child_ext T T' below root i path :
  path_ok path -> T' root i = T root i ->
  (forall q j, child T below root i q -> T' q j = T q j) ->
  walk T' below root (i :: path) = walk T below root (i :: path).
Proof.
  intros Hpath Heq Hsame. apply walk_entry; rewrite ?Heq; try done.
  intros b -> Hp. apply walk_ext; [done|]. intros q j Hq. apply Hsame. done.
Qed.

(** What copying entry [i] of [from] to the table [to] does. *)
Record entry_copied (below : nat) (from to i : Z) m m' : Prop := {
  ec_extends : extends (child (tables m') below to i) m m';
  ec_same p j : is_frame p -> mtaken m p -> ~ (p = to /\ j = i) ->
    tables m' p j = tables m p j;
  ec_new g : child (tables m') below to i g -> ~ mtaken m g;
  ec_walk path : path_ok path ->
    walk (tables m') below to (i :: path) = walk (tables m) below from (i :: path);
  ec_tree : entry_tree (tables m) below from i -> entry_tree (tables m') below to i;
}.

(** What copying the whole tree at [from] into the empty table [to] does. *)
Record tree_copied (below : nat) (from to : Z) m m' : Prop := {
  tc_extends : extends (fun g => exists i, index_ok i /\ child (tables m') below to i g) m m';
  tc_same p j : is_frame p -> mtaken m p -> p ≠ to -> tables m' p j = tables m p j;
  tc_new i g : index_ok i -> child (tables m') below to i g -> ~ mtaken m g;
  tc_walk path : path_ok path ->
    walk (tables m') below to path = walk (tables m) below from path;
  tc_tree : is_tree (tables m) below from -> is_tree (tables m') below to;
}.

(** When a tree can be copied into [to]. *)
Record copyable (below : nat) (from to : Z) m : Prop := {
  cp_zero : mtaken m 0;
  cp_to : is_frame to;
  cp_to_taken : mtaken m to;
  cp_from : is_frame from;
  cp_source p : in_tree (tables m) below from p -> mtaken m p /\ p ≠ to;
}.

Definition empty_table T (to : Z) : Prop :=
  forall i, index_ok i -> pte_is_unused (T to i) = true.

Lemma is_frame_0 : is_frame 0.
Proof. done. Qed.

Lemma points_spec below e :
  points below e = true <-> pte_is_unused e = false /\ is_leaf (S below) e = false.
Proof. unfold points. destruct (pte_is_unused e), (is_leaf _ e); naive_solver. Qed.

Lemma unused_same e e' :
  pte_addr e' = pte_addr e -> pte_flags e' = pte_flags e ->
  pte_is_unused e' = pte_is_unused e.
Proof.
  intros Ha Hf. pose proof (pte_unused e) as Hu. pose proof (pte_unused e') as Hu'.
  rewrite Ha, Hf, <-Hu in Hu'. destruct (pte_is_unused e), (pte_is_unused e'); naive_solver.
Qed.

Lemma child_not_points T below root i p :
  points below (T root i) = false -> ~ child T below root i p.
Proof. destruct below; simpl; [by intros ? ?|]. intros -> [? _]. done. Qed.

(** Entries that need no table: the target ends up as the source. *)
Lemma entry_copied_flat below from to i m m' :
  frame_allocator m' = frame_allocator m -> kernel_table m' = kernel_table m ->
  (forall p j, ~ (p = to /\ j = i) -> tables m' p j = tables m p j) ->
  points below (tables m from i) = false ->
  pte_addr (tables m' to i) = pte_addr (tables m from i) ->
  pte_flags (tables m' to i) = pte_flags (tables m from i) ->
  entry_copied below from to i m m'.
Proof.
  intros Ha Hk Hsame Hp Haddr Hflags.
  pose proof (unused_same _ _ Haddr Hflags) as Hunused.
  assert (Hp' : points below (tables m' to i) = false).
  { unfold points, is_leaf in *. by rewrite Hunused, Hflags. }
  constructor.
  - constructor; [by rewrite Ha|intros g _; unfold mused; rewrite Ha|done].
    split; [auto|]. intros [Hc|]; [by apply child_not_points in Hc|done].
  - intros p j _ _ Hne. by apply Hsame.
  - intros g Hc. by apply child_not_points in Hc.
  - intros path _. apply walk_entry; [done..|]. by rewrite Hp.
  - intros _ b -> Hp2. by rewrite Hp' in Hp2.
Qed.

(** The copy of entry [i] goes down: a new table [t] is linked, and the copy of
    the table below may start. *)
Record descended (b : nat) (from to i : Z) m (t : Z) m2 : Prop := {
  ds_new : ~ mtaken m t;
  ds_extends : extends (fun g => g = t) m m2;
  ds_same p j : p ≠ t -> ~ (p = to /\ j = i) -> tables m2 p j = tables m p j;
  ds_agree q j : in_tree (tables m) b (pte_addr (tables m from i)) q -> tables m2 q j = tables m q j;
  ds_addr : pte_addr (tables m2 to i) = t;
  ds_flags : pte_flags (tables m2 to i) = pte_flags (tables m from i);
  ds_below : copyable b (pte_addr (tables m from i)) t m2;
  ds_empty : empty_table (tables m2) t;
}.

Lemma descend b from to i m t m1 :
  copyable (S b) from to m -> index_ok i -> points (S b) (tables m from i) = true ->
  create_pagetable m = Done (t, m1) ->
  descended b from to i m t (with_tables (set_entry to i
    (pte_set_addr t (pte_flags (tables m from i)) (tables m1 to i)) (tables m1)) m1).
Proof.
  intros [Hzero Hto Htaken Hfrom Hsource] Hi Hpe Hr. set (e := tables m from i) in *. set (m2 := with_tables _ m1).
  apply create_pagetable_spec in Hr as (Ht & Hnew & HT1 & Hext1).
  assert (Htne : to ≠ t) by (by intros ->).
  assert (HT2 : forall p j, p ≠ t -> ~ (p = to /\ j = i) -> tables m2 p j = tables m p j).
  { intros p j Hpt Hne. cbn [m2 with_tables tables]. unfold set_entry.
    rewrite decide_False by done. rewrite HT1. unfold zero. by rewrite decide_False. }
  assert (Hsub : forall p, in_tree (tables m) b (pte_addr e) p -> mtaken m p /\ p ≠ to /\ p ≠ t).
  { intros p Hp. destruct (Hsource p) as [Hm Hne]; [right; by exists i|].
    split_and!; try done. by intros ->. }
  assert (Hagree : forall q j, in_tree (tables m) b (pte_addr e) q -> tables m2 q j = tables m q j).
  { intros q j Hq. destruct (Hsub q Hq) as (_ & ? & ?). apply HT2; naive_solver. }
  assert (Hext2 : extends (fun g => g = t) m m2) by (by destruct Hext1; constructor).
  assert (Hentry : tables m2 to i = pte_set_addr t (pte_flags e) (tables m1 to i))
    by (cbn [m2 with_tables tables]; unfold set_entry; by rewrite decide_True).
  constructor; try done.
  - rewrite Hentry. apply pte_addr_set; [done|apply flags_ok_entry].
  - rewrite Hentry. apply pte_flags_set; [done|apply flags_ok_entry].
  - constructor; [by apply (extends_taken (fun g => g = t) m)|done| |apply pte_addr_frame|].
    + left. apply (ext_used _ _ _ Hext2); auto.
    + intros p Hp. apply (in_tree_ext b _ _ _ _ Hagree) in Hp. destruct (Hsub p Hp) as (? & _ & ?).
      split; [|done]. eapply extends_taken; [done| |done].
      by eapply in_tree_frame, Hp; apply pte_addr_frame.
  - intros j Hj. cbn [m2 with_tables tables]. unfold set_entry. rewrite decide_False by naive_solver.
    rewrite HT1. unfold zero. rewrite decide_True by done. apply pte_new_unused.
Qed.

(** The copy of the table below completes the entry. *)
Lemma descended_copied b from to i m t m2 m' :
  copyable (S b) from to m -> index_ok i -> points (S b) (tables m from i) = true ->
  descended b from to i m t m2 -> tree_copied b (pte_addr (tables m from i)) t m2 m' ->
  entry_copied (S b) from to i m m'.
Proof.
  intros [Hzero Hto Htaken _ _] Hi Hpe [Hnew Hext2 HT2 Hagree Haddr Hflags _ _] [Hext3 Hsame3 Hnew3 Hwalk3 Htree3].
  set (e := tables m from i) in *. assert (Htne : to ≠ t) by (by intros ->).
  assert (He' : tables m' to i = tables m2 to i).
  { apply Hsame3; [done| |done]. by apply (extends_taken (fun g => g = t) m). }
  rewrite <-He' in Haddr, Hflags. apply points_spec in Hpe as Hspec. destruct Hspec as [Hu Hl].
  assert (Hunused : pte_is_unused (tables m' to i) = false).
  { apply not_true_iff_false. intros [Ha0 _]%pte_unused. apply Hnew. by rewrite <-Haddr, Ha0. }
  assert (Hp' : points (S b) (tables m' to i) = true).
  { apply points_spec. split; [done|]. unfold is_leaf in *. by rewrite Hflags. }
  assert (Hchild : forall g, child (tables m') (S b) to i g <->
    g = t \/ exists j, index_ok j /\ child (tables m') b t j g).
  { intros g. unfold child at 1. rewrite Hp', Haddr, in_tree_child. naive_solver. }
  constructor.
  - destruct Hext3 as [Hus Huse Hk]. constructor.
    + intros g. rewrite Hus. apply Hext2.
    + intros g Hg. rewrite Huse, Hchild, (ext_used _ _ _ Hext2 g Hg) by done. naive_solver.
    + rewrite Hk. apply Hext2.
  - intros p j Hp Hm Hne. assert (p ≠ t) by (by intros ->).
    rewrite Hsame3; [by apply HT2|done| |done]. by apply (extends_taken (fun g => g = t) m).
  - intros g [->|(j & Hj & Hg)]%Hchild; [done|].
    eapply extends_not_taken; [exact Hext2|by eapply child_frame|by eapply Hnew3].
  - intros path Hpath. apply walk_entry; fold e; [by rewrite Hunused|done|by rewrite Hpe|].
    intros b' [= <-] _. rewrite Haddr, Hwalk3 by done. by apply walk_ext.
  - intros Hsrc b' [= <-] _. destruct (Hsrc b eq_refl Hpe) as [Hpr Htr]. rewrite Hflags, Haddr.
    split; [done|]. apply Htree3. by eapply is_tree_ext.
Qed.

Lemma copy_entry_spec below recurse from to i m m' :
  copyable below from to m -> index_ok i -> pte_is_unused (tables m to i) = true ->
  (forall b, below = S b -> forall f t m1 m2, copyable b f t m1 -> empty_table (tables m1) t ->
    recurse f t m1 = Done m2 -> tree_copied b f t m1 m2) ->
  copy_entry (S below) recurse from to i m = Done m' ->
  entry_copied below from to i m m'.
Proof.
  intros Hcp Hi Hempty Hrec. unfold copy_entry.
  set (e := tables m from i). destruct (pte_is_unused e) eqn:Hu.
  { intros [= <-]. apply pte_unused in Hu as Hu0. apply pte_unused in Hempty as He0.
    apply entry_copied_flat; try done; fold e; [by unfold points; rewrite Hu|..].
    - destruct Hu0 as [-> _], He0 as [-> _]. done.
    - destruct Hu0 as [_ ->], He0 as [_ ->]. done. }
  destruct (is_leaf (S below) e) eqn:Hl.
  { intros [= <-]. apply entry_copied_flat; try done; cbn [with_tables tables]; fold e.
    - intros p j Hne. unfold set_entry. by rewrite decide_False.
    - unfold points. by rewrite Hl, andb_false_r.
    - unfold set_entry. rewrite decide_True by done.
      apply pte_addr_set; [apply pte_addr_frame|apply flags_ok_entry].
    - unfold set_entry. rewrite decide_True by done.
      apply pte_flags_set; [apply pte_addr_frame|apply flags_ok_entry]. }
  destruct below as [|b]; [done|]. intros Hc. bind_Done Hc. destruct r as [t m1].
  assert (Hpe : points (S b) e = true) by (by apply points_spec).
  pose proof (descend b from to i m t m1 Hcp Hi Hpe Hr) as Hd.
  eapply descended_copied; [done..|].
  eapply Hrec; [done|by eapply ds_below|by eapply ds_empty|exact Hc].
Qed.

Lemma indices_ok i : i ∈ indices <-> index_ok i.
Proof. unfold indices, index_ok. rewrite elem_of_seqZ. lia. Qed.

Lemma indices_split dn x rest : indices = dn ++ x :: rest -> index_ok x /\ x ∉ dn.
Proof.
  intros Heq. split.
  - apply indices_ok. rewrite Heq. set_solver.
  - assert (Hn : NoDup indices) by apply NoDup_seqZ. rewrite Heq in Hn.
    apply NoDup_app in Hn as (_ & Hn & _). intros Hx. apply (Hn x Hx). set_solver.
Qed.

(** The entries [dn] of [to] are copied, the others are still empty. *)
Record partly_copied (below : nat) (from to : Z) m (dn : list Z) m1 : Prop := {
  pc_extends : extends (fun g => exists i, i ∈ dn /\ child (tables m1) below to i g) m m1;
  pc_same p j : is_frame p -> mtaken m p -> p ≠ to -> tables m1 p j = tables m p j;
  pc_rest j : j ∉ dn -> tables m1 to j = tables m to j;
  pc_new i g : i ∈ dn -> child (tables m1) below to i g -> ~ mtaken m g;
  pc_walk i path : i ∈ dn -> path_ok path ->
    walk (tables m1) below to (i :: path) = walk (tables m) below from (i :: path);
  pc_tree i : i ∈ dn -> entry_tree (tables m) below from i -> entry_tree (tables m1) below to i;
  pc_apart i j g : i ∈ dn -> j ∈ dn ->
    child (tables m1) below to i g -> child (tables m1) below to j g -> i = j;
}.

Lemma partly_source below from to m dn m1 :
  copyable below from to m -> partly_copied below from to m dn m1 ->
  forall q j, in_tree (tables m) below from q -> tables m1 q j = tables m q j.
Proof.
  intros Hcp Hpc q j Hq. destruct (cp_source _ _ _ _ Hcp q Hq) as [Ht Hne].
  apply Hpc; [|done..]. eapply in_tree_frame, Hq. apply Hcp.
Qed.

Lemma partly_entry_source below from to m dn m1 i :
  copyable below from to m -> partly_copied below from to m dn m1 -> index_ok i ->
  entry_tree (tables m) below from i -> entry_tree (tables m1) below from i.
Proof.
  intros Hcp Hpc Hi. pose proof (partly_source _ _ _ _ _ _ Hcp Hpc) as Hs. apply entry_tree_ext.
  - apply Hs, in_tree_child. by left.
  - intros q j Hq. apply Hs, in_tree_child. right. by exists i.
Qed.

Lemma partly_copyable below from to m dn m1 :
  copyable below from to m -> partly_copied below from to m dn m1 -> copyable below from to m1.
Proof.
  intros Hcp Hpc. pose proof (partly_source _ _ _ _ _ _ Hcp Hpc) as Hagree.
  pose proof (fun g => extends_taken _ _ _ g (pc_extends _ _ _ _ _ _ Hpc)) as Hmore.
  constructor.
  - apply Hmore; [apply is_frame_0|apply Hcp].
  - apply Hcp.
  - apply Hmore; apply Hcp.
  - apply Hcp.
  - intros p Hp. apply (in_tree_ext below _ _ _ _ Hagree) in Hp.
    destruct (cp_source _ _ _ _ Hcp p Hp) as [Ht Hne]. split; [|done].
    apply Hmore; [|done]. eapply in_tree_frame, Hp. apply Hcp.
Qed.

(** Copying one more entry leaves the entries done before as they are. *)
Lemma partly_keep below from to m dn m1 x m2 i :
  copyable below from to m -> partly_copied below from to m dn m1 ->
  entry_copied below from to x m1 m2 -> i ∈ dn -> i ≠ x ->
  tables m2 to i = tables m1 to i /\
  forall q j, child (tables m1) below to i q -> tables m2 q j = tables m1 q j.
Proof.
  intros Hcp Hpc Hec Hi Hne. pose proof (partly_copyable _ _ _ _ _ _ Hcp Hpc) as Hcp1. split.
  - apply (ec_same _ _ _ _ _ _ Hec); [apply Hcp1..|]. by intros [_ ?].
  - intros q j Hq. assert (is_frame q) by (by eapply child_frame).
    apply (ec_same _ _ _ _ _ _ Hec); [done| |].
    + left. apply (pc_extends _ _ _ _ _ _ Hpc); [done|]. left. by exists i.
    + intros [-> _]. by apply (pc_new _ _ _ _ _ _ Hpc i to Hi Hq), (cp_to_taken _ _ _ _ Hcp).
Qed.

(** One more entry. *)
Section Step.
Context (below : nat) (from to x : Z) (m m1 m2 : MemoryInfo A E) (dn : list Z).
Hypothesis Hcp : copyable below from to m.
Hypothesis Hpc : partly_copied below from to m dn m1.
Hypothesis Hok : index_ok x.
Hypothesis Hx : x ∉ dn.
Hypothesis Hec : entry_copied below from to x m1 m2.

Lemma step_keep i : i ∈ dn ->
  tables m2 to i = tables m1 to i /\
  forall p j, child (tables m1) below to i p -> tables m2 p j = tables m1 p j.
Proof. intros Hi. eapply partly_keep; [done..|]. by intros ->. Qed.

Lemma step_child i g : i ∈ dn -> child (tables m2) below to i g <-> child (tables m1) below to i g.
Proof. intros Hi. destruct (step_keep i Hi). by apply child_ext. Qed.

Lemma step_extends :
  extends (fun g => exists i, i ∈ dn ++ [x] /\ child (tables m2) below to i g) m m2.
Proof.
  pose proof (pc_extends _ _ _ _ _ _ Hpc) as Hext1. pose proof (ec_extends _ _ _ _ _ _ Hec) as Hext2.
  constructor.
  - intros g. rewrite (ext_usable _ _ _ Hext2). apply Hext1.
  - intros g Hg. rewrite (ext_used _ _ _ Hext2 g Hg), (ext_used _ _ _ Hext1 g Hg).
    setoid_rewrite elem_of_app. setoid_rewrite list_elem_of_singleton. split.
    + intros [Hc|[(i & Hi & Hc)|]]; [left; exists x; auto| |auto].
      left. exists i. split; [auto|]. by apply step_child.
    + intros [(i & [Hi| ->] & Hc)|]; [|auto..]. right. left. exists i. split; [done|]. by apply step_child.
  - rewrite (ext_kernel _ _ _ Hext2). apply Hext1.
Qed.

Lemma step_apart i g :
  i ∈ dn -> child (tables m2) below to i g -> child (tables m2) below to x g -> False.
Proof.
  intros Hi Hci Hcx. apply (ec_new _ _ _ _ _ _ Hec g Hcx). left. apply (step_child i g Hi) in Hci.
  apply (ext_used _ _ _ (pc_extends _ _ _ _ _ _ Hpc) g); [by eapply child_frame|]. left. by exists i.
Qed.

Lemma partly_step : partly_copied below from to m (dn ++ [x]) m2.
Proof.
  pose proof (pc_extends _ _ _ _ _ _ Hpc) as Hext1.
  constructor.
  - apply step_extends.
  - intros p j Hp Ht Hpne. rewrite (ec_same _ _ _ _ _ _ Hec); [by apply Hpc|done| |by intros [? _]].
    by eapply extends_taken.
  - intros j Hj. rewrite elem_of_app, list_elem_of_singleton in Hj.
    pose proof (partly_copyable _ _ _ _ _ _ Hcp Hpc) as Hcp1.
    rewrite (ec_same _ _ _ _ _ _ Hec); [apply (pc_rest _ _ _ _ _ _ Hpc); naive_solver|apply Hcp1..|]. naive_solver.
  - intros i g [Hi|Hi%list_elem_of_singleton]%elem_of_app Hc.
    + apply (step_child i g Hi) in Hc. by eapply pc_new.
    + rewrite Hi in Hc. eapply extends_not_taken; [exact Hext1|by eapply child_frame|]. by eapply ec_new.
  - intros i path [Hi|Hi%list_elem_of_singleton]%elem_of_app Hpath.
    + destruct (step_keep i Hi) as [He Hsame]. rewrite (walk_child_ext (tables m1)) by done.
      by apply Hpc.
    + rewrite Hi, (ec_walk _ _ _ _ _ _ Hec) by done.
      apply walk_ext; [by constructor|]. by eapply partly_source.
  - intros i [Hi|Hi%list_elem_of_singleton]%elem_of_app Hsrc.
    + destruct (step_keep i Hi) as [He Hsame]. eapply entry_tree_ext; [done..|]. by apply Hpc.
    + rewrite Hi in Hsrc |- *. apply (ec_tree _ _ _ _ _ _ Hec). eapply partly_entry_source; done.
  - intros i j g [Hi|Hi%list_elem_of_singleton]%elem_of_app [Hj|Hj%list_elem_of_singleton]%elem_of_app Hci Hcj.
    + eapply (pc_apart _ _ _ _ _ _ Hpc i j g); [done..| |]; by apply step_child.
    + rewrite Hj in Hcj. by destruct (step_apart i g).
    + rewrite Hi in Hci. by destruct (step_apart j g).
    + by rewrite Hi, Hj.
Qed.
End Step.

Lemma copy_loop below recurse from to m m' :
  copyable below from to m -> empty_table (tables m) to ->
  (forall b, below = S b -> forall f t m1 m2, copyable b f t m1 -> empty_table (tables m1) t ->
    recurse f t m1 = Done m2 -> tree_copied b f t m1 m2) ->
  for_each indices (copy_entry (S below) recurse from to) m = Done m' ->
  partly_copied below from to m indices m'.
Proof.
  intros Hcp Hempty Hrec Hrun.
  refine (for_each_inv (partly_copied below from to m) _ _ _ _ _ _ Hrun).
  - constructor; [|done|done|by intros ? ? ?%elem_of_nil|by intros ? ? ?%elem_of_nil
      |by intros ? ?%elem_of_nil|by intros ? ? ? ?%elem_of_nil]. constructor; [done| |done].
    intros g _. split; [by right|]. by intros [(i & []%elem_of_nil & _)|].
  - intros dn x rest m1 m2 Hsplit Hpc Hf. apply indices_split in Hsplit as [Hx Hdn].
    apply (partly_step _ _ _ _ _ m1); [done..|].
    apply copy_entry_spec with recurse; [by eapply partly_copyable|done| |done|done].
    rewrite (pc_rest _ _ _ _ _ _ Hpc) by done. by apply Hempty.
Qed.

Lemma partly_all below from to m m' :
  copyable below from to m -> partly_copied below from to m indices m' -> tree_copied below from to m m'.
Proof.
  intros Hcp [[Hus Hu Hk] Hsame _ Hnew Hwalk Htree Hapart]. constructor; [|done|..].
  - constructor; [done| |done]. intros g Hg. rewrite (Hu g Hg). by setoid_rewrite indices_ok.
  - intros i g Hi. apply Hnew. by apply indices_ok.
  - intros [|i path] Hpath; [done|]. apply Forall_cons in Hpath as [? ?].
    apply Hwalk; [by apply indices_ok|done].
  - intros Hsrc. destruct below as [|b]; [done|]. split; [|split].
    + intros i Hi. apply (Htree i); [by apply indices_ok|by apply is_tree_entry|done].
    + intros i Hi Hc. apply (Hnew i to); [by apply indices_ok|done|apply Hcp].
    + intros i j g Hi Hj. by apply Hapart; apply indices_ok.
Qed.

Lemma copy_pages_rec_spec below : forall from to m m',
  copyable below from to m -> empty_table (tables m) to ->
  copy_pages_rec below from to m = Done m' -> tree_copied below from to m m'.
Proof.
  induction below as [|b IH]; intros from to m m' Hcp Hempty Hrun;
    (apply partly_all; [done|]).
  - by apply (copy_loop 0 (fun _ _ m => Done m)).
  - apply (copy_loop (S b) (copy_pages_rec b)); [done..| |done]. intros b' [= <-]. apply IH.
Qed.

(** When the tables at [root] are not in the hands of the allocator. *)
Record owned_tree (root : Z) m : Prop := {
  own_zero : mtaken m 0;
  own_root : is_frame root;
  own_tables p : in_tree (tables m) 3 root p -> mtaken m p;
}.

Lemma copy_pagetables_spec root m t m' :
  owned_tree root m -> copy_pagetables root m = Done (t, m') ->
  is_frame t /\ ~ mtaken m t /\
  extends (fun g => in_tree (tables m') 3 t g) m m' /\
  (forall g, in_tree (tables m') 3 t g -> ~ mtaken m g) /\
  (forall p j, is_frame p -> mtaken m p -> tables m' p j = tables m p j) /\
  (forall path, path_ok path -> walk (tables m') 3 t path = walk (tables m) 3 root path) /\
  (is_tree (tables m) 3 root -> is_tree (tables m') 3 t).
Proof.
  intros [Hzero Hroot Htables] Hrun. unfold copy_pagetables in Hrun. bind_Done Hrun.
  destruct r as [t1 m1]. bind_Done Hrun. simplify_eq.
  apply create_pagetable_spec in Hr as (Ht & Hnew & HT1 & Hext1).
  assert (Hagree : forall q j, in_tree (tables m) 3 root q -> tables m1 q j = tables m q j).
  { intros q j Hq. rewrite HT1. unfold zero. rewrite decide_False; [done|]. intros ->. by apply Hnew, Htables. }
  apply copy_pages_rec_spec in Hr0 as [Hext2 Hsame2 Hnew2 Hwalk2 Htree2].
  - split; [done|]. split; [done|]. split; [|split; [|split; [|split]]].
    + constructor.
      * intros g. rewrite (ext_usable _ _ _ Hext2). apply Hext1.
      * intros g Hg. rewrite (ext_used _ _ _ Hext2 g Hg), (ext_used _ _ _ Hext1 g Hg), in_tree_child.
        clear. tauto.
      * rewrite (ext_kernel _ _ _ Hext2). apply Hext1.
    + intros g [->|(i & Hi & Hc)]%in_tree_child; [done|].
      eapply extends_not_taken; [exact Hext1|by eapply child_frame|by eapply Hnew2].
    + intros p j Hp Hm. assert (p ≠ t) by (by intros ->).
      rewrite Hsame2; [|done| |done]; [|by eapply extends_taken].
      rewrite HT1. unfold zero. by rewrite decide_False.
    + intros path Hpath. rewrite Hwalk2 by done. by apply walk_ext.
    + intros Hsrc. apply Htree2. by eapply is_tree_ext.
  - constructor; [by apply (extends_taken _ _ _ 0 Hext1)|done| |done|].
    + left. apply (ext_used _ _ _ Hext1); auto.
    + intros p Hp. apply (in_tree_ext 3 _ _ _ _ Hagree) in Hp. split.
      * apply (extends_taken _ _ _ p Hext1); [by eapply in_tree_frame, Hp|by apply Htables].
      * intros ->. by apply Hnew, Htables.
  - intros j _. rewrite HT1. unfold zero. rewrite decide_True by done. apply pte_new_unused.
Qed.
End Copy.

(** ** Releasing *)
Section Free.
Context {A E : Type} `{FrameAllocatorLaws A} `{PageTableEntryLaws E} `{FrameOfLaws}.
Implicit Types (m : MemoryInfo A E) (T : Z -> Z -> E) (a : A).

(** The frames the release of an entry gives back: the frame of a leaf that
    is present, writable and for users, or what the table below gives. *)
Definition released_at (sub : Z -> Prop) (level : nat) (e : E) (g : Z) : Prop :=
  pte_is_unused e = false /\
  if is_leaf level e then contains (pte_flags e) USER_FLAGS = true /\ g = pte_addr e
  else sub (pte_addr e).

(** The frames the release of the tree at [root] gives back. *)
Fixpoint released T (below : nat) (root g : Z) : Prop :=
  g = root \/ exists i, index_ok i /\
    released_at match below with
                | O => fun _ => False
                | S b => fun table => released T b table g
                end (S below) (T root i) g.

(** No huge page is mapped for users (the code unwraps its frame). *)
Definition releasable_at (sub : Z -> Prop) (level : nat) (e : E) : Prop :=
  pte_is_unused e = false ->
  if is_leaf level e
  then contains (pte_flags e) USER_FLAGS = true -> contains (pte_flags e) HUGE_PAGE = false
  else sub (pte_addr e).

Fixpoint releasable T (below : nat) (root : Z) : Prop :=
  forall i, index_ok i ->
    releasable_at match below with
                  | O => fun _ => True
                  | S b => releasable T b
                  end (S below) (T root i).

(** [a'] is [a] with the frames [gone] given back. *)
Definition gives_back (gone : Z -> Prop) (a a' : A) : Prop :=
  (forall g, fa_usable a' g <-> fa_usable a g) /\
  forall g, is_frame g -> fa_used a' g <-> fa_used a g /\ ~ gone g.

Lemma contains_user_present flags :
  contains flags USER_FLAGS = true -> contains flags PRESENT = true.
Proof.
  unfold contains. intros Hu%bool_decide_eq_true. apply bool_decide_eq_true.
  change PRESENT with (Z.land USER_FLAGS 1) at 1. rewrite Z.land_assoc, Hu. done.
Qed.

Lemma gives_back_one f a : is_frame f -> gives_back (fun g => g = f) a (fa_deallocate f a).
Proof.
  intros Hf. split; [intros; apply fa_deallocate_usable|]. intros g Hg. by apply fa_deallocate_used.
Qed.

Lemma gives_back_trans P Q R a1 a2 a3 :
  gives_back P a1 a2 -> gives_back Q a2 a3 -> (forall g, is_frame g -> R g <-> P g \/ Q g) ->
  gives_back R a1 a3.
Proof.
  intros [Hu1 H1'] [Hu2 H2'] HR. split.
  - intros g. by rewrite Hu2.
  - intros g Hg. rewrite H2', H1', HR by done. tauto.
Qed.

Lemma gives_back_none P a : (forall g, ~ P g) -> gives_back P a a.
Proof. intros Hn. split; [done|]. intros g _. specialize (Hn g). tauto. Qed.

Lemma free_entry_spec (sub_ok : Z -> Prop) (sub : Z -> Z -> Prop) level recurse e a :
  releasable_at sub_ok level e ->
  (forall table a, is_leaf level e = false -> is_frame table -> sub_ok table -> exists a',
    recurse table a = Done a' /\ gives_back (sub table) a a') ->
  exists a', free_entry level recurse e a = Done a' /\
    gives_back (fun g => released_at (fun table => sub table g) level e g) a a'.
Proof.
  unfold releasable_at, released_at, free_entry. intros Hok Hrec.
  destruct (pte_is_unused e) eqn:Hu.
  { eexists. split; [done|]. apply gives_back_none. naive_solver. }
  specialize (Hok eq_refl). destruct (is_leaf level e) eqn:Hl.
  - destruct (contains (pte_flags e) USER_FLAGS) eqn:Huser.
    + rewrite pte_frame_spec, (contains_user_present _ Huser), (Hok eq_refl). cbn.
      eexists. split; [done|].
      destruct (gives_back_one (pte_addr e) a (pte_addr_frame e)) as [H1' H2'].
      split; [done|]. intros g Hg. rewrite H2' by done. naive_solver.
    + eexists. split; [done|]. apply gives_back_none. naive_solver.
  - destruct (Hrec (pte_addr e) a) as (a' & Hr & Hus & Hb); [done|apply pte_addr_frame|done|].
    exists a'. split; [done|]. split; [done|]. intros g Hg. rewrite Hb by done. naive_solver.
Qed.

Lemma free_pages_rec_spec T below : forall root a,
  is_frame root -> releasable T below root ->
  exists a', free_pages_rec T (S below) root a = Done a' /\ gives_back (released T below root) a a'.
Proof.
  induction below as [below IH] using lt_wf_ind. intros root a Hroot Hok.
  set (sub g := match below with O => fun _ => False | S b => fun table => released T b table g end).
  destruct (for_each_total
    (fun dn a1 => gives_back (fun g => exists i, i ∈ dn /\
       released_at (sub g) (S below) (T root i) g) a a1)
    (fun i => free_entry (S below) (free_pages_rec T below) (T root i)) indices a)
    as (a' & Hrun & Hback).
  - apply gives_back_none. by intros g (i & []%elem_of_nil & _).
  - intros dn x rest a1 Hsplit Hback. apply indices_split in Hsplit as [Hx _].
    destruct (free_entry_spec
      match below with O => fun _ => True | S b => releasable T b end
      (fun table g => sub g table) (S below) (free_pages_rec T below) (T root x) a1)
      as (a2 & Hf & Hback2).
    + destruct below; by apply Hok.
    + intros table a3 Hl Ht Hs. destruct below as [|b]; [done|]. by apply (IH b); [lia|..].
    + exists a2. split; [done|]. eapply gives_back_trans; [exact Hback|exact Hback2|].
      intros g _. setoid_rewrite elem_of_app. setoid_rewrite list_elem_of_singleton.
      clear. naive_solver.
  - cbn [free_pages_rec]. rewrite Hrun. cbn.
    unfold from_start_address. rewrite decide_True by apply Hroot.
    eexists. split; [done|]. eapply gives_back_trans; [exact Hback|by apply gives_back_one|].
    intros g _. unfold sub. destruct below; cbn [released]; setoid_rewrite indices_ok; tauto.
Qed.

(** No walk ends at a leaf that is present, writable and for users. *)
Definition no_user_leaf T (below : nat) (root : Z) : Prop :=
  forall path frame flags rest fl, path_ok path ->
    walk T below root path = Some (frame, flags, rest) -> last flags = Some fl ->
    contains fl USER_FLAGS = false.

Lemma no_user_leaf_entry T below root i :
  no_user_leaf T below root -> index_ok i -> pte_is_unused (T root i) = false ->
  if is_leaf (S below) (T root i) then contains (pte_flags (T root i)) USER_FLAGS = false
  else forall b, below = S b -> no_user_leaf T b (pte_addr (T root i)).
Proof.
  intros Hn Hi Hu. destruct (is_leaf (S below) (T root i)) eqn:Hl.
  - apply (Hn [i] (pte_addr (T root i)) [pte_flags (T root i)] []); [by constructor| |done].
    simpl. by rewrite Hu, Hl.
  - intros b -> path frame flags rest fl Hpath Hw Hlast.
    apply (Hn (i :: path) frame (pte_flags (T root i) :: flags) rest fl); [by constructor| |].
    + simpl. by rewrite Hu, Hl, Hw.
    + by rewrite last_cons, Hlast.
Qed.

Lemma no_user_leaf_released T below : forall root,
  no_user_leaf T below root ->
  releasable T below root /\ forall g, released T below root g <-> in_tree T below root g.
Proof.
  induction below as [|b IH]; intros root Hn; split.
  - intros i Hi Hu. pose proof (no_user_leaf_entry _ _ _ _ Hn Hi Hu) as He.
    cbn in He |- *. by rewrite He.
  - intros g. simpl. unfold released_at. split; [|naive_solver].
    intros [|(i & Hi & Hu & Hr)]; [by left|].
    pose proof (no_user_leaf_entry _ _ _ _ Hn Hi Hu) as He. cbn in He, Hr.
    rewrite He in Hr. by destruct Hr.
  - intros i Hi Hu. pose proof (no_user_leaf_entry _ _ _ _ Hn Hi Hu) as He.
    destruct (is_leaf _ _); [by rewrite He|]. apply IH. by apply He.
  - intros g. cbn [released in_tree]. apply or_iff_compat_l.
    split; intros (i & Hi & Hr); exists i; (split; [done|]).
    + destruct Hr as [Hu Hr]. pose proof (no_user_leaf_entry _ _ _ _ Hn Hi Hu) as He.
      destruct (is_leaf _ _) eqn:Hl; [by rewrite He in Hr; destruct Hr|].
      split; [by apply points_spec|]. apply IH; auto.
    + destruct Hr as [[Hu Hl]%points_spec Hr]. unfold released_at.
      pose proof (no_user_leaf_entry _ _ _ _ Hn Hi Hu) as He. rewrite Hl in He |- *.
      split; [done|]. apply IH; auto.
Qed.
End Free.
End Paging.

(** ** Properties *)

Section Properties.
Context {A E : Type} `{FrameAllocatorLaws A} `{PageTableEntryLaws E} `{FrameOfLaws}.
Implicit Types (m : MemoryInfo A E).

(** C19: the copy of a page table is a copy.  If the frame allocator does not
    own the source's tables, the new table translates every address to the
    same frame with the same permissions at every level as the source, the
    source itself is left as it was, and no table of the new tree was in use
    before. *)
Theorem copy_translates m root t m'
    (Hown : Paging.owned_tree root m)
    (Hcopy : Paging.copy_pagetables root m = Done (t, m')) :
  (forall path, Paging.path_ok path ->
    Paging.walk (tables m') 3 t path = Paging.walk (tables m) 3 root path /\
    Paging.walk (tables m') 3 root path = Paging.walk (tables m) 3 root path) /\
  (forall p, Paging.in_tree (tables m') 3 t p -> ~ taken (frame_allocator m) p).
Proof.
  pose proof (Paging.copy_pagetables_spec root m t m' Hown Hcopy)
    as (_ & _ & _ & Hnew & Hsame & Hwalk & _).
  split; [|exact Hnew]. intros path Hpath. split; [by apply Hwalk|].
  apply Paging.walk_ext; [done|]. intros q i Hq.
  apply Hsame; [eapply Paging.in_tree_frame, Hq; apply Hown|by apply Hown].
Qed.

(** Releasing an address space.  When no huge page is mapped for users,
    [free_user_pagetables] succeeds and gives back exactly the tables of the
    tree and the frames that some leaf maps present, writable and for users;
    every other frame stays as it was. *)
Lemma free_gives_back m root
    (Hroot : is_frame root) (Hok : Paging.releasable (tables m) 3 root) :
  exists m', Paging.free_user_pagetables root m = Done m' /\ tables m' = tables m /\
    forall g, is_frame g ->
      fa_used (frame_allocator m') g <->
      fa_used (frame_allocator m) g /\ ~ Paging.released (tables m) 3 root g.
Proof.
  destruct (Paging.free_pages_rec_spec (tables m) 3 root (frame_allocator m))
    as (a' & Hf & _ & Hu); [done..|].
  unfold Paging.free_user_pagetables. rewrite Hf. eexists. split; [done|]. by split.
Qed.

(** Creating a kernel-only address space and dropping it again leaks
    nothing and frees nothing else: if the kernel maps no page present,
    writable and for users, the frames in use are the same as before. *)
Lemma pagetable_roundtrip m t m'
    (Hown : Paging.owned_tree (kernel_table m) m)
    (Hkernel : Paging.no_user_leaf (tables m) 3 (kernel_table m))
    (Hcreate : Paging.create_kernel_only_pagetable m = Done (t, m')) :
  exists m'', Paging.free_user_pagetables t m' = Done m'' /\
    forall g, is_frame g ->
      fa_used (frame_allocator m'') g <-> fa_used (frame_allocator m) g.
Proof.
  pose proof (Paging.copy_pagetables_spec _ _ _ _ Hown Hcreate)
    as (Ht & Hnew & Hext & Hfresh & _ & Hwalk & _).
  destruct (Paging.no_user_leaf_released (tables m') 3 t) as [Hok Hrel].
  { intros path frame flags rest fl Hpath. rewrite Hwalk by done. by apply Hkernel. }
  destruct (Paging.free_pages_rec_spec (tables m') 3 t (frame_allocator m'))
    as (a' & Hf & _ & Hu); [done..|].
  unfold Paging.free_user_pagetables. rewrite Hf. eexists. split; [done|].
  intros g Hg. cbn [frame_allocator Paging.with_allocator mbind outcome_bind].
  rewrite Hu, Hrel by done. pose proof (Paging.ext_used _ _ _ Hext g Hg) as Huse.
  unfold Paging.mused in Huse. rewrite Huse.
  split; [tauto|]. intros Hm. split; [auto|]. intros Hin. apply (Hfresh g Hin). by left.
Qed.
End Properties.

(** *** At concrete inputs *)

(** An entry as the 64-bit word of the processor: address in bits 12 to 51,
    flags in the others. *)
Definition word_entry : PageTableEntry Z := {|
  pte_new := 0;
  pte_is_unused e := bool_decide (e = 0);
  pte_addr e := e mod 2 ^ 52 - e mod 4096;
  pte_flags e := e - (e mod 2 ^ 52 - e mod 4096);
  pte_set_addr a f _ := a + f;
  pte_set_flags f e := (e mod 2 ^ 52 - e mod 4096) + f;
  pte_frame e :=
    let flags := e - (e mod 2 ^ 52 - e mod 4096) in
    if contains flags PRESENT
    then if contains flags HUGE_PAGE then None else Some (e mod 2 ^ 52 - e mod 4096)
    else None;
|}.

#[local] Existing Instances word_entry align_down_frames align_down_laws.

#[local] Program Instance word_entry_laws : PageTableEntryLaws Z := {|
  flags_ok f := f mod 2 ^ 52 = f mod 4096;
|}.
Next Obligation. intros e. cbn. Z.div_mod_to_equations. lia. Qed.
Next Obligation. done. Qed.
Next Obligation. done. Qed.
Next Obligation. done. Qed.
Next Obligation.
  cbn. change 4096 with (2 ^ 12). intros f g. rewrite <-!Z.land_ones by lia. intros Hf Hg.
  by rewrite !Z.land_lor_distr_l, Hf, Hg.
Qed.
Next Obligation.
  cbn. change 4096 with (2 ^ 12). intros f g. rewrite <-!Z.land_ones by lia. intros Hf Hg.
  by rewrite <-!Z.land_assoc, Hg.
Qed.
Next Obligation. done. Qed.
Next Obligation.
  intros e. cbn. rewrite bool_decide_eq_true. Z.div_mod_to_equations. lia.
Qed.
Next Obligation. intros e. unfold is_frame. cbn. Z.div_mod_to_equations. lia. Qed.
Next Obligation. intros a f e [Ha Hb] Hf. cbn in *. Z.div_mod_to_equations. lia. Qed.
Next Obligation. intros a f e [Ha Hb] Hf. cbn in *. Z.div_mod_to_equations. lia. Qed.
Next Obligation. intros f e Hf. cbn in *. Z.div_mod_to_equations. lia. Qed.
Next Obligation. intros f e Hf. cbn in *. Z.div_mod_to_equations. lia. Qed.
Next Obligation. done. Qed.

(** A kernel mapping of one huge page: the level 4 table at 0x9000 points to
    the level 3 table at 0x8000, whose entry 2 maps 0x40000000. *)
Definition demo_tables (t i : Z) : Z :=
  if decide (t = 0x9000 /\ i = 5) then 0x8003
  else if decide (t = 0x8000 /\ i = 2) then 0x40000083
  else 0.

Definition demo_memory : MemoryInfo (PageFrameAllocator * MemoryLogger) Z :=
  mkMemoryInfo small_state demo_tables 0x9000.

Lemma demo_leaf b i : Paging.points (E := Z) b (demo_tables 0x8000 i) = false.
Proof.
  unfold demo_tables. destruct (decide (0x8000 = 0x9000 /\ i = 5)); [lia|].
  destruct (decide (0x8000 = 0x8000 /\ i = 2)); [|done].
  destruct b; vm_compute; reflexivity.
Qed.

Lemma demo_root i : i ≠ 5 -> demo_tables 0x9000 i = 0.
Proof.
  intros Hi. unfold demo_tables. destruct (decide (0x9000 = 0x9000 /\ i = 5)); [lia|].
  destruct (decide (0x9000 = 0x8000 /\ i = 2)); [lia|done].
Qed.

Lemma demo_tree p : Paging.in_tree (E := Z) demo_tables 3 0x9000 p -> p = 0x9000 \/ p = 0x8000.
Proof.
  intros [->|(i & _ & Hp & Ht)]; [by left|]. right.
  destruct (decide (i = 5)) as [->|Hi]; [|rewrite demo_root in Hp by done; by vm_compute in Hp].
  destruct Ht as [->|(j & _ & Hp' & _)]; [done|].
  change (pte_addr (demo_tables 0x9000 5)) with 0x8000 in Hp'. by rewrite demo_leaf in Hp'.
Qed.

Lemma demo_not_usable p : p ∉ [0x2000; 0x3000; 0x4000] -> Paging.mtaken demo_memory p.
Proof. intros Hp. by right. Qed.

Lemma demo_owned : Paging.owned_tree 0x9000 demo_memory.
Proof.
  constructor; [|done|].
  - apply demo_not_usable. rewrite !elem_of_cons, elem_of_nil. lia.
  - intros p [->| ->]%demo_tree; apply demo_not_usable; rewrite !elem_of_cons, elem_of_nil; lia.
Qed.

Definition demo_copied : Z * MemoryInfo (PageFrameAllocator * MemoryLogger) Z :=
  done_or (0, demo_memory) (Paging.copy_pagetables 0x9000 demo_memory).

Lemma demo_copy : Paging.copy_pagetables 0x9000 demo_memory = Done (0x2000, demo_copied.2).
Proof. vm_compute. reflexivity. Qed.

(** The copy uses frames 0x2000 and 0x3000, and entry 5 leads to the page. *)
Lemma copy_translates_witness :
  Paging.walk (tables demo_copied.2) 3 0x2000 [5; 2; 7; 8] =
    Some (0x40000000, [3; 0x83], [7; 8]) /\
  (forall path, Paging.path_ok path ->
    Paging.walk (tables demo_copied.2) 3 0x2000 path = Paging.walk demo_tables 3 0x9000 path /\
    Paging.walk (tables demo_copied.2) 3 0x9000 path = Paging.walk demo_tables 3 0x9000 path) /\
  (forall p, Paging.in_tree (tables demo_copied.2) 3 0x2000 p -> ~ taken small_state p).
Proof.
  split; [vm_compute; reflexivity|].
  apply (copy_translates demo_memory 0x9000 0x2000 demo_copied.2 demo_owned demo_copy).
Defined.

Lemma demo_releasable : Paging.releasable (E := Z) demo_tables 3 0x9000.
Proof.
  intros i Hi Hu. destruct (decide (i = 5)) as [->|Hne]; [|rewrite demo_root in Hu by done; by vm_compute in Hu].
  intros j Hj Hu'. change (pte_addr (demo_tables 0x9000 5)) with 0x8000 in *.
  unfold demo_tables in *. destruct (decide (0x8000 = 0x9000 /\ j = 5)); [lia|].
  by destruct (decide (0x8000 = 0x8000 /\ j = 2)).
Qed.

Lemma free_gives_back_witness :
  exists m', Paging.free_user_pagetables 0x9000 demo_memory = Done m' /\ tables m' = demo_tables /\
    forall g, is_frame g ->
      fa_used (frame_allocator m') g <->
      fa_used small_state g /\ ~ Paging.released demo_tables 3 0x9000 g.
Proof. apply (free_gives_back demo_memory 0x9000); [done|apply demo_releasable]. Defined.

Lemma demo_no_user_leaf : Paging.no_user_leaf (E := Z) demo_tables 3 0x9000.
Proof.
  intros [|i path] frame flags rest fl Hpath Hw Hlast; [done|]. simpl in Hw.
  destruct (decide (i = 5)) as [->|Hne]; [|rewrite demo_root in Hw by done; by vm_compute in Hw].
  change (demo_tables 0x9000 5) with 0x8003 in Hw. destruct path as [|j path]; [done|].
  change (('(frame, flags, rest) ← Paging.walk demo_tables 2 0x8000 (j :: path);
           Some (frame, 3 :: flags, rest)) = Some (frame, flags, rest)) in Hw.
  cbn [Paging.walk] in Hw. unfold demo_tables in Hw.
  destruct (decide (0x8000 = 0x9000 /\ j = 5)); [lia|].
  destruct (decide (0x8000 = 0x8000 /\ j = 2)); [|done].
  vm_compute in Hw. simplify_eq. simpl in Hlast. by simplify_eq.
Qed.

Lemma pagetable_roundtrip_witness :
  exists m'', Paging.free_user_pagetables 0x2000 demo_copied.2 = Done m'' /\
    forall g, is_frame g -> fa_used (frame_allocator m'') g <-> fa_used small_state g.
Proof.
  apply (pagetable_roundtrip demo_memory 0x2000 demo_copied.2 demo_owned demo_no_user_leaf demo_copy).
Defined.
