(* ===== verification/UserStack.v ===== *)
(** * User stacks (kernel/src/mem/memory.rs)

    [allocate_user_stack], [free_user_stack] and the functions on the active
    page table next to them.  A user stack is ten pages of the level 1 table
    reached through the indices 6, 0, 0; slot [n] is the entries [8n + 1] to
    [8n + 10]. *)
From S2P Require Import Prelude Text Logger Frames Paging.

Definition USER_STACK_PAGE_INDEX : list Z := [6; 0; 0].

(** What memory.rs uses of the crate's [VirtAddr]. *)
Class VirtAddr := {
  p4_index : Z -> Z;
  p3_index : Z -> Z;
  p2_index : Z -> Z;
  p1_index : Z -> Z;
}.

(** The [Debug] texts of the crate's types. *)
Class DebugPages := {
  debug_virt_addr : Z -> list Z;
  debug_flags : Z -> list Z;
}.

Class VirtAddrLaws `{VirtAddr} := {
  p4_index_spec a : p4_index a = a / 2 ^ 39 mod 512;
  p3_index_spec a : p3_index a = a / 2 ^ 30 mod 512;
  p2_index_spec a : p2_index a = a / 2 ^ 21 mod 512;
  p1_index_spec a : p1_index a = a / 2 ^ 12 mod 512;
}.

Module UserStack.
Section Operations.
Context {A E : Type} `{FrameAllocator A} `{PageTableEntry E} `{VirtAddr}.
Implicit Types (m : MemoryInfo A E) (T : Z -> Z -> E).

Definition N : Z := 10.

(** [table\[index\]], which panics from 512 on. *)
Definition entry_at T (table index : Z) : outcome E :=
  if decide (0 <= index < 512) then Done (T table index) else Panic.

Definition put (table index : Z) (e : E) m : MemoryInfo A E :=
  Paging.with_tables (Paging.set_entry table index e (tables m)) m.

(** The first loop of [allocate_user_stack]: down to the level 1 table,
    creating the tables that are missing. *)
Fixpoint stack_table (path : list Z) (table : Z) m : outcome (Z * MemoryInfo A E) :=
  match path with
  | [] => Done (table, m)
  | index :: path =>
      entry ← entry_at (tables m) table index;
      '(entry, m) ←
        (if pte_is_unused entry then
           '(new_table, m) ← Paging.create_pagetable m;
           let entry := pte_set_addr new_table USER_FLAGS (tables m table index) in
           Done (entry, put table index entry m)
         else Done (entry, m));
      stack_table path (pte_addr entry) m
  end.

(** [(first..last).all(|index| table\[index\].is_unused())] *)
Fixpoint all_unused T (table : Z) (range : list Z) : outcome bool :=
  match range with
  | [] => Done true
  | index :: range =>
      entry ← entry_at T table index;
      if pte_is_unused entry then all_unused T table range else Done false
  end.

(** The loop that maps the pages of a slot; [?] leaves it on an error. *)
Fixpoint map_pages (table first : Z) (js : list Z) m :
    outcome (result unit string * MemoryInfo A E) :=
  match js with
  | [] => Done (Ok tt, m)
  | j :: js =>
      entry ← entry_at (tables m) table (first + j);
      '(frame, a) ← fa_allocate (frame_allocator m);
      let m := Paging.with_allocator a m in
      match frame with
      | None => Done (Err "Failed to allocate frame"%string, m)
      | Some frame =>
          map_pages table first js
            (put table (first + j) (pte_set_addr frame USER_FLAGS entry) m)
      end
  end.

Definition slot_address (n : Z) : Z :=
  Z.shiftl 6 39 + Z.shiftl 0 30 + Z.shiftl 0 21 + Z.shiftl (n * 8) 12.

Definition slot_range (n : Z) : list Z := seqZ (n * 8 + 1) N.

(** The search over the 64 slots, from [n_start] on. *)
Fixpoint find_slot (table n_start : Z) (slots : list Z) m :
    outcome (result (Z * Z) string * MemoryInfo A E) :=
  match slots with
  | [] => Done (Err "All thread stack slots full"%string, m)
  | i :: slots =>
      let n := (n_start +w i) mod 64 in
      free ← all_unused (tables m) table (slot_range n);
      if (free : bool) then
        '(mapped, m) ← map_pages table (n * 8) (seqZ 1 N) m;
        match mapped with
        | Err e => Done (Err e, m)
        | Ok _ => Done (Ok (slot_address n + 4096, slot_address n + (N + 1) * 4096), m)
        end
      else find_slot table n_start slots m
  end.

(** [allocate_user_stack]; [n_start] is what [unique_id] returned. *)
Definition allocate_user_stack (level_4_table n_start : Z) m :
    outcome (result (Z * Z) string * MemoryInfo A E) :=
  '(table, m) ← stack_table USER_STACK_PAGE_INDEX level_4_table m;
  find_slot table n_start (seqZ 0 64) m.

(** [active_level_1_table_containing]; [active] is CR3. *)
Definition active_level_1_table_containing (active addr : Z) m : Z :=
  foldl (fun table index => pte_addr (tables m table index)) active
    [p4_index addr; p3_index addr; p2_index addr].

(** The body of the loop of [free_user_stack]. *)
Definition free_stack_entry (table index : Z) m : outcome (MemoryInfo A E) :=
  entry ← entry_at (tables m) table index;
  m ← (if contains (pte_flags entry) WRITABLE then
         frame ← Paging.unwrap (pte_frame entry);
         Done (Paging.with_allocator (fa_deallocate frame (frame_allocator m)) m)
       else Done m);
  Done (put table index (pte_set_flags 0 entry) m).

(** [((iend - 10)..=iend).rev()]; the subtraction is on usize. *)
Definition free_range (iend : Z) : list Z :=
  reverse (seqZ (iend -w 10) (iend - (iend -w 10) + 1)).

(** [free_user_stack] *)
Definition free_user_stack (active stack_end : Z) m :
    outcome (result unit string * MemoryInfo A E) :=
  let addr := stack_end -w 1 in
  let table := active_level_1_table_containing active addr m in
  m ← for_each (free_range (p1_index addr)) (free_stack_entry table) m;
  Done (Ok tt, m).

(** [allocate_missing_ondemand_frame], with the line it prints. *)
Definition allocate_missing_ondemand_frame `{DebugPages} (active addr : Z) m :
    outcome (result unit string * list Z * MemoryInfo A E) :=
  let table := active_level_1_table_containing active addr m in
  let entry := tables m table (p1_index addr) in
  if decide (pte_flags entry ≠ Z.lor PRESENT USER_ACCESSIBLE) then
    Done (Err "Error: Unexpected table flags"%string,
      text "Unexpected flags: " ++ debug_flags (pte_flags entry) ++ text " addr: " ++
        debug_virt_addr addr ++ [0x0A], m)
  else
    '(frame, a) ← fa_allocate (frame_allocator m);
    let m := Paging.with_allocator a m in
    match frame with
    | None => Done (Err "Could not allocate frame"%string, [], m)
    | Some frame =>
        Done (Ok tt, [], put table (p1_index addr) (pte_set_addr frame USER_FLAGS entry) m)
    end.
End Operations.

Section Facts.
Context {A E : Type} `{FrameAllocatorLaws A} `{PageTableEntryLaws E} `{VirtAddrLaws}.
Implicit Types (m : MemoryInfo A E) (T : Z -> Z -> E).

Lemma entry_at_in T table index :
  0 <= index < 512 -> entry_at T table index = Done (T table index).
Proof. intros. unfold entry_at. by rewrite decide_True. Qed.

Lemma all_unused_true T table range :
  all_unused T table range = Done true ->
  forall i, i ∈ range -> 0 <= i < 512 /\ pte_is_unused (T table i) = true.
Proof.
  induction range as [|j range IH]; intros Hrun i Hi; [by apply elem_of_nil in Hi|].
  simpl in Hrun. bind_Done Hrun. unfold entry_at in Hr. case_decide; simplify_eq.
  destruct (pte_is_unused (T table j)) eqn:Hu; [|done].
  apply elem_of_cons in Hi as [->|Hi]; [done|by apply IH].
Qed.

(** The test stops at the first entry in use. *)
Lemma all_unused_false T table range pre j post :
  range = pre ++ j :: post -> (forall i, i ∈ pre -> 0 <= i < 512) -> 0 <= j < 512 ->
  pte_is_unused (T table j) = false -> all_unused T table range = Done false.
Proof.
  revert range. induction pre as [|i pre IH]; intros range -> Hpre Hj Hu; simpl.
  - rewrite entry_at_in by done. simpl. by rewrite Hu.
  - rewrite entry_at_in by (apply Hpre; set_solver). simpl.
    destruct (pte_is_unused (T table i)); [|done]. apply IH; [done|set_solver|done..].
Qed.

Lemma slot_range_elem n i : i ∈ slot_range n <-> n * 8 + 1 <= i <= n * 8 + 10.
Proof. unfold slot_range, N. rewrite elem_of_seqZ. lia. Qed.

(** Slot [n] is not free as soon as one of its entries is in use. *)
Lemma slot_in_use T table n j :
  0 <= n < 64 -> j ∈ slot_range n -> 0 <= j < 512 -> pte_is_unused (T table j) = false ->
  all_unused T table (slot_range n) = Done false.
Proof.
  intros Hn Hj Hb Hu. apply slot_range_elem in Hj as Hj'.
  apply (all_unused_false T table _ (seqZ (n * 8 + 1) (j - (n * 8 + 1))) j
    (seqZ (j + 1) (n * 8 + 10 - j))); [|intros i; rewrite elem_of_seqZ; lia|done..].
  unfold slot_range, N. replace 10 with ((j - (n * 8 + 1)) + (n * 8 + 11 - j)) at 1 by lia.
  rewrite seqZ_app by lia. f_equal. replace (n * 8 + 1 + (j - (n * 8 + 1))) with j by lia.
  rewrite seqZ_cons by lia. f_equal. f_equal; lia.
Qed.

(** [map_pages] mapped the entries [first + j], [j] in [js], to [fs]. *)
Record mapped (table first : Z) (js fs : list Z) m m' : Prop := {
  mp_length : length fs = length js;
  mp_entries (k : nat) j f : js !! k = Some j -> fs !! k = Some f ->
    pte_addr (tables m' table (first + j)) = f /\
    pte_flags (tables m' table (first + j)) = USER_FLAGS;
  mp_other t i : ~ (t = table /\ i - first ∈ js) -> tables m' t i = tables m t i;
  mp_nodup : NoDup fs;
  mp_fresh f : f ∈ fs -> is_frame f /\ fa_usable (frame_allocator m) f /\ ~ fa_used (frame_allocator m) f;
  mp_used g : is_frame g ->
    fa_used (frame_allocator m') g <-> g ∈ fs \/ fa_used (frame_allocator m) g;
  mp_usable g : fa_usable (frame_allocator m') g <-> fa_usable (frame_allocator m) g;
}.

Lemma mapped_nil table first m : mapped table first [] [] m m.
Proof.
  constructor; try done; [by apply NoDup_nil_2|by intros ? ?%elem_of_nil|].
  intros g _. rewrite elem_of_nil. tauto.
Qed.

Lemma map_pages_spec table first js : forall m r m',
  NoDup js -> map_pages table first js m = Done (r, m') ->
  exists js1 js2 fs, js = js1 ++ js2 /\ mapped table first js1 fs m m' /\
    (r = Ok tt -> js2 = []).
Proof.
  induction js as [|j js IH]; intros m r m' Hnd Hrun.
  { simpl in Hrun. simplify_eq. exists [], [], []. split; [done|]. split; [|done]. apply mapped_nil. }
  apply NoDup_cons in Hnd as [Hj Hnd]. simpl in Hrun.
  bind_Done Hrun. unfold entry_at in Hr. case_decide as Hb; simplify_eq.
  bind_Done Hrun. destruct r0 as [[f|] a].
  2: { apply fa_allocate_None in Hr. simplify_eq. exists [], (j :: js), []. split; [done|].
       split; [|done]. destruct m. apply mapped_nil. }
  apply fa_allocate_Some in Hr as (Hf & Hus & Hnu & Husable & Hused).
  apply IH in Hrun as (js1 & js2 & fs & -> & Hm & Hok); [|done].
  exists (j :: js1), js2, (f :: fs). split; [done|]. split; [|done].
  assert (Hj1 : j ∉ js1) by set_solver. destruct Hm as [Hlen Hent Hoth Hnod Hfresh Hu Hus'].
  set (e := pte_set_addr _ _ _) in *.
  constructor.
  - simpl. by rewrite Hlen.
  - intros [|k] j' f' Hj' Hf'; simpl in Hj', Hf'; [|by eapply Hent]. simplify_eq.
    rewrite Hoth by (replace (first + j' - first) with j' by lia; tauto).
    cbn [put Paging.with_tables tables]. unfold Paging.set_entry. rewrite decide_True by done.
    unfold e. rewrite pte_addr_set, pte_flags_set by (done || apply flags_ok_user). done.
  - intros t i Hti. rewrite Hoth by (rewrite elem_of_cons in Hti; tauto).
    cbn [put Paging.with_tables tables]. unfold Paging.set_entry.
    rewrite decide_False; [done|]. intros [-> ->]. apply Hti. split; [done|].
    apply elem_of_cons. left. lia.
  - constructor; [|done]. intros Hin. destruct (Hfresh f Hin) as (_ & _ & Hno). apply Hno.
    cbn [put Paging.with_tables Paging.with_allocator frame_allocator]. apply Hused; [done|by left].
  - intros g [->|Hg]%elem_of_cons; [done|].
    destruct (Hfresh g Hg) as (Hg1 & Hg2 & Hg3).
    cbn [put Paging.with_tables Paging.with_allocator frame_allocator] in Hg2, Hg3.
    split; [done|]. split; [by apply Husable|]. intros Hm. apply Hg3. apply Hused; [done|by right].
  - intros g Hg. rewrite (Hu g Hg).
    cbn [put Paging.with_tables Paging.with_allocator frame_allocator].
    rewrite (Hused g Hg), elem_of_cons. tauto.
  - intros g. rewrite Hus'. apply Husable.
Qed.

Lemma slot_address_eq n : slot_address n = 6 * 2 ^ 39 + n * 8 * 4096.
Proof. unfold slot_address. rewrite !Z.shiftl_mul_pow2 by lia. lia. Qed.

(** Page [k] of slot [n] lies behind the indices 6, 0, 0, [8n + 1 + k]. *)
Lemma slot_page_indices n k :
  0 <= n < 63 -> 0 <= k < 10 ->
  let addr := slot_address n + 4096 + 4096 * k in
  p4_index addr = 6 /\ p3_index addr = 0 /\ p2_index addr = 0 /\ p1_index addr = n * 8 + 1 + k.
Proof.
  intros Hn Hk addr. unfold addr.
  rewrite slot_address_eq, p4_index_spec, p3_index_spec, p2_index_spec, p1_index_spec.
  change (2 ^ 39) with 549755813888. change (2 ^ 30) with 1073741824.
  change (2 ^ 21) with 2097152. change (2 ^ 12) with 4096.
  split_and!; Z.div_mod_to_equations; lia.
Qed.

Lemma find_slot_Ok table n_start slots m r m' :
  find_slot table n_start slots m = Done (Ok r, m') ->
  exists n fs, 0 <= n < 63 /\ all_unused (tables m) table (slot_range n) = Done true /\
    r = (slot_address n + 4096, slot_address n + (N + 1) * 4096) /\
    mapped table (n * 8) (seqZ 1 N) fs m m'.
Proof.
  induction slots as [|i slots IH]; [done|]. cbn [find_slot]. intros Hrun.
  set (n := (n_start +w i) mod 64) in *. bind_Done Hrun. destruct r0; [|by apply IH].
  bind_Done Hrun. destruct r0 as [[[]|e] m1]; simplify_eq.
  apply map_pages_spec in Hr0 as (js1 & js2 & fs & Hjs & Hm & Hok); [|apply NoDup_seqZ].
  rewrite Hok, app_nil_r in Hjs by done. subst js1. exists n, fs. split; [|done].
  assert (0 <= n < 64) by (apply Z.mod_pos_bound; lia).
  destruct (all_unused_true _ _ _ Hr (n * 8 + 10)) as [? _]; [apply slot_range_elem|]; lia.
Qed.

(** A slot that needs index 512 panics once the entries below are free. *)
Lemma all_unused_panic T table pre post :
  (forall i, i ∈ pre -> 0 <= i < 512 /\ pte_is_unused (T table i) = true) ->
  all_unused T table (pre ++ 512 :: post) = Panic.
Proof.
  induction pre as [|i pre IH]; intros Hpre; cbn [all_unused app].
  - done.
  - destruct (Hpre i) as [Hb Hu]; [set_solver|]. rewrite entry_at_in by done. cbn.
    rewrite Hu. apply IH. set_solver.
Qed.

Lemma slot_63_panics table n_start slots m :
  is_u64 n_start -> n_start mod 64 = 63 ->
  (forall i, 505 <= i < 512 -> pte_is_unused (tables m table i) = true) ->
  find_slot table n_start (0 :: slots) m = Panic.
Proof.
  intros Hn Hmod Hfree. cbn [find_slot]. rewrite Z.add_0_r, wrap64_small, Hmod by done.
  change (slot_range 63) with (seqZ 505 7 ++ 512 :: seqZ 513 2).
  rewrite all_unused_panic; [done|]. intros i Hi. apply elem_of_seqZ in Hi.
  split; [lia|]. apply Hfree. lia.
Qed.

(** ** Releasing *)

Lemma free_stack_entry_user table index m f :
  0 <= index < 512 -> pte_addr (tables m table index) = f ->
  pte_flags (tables m table index) = USER_FLAGS ->
  free_stack_entry table index m = Done (put table index (pte_set_flags 0 (tables m table index))
    (Paging.with_allocator (fa_deallocate f (frame_allocator m)) m)).
Proof.
  intros Hi Ha Hf. unfold free_stack_entry. rewrite entry_at_in by done. cbn.
  rewrite pte_frame_spec, Hf, Ha. done.
Qed.

Lemma free_stack_entry_other table index m :
  0 <= index < 512 -> contains (pte_flags (tables m table index)) WRITABLE = false ->
  free_stack_entry table index m =
    Done (put table index (pte_set_flags 0 (tables m table index)) m).
Proof.
  intros Hi Hf. unfold free_stack_entry. rewrite entry_at_in by done. cbn. by rewrite Hf.
Qed.

(** The entries [dn] of [table] were released, the others not yet. *)
Record freed (table : Z) (dn : list Z) m m' : Prop := {
  fd_done i : i ∈ dn -> tables m' table i = pte_set_flags 0 (tables m table i);
  fd_other t i : ~ (t = table /\ i ∈ dn) -> tables m' t i = tables m t i;
  fd_usable g : fa_usable (frame_allocator m') g <-> fa_usable (frame_allocator m) g;
  fd_used g : is_frame g -> fa_used (frame_allocator m') g <->
    fa_used (frame_allocator m) g /\
    ~ exists i, i ∈ dn /\ pte_flags (tables m table i) = USER_FLAGS /\
                pte_addr (tables m table i) = g;
}.

Lemma freed_nil table m : freed table [] m m.
Proof.
  constructor; try done; [by intros ? ?%elem_of_nil|].
  intros g _. split; [|by intros []]. intros Hu. split; [done|]. by intros (i & ?%elem_of_nil & _).
Qed.

Lemma freed_put table dn m m1 x a :
  freed table dn m m1 -> x ∉ dn ->
  (forall g, fa_usable a g <-> fa_usable (frame_allocator m1) g) ->
  (forall g, is_frame g -> fa_used a g <-> fa_used (frame_allocator m1) g /\
    ~ (pte_flags (tables m table x) = USER_FLAGS /\ pte_addr (tables m table x) = g)) ->
  freed table (dn ++ [x]) m
    (put table x (pte_set_flags 0 (tables m1 table x)) (Paging.with_allocator a m1)).
Proof.
  intros [Hd Ho Hus Hu] Hx Ha1 Ha2.
  constructor; cbn [put Paging.with_tables Paging.with_allocator tables frame_allocator];
    unfold Paging.set_entry.
  - intros i Hi. destruct (decide (table = table /\ i = x)) as [[_ ->]|Hne].
    + rewrite (Ho table x); [done|]. tauto.
    + apply Hd. apply elem_of_app in Hi as [?|?%list_elem_of_singleton]; [done|]. naive_solver.
  - intros t i Hti. destruct (decide (t = table /\ i = x)) as [[-> ->]|Hne].
    + destruct Hti. split; [done|]. apply elem_of_app. right. by apply list_elem_of_singleton.
    + apply Ho. intros [-> Hi]. apply Hti. split; [done|]. apply elem_of_app. by left.
  - intros g. by rewrite Ha1.
  - intros g Hg. rewrite (Ha2 g Hg), (Hu g Hg). setoid_rewrite elem_of_app.
    setoid_rewrite list_elem_of_singleton. clear. naive_solver.
Qed.

Lemma stack_end_index n :
  0 <= n < 63 -> let addr := (slot_address n + (N + 1) * 4096) -w 1 in
  p1_index addr = n * 8 + 10 /\
  free_range (p1_index addr) = reverse (seqZ (n * 8) 11).
Proof.
  intros Hn addr. assert (Hp : p1_index addr = n * 8 + 10).
  { unfold addr, N. rewrite slot_address_eq, wrap64_small by (unfold is_u64; lia).
    rewrite p1_index_spec. change (2 ^ 39) with 549755813888. change (2 ^ 12) with 4096.
    Z.div_mod_to_equations. lia. }
  split; [done|]. rewrite Hp. unfold free_range. rewrite wrap64_small by (unfold is_u64; lia).
  f_equal. f_equal; lia.
Qed.

Lemma USER_FLAGS_WRITABLE : contains USER_FLAGS WRITABLE = true.
Proof. done. Qed.

(** The loop of [free_user_stack] over slot [n] and the entry before it. *)
Lemma free_slot table n m :
  0 <= n < 63 ->
  (forall i, i ∈ slot_range n -> pte_flags (tables m table i) = USER_FLAGS) ->
  contains (pte_flags (tables m table (n * 8))) WRITABLE = false ->
  exists m', for_each (reverse (seqZ (n * 8) 11)) (free_stack_entry table) m = Done m' /\
    freed table (reverse (seqZ (n * 8) 11)) m m'.
Proof.
  intros Hn Hpages Hguard.
  apply (for_each_total (fun dn m1 => freed table dn m m1)); [apply freed_nil|].
  intros dn x rest m1 Hsplit Hfd.
  assert (Hx : n * 8 <= x < n * 8 + 11).
  { assert (Hin : x ∈ reverse (seqZ (n * 8) 11)) by (rewrite Hsplit; set_solver).
    apply elem_of_reverse, elem_of_seqZ in Hin. lia. }
  assert (Hdn : x ∉ dn).
  { assert (Hnd : NoDup (reverse (seqZ (n * 8) 11))) by (rewrite reverse_Permutation; apply NoDup_seqZ).
    rewrite Hsplit in Hnd. apply NoDup_app in Hnd as (_ & Hnd & _).
    intros Hin. apply (Hnd x Hin). set_solver. }
  assert (Hsame : tables m1 table x = tables m table x) by (apply (fd_other _ _ _ _ Hfd); tauto).
  destruct (decide (x = n * 8)) as [->|Hne].
  - rewrite free_stack_entry_other by (rewrite ?Hsame; done || lia).
    eexists. split; [done|].
    assert (Heq : m1 = Paging.with_allocator (frame_allocator m1) m1) by by destruct m1.
    rewrite Heq at 2. apply freed_put; [done..|]. intros g _. rewrite <-Hsame, Hsame.
    split; [|by intros []]. intros Hu. split; [done|]. intros [Hf _]. rewrite Hf in Hguard.
    by rewrite USER_FLAGS_WRITABLE in Hguard.
  - assert (Hs : x ∈ slot_range n) by (apply slot_range_elem; lia).
    rewrite (free_stack_entry_user _ _ _ (pte_addr (tables m table x)))
      by (rewrite ?Hsame; auto; lia).
    eexists. split; [done|]. apply freed_put; [done..| |].
    + intros g. apply fa_deallocate_usable.
    + intros g Hg. rewrite fa_deallocate_used by (done || apply pte_addr_frame).
      rewrite (Hpages x Hs). naive_solver.
Qed.
(** ** What later calls keep *)

(** The tables along a path of indices, by the addresses of the entries. *)
Fixpoint tables_on (path : list Z) (table : Z) m : list Z :=
  match path with
  | [] => [table]
  | index :: path => table :: tables_on path (pte_addr (tables m table index)) m
  end.

Definition table_on (path : list Z) (table : Z) m : Z :=
  foldl (fun table index => pte_addr (tables m table index)) table path.

(** None of its entries has the address 0, so none counts as unused. *)
Fixpoint path_used (path : list Z) (table : Z) m : Prop :=
  match path with
  | [] => True
  | index :: path =>
      0 <= index < 512 /\ pte_addr (tables m table index) ≠ 0 /\
      path_used path (pte_addr (tables m table index)) m
  end.

(** An address in an entry of table [t] stays. *)
Definition keeps_addresses (t : Z) m m' : Prop :=
  forall i, pte_addr (tables m t i) ≠ 0 -> pte_addr (tables m' t i) = pte_addr (tables m t i).

#[export] Instance keeps_addresses_preorder t : PreOrder (keeps_addresses t).
Proof.
  split; [by intros m i _|]. intros m1 m2 m3 H12 H23 i Hi. rewrite H23; [by apply H12|]. by rewrite H12.
Qed.

Lemma address_used e : pte_addr e ≠ 0 -> pte_is_unused e = false.
Proof. intros Ha. apply not_true_iff_false. by intros [? _]%pte_unused. Qed.

Lemma path_kept path : forall table m m',
  path_used path table m -> (forall t, t ∈ tables_on path table m -> keeps_addresses t m m') ->
  path_used path table m' /\ tables_on path table m' = tables_on path table m /\
  table_on path table m' = table_on path table m.
Proof.
  induction path as [|i path IH]; intros table m m' Hu Hk; [done|]. destruct Hu as (Hi & Ha & Hu).
  assert (He : pte_addr (tables m' table i) = pte_addr (tables m table i))
    by (apply Hk; [set_solver|done]).
  destruct (IH _ m m' Hu) as (Hu' & Ht & Hon); [set_solver|].
  cbn. unfold table_on in *. cbn. rewrite He. split; [done|]. by rewrite Ht, Hon.
Qed.

Lemma stack_table_used path : forall table m,
  path_used path table m -> stack_table path table m = Done (table_on path table m, m).
Proof.
  induction path as [|i path IH]; intros table m Hu; [done|]. destruct Hu as (Hi & Ha & Hu).
  cbn [stack_table]. rewrite entry_at_in by done. cbn [mbind outcome_bind].
  rewrite address_used by done. cbn [mbind outcome_bind]. by apply IH.
Qed.

Lemma map_pages_keeps table first t : forall js m r m',
  NoDup js -> (forall j, j ∈ js -> pte_is_unused (tables m table (first + j)) = true) ->
  map_pages table first js m = Done (r, m') -> keeps_addresses t m m'.
Proof.
  induction js as [|j js IH]; intros m r m' Hnd Hun Hrun; cbn [map_pages] in Hrun; [by simplify_eq|].
  apply NoDup_cons in Hnd as [Hj Hnd]. bind_Done Hrun. bind_Done Hrun. destruct r1 as [[f|] a]; [|by simplify_eq].
  etransitivity; [|eapply IH; [done| |exact Hrun]].
  - intros i Hi. cbn. unfold Paging.set_entry. rewrite decide_False; [done|]. intros [-> ->].
    apply Hi. by apply (pte_unused (tables m table (first + j))), Hun, list_elem_of_here.
  - intros i Hi. cbn. unfold Paging.set_entry. rewrite decide_False; [apply Hun; set_solver|].
    intros [_ Heq]. apply Hj. by replace j with i by lia.
Qed.

Lemma find_slot_keeps table n_start t : forall slots m r m',
  find_slot table n_start slots m = Done (r, m') -> keeps_addresses t m m'.
Proof.
  induction slots as [|i slots IH]; intros m r m' Hrun; cbn [find_slot] in Hrun; [by simplify_eq|].
  bind_Done Hrun. destruct r0; [|by eapply IH]. bind_Done Hrun. destruct r0 as [r0 m1].
  apply (map_pages_keeps _ _ t) in Hr0; [by destruct r0; simplify_eq|apply NoDup_seqZ|].
  intros j Hj%elem_of_seqZ. apply (all_unused_true _ _ _ Hr), slot_range_elem. unfold N in *. lia.
Qed.

Lemma free_user_stack_keeps active e t m r m' :
  free_user_stack active e m = Done (r, m') -> keeps_addresses t m m'.
Proof.
  unfold free_user_stack. intros Hrun. bind_Done Hrun. simplify_eq. revert Hr.
  apply (for_each_inv (fun _ m1 => keeps_addresses t m m1)); [done|].
  intros dn x rest m1 m2 _ Hk Hx. etransitivity; [exact Hk|]. intros i _.
  unfold free_stack_entry, entry_at in Hx. case_decide; [|done]. cbn [mbind outcome_bind] in Hx.
  bind_Done Hx. apply Done_inj in Hx as <-. cbn. unfold Paging.set_entry.
  assert (Ht : tables r = tables m1).
  { case_match; [|by simplify_eq]. bind_Done Hr. by simplify_eq. }
  rewrite Ht. case_decide as Hd; [|done]. destruct Hd as [-> ->]. apply pte_addr_set_flags, flags_ok_empty.
Qed.

(** What may happen to the stacks of the address space at [root]: calls that
    allocate one there, calls that free one in any space, and whatever else
    leaves the tables on the way to the stacks alone. *)
Inductive stack_call (root : Z) m m' : Prop :=
| CallAllocate n r : allocate_user_stack root n m = Done (r, m') -> stack_call root m m'
| CallFree active e r : free_user_stack active e m = Done (r, m') -> stack_call root m m'
| CallElsewhere :
    (forall t i, t ∈ tables_on USER_STACK_PAGE_INDEX root m -> tables m' t i = tables m t i) ->
    stack_call root m m'.

(** The entries [js] of the level 1 table have addresses. *)
Definition spent (root table : Z) (js : list Z) m : Prop :=
  path_used USER_STACK_PAGE_INDEX root m /\ table_on USER_STACK_PAGE_INDEX root m = table /\
  forall j, j ∈ js -> pte_addr (tables m table j) ≠ 0.

Lemma table_on_in path : forall table m, table_on path table m ∈ tables_on path table m.
Proof.
  induction path as [|i path IH]; intros table m; [by apply list_elem_of_here|].
  apply list_elem_of_further, IH.
Qed.

Lemma spent_call root table js m m' :
  spent root table js m -> stack_call root m m' -> spent root table js m'.
Proof.
  intros (Hu & Ht & Hj) Hcall.
  assert (Hk : forall t, t ∈ tables_on USER_STACK_PAGE_INDEX root m -> keeps_addresses t m m').
  { intros t Hin. destruct Hcall as [n r Ha|active e r Hf|He].
    - unfold allocate_user_stack in Ha. rewrite stack_table_used in Ha by done. by eapply find_slot_keeps.
    - by eapply free_user_stack_keeps.
    - intros i _. by rewrite He. }
  destruct (path_kept _ _ _ _ Hu Hk) as (Hu' & _ & Ht'). split; [done|]. split; [congruence|].
  intros j Hin. rewrite (Hk table); [by apply Hj| |by apply Hj]. rewrite <-Ht. apply table_on_in.
Qed.

Lemma spent_calls root table js m m' :
  spent root table js m -> rtc (stack_call root) m m' -> spent root table js m'.
Proof. intros Hs Hr. induction Hr; [done|]. by eapply IHHr, spent_call. Qed.

(** A slot that overlaps spent entries is not found again. *)
Lemma spent_slot root table n n' m :
  spent root table (slot_range n) m -> 0 <= n < 63 -> 0 <= n' < 64 -> n - 1 <= n' <= n + 1 ->
  all_unused (tables m) table (slot_range n') = Done false.
Proof.
  intros (_ & _ & Hj) Hn Hn' Hnear.
  apply slot_in_use with (if decide (n' = n + 1) then n * 8 + 9 else n * 8 + 1); try lia.
  - apply slot_range_elem. case_decide; lia.
  - case_decide; lia.
  - apply address_used, Hj, slot_range_elem. case_decide; lia.
Qed.

Lemma spent_allocate root table n m n_start bottom top m' :
  spent root table (slot_range n) m -> 0 <= n < 63 ->
  allocate_user_stack root n_start m = Done (Ok (bottom, top), m') ->
  exists n', 0 <= n' < 63 /\ ~ (n - 1 <= n' <= n + 1) /\ bottom = slot_address n' + 4096.
Proof.
  intros Hs Hn Ha. unfold allocate_user_stack in Ha. pose proof Hs as (Hu & Ht & _).
  rewrite stack_table_used in Ha by done. cbn [mbind outcome_bind] in Ha. rewrite Ht in Ha.
  apply find_slot_Ok in Ha as (n' & fs & Hn' & Hfree & [= -> _] & _). exists n'.
  split; [done|]. split; [|done]. intros Hnear.
  by rewrite (spent_slot root table n n') in Hfree by (done || lia).
Qed.

(** The last page of slot [n] lies behind the indices 6, 0, 0. *)
Lemma slot_end_path n :
  0 <= n < 63 -> let addr := (slot_address n + (N + 1) * 4096) -w 1 in
  [p4_index addr; p3_index addr; p2_index addr] = USER_STACK_PAGE_INDEX.
Proof.
  intros Hn addr. unfold addr, N. rewrite slot_address_eq, wrap64_small by (unfold is_u64; lia).
  rewrite p4_index_spec, p3_index_spec, p2_index_spec. unfold USER_STACK_PAGE_INDEX.
  change (2 ^ 39) with 549755813888. change (2 ^ 30) with 1073741824. change (2 ^ 21) with 2097152.
  repeat f_equal; Z.div_mod_to_equations; lia.
Qed.
End Facts.
End UserStack.

(** ** Properties *)

Section Properties.
Context {A E : Type} `{FrameAllocatorLaws A} `{PageTableEntryLaws E} `{VirtAddrLaws}.
Implicit Types (m : MemoryInfo A E).

(** C26: a user stack.  When [allocate_user_stack] returns [Ok((bottom, top))],
    the stack is ten pages below [top], at the indices 6, 0, 0 of the address
    space and inside one of 63 slots; every page was unmapped and is now
    mapped, present, writable and for users, to a frame of its own that was
    not in use; nothing else in the tables changed since the level 1 table
    was reached. *)
Theorem user_stack_mapped m root n_start bottom top m'
    (Hrun : UserStack.allocate_user_stack root n_start m = Done (Ok (bottom, top), m')) :
  exists table m1 fs first,
    UserStack.stack_table USER_STACK_PAGE_INDEX root m = Done (table, m1) /\
    top = bottom + 40960 /\ NoDup fs /\ 1 <= first <= 497 /\ first mod 8 = 1 /\
    (forall k, 0 <= k < 10 -> exists f, fs !! Z.to_nat k = Some f /\
      ~ fa_used (frame_allocator m1) f /\ fa_used (frame_allocator m') f /\
      let addr := bottom + 4096 * k in
      p4_index addr = 6 /\ p3_index addr = 0 /\ p2_index addr = 0 /\ p1_index addr = first + k /\
      pte_is_unused (tables m1 table (first + k)) = true /\
      pte_addr (tables m' table (first + k)) = f /\
      pte_flags (tables m' table (first + k)) = USER_FLAGS) /\
    (forall t i, ~ (t = table /\ first <= i < first + 10) -> tables m' t i = tables m1 t i).
Proof.
  unfold UserStack.allocate_user_stack in Hrun. bind_Done Hrun. destruct r as [table m1].
  apply UserStack.find_slot_Ok in Hrun as (n & fs & Hn & Hfree & Hr' & Hm). simplify_eq.
  unfold UserStack.N in *. destruct Hm as [Hlen Hent Hoth Hnd Hfresh Hused Hus].
  exists table, m1, fs, (n * 8 + 1). split; [done|]. split; [lia|]. split; [done|].
  split; [lia|]. split; [Z.div_mod_to_equations; lia|]. split.
  - intros k Hk. rewrite length_seqZ in Hlen.
    destruct (lookup_lt_is_Some_2 fs (Z.to_nat k)) as [f Hf]; [lia|].
    exists f. split; [done|].
    destruct (Hfresh f) as (Hfr & _ & Hnu); [by eapply list_elem_of_lookup_2|].
    split; [done|]. split; [apply Hused; [done|left; by eapply list_elem_of_lookup_2]|].
    destruct (UserStack.slot_page_indices n k) as (Hp4 & Hp3 & Hp2 & Hp1); [done..|].
    split_and!; try done.
    + apply (UserStack.all_unused_true _ _ _ Hfree), UserStack.slot_range_elem. lia.
    + replace (n * 8 + 1 + k) with (n * 8 + (1 + k)) by lia.
      eapply (Hent (Z.to_nat k)); [|done]. rewrite lookup_seqZ. lia.
    + replace (n * 8 + 1 + k) with (n * 8 + (1 + k)) by lia.
      eapply (Hent (Z.to_nat k)); [|done]. rewrite lookup_seqZ. lia.
  - intros t i Hti. apply Hoth. rewrite elem_of_seqZ. intros [-> ?]. apply Hti. lia.
Qed.

(** C39: releasing a user stack.  When the active tables map the pages of slot
    [n] for a user and the entry before the slot is not writable,
    [free_user_stack] gives back exactly the frames of the ten pages, and
    clears the flags of their entries and of the entry before them, so the
    pages are mapped no more; no other entry of any table changes.  But the
    entries keep their addresses, and an entry with an address never counts as
    unused: whatever stacks are allocated and freed afterwards and whatever
    else happens away from the tables that lead to them, the slot and the two
    that overlap it are found in use, and no later [allocate_user_stack] in
    this address space returns one of them. *)
Theorem user_stack_freed m root n (Hn : 0 <= n < 63) (stack_end := UserStack.slot_address n + 45056)
    (table := UserStack.active_level_1_table_containing root (stack_end -w 1) m)
    (Hpath : UserStack.path_used USER_STACK_PAGE_INDEX root m)
    (Hpages : forall i, i ∈ UserStack.slot_range n ->
      pte_flags (tables m table i) = USER_FLAGS /\ pte_addr (tables m table i) ≠ 0)
    (Hguard : contains (pte_flags (tables m table (n * 8))) WRITABLE = false) :
  exists m', UserStack.free_user_stack root stack_end m = Done (Ok tt, m') /\
    (forall g, is_frame g -> fa_used (frame_allocator m') g <->
      fa_used (frame_allocator m) g /\
      ~ exists i, i ∈ UserStack.slot_range n /\ pte_addr (tables m table i) = g) /\
    (forall t i, let freed := t = table /\ n * 8 <= i <= n * 8 + 10 in
      (freed -> pte_flags (tables m' t i) = 0 /\ pte_addr (tables m' t i) = pte_addr (tables m t i)) /\
      (~ freed -> tables m' t i = tables m t i)) /\
    (forall m2, rtc (UserStack.stack_call root) m' m2 ->
      (forall n', 0 <= n' < 64 -> n - 1 <= n' <= n + 1 ->
        UserStack.all_unused (tables m2) table (UserStack.slot_range n') = Done false) /\
      (forall n_start bottom top m3,
        UserStack.allocate_user_stack root n_start m2 = Done (Ok (bottom, top), m3) ->
        exists n', 0 <= n' < 63 /\ ~ (n - 1 <= n' <= n + 1) /\
          bottom = UserStack.slot_address n' + 4096)).
Proof.
  destruct (UserStack.stack_end_index n Hn) as [_ Hrange].
  destruct (UserStack.free_slot table n m) as (m' & Hf & Hfd); [done| |done|].
  { intros i Hi. by apply Hpages. }
  assert (Hfree : UserStack.free_user_stack root stack_end m = Done (Ok tt, m')).
  { unfold UserStack.free_user_stack. fold table.
    change (stack_end -w 1) with ((UserStack.slot_address n + (UserStack.N + 1) * 4096) -w 1).
    by rewrite Hrange, Hf. }
  assert (Hin : forall i, i ∈ reverse (seqZ (n * 8) 11) <-> n * 8 <= i <= n * 8 + 10)
    by (intros i; rewrite elem_of_reverse, elem_of_seqZ; lia).
  exists m'. split; [done|]. split; [|split].
  - intros g Hg. rewrite (UserStack.fd_used _ _ _ _ Hfd g Hg).
    apply and_iff_compat_l, not_iff_compat.
    split; intros (i & Hi & Ha); exists i.
    + destruct Ha as [Hu Ha]. split; [|done]. apply Hin in Hi.
      apply UserStack.slot_range_elem. destruct (decide (i = n * 8)) as [->|]; [|lia].
      by rewrite Hu, UserStack.USER_FLAGS_WRITABLE in Hguard.
    + split; [|split; [by apply Hpages|done]]. apply Hin. apply UserStack.slot_range_elem in Hi. lia.
  - intros t i freed. split.
    + intros [-> Hi%Hin]. rewrite (UserStack.fd_done _ _ _ _ Hfd i Hi).
      rewrite pte_flags_set_flags, pte_addr_set_flags by apply flags_ok_empty. done.
    + intros Hno. apply (UserStack.fd_other _ _ _ _ Hfd). by rewrite Hin.
  - intros m2 Hlater.
    assert (Hspent : UserStack.spent root table (UserStack.slot_range n) m2).
    { eapply UserStack.spent_calls, Hlater. eapply UserStack.spent_call; [|by eapply UserStack.CallFree].
      split; [done|]. split; [|intros j Hj; by apply Hpages].
      unfold table, UserStack.active_level_1_table_containing, UserStack.table_on.
      by rewrite (UserStack.slot_end_path n Hn). }
    split; [intros; by eapply UserStack.spent_slot|]. intros. by eapply UserStack.spent_allocate.
Qed.

(** The last slot is not a slot.  The search starts at [n_start mod 64];
    when that is 63 and the entries 505 to 511 are free, as in a new address
    space, the test of the slot indexes the table at 512 and the kernel
    panics. *)
Lemma stack_slot_63_panics m root n_start table m1
    (Hreach : UserStack.stack_table USER_STACK_PAGE_INDEX root m = Done (table, m1))
    (Hn : is_u64 n_start) (Hslot : n_start mod 64 = 63)
    (Hfree : forall i, 505 <= i < 512 -> pte_is_unused (tables m1 table i) = true) :
  UserStack.allocate_user_stack root n_start m = Panic.
Proof.
  unfold UserStack.allocate_user_stack. rewrite Hreach. cbn [mbind outcome_bind].
  change (seqZ 0 64) with (0 :: seqZ 1 63). by apply UserStack.slot_63_panics.
Qed.
End Properties.

(** *** At concrete inputs *)

Definition bit_indices : VirtAddr := {|
  p4_index a := a / 2 ^ 39 mod 512;
  p3_index a := a / 2 ^ 30 mod 512;
  p2_index a := a / 2 ^ 21 mod 512;
  p1_index a := a / 2 ^ 12 mod 512;
|}.

Lemma bit_indices_laws : @VirtAddrLaws bit_indices.
Proof. by constructor. Qed.

#[local] Existing Instances word_entry word_entry_laws align_down_frames align_down_laws
  bit_indices bit_indices_laws.

(** An empty address space at 0x1000 and sixteen usable frames. *)
Definition stack_memory : MemoryInfo (PageFrameAllocator * MemoryLogger) Z :=
  mkMemoryInfo
    (mkPageFrameAllocator [mkBootRegion 0x2000 0x12000 Usable] 0 (replicate 32 false), Logger.new)
    (fun _ _ => 0) 0x9000.

Definition stack_of (n_start : Z) : MemoryInfo (PageFrameAllocator * MemoryLogger) Z :=
  (done_or (Ok (0, 0), stack_memory)
    (UserStack.allocate_user_stack 0x1000 n_start stack_memory)).2.

Definition table_of : Z * MemoryInfo (PageFrameAllocator * MemoryLogger) Z :=
  done_or (0, stack_memory) (UserStack.stack_table USER_STACK_PAGE_INDEX 0x1000 stack_memory).

(** The fifth slot: the stack ends at 0x30000033000. *)
Lemma user_stack_mapped_witness :
  exists table m1 fs first,
    UserStack.stack_table USER_STACK_PAGE_INDEX 0x1000 stack_memory = Done (table, m1) /\
    0x30000033000 = 0x30000029000 + 40960 /\ NoDup fs /\ 1 <= first <= 497 /\ first mod 8 = 1 /\
    (forall k, 0 <= k < 10 -> exists f, fs !! Z.to_nat k = Some f /\
      ~ fa_used (frame_allocator m1) f /\ fa_used (frame_allocator (stack_of 5)) f /\
      let addr := 0x30000029000 + 4096 * k in
      p4_index addr = 6 /\ p3_index addr = 0 /\ p2_index addr = 0 /\ p1_index addr = first + k /\
      pte_is_unused (tables m1 table (first + k)) = true /\
      pte_addr (tables (stack_of 5) table (first + k)) = f /\
      pte_flags (tables (stack_of 5) table (first + k)) = USER_FLAGS) /\
    (forall t i, ~ (t = table /\ first <= i < first + 10) ->
      tables (stack_of 5) t i = tables m1 t i).
Proof.
  apply (user_stack_mapped stack_memory 0x1000 5). apply done_or_snd. vm_compute. reflexivity.
Defined.

Definition stack_table5 : Z :=
  UserStack.active_level_1_table_containing 0x1000 0x30000032fff (stack_of 5).

Lemma stack_pages5 :
  forallb (fun i => (pte_flags (tables (stack_of 5) stack_table5 i) =? USER_FLAGS) &&
                    negb (pte_addr (tables (stack_of 5) stack_table5 i) =? 0))
    (UserStack.slot_range 5) = true.
Proof. vm_compute. reflexivity. Qed.

(** A later thread with the same start of the search gets the slot after
    the next. *)
Lemma user_stack_freed_witness :
  let m := stack_of 5 in
  exists m', UserStack.free_user_stack 0x1000 0x30000033000 m = Done (Ok tt, m') /\
    pte_flags (tables m' stack_table5 41) = 0 /\
    pte_addr (tables m' stack_table5 41) = pte_addr (tables m stack_table5 41) /\
    (forall n', 0 <= n' < 64 -> 4 <= n' <= 6 ->
      UserStack.all_unused (tables m') stack_table5 (UserStack.slot_range n') = Done false) /\
    (forall bottom top m3, UserStack.allocate_user_stack 0x1000 5 m' = Done (Ok (bottom, top), m3) ->
      bottom ≠ 0x30000029000).
Proof.
  intros m. destruct (user_stack_freed (stack_of 5) 0x1000 5) as (m' & Hfree & _ & Hent & Hlater).
  - done.
  - apply (bool_decide_unpack _). vm_compute. exact I.
  - intros i Hi. pose proof (proj1 (forallb_forall _ _) stack_pages5 i) as Hp.
    apply list_elem_of_In in Hi. apply Hp, andb_prop in Hi as [Hf Ha].
    split; [exact (proj1 (Z.eqb_eq _ _) Hf)|exact (proj1 (Z.eqb_neq _ _) (proj1 (negb_true_iff _) Ha))].
  - vm_compute. reflexivity.
  - exists m'. split; [exact Hfree|].
    destruct (proj1 (Hent stack_table5 41)) as [Hfl Ha]; [split; [vm_compute; reflexivity|lia]|].
    split; [exact Hfl|]. split; [exact Ha|].
    destruct (Hlater m' (rtc_refl _ _)) as [Hused Halloc]. split; [exact Hused|].
    intros bottom top m3 Hrun. destruct (Halloc _ _ _ _ Hrun) as (n' & _ & Hn' & ->).
    rewrite UserStack.slot_address_eq. intros Heq. apply Hn'. lia.
Defined.

Lemma stack_free63 :
  forallb (fun i => pte_is_unused (tables table_of.2 table_of.1 i)) (seqZ 505 7) = true.
Proof. vm_compute. reflexivity. Qed.

Lemma stack_slot_63_panics_witness :
  UserStack.allocate_user_stack 0x1000 127 stack_memory = Panic.
Proof.
  apply (stack_slot_63_panics stack_memory 0x1000 127 table_of.1 table_of.2).
  - unfold table_of. rewrite (done_or_snd (0, stack_memory) (UserStack.stack_table _ _ _) 0x4000)
      by (vm_compute; reflexivity). done.
  - done.
  - done.
  - intros i Hi. apply (proj1 (forallb_forall _ _) stack_free63), list_elem_of_In, elem_of_seqZ. lia.
Defined.
