(* ===== verification/Hierarchy.v ===== *)
(** * Trees of page tables

    What a well-formed page-table hierarchy is, where an address ends up in
    it, and what changing one entry does.  Paging.v, UserStack.v and a mapper
    (TableMapper.v) all change entries one at a time, so the files after this
    one reason by [entry_changed] alone. *)
From S2P Require Import Prelude Logger Frames Paging UserStack.
Import Paging.

Section Leaves.
Context {E : Type} `{PageTableEntryLaws E}.
Implicit Types (T : Z -> Z -> E) (e : E).

(** The leaf a path of indices ends at: the frame, the flags of the leaf and
    the indices left at a huge page. *)
Fixpoint leaf T (below : nat) (root : Z) (path : list Z) {struct path} :
    option (Z * Z * list Z) :=
  match path with
  | [] => None
  | i :: path =>
      let e := T root i in
      if pte_is_unused e then None
      else if is_leaf (S below) e then Some (pte_addr e, pte_flags e, path)
      else match below with
           | O => None
           | S b => leaf T b (pte_addr e) path
           end
  end.

(** The table a path of indices leads to. *)
Fixpoint table_at T (below : nat) (root : Z) (path : list Z) {struct path} : option Z :=
  match path with
  | [] => Some root
  | i :: path =>
      match below with
      | O => None
      | S b => if points below (T root i) then table_at T b (pte_addr (T root i)) path else None
      end
  end.

Lemma walk_flags T below root path f flags rest :
  walk T below root path = Some (f, flags, rest) -> flags ≠ [].
Proof.
  destruct path as [|i path]; [done|]. cbn [walk]. destruct (pte_is_unused _); [done|].
  destruct (is_leaf _ _); [intros; by simplify_eq|]. destruct below as [|b]; [done|].
  destruct (walk T b _ path) as [[[??]?]|]; intros; by simplify_eq/=.
Qed.

Lemma leaf_walk T below root path :
  leaf T below root path =
    '(frame, flags, rest) ← walk T below root path; fl ← last flags; Some (frame, fl, rest).
Proof.
  revert below root. induction path as [|i path IH]; intros below root; [done|]. simpl.
  destruct (pte_is_unused _); [done|]. destruct (is_leaf _ _); [done|].
  destruct below as [|b]; [done|]. rewrite IH.
  destruct (walk T b (pte_addr (T root i)) path) as [[[f fls] rest]|] eqn:Hw; [|done]. simpl.
  rewrite last_cons. destruct (last fls) eqn:Hl; [done|].
  apply last_None in Hl. by apply walk_flags in Hw.
Qed.

Lemma leaf_frame T below root path f flags rest :
  leaf T below root path = Some (f, flags, rest) -> is_frame f.
Proof.
  revert below root. induction path as [|i path IH]; intros below root; [done|]. cbn [leaf].
  destruct (pte_is_unused _); [done|]. destruct (is_leaf _ _).
  - intros [= <- _ _]. apply pte_addr_frame.
  - destruct below as [|b]; [done|]. apply IH.
Qed.

(** The first step of a path. *)
Lemma leaf_points T b root i path :
  points (S b) (T root i) = true ->
  leaf T (S b) root (i :: path) = leaf T b (pte_addr (T root i)) path.
Proof. intros [Hu Hl]%points_spec. cbn [leaf]. by rewrite Hu, Hl. Qed.

Lemma leaf_not_points T T' below root root' i path :
  T' root' i = T root i -> points below (T root i) = false ->
  leaf T' below root' (i :: path) = leaf T below root (i :: path).
Proof.
  intros Heq Hp. cbn [leaf]. rewrite Heq. unfold points in Hp.
  destruct (pte_is_unused (T root i)); [done|]. by destruct (is_leaf (S below) (T root i)).
Qed.

(** Trees that hold the same entries have the same leaves and tables. *)
Lemma leaf_ext below T T' root path :
  path_ok path -> (forall q i, in_tree T below root q -> T' q i = T q i) ->
  leaf T' below root path = leaf T below root path.
Proof. intros Hp Hs. rewrite !leaf_walk. by rewrite (walk_ext below T T'). Qed.

Lemma leaf_child_ext T T' below root i path :
  path_ok path -> T' root i = T root i ->
  (forall q j, child T below root i q -> T' q j = T q j) ->
  leaf T' below root (i :: path) = leaf T below root (i :: path).
Proof. intros Hp He Hs. rewrite !leaf_walk. by rewrite (walk_child_ext T T'). Qed.

Lemma table_at_in T below root path p :
  path_ok path -> table_at T below root path = Some p -> in_tree T below root p.
Proof.
  revert below root. induction path as [|i path IH]; intros below root Hpath Ht; cbn in Ht.
  - simplify_eq. destruct below; by left.
  - apply Forall_cons in Hpath as [Hi Hpath]. destruct below as [|b]; [done|].
    destruct (points _ _) eqn:Hp; [|done]. right. exists i. split; [done|]. split; [done|]. by apply IH.
Qed.

(** What hangs below an entry of a table of the tree is in the tree. *)
Lemma table_at_child T below root path p i q :
  path_ok path -> index_ok i -> table_at T below root path = Some p ->
  child T (below - length path) p i q -> in_tree T below root q.
Proof.
  revert below root. induction path as [|x path IH]; intros below root Hpath Hi Ht Hc; cbn in Ht.
  - simplify_eq. rewrite Nat.sub_0_r in Hc. apply in_tree_child. right. by exists i.
  - apply Forall_cons in Hpath as [Hx Hpath]. destruct below as [|b]; [done|].
    destruct (points _ _) eqn:Hp; [|done]. right. exists x. split; [done|]. split; [done|]. by apply IH.
Qed.

Lemma table_at_tree T below root path p :
  is_tree T below root -> table_at T below root path = Some p -> path_ok path ->
  is_tree T (below - length path) p.
Proof.
  revert below root. induction path as [|x path IH]; intros below root Htree Ht Hpath; cbn [table_at] in Ht.
  - simplify_eq. by rewrite Nat.sub_0_r.
  - apply Forall_cons in Hpath as [Hx Hpath]. destruct below as [|b]; [done|].
    destruct (points _ _) eqn:Hp; [|done]. apply (IH b (pte_addr (T root x))); [by apply Htree|done..].
Qed.

Lemma leaf_app T below root path p i rest :
  table_at T below root path = Some p ->
  leaf T below root (path ++ i :: rest) = leaf T (below - length path) p (i :: rest).
Proof.
  revert below root. induction path as [|x path IH]; intros below root Ht; cbn [table_at] in Ht.
  - simplify_eq. by rewrite Nat.sub_0_r.
  - destruct below as [|b]; [done|]. destruct (points _ _) eqn:Hp; [|done].
    cbn [app length Nat.sub]. by rewrite leaf_points, IH.
Qed.
End Leaves.

(** ** Changing one entry *)
Section Change.
Context {E : Type} `{PageTableEntryLaws E}.
Implicit Types (T : Z -> Z -> E) (inside : Z -> Prop).

(** [T'] is [T] on the tables [inside] but for entry [i] of [p], whose level is
    [b + 1]; the entry still leads where it led, and otherwise only to tables
    that were outside. *)
Record entry_changed T T' (b : nat) (p i : Z) inside : Prop := {
  ch_same : forall q j, inside q -> ~ (q = p /\ j = i) -> T' q j = T q j;
  ch_keep : forall q, child T b p i q -> child T' b p i q;
  ch_new : forall q, child T' b p i q -> inside q -> child T b p i q;
  ch_tree : forall c, b = S c -> points b (T' p i) = true ->
    contains (pte_flags (T' p i)) PRESENT = true /\ is_tree T' c (pte_addr (T' p i));
}.

Lemma entry_changed_within T T' b p i inside inside' :
  entry_changed T T' b p i inside -> (forall q, inside' q -> inside q) ->
  entry_changed T T' b p i inside'.
Proof. intros [Hs Hk Hn Ht] Hsub. constructor; auto. Qed.

(** What this does to the tree at [root]. *)
Record tree_changed T T' (below : nat) (root : Z) (path : list Z) (p i : Z) : Prop := {
  tr_tree : is_tree T' below root;
  tr_table : table_at T' below root path = Some p;
  tr_in q : in_tree T' below root q <->
    in_tree T below root q \/ child T' (below - length path) p i q;
  tr_leaf path' : path_ok path' -> ~ (path ++ [i]) `prefix_of` path' ->
    leaf T' below root path' = leaf T below root path';
}.

(** The entry is in the table at the root itself. *)
Lemma change_root T T' below root i :
  is_tree T below root -> index_ok i ->
  entry_changed T T' below root i (in_tree T below root) ->
  tree_changed T T' below root [] root i.
Proof.
  intros Htree Hi [Hs Hk Hn Ht]. cbn [length].
  assert (Hroot : in_tree T below root root) by (apply in_tree_child; by left).
  assert (Hinside : forall j q, index_ok j -> child T below root j q -> in_tree T below root q).
  { intros j q Hj Hc. apply in_tree_child. right. by exists j. }
  assert (Hself : forall j, index_ok j -> ~ child T below root j root) by (destruct below; naive_solver).
  assert (Hother : forall j q k, index_ok j -> j ≠ i -> child T below root j q -> T' q k = T q k).
  { intros j q k Hj Hne Hc. apply Hs; [by eapply Hinside|]. intros [-> _]. by apply (Hself j). }
  assert (Hentry : forall j, j ≠ i -> T' root j = T root j) by (intros; apply Hs; [done|naive_solver]).
  assert (Hch : forall j q, index_ok j -> j ≠ i -> child T' below root j q <-> child T below root j q).
  { intros j q Hj Hne. apply child_ext; [by apply Hentry|]. intros; by eapply Hother. }
  constructor.
  - destruct below as [|b]; [done|]. destruct Htree as (Hsub & _ & Hone).
    assert (Hone' : forall j q, index_ok j -> j ≠ i ->
      child T' (S b) root i q -> child T' (S b) root j q -> False).
    { intros j q Hj Hne Hci Hcj. rewrite Hch in Hcj by done. apply Hne.
      eapply (Hone j i q); [done..|]. apply Hn; [done|]. by eapply Hinside. }
    split; [|split].
    + intros j Hj. destruct (decide (j = i)) as [->|Hne]; [by apply Ht|].
      rewrite (Hentry j) by done. intros Hp. destruct (Hsub j Hj Hp) as [Hpr Htr]. split; [done|].
      eapply is_tree_ext; [|exact Htr]. intros q k Hq. by apply (Hother j).
    + intros j Hj. destruct (decide (j = i)) as [->|Hne]; [|rewrite Hch by done; by apply Hself].
      intros Hc. by apply (Hself i Hi), Hn.
    + intros j k q Hj Hk'. destruct (decide (j = i)) as [->|Hji], (decide (k = i)) as [->|Hki]; [done|..].
      * intros Hci Hcj. by destruct (Hone' k q).
      * intros Hcj Hci. by destruct (Hone' j q).
      * rewrite !Hch by done. by apply Hone.
  - done.
  - intros q. rewrite Nat.sub_0_r, !in_tree_child. split.
    + intros [->|(j & Hj & Hc)]; [by left; left|].
      destruct (decide (j = i)) as [->|Hne]; [by right|]. left. right. exists j. by rewrite <-Hch.
    + intros [[->|(j & Hj & Hc)]|Hc]; [by left|right..].
      * exists j. split; [done|]. destruct (decide (j = i)) as [->|Hne]; [by apply Hk|by apply Hch].
      * by exists i.
  - intros [|j path] Hpath Hpre; [done|]. apply Forall_cons in Hpath as [Hj Hpath].
    assert (Hne : j ≠ i) by (intros ->; apply Hpre; by exists path).
    apply leaf_child_ext; [done|by apply Hentry|]. intros q k Hc. by eapply Hother.
Qed.

(** What the change does to one subtree it does to the whole tree. *)
Section Below.
Context (T T' : Z -> Z -> E) (b : nat) (root x p i : Z) (path : list Z).
Hypothesis Htree : is_tree T (S b) root.
Hypothesis Hx : index_ok x.
Hypothesis Hpath : path_ok path.
Hypothesis Hi : index_ok i.
Hypothesis Hp : points (S b) (T root x) = true.
Hypothesis Htab : table_at T b (pte_addr (T root x)) path = Some p.
Hypothesis Hentry : entry_changed T T' (b - length path) p i (in_tree T (S b) root).
Hypothesis Hsub : tree_changed T T' b (pte_addr (T root x)) path p i.

Lemma below_child : child T (S b) root x p.
Proof. split; [done|]. by eapply table_at_in. Qed.

Lemma below_root j : T' root j = T root j.
Proof.
  apply Hentry; [by left|]. intros [Heq _]. destruct Htree as (_ & Hself & _).
  apply (Hself x Hx). rewrite Heq at 2. apply below_child.
Qed.

Lemma below_other j q k : index_ok j -> j ≠ x -> child T (S b) root j q -> T' q k = T q k.
Proof.
  intros Hj Hne Hc. apply Hentry; [apply in_tree_child; right; by exists j|]. intros [Heq _].
  destruct Htree as (_ & _ & Hone). apply Hne, (Hone j x q); [done..|]. rewrite Heq. apply below_child.
Qed.

Lemma below_child_other j q :
  index_ok j -> j ≠ x -> child T' (S b) root j q <-> child T (S b) root j q.
Proof. intros Hj Hne. apply child_ext; [by apply below_root|]. intros; by eapply below_other. Qed.

Lemma below_child_x q :
  child T' (S b) root x q <-> child T (S b) root x q \/ child T' (b - length path) p i q.
Proof. cbn [child]. rewrite below_root, (tr_in _ _ _ _ _ _ _ Hsub), Hp. naive_solver. Qed.

Lemma below_old q : in_tree T (S b) root q -> child T' (S b) root x q -> child T (S b) root x q.
Proof.
  intros Hq [Hc|Hc]%below_child_x; [done|]. split; [done|].
  eapply table_at_child; [done..|]. by apply Hentry.
Qed.

Lemma below_is_tree : is_tree T' (S b) root.
Proof.
  pose proof Htree as (Hsubs & Hself & Hone). split; [|split].
  - intros j Hj. rewrite below_root. intros Hpj. destruct (Hsubs j Hj Hpj) as [Hpres Htr]. split; [done|].
    destruct (decide (j = x)) as [->|Hne]; [apply Hsub|].
    eapply is_tree_ext; [|exact Htr]. intros q k Hq. by apply (below_other j).
  - intros j Hj. destruct (decide (j = x)) as [->|Hne]; [|rewrite below_child_other by done; by apply Hself].
    intros Hc. apply (Hself x Hx), below_old; [by left|done].
  - assert (Hone' : forall j q, index_ok j -> j ≠ x ->
      child T' (S b) root x q -> child T' (S b) root j q -> False).
    { intros j q Hj Hne Hc Hcj. rewrite below_child_other in Hcj by done. apply Hne, (Hone j x q); [done..|].
      apply below_old; [|done]. apply in_tree_child. right. by exists j. }
    intros j k q Hj Hk. destruct (decide (j = x)) as [->|Hji], (decide (k = x)) as [->|Hki]; [done|..].
    + intros Hcx Hck. by destruct (Hone' k q).
    + intros Hcj Hcx. by destruct (Hone' j q).
    + rewrite !below_child_other by done. by apply Hone.
Qed.

Lemma change_below : tree_changed T T' (S b) root (x :: path) p i.
Proof.
  constructor.
  - apply below_is_tree.
  - cbn [table_at]. rewrite below_root, Hp. apply Hsub.
  - intros q. cbn [length Nat.sub]. rewrite !in_tree_child. split.
    + intros [->|(j & Hj & Hc)]; [by left; left|]. destruct (decide (j = x)) as [->|Hne].
      * apply below_child_x in Hc as [Hc|Hc]; [left; right; by exists x|by right].
      * left. right. exists j. by rewrite <-below_child_other.
    + intros [[->|(j & Hj & Hc)]|Hc]; [by left|right..].
      * exists j. split; [done|].
        destruct (decide (j = x)) as [->|Hne]; [apply below_child_x; by left|by apply below_child_other].
      * exists x. split; [done|]. apply below_child_x. by right.
  - intros [|j path'] Hpath' Hpre; [done|]. apply Forall_cons in Hpath' as [Hj Hpath'].
    destruct (decide (j = x)) as [->|Hne].
    + rewrite !leaf_points by (rewrite ?below_root; done). rewrite below_root. apply Hsub; [done|].
      intros Hp'. by apply Hpre, prefix_cons.
    + apply leaf_child_ext; [done|by apply below_root|]. intros q k Hc. by eapply below_other.
Qed.
End Below.

Lemma change_spec T T' below root path p i :
  is_tree T below root -> table_at T below root path = Some p -> path_ok path -> index_ok i ->
  entry_changed T T' (below - length path) p i (in_tree T below root) ->
  tree_changed T T' below root path p i.
Proof.
  revert below root. induction path as [|x path IH]; intros below root Htree Htab Hpath Hi Hc;
    cbn [table_at] in Htab.
  - simplify_eq. cbn [length] in Hc. rewrite Nat.sub_0_r in Hc. by apply change_root.
  - apply Forall_cons in Hpath as [Hx Hpath]. destruct below as [|b]; [done|].
    destruct (points _ _) eqn:Hp; [|done]. apply change_below; [done..|].
    apply IH; [by apply Htree|done..|]. eapply entry_changed_within; [exact Hc|].
    intros q Hq. right. by exists x.
Qed.
End Change.

(** ** Flags *)
Lemma contains_bit f n : 0 <= n -> contains f (2 ^ n) = Z.testbit f n.
Proof.
  intros Hn. apply eq_true_iff_eq. unfold contains. rewrite bool_decide_eq_true. split.
  - intros Heq. apply (f_equal (fun z => Z.testbit z n)) in Heq.
    rewrite Z.land_spec, Z.pow2_bits_true, andb_true_r in Heq by done. exact Heq.
  - intros Hb. apply Z.bits_inj'. intros k Hk. rewrite Z.land_spec, Z.pow2_bits_eqb by done.
    destruct (Z.eqb_spec n k) as [<-|]; [by rewrite Hb|apply andb_false_r].
Qed.

Lemma contains_or f g n :
  0 <= n -> contains (Z.lor f g) (2 ^ n) = contains f (2 ^ n) || contains g (2 ^ n).
Proof. intros Hn. rewrite !contains_bit by done. apply Z.lor_spec. Qed.

Lemma contains_and f g n :
  0 <= n -> contains (Z.land f g) (2 ^ n) = contains f (2 ^ n) && contains g (2 ^ n).
Proof. intros Hn. rewrite !contains_bit by done. apply Z.land_spec. Qed.

Lemma contains_zero n : 0 <= n -> contains 0 (2 ^ n) = false.
Proof. intros Hn. rewrite contains_bit by done. apply Z.bits_0. Qed.

Section PageFlags.
Context {E : Type} `{PageTableEntryLaws E}.

(** The flags of a page, or of an entry that leads to a table. *)
Record page_flags (f : Z) : Prop := {
  pf_ok : flags_ok f;
  pf_present : contains f PRESENT = true;
  pf_huge : contains f HUGE_PAGE = false;
}.

Lemma page_flags_user : page_flags USER_FLAGS.
Proof. constructor; [apply flags_ok_user|done..]. Qed.

(** What [map_to] takes for the entries on the way. *)
Lemma page_flags_parent f : page_flags f -> page_flags (Z.land f USER_FLAGS).
Proof.
  intros [Ho Hp Hh]. constructor; [apply flags_ok_and; [done|apply flags_ok_user]|..].
  - change PRESENT with (2 ^ 0) in *. by rewrite contains_and, Hp.
  - change HUGE_PAGE with (2 ^ 7) in *. by rewrite contains_and, Hh.
Qed.

Lemma page_flags_or f g :
  flags_ok f -> contains f HUGE_PAGE = false -> page_flags g -> page_flags (Z.lor f g).
Proof.
  intros Hf Hfh [Ho Hp Hh]. constructor; [by apply flags_ok_or|..].
  - change PRESENT with (2 ^ 0) in *. rewrite contains_or by done. by rewrite Hp, orb_true_r.
  - change HUGE_PAGE with (2 ^ 7) in *. by rewrite contains_or, Hfh, Hh.
Qed.

(** An entry with such flags is in use, and above level 1 leads to a table. *)
Lemma page_flags_used e : page_flags (pte_flags e) -> pte_is_unused e = false.
Proof.
  intros [_ Hp _]. destruct (pte_is_unused e) eqn:Hu; [|done].
  apply pte_unused in Hu as [_ Hf]. by rewrite Hf in Hp.
Qed.

Lemma page_flags_points b e : page_flags (pte_flags e) -> points (S b) e = true.
Proof.
  intros Hf. apply points_spec. split; [by apply page_flags_used|]. unfold is_leaf. cbn.
  by destruct Hf.
Qed.
End PageFlags.

(** ** Hierarchies in the memory of the kernel *)
Section State.
Context {A E : Type} `{FrameAllocatorLaws A} `{PageTableEntryLaws E}.
Implicit Types (m : MemoryInfo A E) (T : Z -> Z -> E) (p root : Z) (path : list Z).

(** A level 4 table, with its tree on frames the allocator does not own. *)
Record hierarchy m root : Prop := {
  hi_tree : is_tree (tables m) 3 root;
  hi_root : is_frame root;
  hi_taken p : in_tree (tables m) 3 root p -> mtaken m p;
}.

(** The path of a 4 KiB page. *)
Definition full path : Prop := path_ok path /\ length path = 4%nat.

(** From [m] to [m'] only the tables of [root] changed, and they are those of
    before and new ones. *)
Record confined root m m' : Prop := {
  cf_usable g : fa_usable (frame_allocator m') g <-> fa_usable (frame_allocator m) g;
  cf_used g : is_frame g -> mused m g -> mused m' g;
  cf_kernel : kernel_table m' = kernel_table m;
  cf_same p j : is_frame p -> mtaken m p -> ~ in_tree (tables m) 3 root p ->
    tables m' p j = tables m p j;
  cf_new p : in_tree (tables m') 3 root p -> in_tree (tables m) 3 root p \/ ~ mtaken m p;
}.

Lemma confined_taken root m m' g : confined root m m' -> is_frame g -> mtaken m g -> mtaken m' g.
Proof.
  intros Hc Hg [Hu|Hu]; [left; by apply (cf_used _ _ _ Hc)|right]. by rewrite (cf_usable _ _ _ Hc).
Qed.

Lemma tree_frame T below root p : in_tree T below root p -> p = root \/ is_frame p.
Proof.
  rewrite in_tree_child. intros [->|(i & _ & Hc)]; [by left|right]. by eapply child_frame.
Qed.

#[export] Instance confined_preorder root : PreOrder (confined root).
Proof.
  split.
  - intros m. constructor; try done. by left.
  - intros m1 m2 m3 H12 H23. constructor.
    + intros g. rewrite (cf_usable _ _ _ H23). apply H12.
    + intros g Hg Hu. by apply (cf_used _ _ _ H23), (cf_used _ _ _ H12).
    + rewrite (cf_kernel _ _ _ H23). apply H12.
    + intros p j Hp Ht Hin. rewrite (cf_same _ _ _ H23); [by apply H12|done|by eapply confined_taken|].
      intros [Hc|Hc]%(cf_new _ _ _ H12); done.
    + intros p Hin. destruct (tree_frame _ _ _ _ Hin) as [->|Hp]; [left; by apply in_tree_child; left|].
      apply (cf_new _ _ _ H23) in Hin as [Hin|Hn]; [by apply H12|right].
      intros Ht. by eapply Hn, confined_taken.
Qed.

(** What such a change leaves alone: the tree of another table. *)
Record apart m root other : Prop := {
  ap_frame : is_frame other;
  ap_tree p : in_tree (tables m) 3 other p -> mtaken m p /\ ~ in_tree (tables m) 3 root p;
}.

Lemma apart_same root m m' other q j :
  confined root m m' -> apart m root other -> in_tree (tables m) 3 other q ->
  tables m' q j = tables m q j.
Proof.
  intros Hc [Hf Ht] Hq. apply Ht in Hq as Hq'. destruct Hq' as [Htk Hn].
  apply (cf_same _ _ _ Hc); [|done..]. by eapply in_tree_frame.
Qed.

Lemma apart_confined root m m' other :
  confined root m m' -> apart m root other ->
  apart m' root other /\
  (forall path, path_ok path -> leaf (tables m') 3 other path = leaf (tables m) 3 other path).
Proof.
  intros Hc Ha. pose proof (fun q j => apart_same root m m' other q j Hc Ha) as Hs. split.
  - constructor; [apply Ha|]. intros p. rewrite (in_tree_ext 3 _ _ _ _ Hs). intros Hp.
    apply (ap_tree _ _ _ Ha) in Hp as Hp'. destruct Hp' as [Ht Hn]. split.
    + eapply confined_taken; [done| |done]. eapply in_tree_frame, Hp. apply Ha.
    + by intros [Hr|Hr]%(cf_new _ _ _ Hc).
  - intros path Hpath. apply leaf_ext; [done|]. exact Hs.
Qed.

(** A change of the tree at [root] that makes its leaves [lf]; it takes frames
    for new tables only. *)
Record steps_to root (lf : list Z -> option (Z * Z * list Z)) m m' : Prop := {
  st_hierarchy : hierarchy m' root;
  st_confined : confined root m m';
  st_leaf path : full path -> leaf (tables m') 3 root path = lf path;
  st_tree p : in_tree (tables m) 3 root p -> in_tree (tables m') 3 root p;
  st_used g : is_frame g ->
    mused m' g <-> mused m g \/ in_tree (tables m') 3 root g /\ ~ in_tree (tables m) 3 root g;
}.

Lemma steps_to_refl root m : hierarchy m root -> steps_to root (leaf (tables m) 3 root) m m.
Proof. intros Hh. constructor; try done. intros g _. tauto. Qed.

Lemma steps_to_trans root lf lf' m1 m2 m3 :
  steps_to root lf m1 m2 -> steps_to root lf' m2 m3 -> steps_to root lf' m1 m3.
Proof.
  intros H12 H23. constructor.
  - apply H23.
  - etransitivity; [apply H12|apply H23].
  - apply H23.
  - intros p Hp. by apply H23, H12.
  - intros g Hg. rewrite (st_used _ _ _ _ H23 g Hg), (st_used _ _ _ _ H12 g Hg).
    pose proof (st_tree _ _ _ _ H12 g) as Ht12. pose proof (st_tree _ _ _ _ H23 g) as Ht23.
    assert (Hdec : in_tree (tables m3) 3 root g -> ~ in_tree (tables m1) 3 root g ->
      mused m2 g \/ ~ in_tree (tables m2) 3 root g).
    { intros Hin Hn. destruct (cf_new _ _ _ (st_confined _ _ _ _ H23) g Hin) as [Hin2|Hnt].
      - left. apply (st_used _ _ _ _ H12 g Hg). by right.
      - right. intros Hin2. apply Hnt. by apply (st_hierarchy _ _ _ _ H12). }
    rewrite (st_used _ _ _ _ H12 g Hg) in Hdec. tauto.
Qed.

Lemma steps_to_ext root lf lf' m m' :
  steps_to root lf m m' -> (forall path, full path -> lf' path = lf path) -> steps_to root lf' m m'.
Proof. intros [? ? Hl ? ?] Heq. constructor; try done. intros path Hp. by rewrite Heq, Hl. Qed.
End State.

(** ** The three changes memory.rs and the mapper make *)
Section Entries.
Context {A E : Type} `{FrameAllocatorLaws A} `{PageTableEntryLaws E}.
Implicit Types (m : MemoryInfo A E) (T : Z -> Z -> E) (p root : Z) (path : list Z) (e : E).

Lemma table_at_snoc T below b root path p i :
  table_at T below root path = Some p -> (below - length path)%nat = S b ->
  table_at T below root (path ++ [i]) =
    if points (S b) (T p i) then Some (pte_addr (T p i)) else None.
Proof.
  revert below root. induction path as [|x path IH]; intros below root Ht Hb; cbn [table_at length] in *.
  - simplify_eq. rewrite Nat.sub_0_r in Hb. by rewrite Hb.
  - destruct below as [|c]; [done|]. cbn [app table_at]. destruct (points (S c) _); [|done]. by apply IH.
Qed.

Lemma empty_is_tree T below root : empty_table T root -> is_tree T below root.
Proof.
  intros He. assert (Hp : forall i, index_ok i -> points below (T root i) = false).
  { intros i Hi. unfold points. by rewrite He. }
  destruct below as [|b]; [done|]. split; [|split].
  - intros i Hi. by rewrite Hp.
  - intros i Hi. by apply child_not_points, Hp.
  - intros i j p Hi _ Hc. by apply child_not_points in Hc; [|apply Hp].
Qed.

Lemma empty_in_tree T below root p : empty_table T root -> in_tree T below root p -> p = root.
Proof.
  intros He. rewrite in_tree_child. intros [|(i & Hi & Hc)]; [done|].
  apply child_not_points in Hc; [done|]. unfold points. by rewrite He.
Qed.

Lemma empty_leaf T below root path : empty_table T root -> path_ok path -> leaf T below root path = None.
Proof.
  intros He Hp. destruct path as [|i path]; [done|]. apply Forall_cons in Hp as [Hi _]. cbn.
  by rewrite He.
Qed.

(** A new link or a new leaf in table [p]: entry [i], and new tables below. *)
Record rewired root path p i m m' : Prop := {
  rw_table : table_at (tables m) 3 root path = Some p;
  rw_path : path_ok path /\ index_ok i;
  rw_entry : entry_changed (tables m) (tables m') (3 - length path) p i (in_tree (tables m) 3 root);
  rw_same q j : is_frame q -> mtaken m q -> ~ (q = p /\ j = i) -> tables m' q j = tables m q j;
  rw_frames : extends (fun g => child (tables m') (3 - length path) p i g /\
    ~ child (tables m) (3 - length path) p i g) m m';
  rw_new g : child (tables m') (3 - length path) p i g ->
    child (tables m) (3 - length path) p i g \/ ~ mtaken m g;
}.

Lemma rewired_changed root path p i m m' :
  hierarchy m root -> rewired root path p i m m' ->
  tree_changed (tables m) (tables m') 3 root path p i.
Proof. intros [Ht _ _] [Htab [Hp Hi] He _ _ _]. by apply change_spec. Qed.

Lemma rewired_confined root path p i m m' :
  hierarchy m root -> rewired root path p i m m' -> confined root m m'.
Proof.
  intros Hh Hr. pose proof (rewired_changed _ _ _ _ _ _ Hh Hr) as Htr.
  destruct Hh as [_ Hroot Htaken], Hr as [Htab [Hp Hi] _ Hsame Hext Hnew]. constructor.
  - apply Hext.
  - intros g Hg Hu. apply (ext_used _ _ _ Hext g Hg). by right.
  - apply Hext.
  - intros q j Hq Htk Hn. apply Hsame; [done..|]. intros [-> _]. by eapply Hn, table_at_in.
  - intros q [Hq|[Hc|Hc]%Hnew]%(tr_in _ _ _ _ _ _ _ Htr); [by left| |by right].
    left. by eapply table_at_child.
Qed.

Lemma rewired_steps root path p i m m' lf :
  hierarchy m root -> rewired root path p i m m' ->
  (forall rest, full (path ++ i :: rest) ->
    leaf (tables m') (3 - length path) p (i :: rest) = lf (path ++ i :: rest)) ->
  (forall path', full path' -> ~ (path ++ [i]) `prefix_of` path' ->
    lf path' = leaf (tables m) 3 root path') ->
  steps_to root lf m m'.
Proof.
  intros Hh Hr Hon Hoff. pose proof (rewired_changed _ _ _ _ _ _ Hh Hr) as Htr.
  pose proof (rewired_confined _ _ _ _ _ _ Hh Hr) as Hc.
  destruct Hh as [Htree Hroot Htaken], Hr as [Htab [Hp Hi] _ _ Hext Hnew].
  assert (Hused : forall g, is_frame g -> mused m' g <->
    mused m g \/ in_tree (tables m') 3 root g /\ ~ in_tree (tables m) 3 root g).
  { intros g Hg. rewrite (ext_used _ _ _ Hext g Hg), (tr_in _ _ _ _ _ _ _ Htr). split.
    - intros [[Hc1 Hc2]|]; [right|by left]. split; [by right|]. apply Hnew in Hc1 as [|Hnt]; [done|].
      intros Hin. by apply Hnt, Htaken.
    - intros [|[[|Hc1] Hn]]; [by right|done|]. left. split; [done|].
      intros Hc2. by eapply Hn, table_at_child. }
  constructor; [|done| | |done].
  - constructor; [apply Htr|done|]. intros q Hq.
    assert (Hqf : is_frame q) by (by eapply in_tree_frame).
    destruct (cf_new _ _ _ Hc q Hq) as [Hin|Hn]; [by eapply confined_taken; [..|apply Htaken]|].
    left. apply Hused; [done|]. right. split; [done|]. intros Hin. by apply Hn, Htaken.
  - intros path' Hfull. destruct (decide ((path ++ [i]) `prefix_of` path')) as [[rest ->]|Hn].
    + rewrite <-app_assoc in *. cbn [app] in *. rewrite <-Hon by done.
      apply leaf_app. apply Htr.
    + rewrite Hoff by done. apply Htr; [apply Hfull|done].
  - intros q Hq. apply Htr. by left.
Qed.
End Entries.

Section Puts.
Context {A E : Type} `{FrameAllocatorLaws A} `{PageTableEntryLaws E}.
Implicit Types (m : MemoryInfo A E) (T : Z -> Z -> E) (p root : Z) (path : list Z) (e : E).

Lemma put_tables p i e m q j :
  tables (UserStack.put p i e m) q j = if decide (q = p /\ j = i) then e else tables m q j.
Proof. done. Qed.

Lemma put_at p i e m : tables (UserStack.put p i e m) p i = e.
Proof. rewrite put_tables. by rewrite decide_True. Qed.

(** A page: an entry of a level 1 table. *)
Lemma put_rewired root path p i e m :
  table_at (tables m) 3 root path = Some p -> full (path ++ [i]) ->
  (3 - length path)%nat = 0%nat /\ rewired root path p i m (UserStack.put p i e m).
Proof.
  intros Htab [Hpath Hlen]. rewrite length_app in Hlen. cbn in Hlen.
  apply Forall_app in Hpath as [Hpath Hi]. apply Forall_cons in Hi as [Hi _].
  assert (Hb : (3 - length path)%nat = 0%nat) by lia. split; [done|].
  constructor; rewrite ?Hb; [done..| | | |by intros g []].
  - constructor; [|done..]. intros q j _ Hne. rewrite put_tables. by rewrite decide_False.
  - intros q j _ _ Hne. rewrite put_tables. by rewrite decide_False.
  - constructor; [done| |done]. intros g _. cbn. unfold mused. tauto.
Qed.

Lemma put_page root path p i e m :
  hierarchy m root -> table_at (tables m) 3 root path = Some p -> full (path ++ [i]) ->
  steps_to root (fun path' =>
    if decide (path' = path ++ [i])
    then if pte_is_unused e then None else Some (pte_addr e, pte_flags e, [])
    else leaf (tables m) 3 root path') m (UserStack.put p i e m).
Proof.
  intros Hh Htab Hfull. destruct (put_rewired root path p i e m Htab Hfull) as [Hb Hrw].
  eapply (rewired_steps root path p i); [done..| |].
  - intros rest [_ Hrest]. destruct Hfull as [_ Hlen]. rewrite length_app in Hrest, Hlen.
    cbn in Hrest, Hlen. destruct rest; [|cbn in Hrest; lia]. rewrite decide_True, Hb by done.
    cbn [leaf]. by rewrite put_at.
  - intros path' _ Hn. rewrite decide_False; [done|]. by intros ->; apply Hn.
Qed.

Lemma put_page_table root path p i e m :
  hierarchy m root -> table_at (tables m) 3 root path = Some p -> full (path ++ [i]) ->
  table_at (tables (UserStack.put p i e m)) 3 root path = Some p.
Proof.
  intros Hh Htab Hfull. destruct (put_rewired root path p i e m Htab Hfull) as [_ Hrw].
  apply (rewired_changed _ _ _ _ _ _ Hh Hrw).
Qed.

(** A new, empty table behind an entry that was not in use. *)
Lemma link_table root path p i e t m m1 b :
  hierarchy m root -> table_at (tables m) 3 root path = Some p -> path_ok (path ++ [i]) ->
  (3 - length path)%nat = S b -> pte_is_unused (tables m p i) = true ->
  create_pagetable m = Done (t, m1) -> pte_addr e = t -> page_flags (pte_flags e) ->
  steps_to root (leaf (tables m) 3 root) m (UserStack.put p i e m1) /\
  table_at (tables (UserStack.put p i e m1)) 3 root (path ++ [i]) = Some t.
Proof.
  intros Hh Htab Hpath Hb Hunused Hc Ha Hf. apply create_pagetable_spec in Hc as (Ht & Hnt & HT & Hext).
  apply Forall_app in Hpath as [Hpath Hi]. apply Forall_cons in Hi as [Hi _].
  assert (Hpin : in_tree (tables m) 3 root p) by (by eapply table_at_in).
  assert (Htp : t ≠ p) by (intros ->; by apply Hnt, Hh).
  assert (Hempty : empty_table (tables (UserStack.put p i e m1)) t).
  { intros j _. rewrite put_tables, decide_False by naive_solver. rewrite HT. unfold zero.
    rewrite decide_True by done. apply pte_new_unused. }
  assert (Hsame : forall q j, mtaken m q -> ~ (q = p /\ j = i) ->
    tables (UserStack.put p i e m1) q j = tables m q j).
  { intros q j Hq Hne. rewrite put_tables, decide_False, HT by done. unfold zero.
    by rewrite decide_False by (intros ->; by apply Hnt). }
  assert (Hpoints : points (S b) e = true) by (by apply page_flags_points).
  assert (Hold : forall g, ~ child (tables m) (S b) p i g).
  { intros g. apply child_not_points. unfold points. by rewrite Hunused. }
  assert (Hnew : forall g, child (tables (UserStack.put p i e m1)) (S b) p i g <-> g = t).
  { intros g. cbn [child]. rewrite put_at, Hpoints, Ha. split.
    - intros [_ Hin]. by eapply empty_in_tree.
    - intros ->. split; [done|]. apply in_tree_child. by left. }
  assert (Hrw : rewired root path p i m (UserStack.put p i e m1)).
  { constructor; rewrite ?Hb; [done|done| |by auto| |].
    - constructor.
      + intros q j Hq. apply Hsame. by apply Hh.
      + intros q Hq. by apply Hold in Hq.
      + intros q Hq%Hnew Hin. subst q. by destruct Hnt; apply Hh.
      + intros c [= <-] _. rewrite put_at, Ha. split; [by destruct Hf|by apply empty_is_tree].
    - constructor; [apply Hext| |apply Hext]. intros g Hg.
      rewrite Hnew. pose proof (Hold g). pose proof (ext_used _ _ _ Hext g Hg) as Hu. unfold mused in *.
      cbn [UserStack.put with_tables frame_allocator]. rewrite Hu. tauto.
    - intros g ->%Hnew. by right. }
  split.
  - eapply (rewired_steps root path p i); [done..| |done]. intros rest [Hfull _]. rewrite Hb.
    apply Forall_app in Hfull as [_ Hfull]. apply Forall_cons in Hfull as [_ Hrest].
    rewrite (leaf_app _ _ _ _ p), Hb, leaf_points, put_at, Ha by (rewrite ?put_at; done).
    rewrite empty_leaf by done. cbn [leaf]. by rewrite Hunused.
  - rewrite (table_at_snoc _ _ b _ _ p) by (done || apply (rewired_changed _ _ _ _ _ _ Hh Hrw)).
    by rewrite put_at, Hpoints, Ha.
Qed.

(** New flags on the entry that leads to a table. *)
Lemma touch_entry root path p i e m b :
  hierarchy m root -> table_at (tables m) 3 root path = Some p -> path_ok (path ++ [i]) ->
  (3 - length path)%nat = S b -> points (S b) (tables m p i) = true ->
  pte_addr e = pte_addr (tables m p i) -> page_flags (pte_flags e) ->
  steps_to root (leaf (tables m) 3 root) m (UserStack.put p i e m) /\
  table_at (tables (UserStack.put p i e m)) 3 root (path ++ [i]) = Some (pte_addr e).
Proof.
  intros Hh Htab Hpath Hb Hpt Ha Hf.
  apply Forall_app in Hpath as [Hpath Hi]. apply Forall_cons in Hi as [Hi _].
  assert (Hpoints : points (S b) e = true) by (by apply page_flags_points).
  pose proof (table_at_tree _ _ _ _ _ (hi_tree _ _ Hh) Htab Hpath) as Hsub. rewrite Hb in Hsub.
  destruct Hsub as (Hsub & Hself & _). destruct (Hsub i Hi Hpt) as [_ Htree].
  assert (Hsame : forall q j, in_tree (tables m) b (pte_addr (tables m p i)) q ->
    tables (UserStack.put p i e m) q j = tables m q j).
  { intros q j Hq. rewrite put_tables, decide_False; [done|]. intros [-> _]. by apply (Hself i). }
  assert (Hch : forall q, child (tables (UserStack.put p i e m)) (S b) p i q <->
    child (tables m) (S b) p i q).
  { intros q. cbn [child]. rewrite put_at, Hpoints, Hpt, Ha. by rewrite (in_tree_ext b _ _ _ _ Hsame). }
  assert (Hrw : rewired root path p i m (UserStack.put p i e m)).
  { constructor; rewrite ?Hb; [done|done| | | |intros g Hg%Hch; by left].
    - constructor; [|by intros q ?%Hch|by intros q ?%Hch|].
      + intros q j _ Hne. rewrite put_tables. by rewrite decide_False.
      + intros c [= <-] _. rewrite put_at, Ha. split; [by destruct Hf|by eapply is_tree_ext].
    - intros q j _ _ Hne. rewrite put_tables. by rewrite decide_False.
    - constructor; [done| |done]. intros g _. pose proof (Hch g). unfold mused.
      cbn [UserStack.put with_tables frame_allocator]. tauto. }
  split.
  - eapply (rewired_steps root path p i); [done..| |done]. intros rest [Hfull _]. rewrite Hb.
    apply Forall_app in Hfull as [_ Hfull]. apply Forall_cons in Hfull as [_ Hrest].
    rewrite (leaf_app _ _ _ _ p), Hb, !leaf_points, put_at, Ha by (rewrite ?put_at; done).
    by apply leaf_ext.
  - rewrite (table_at_snoc _ _ b _ _ p) by (done || apply (rewired_changed _ _ _ _ _ _ Hh Hrw)).
    by rewrite put_at, Hpoints.
Qed.
End Puts.
