(* ===== verification/Vga.v ===== *)
(** * The VGA text console (kernel/src/dev/vga_buffer.rs)

    [Writer] over the 25 x 80 text buffer.  A byte is a [Z] in [0, 256), a
    string its list of bytes.  All the methods run with the lock of [WRITER]
    held, which is the only [Writer] there is. *)
From S2P Require Import Prelude.

(** [Color] *)
Inductive Color :=
| Black | Blue | Green | Cyan | Red | Magenta | Brown | LightGray | DarkGray | LightBlue
| LightGreen | LightCyan | LightRed | Pink | Yellow | White.

Definition color_value (c : Color) : Z :=
  match c with
  | Black => 0 | Blue => 1 | Green => 2 | Cyan => 3 | Red => 4 | Magenta => 5 | Brown => 6
  | LightGray => 7 | DarkGray => 8 | LightBlue => 9 | LightGreen => 10 | LightCyan => 11
  | LightRed => 12 | Pink => 13 | Yellow => 14 | White => 15
  end.

(** [ColorCode::new] *)
Definition ColorCode_new (foreground background : Color) : Z :=
  Z.lor (Z.land (Z.shiftl (color_value background) 4) 0xFF) (color_value foreground).

Record ScreenChar := mkScreenChar {
  ascii_character : Z;
  color_code_of : Z;
}.

#[export] Instance ScreenChar_eq_dec : EqDecision ScreenChar.
Proof. solve_decision. Defined.

Definition BUFFER_HEIGHT : Z := 25.
Definition BUFFER_WIDTH : Z := 80.

Abbreviation Buffer := (list (list ScreenChar)).

Record Writer := mkWriter {
  column_position : Z;
  row_position : Z;
  cursor_position : Z * Z;
  color_code : Z;
  buffer : Buffer;
}.

Module Vga.

Definition with_buffer (b : Buffer) (w : Writer) : Writer :=
  mkWriter (column_position w) (row_position w) (cursor_position w) (color_code w) b.
Definition with_column (c : Z) (w : Writer) : Writer :=
  mkWriter c (row_position w) (cursor_position w) (color_code w) (buffer w).

(** [self.buffer.chars\[row\]\[col\].read()] and [.write(c)]. *)
Definition read_cell (b : Buffer) (row col : Z) : outcome ScreenChar :=
  r ← vindex b row;
  vindex r col.

Definition write_cell (row col : Z) (c : ScreenChar) (b : Buffer) : outcome Buffer :=
  r ← vindex b row;
  r ← vset r col c;
  vset b row r.

(** [clear_row] *)
Definition clear_row (row : Z) (w : Writer) : outcome Writer :=
  let blank := mkScreenChar 0x20 (color_code w) in
  b ← for_each (seqZ 0 BUFFER_WIDTH) (fun col b => write_cell row col blank b) (buffer w);
  Done (with_buffer b w).

(** [new_line] *)
Definition new_line (w : Writer) : outcome Writer :=
  b ← for_each (seqZ 1 (BUFFER_HEIGHT - 1)) (fun row b =>
        for_each (seqZ 0 BUFFER_WIDTH) (fun col b =>
          character ← read_cell b row col;
          write_cell (row - 1) col character b) b) (buffer w);
  w ← clear_row (BUFFER_HEIGHT - 1) (with_buffer b w);
  Done (with_column 0 w).

(** [write_byte].  The backspace branch starts with [println!], which takes
    the lock of [WRITER] the caller holds. *)
Definition write_byte (byte : Z) (w : Writer) : outcome Writer :=
  if decide (byte = 0x0A) then new_line w
  else if decide (byte = 0x08) then Hang
  else if decide (byte = 0x7f) then
    b ← for_each (seqZ (column_position w) (BUFFER_WIDTH - 1 - column_position w)) (fun i b =>
          c ← read_cell b (row_position w) (i + 1);
          write_cell (row_position w) i (mkScreenChar (ascii_character c) (color_code w)) b)
        (buffer w);
    b ← write_cell (row_position w) (BUFFER_WIDTH - 1) (mkScreenChar 0x20 (color_code w)) b;
    Done (with_buffer b w)
  else
    w ← (if decide (column_position w >= BUFFER_WIDTH) then new_line w else Done w);
    b ← write_cell (BUFFER_HEIGHT - 1) (column_position w) (mkScreenChar byte (color_code w)) (buffer w);
    Done (with_column (column_position w + 1) (with_buffer b w)).

(** [write_string] *)
Definition write_string (s : list Z) (w : Writer) : outcome Writer :=
  for_each s (fun byte w =>
    if decide (0x20 <= byte <= 0x7e \/ byte = 0x0A) then write_byte byte w
    else write_byte 0xfe w) w.

(** [set_position] and [get_position] *)
Definition set_position (column row : Z) (w : Writer) : outcome Writer :=
  if decide (row < BUFFER_HEIGHT /\ column < BUFFER_WIDTH)
  then Done (mkWriter column row (column, row) (color_code w) (buffer w))
  else Panic.

Definition get_position (w : Writer) : Z * Z := (column_position w, row_position w).

(** [read_char] and [write_char_at]; [c as u8] keeps the low byte. *)
Definition read_char (x y : Z) (w : Writer) : outcome Z :=
  c ← read_cell (buffer w) y x;
  Done (ascii_character c).

Definition write_char_at (x y c : Z) (w : Writer) : outcome Writer :=
  if decide (x < BUFFER_WIDTH /\ y < BUFFER_HEIGHT) then
    b ← write_cell y x (mkScreenChar (c mod 256) (color_code w)) (buffer w);
    Done (with_buffer b w)
  else Panic.

(** [WRITER] as it is initialised, over whatever the buffer holds. *)
Definition initial_writer (b : Buffer) : Writer :=
  mkWriter 0 (BUFFER_HEIGHT - 1) (0, BUFFER_HEIGHT - 1) (ColorCode_new Green Black) b.

(** ** A terminal

    The specification: finished lines, and the line being written. *)
Definition char_of (byte : Z) : Z :=
  if decide (0x20 <= byte <= 0x7e) then byte else 0xfe.

Definition put (st : list (list Z) * list Z) (byte : Z) : list (list Z) * list Z :=
  let '(lines, current) := st in
  if decide (byte = 0x0A) then (lines ++ [current], [])
  else if decide (Z.of_nat (length current) >= BUFFER_WIDTH)
  then (lines ++ [current], [char_of byte])
  else (lines, current ++ [char_of byte]).

(** A line on the screen: its characters, then blanks. *)
Definition render (color : Z) (line : list Z) : list ScreenChar :=
  ((fun c => mkScreenChar c color) <$> line) ++
    replicate (80 - length line) (mkScreenChar 0x20 color).

(** The screen shows the last 25 lines. *)
Definition shows (w : Writer) (above : list (list ScreenChar))
    (st : list (list Z) * list Z) : Prop :=
  buffer w = drop (length above + length st.1 - 24)
               (above ++ (render (color_code w) <$> st.1 ++ [st.2])) /\
  column_position w = Z.of_nat (length st.2) /\ (length st.2 <= 80)%nat.


(** ** Lemmas *)

(** The buffer is a 25 x 80 array. *)
Record buffer_ok (b : Buffer) : Prop := {
  ok_height : length b = 25%nat;
  ok_width i r : b !! i = Some r -> length r = 80%nat;
}.

Lemma buffer_ok_insert b (i : nat) r : buffer_ok b -> length r = 80%nat -> buffer_ok (<[i := r]> b).
Proof.
  intros [Hh Hw] Hr. constructor; [by rewrite length_insert|].
  intros j r' Hj. apply list_lookup_insert_Some in Hj as [(<- & <- & _)|[_ Hj]]; eauto.
Qed.

Lemma write_cell_row b (i : nat) r (col : nat) c :
  b !! i = Some r -> (col < length r)%nat ->
  write_cell (Z.of_nat i) (Z.of_nat col) c b = Done (<[i := <[col := c]> r]> b).
Proof.
  intros Hr Hc. unfold write_cell. rewrite (proj2 (vindex_lookup b i r)) by done. cbn.
  rewrite vset_in by lia. cbn. rewrite vset_in by (apply lookup_lt_Some in Hr; lia).
  by rewrite !Nat2Z.id.
Qed.

Lemma read_cell_row b (i : nat) r (col : nat) c :
  b !! i = Some r -> r !! col = Some c -> read_cell b (Z.of_nat i) (Z.of_nat col) = Done c.
Proof.
  intros Hr Hc. unfold read_cell. rewrite (proj2 (vindex_lookup b i r)) by done.
  by apply vindex_lookup.
Qed.

(** A loop that overwrites columns [s], [s + 1], ... of row [i] with [src]. *)
Lemma row_loop b (i s : nat) dst src (f : Z -> Buffer -> outcome Buffer) :
  b !! i = Some dst -> (s + length src <= length dst)%nat ->
  (forall (k : nat) c b', src !! k = Some c ->
    b' = <[i := take s dst ++ take k src ++ drop (s + k) dst]> b ->
    f (Z.of_nat (s + k)) b' = write_cell (Z.of_nat i) (Z.of_nat (s + k)) c b') ->
  for_each (seqZ (Z.of_nat s) (Z.of_nat (length src))) f b =
    Done (<[i := take s dst ++ src ++ drop (s + length src) dst]> b).
Proof.
  intros Hi Hl Hf. apply lookup_lt_Some in Hi as Hib.
  destruct (for_each_total (fun dn b' =>
    b' = <[i := take s dst ++ take (length dn) src ++ drop (s + length dn) dst]> b)
    f (seqZ (Z.of_nat s) (Z.of_nat (length src))) b) as (b' & -> & ->).
  - simpl. rewrite Nat.add_0_r, take_drop. symmetry. by apply list_insert_id.
  - intros dn x rest b1 Hsplit ->. apply seqZ_split in Hsplit as [-> Hdn].
    destruct (lookup_lt_is_Some_2 src (length dn)) as [c Hc]; [lia|].
    rewrite <-Nat2Z.inj_add, (Hf (length dn) c) by done.
    erewrite write_cell_row; [|by apply list_lookup_insert_eq|].
    + eexists. split; [done|]. rewrite list_insert_insert_eq, overwrite_step by (done || lia).
      rewrite length_app. simpl. by rewrite Nat.add_1_r.
    + rewrite !length_app, !length_take, length_drop. lia.
  - rewrite length_seqZ, Nat2Z.id, firstn_all. done.
Qed.

Lemma clear_row_spec w (i : nat) :
  buffer_ok (buffer w) -> (i < 25)%nat ->
  clear_row (Z.of_nat i) w =
    Done (with_buffer (<[i := render (color_code w) []]> (buffer w)) w).
Proof.
  intros [Hh Hw] Hi. unfold clear_row. destruct (lookup_lt_is_Some_2 (buffer w) i) as [dst Hd]; [lia|].
  set (blank := mkScreenChar 0x20 (color_code w)).
  pose proof (row_loop (buffer w) i 0 dst (replicate 80 blank)
    (fun col b => write_cell (Z.of_nat i) col blank b) Hd) as Hloop.
  rewrite length_replicate in Hloop. change (Z.of_nat 0) with 0 in Hloop.
  change (Z.of_nat 80) with BUFFER_WIDTH in Hloop.
  rewrite Hloop.
  - cbn [mbind outcome_bind]. rewrite drop_ge by (rewrite (Hw _ _ Hd); lia).
    by rewrite take_0, app_nil_r.
  - rewrite (Hw _ _ Hd). lia.
  - intros k c b' Hc _. by apply lookup_replicate in Hc as [-> _].
Qed.

(** Copying row [i + 1] to row [i]. *)
Lemma copy_row b (i : nat) src :
  buffer_ok b -> b !! S i = Some src ->
  for_each (seqZ 0 BUFFER_WIDTH) (fun col b =>
    character ← read_cell b (Z.of_nat (S i)) col;
    write_cell (Z.of_nat (S i) - 1) col character b) b = Done (<[i := src]> b).
Proof.
  intros [Hh Hw] Hs. apply lookup_lt_Some in Hs as Hlt.
  destruct (lookup_lt_is_Some_2 b i) as [dst Hd]; [lia|].
  pose proof (Hw _ _ Hs) as Hls. pose proof (Hw _ _ Hd) as Hld.
  pose proof (row_loop b i 0 dst src (fun col b =>
    character ← read_cell b (Z.of_nat (S i)) col;
    write_cell (Z.of_nat (S i) - 1) col character b) Hd) as Hloop.
  rewrite Hls in Hloop. change (Z.of_nat 0) with 0 in Hloop.
  change (Z.of_nat 80) with BUFFER_WIDTH in Hloop. rewrite Hloop.
  - by rewrite drop_ge, take_0, app_nil_r by lia.
  - lia.
  - intros k c b' Hc ->. erewrite read_cell_row; [|rewrite list_lookup_insert_ne by lia; exact Hs|exact Hc].
    cbn [mbind outcome_bind]. by replace (Z.of_nat (S i) - 1) with (Z.of_nat i) by lia.
Qed.

(** [new_line] scrolls the screen by one row. *)
Lemma new_line_spec w :
  buffer_ok (buffer w) ->
  new_line w = Done (with_column 0
    (with_buffer (drop 1 (buffer w) ++ [render (color_code w) []]) w)).
Proof.
  intros Hok. unfold new_line. set (b := buffer w) in *.
  destruct (for_each_total (fun dn b' => buffer_ok b' /\
      b' = take (length dn) (drop 1 b) ++ drop (length dn) b)
    (fun row b => for_each (seqZ 0 BUFFER_WIDTH) (fun col b =>
       character ← read_cell b row col; write_cell (row - 1) col character b) b)
    (seqZ 1 (BUFFER_HEIGHT - 1)) b) as (b' & -> & Hok' & ->).
  - done.
  - intros dn x rest b1 Hsplit [Hok1 ->]. apply seqZ_split in Hsplit as [-> Hdn].
    unfold BUFFER_HEIGHT in Hdn. destruct Hok as [Hh Hw].
    destruct (lookup_lt_is_Some_2 b (S (length dn))) as [src Hs]; [lia|].
    replace (1 + Z.of_nat (length dn)) with (Z.of_nat (S (length dn))) by lia.
    rewrite (copy_row _ _ src); [|done|].
    + eexists. split; [done|]. split; [apply buffer_ok_insert; [done|by eapply Hw]|].
      rewrite length_app. simpl. rewrite Nat.add_1_r.
      pose proof (overwrite_step b (drop 1 b) 0 (length dn) src) as Hstep.
      rewrite !take_0 in Hstep. simpl in Hstep. apply Hstep; [lia|]. by rewrite lookup_drop.
    + rewrite lookup_app_r by (rewrite length_take; lia).
      rewrite length_take, length_drop, lookup_drop, Nat.min_l by lia.
      replace (length dn + (S (length dn) - length dn))%nat with (S (length dn)) by lia. done.
  - cbn [mbind outcome_bind]. rewrite length_seqZ in *. change (Z.to_nat (BUFFER_HEIGHT - 1)) with 24%nat in *.
    change (BUFFER_HEIGHT - 1) with (Z.of_nat 24).
    rewrite clear_row_spec; [|exact Hok'|lia]. cbn [mbind outcome_bind with_buffer buffer color_code].
    do 2 f_equal. unfold with_buffer. cbn. f_equal.
    destruct Hok as [Hh _]. rewrite (take_ge (drop 1 b)) by (rewrite length_drop; lia).
    rewrite insert_app_r_alt by (rewrite length_drop; lia). f_equal.
    rewrite length_drop, Hh. assert (Hl : length (drop 24 b) = 1%nat) by (rewrite length_drop; lia).
    by destruct (drop 24 b) as [|? [|]].
Qed.

(** The rows above the one being written. *)
Definition upper (color : Z) (above : Buffer) (lines : list (list Z)) : Buffer :=
  above ++ (render color <$> lines).

Lemma shows_split w above lines cur :
  length (buffer w) = 25%nat -> shows w above (lines, cur) ->
  let up := upper (color_code w) above lines in
  (24 <= length up)%nat /\
  buffer w = drop (length up - 24) up ++ [render (color_code w) cur] /\
  length (drop (length up - 24) up) = 24%nat.
Proof.
  intros Hl (Hb & _ & _) up. simpl in Hb. rewrite fmap_app, app_assoc in Hb.
  change (above ++ _) with up in Hb at 1. simpl in Hb.
  assert (Hup : length up = (length above + length lines)%nat)
    by (unfold up, upper; by rewrite length_app, length_fmap).
  rewrite <-Hup in Hb. assert (24 <= length up)%nat.
  { rewrite Hb, length_drop, length_app in Hl. simpl in Hl. lia. }
  split; [done|]. rewrite drop_app_le in Hb by lia. split; [done|]. rewrite length_drop. lia.
Qed.

Lemma shows_intro w above lines cur :
  let up := upper (color_code w) above lines in
  (24 <= length up)%nat -> buffer w = drop (length up - 24) up ++ [render (color_code w) cur] ->
  column_position w = Z.of_nat (length cur) -> (length cur <= 80)%nat ->
  shows w above (lines, cur).
Proof.
  intros up Hup Hb Hc Hl. split; [|done]. simpl. rewrite Hb, fmap_app, app_assoc.
  change (above ++ (render (color_code w) <$> lines)) with up. rewrite drop_app_le.
  - do 2 f_equal. unfold up, upper. by rewrite length_app, length_fmap.
  - unfold up, upper. rewrite length_app, length_fmap. lia.
Qed.

Lemma length_render color line : (length line <= 80)%nat -> length (render color line) = 80%nat.
Proof. intros. unfold render. rewrite length_app, length_fmap, length_replicate. lia. Qed.

Lemma render_snoc color line c :
  (length line < 80)%nat ->
  <[length line := mkScreenChar c color]> (render color line) = render color (line ++ [c]).
Proof.
  intros Hl. unfold render. rewrite insert_app_r_alt by (by rewrite length_fmap).
  rewrite length_fmap, Nat.sub_diag, fmap_app, <-app_assoc, length_app. f_equal. simpl.
  replace (80 - length line)%nat with (S (80 - (length line + 1))) by lia. done.
Qed.

Lemma new_line_shows w above lines cur :
  buffer_ok (buffer w) -> shows w above (lines, cur) ->
  exists w', new_line w = Done w' /\ buffer_ok (buffer w') /\ color_code w' = color_code w /\
    shows w' above (lines ++ [cur], []).
Proof.
  intros Hok Hs. destruct (shows_split w above lines cur) as (Hup & Hb & Hl); [apply Hok|done|].
  rewrite new_line_spec by done. eexists. split; [done|].
  cbn [with_column with_buffer buffer color_code]. split; [|split; [done|]].
  - destruct Hok as [Hh Hw]. constructor.
    + rewrite length_app, length_drop. simpl. lia.
    + intros i r Hr. apply lookup_app_Some in Hr as [Hr|[_ Hr]].
      * rewrite lookup_drop in Hr. eauto.
      * apply list_lookup_singleton_Some in Hr as [_ <-].
        apply length_render. simpl. lia.
  - apply shows_intro; cbn [with_column with_buffer buffer color_code column_position]; try done; try lia.
    + unfold upper. rewrite fmap_app, app_assoc, length_app. simpl. unfold upper in Hup. lia.
    + rewrite Hb, drop_app_le by lia. unfold upper. rewrite fmap_app, app_assoc.
      change (above ++ (render (color_code w) <$> lines)) with (upper (color_code w) above lines).
      set (up := upper _ _ _) in *. simpl. rewrite length_app. simpl.
      rewrite drop_drop, (drop_app_le up) by lia. f_equal. f_equal. f_equal. lia.
    + simpl. lia.
Qed.

(** Writing a character on the line that has room for it. *)
Lemma put_char_shows w above lines cur c :
  buffer_ok (buffer w) -> shows w above (lines, cur) -> (length cur < 80)%nat ->
  exists b', write_cell (BUFFER_HEIGHT - 1) (column_position w) (mkScreenChar c (color_code w)) (buffer w)
      = Done b' /\ buffer_ok b' /\
    shows (with_column (column_position w + 1) (with_buffer b' w)) above (lines, cur ++ [c]).
Proof.
  intros Hok Hs Hc. destruct (shows_split w above lines cur) as (Hup & Hb & Hl); [apply Hok|done|].
  destruct Hs as (_ & Hcol & _). simpl in Hcol. rewrite Hcol.
  assert (Hlast : buffer w !! 24%nat = Some (render (color_code w) cur)).
  { rewrite Hb, lookup_app_r, Hl by lia. done. }
  change (BUFFER_HEIGHT - 1) with (Z.of_nat 24).
  erewrite write_cell_row; [|exact Hlast|rewrite length_render; lia].
  eexists. split; [done|]. split.
  - apply buffer_ok_insert; [done|]. rewrite length_insert. apply length_render. lia.
  - apply shows_intro; cbn [with_column with_buffer buffer color_code column_position].
    + done.
    + rewrite render_snoc by done. rewrite Hb at 1. rewrite insert_app_r_alt, Hl by lia. done.
    + rewrite length_app. simpl. lia.
    + rewrite length_app. simpl. lia.
Qed.

Definition plain (byte : Z) : Prop := byte ≠ 0x0A /\ byte ≠ 0x08 /\ byte ≠ 0x7f.

Lemma write_plain_shows byte w above lines cur :
  plain byte -> buffer_ok (buffer w) -> shows w above (lines, cur) ->
  exists w', write_byte byte w = Done w' /\ buffer_ok (buffer w') /\ color_code w' = color_code w /\
    shows w' above (if decide (Z.of_nat (length cur) >= BUFFER_WIDTH)
                    then (lines ++ [cur], [byte]) else (lines, cur ++ [byte])).
Proof.
  intros (Hn & Hbs & Hdel) Hok Hs. unfold write_byte. rewrite !decide_False by done.
  assert (Hcol : column_position w = Z.of_nat (length cur)) by apply Hs. rewrite Hcol.
  case_decide as Hwide.
  - destruct (new_line_shows w above lines cur) as (w1 & -> & Hok1 & Hc1 & Hs1); [done..|].
    destruct (put_char_shows w1 above (lines ++ [cur]) [] byte) as (b' & Hb & Hok' & Hs');
      [done|done|simpl; lia|].
    cbn [mbind outcome_bind]. rewrite Hb. eexists. split; [done|]. done.
  - assert (length cur < 80)%nat by (unfold BUFFER_WIDTH in Hwide; lia).
    destruct (put_char_shows w above lines cur byte) as (b' & Hb & Hok' & Hs'); [done..|].
    cbn [mbind outcome_bind]. rewrite Hb. eexists. split; [done|]. done.
Qed.

Lemma write_string_shows s : forall w above st,
  buffer_ok (buffer w) -> shows w above st ->
  exists w', write_string s w = Done w' /\ buffer_ok (buffer w') /\ color_code w' = color_code w /\
    shows w' above (foldl put st s).
Proof.
  induction s as [|byte s IH]; intros w above [lines cur] Hok Hs; [by exists w|].
  unfold write_string in *. cbn [for_each foldl].
  assert (Hstep : exists w1,
    (if decide (0x20 <= byte <= 0x7e \/ byte = 0x0A) then write_byte byte w else write_byte 0xfe w)
      = Done w1 /\ buffer_ok (buffer w1) /\ color_code w1 = color_code w /\
    shows w1 above (put (lines, cur) byte)).
  { unfold put, char_of. destruct (decide (byte = 0x0A)) as [->|Hn].
    - rewrite decide_True by lia. unfold write_byte. rewrite decide_True by done.
      by apply new_line_shows.
    - destruct (decide (0x20 <= byte <= 0x7e)).
      + rewrite decide_True by lia. apply write_plain_shows; [|done..]. unfold plain. lia.
      + rewrite decide_False by lia. by apply write_plain_shows. }
  destruct Hstep as (w1 & -> & Hok1 & Hc1 & Hs1). cbn [mbind outcome_bind].
  destruct (IH w1 above _ Hok1 Hs1) as (w' & -> & Hok' & Hc' & Hs'). exists w'.
  split; [done|]. split; [done|]. split; [congruence|done].
Qed.

(** The row after a delete at column [col]. *)
Definition deleted (color : Z) (col : nat) (row : list ScreenChar) : list ScreenChar :=
  take col row ++ ((fun c => mkScreenChar (ascii_character c) color) <$> drop (S col) row) ++
    [mkScreenChar 0x20 color].

Lemma write_delete w (col i : nat) row :
  buffer_ok (buffer w) -> column_position w = Z.of_nat col -> row_position w = Z.of_nat i ->
  (col < 80)%nat -> buffer w !! i = Some row ->
  write_byte 0x7f w = Done (with_buffer (<[i := deleted (color_code w) col row]> (buffer w)) w).
Proof.
  intros [Hh Hw] Hc Hr Hcol Hrow. unfold write_byte.
  rewrite decide_False, decide_False, decide_True by done. rewrite Hc, Hr.
  pose proof (Hw _ _ Hrow) as Hlen. apply lookup_lt_Some in Hrow as Hi.
  set (src := (fun c => mkScreenChar (ascii_character c) (color_code w)) <$> drop (S col) row).
  assert (Hsrc : length src = (79 - col)%nat) by (unfold src; rewrite length_fmap, length_drop; lia).
  pose proof (row_loop (buffer w) i col row src (fun j b =>
    c ← read_cell b (Z.of_nat i) (j + 1);
    write_cell (Z.of_nat i) j (mkScreenChar (ascii_character c) (color_code w)) b) Hrow) as Hloop.
  rewrite Hsrc in Hloop.
  replace (Z.of_nat (79 - col)) with (BUFFER_WIDTH - 1 - Z.of_nat col) in Hloop by (unfold BUFFER_WIDTH; lia).
  rewrite Hloop; [|lia|].
  - cbn [mbind outcome_bind]. change (BUFFER_WIDTH - 1) with (Z.of_nat 79).
    replace (col + (79 - col))%nat with 79%nat by lia.
    erewrite write_cell_row; [|by apply list_lookup_insert_eq|].
    + cbn [mbind outcome_bind]. do 2 f_equal. rewrite list_insert_insert_eq. f_equal. unfold deleted.
      fold src. rewrite app_assoc, insert_app_r_alt, app_assoc;
        rewrite length_app, length_take, Hsrc, Hlen; [|lia].
      f_equal. assert (Hl79 : length (drop 79 row) = 1%nat) by (rewrite length_drop; lia).
      destruct (drop 79 row) as [|? [|]]; try done.
      replace (79 - (col `min` 80 + (79 - col)))%nat with 0%nat by lia. done.
    + rewrite !length_app, length_take, length_drop, Hsrc. lia.
  - intros k c b' Hk ->. unfold src in Hk. rewrite list_lookup_fmap, lookup_drop in Hk.
    destruct (row !! (S col + k)%nat) as [d|] eqn:Hd; [|done]. simpl in Hk. simplify_eq.
    replace (Z.of_nat (col + k) + 1) with (Z.of_nat (S col + k)) by lia.
    erewrite read_cell_row; [done|by apply list_lookup_insert_eq|].
    apply lookup_lt_Some in Hd as Hlt.
    assert (Hk' : (k <= length src)%nat) by (rewrite Hsrc; lia).
    rewrite app_assoc, lookup_app_r; rewrite length_app, length_take, length_take; [|lia].
    rewrite lookup_drop, <-Hd. f_equal. lia.
Qed.

End Vga.

(** ** Properties *)

(** C37: the console is a terminal.  When the screen shows the end of some
    text, [write_string] of any bytes neither panics nor hangs, and afterwards
    the screen shows the end of the longer text: lines end at a newline or
    after 80 characters, the last 25 are visible, every line is padded with
    blanks, and bytes that are not printable appear as 0xfe. *)
Theorem console_is_terminal (s : list Z) (w : Writer) (above : Buffer)
    (st : list (list Z) * list Z)
    (Hok : Vga.buffer_ok (buffer w)) (Hshows : Vga.shows w above st) :
  exists w', Vga.write_string s w = Done w' /\ Vga.buffer_ok (buffer w') /\
    Vga.shows w' above (foldl Vga.put st s).
Proof.
  destruct (Vga.write_string_shows s w above st Hok Hshows) as (w' & H1 & H2 & _ & H3). eauto.
Qed.

(** The Delete byte removes the character under the cursor: the characters
    to its right move one column to the left in the current colour, the last
    column becomes blank, and no other row changes. *)
Lemma delete_shifts (w : Writer) (col row : nat)
    (Hok : Vga.buffer_ok (buffer w)) (Hcol : column_position w = Z.of_nat col)
    (Hrow : row_position w = Z.of_nat row) (Hcol80 : (col < 80)%nat) (Hrow25 : (row < 25)%nat) :
  exists w' old, Vga.write_byte 0x7f w = Done w' /\ buffer w !! row = Some old /\
    buffer w' !! row = Some (take col old ++
      ((fun c => mkScreenChar (ascii_character c) (color_code w)) <$> drop (S col) old) ++
      [mkScreenChar 0x20 (color_code w)]) /\
    forall i, i ≠ row -> buffer w' !! i = buffer w !! i.
Proof.
  destruct (lookup_lt_is_Some_2 (buffer w) row) as [old Hold]; [rewrite Vga.ok_height; done|].
  eexists _, old. split; [by apply Vga.write_delete|]. split; [done|].
  cbn [buffer Vga.with_buffer]. split.
  - apply list_lookup_insert_eq. by eapply lookup_lt_Some.
  - intros i Hi. by apply list_lookup_insert_ne.
Qed.

(** *** At concrete inputs *)

Definition blank_screen : Buffer := replicate 25 (Vga.render 2 []).
Definition blank_writer : Writer := Vga.initial_writer blank_screen.

Lemma blank_ok : Vga.buffer_ok blank_screen.
Proof. constructor; [done|]. intros i r Hr. by apply lookup_replicate in Hr as [-> _]. Qed.

Lemma console_is_terminal_witness :
  exists w', Vga.write_string [0x48; 0x69; 0x0A; 0x07] blank_writer = Done w' /\
    Vga.buffer_ok (buffer w') /\
    Vga.shows w' (replicate 24 (Vga.render 2 [])) ([[0x48; 0x69]], [0xfe]).
Proof.
  apply (console_is_terminal [0x48; 0x69; 0x0A; 0x07] blank_writer
    (replicate 24 (Vga.render 2 [])) ([], [])); [apply blank_ok|].
  split; [vm_compute; reflexivity|]. split; [done|simpl; lia].
Defined.

Lemma delete_shifts_witness :
  exists w' old, Vga.write_byte 0x7f blank_writer = Done w' /\ blank_screen !! 24%nat = Some old /\
    buffer w' !! 24%nat = Some (take 0 old ++
      ((fun c => mkScreenChar (ascii_character c) 2) <$> drop 1 old) ++ [mkScreenChar 0x20 2]) /\
    forall i, i ≠ 24%nat -> buffer w' !! i = blank_screen !! i.
Proof. apply (delete_shifts blank_writer 0 24); [apply blank_ok|done|done|lia|lia]. Defined.
