(* ===== verification/Keyboard.v ===== *)
(** * Keys on the console (kernel/src/dev/keyboard.rs)

    What [output_keypress] does with each decoded key: cursor movement and
    editing on the [Writer] of Vga.v.  The queue of scancodes and the decoder
    are the crates crossbeam-queue and pc-keyboard; the loop around
    [handle_key] is in Scancodes.v. *)
From S2P Require Import Prelude Text Vga.

(** [pc_keyboard::KeyCode]: the four keys the code tells apart; any other one
    is printed by its name. *)
Inductive KeyCode :=
| ArrowUp | ArrowDown | ArrowLeft | ArrowRight
| OtherKey (name : list Z).

(** [pc_keyboard::DecodedKey] *)
Inductive DecodedKey :=
| Unicode (character : Z)
| RawKey (key : KeyCode).

(** [{:?}] of a key. *)
Definition debug_name (key : KeyCode) : list Z :=
  match key with
  | ArrowUp => text "ArrowUp"
  | ArrowDown => text "ArrowDown"
  | ArrowLeft => text "ArrowLeft"
  | ArrowRight => text "ArrowRight"
  | OtherKey name => name
  end.

Module Keyboard.

(** The branch of the Backspace character. *)
Definition backspace (w : Writer) : outcome Writer :=
  let pos := Vga.get_position w in
  if decide (pos.1 > 0) then
    w ← Vga.set_position (pos.1 - 1) pos.2 w;
    w ← Vga.write_string [0x20] w;
    Vga.set_position (pos.1 - 1) pos.2 w
  else Done w.

(** The branch of the Delete character. *)
Definition delete_key (w : Writer) : outcome Writer :=
  let pos := Vga.get_position w in
  if decide (pos.1 < BUFFER_WIDTH - 1) then
    chars_to_right ← for_each (seqZ (pos.1 + 1) (BUFFER_WIDTH - (pos.1 + 1)))
      (fun col chars => c ← Vga.read_char col pos.2 w; Done (chars ++ [c])) [];
    w ← for_each (seqZ 0 (Z.of_nat (length chars_to_right))) (fun i w =>
          c ← vindex chars_to_right i;
          Vga.write_char_at (pos.1 + i) pos.2 c w) w;
    Vga.write_char_at (BUFFER_WIDTH - 1) pos.2 0x20 w
  else Done w.

(** The branches of the arrow keys. *)
Definition raw_key (key : KeyCode) (w : Writer) : outcome Writer :=
  let '(x, y) := Vga.get_position w in
  match key with
  | ArrowUp => if decide (y > 0) then Vga.set_position x (y - 1) w else Done w
  | ArrowDown => if decide (y < 79) then Vga.set_position x (y + 1) w else Done w
  | ArrowLeft => if decide (x > 0) then Vga.set_position (x - 1) y w else Done w
  | ArrowRight => if decide (x < 79) then Vga.set_position (x + 1) y w else Done w
  | OtherKey name => Vga.write_string name w
  end.

(** The body of the loop of [output_keypress]. *)
Definition handle_key (key : DecodedKey) (w : Writer) : outcome Writer :=
  match key with
  | Unicode 0x8 => backspace w
  | Unicode 0x7f => delete_key w
  | Unicode character => Vga.write_string (encode_utf8 character) w
  | RawKey key => raw_key key w
  end.

(** Where an arrow key asks the cursor to go. *)
Definition target (key : KeyCode) (x y : Z) : Z * Z :=
  match key with
  | ArrowUp => (x, Z.max 0 (y - 1))
  | ArrowDown => (x, y + 1)
  | ArrowLeft => (Z.max 0 (x - 1), y)
  | ArrowRight => (if decide (x < 79) then x + 1 else x, y)
  | OtherKey _ => (x, y)
  end.

Definition is_arrow (key : KeyCode) : bool :=
  match key with
  | OtherKey _ => false
  | _ => true
  end.

End Keyboard.

(** ** Properties *)

(** The arrow keys.  With the cursor on a row of the screen and the column
    at most 80 (which it is after a full line), an arrow key moves the cursor
    to its target, which differs by at most one column or row and changes
    nothing on the screen, when that is another cell of the screen; the code
    tests the row against 79 instead of the height, so ArrowDown on the bottom
    row panics, as does a vertical move from column 80. *)
Lemma arrow_keys (key : KeyCode) (w : Writer)
    (Harrow : Keyboard.is_arrow key = true)
    (Hx : 0 <= column_position w <= 80) (Hy : 0 <= row_position w < 25) :
  let '(x, y) := (column_position w, row_position w) in
  let '(x', y') := Keyboard.target key x y in
  if decide ((x', y') = (x, y)) then Keyboard.handle_key (RawKey key) w = Done w
  else if decide (x' < 80 /\ y' < 25) then
    Keyboard.handle_key (RawKey key) w = Done (mkWriter x' y' (x', y') (color_code w) (buffer w))
  else Keyboard.handle_key (RawKey key) w = Panic /\
    (key = ArrowDown /\ y = 24 \/ x = 80 /\ (key = ArrowUp \/ key = ArrowDown)).
Proof.
  destruct key; try done; unfold Keyboard.handle_key, Keyboard.raw_key, Keyboard.target,
    Vga.get_position, Vga.set_position, BUFFER_HEIGHT, BUFFER_WIDTH.
  all: repeat (destruct (decide _)); simplify_eq; try done; try lia.
  all: try (split; [done|]; first [left; split; [done|lia] | right; split; [lia|tauto]]).
  all: try (rewrite Z.max_r by lia; done).
  all: try (exfalso; match goal with Hne : (_, _) ≠ (_, _) |- _ => apply Hne; f_equal; lia end).
  split; [done|]. destruct (decide (row_position w = 24)); [by left|right]. split; [lia|tauto].
Qed.

(** The console starts on the bottom row. *)
Lemma arrow_keys_witness :
  Keyboard.handle_key (RawKey ArrowDown) blank_writer = Panic /\
    (ArrowDown = ArrowDown /\ 24 = 24 \/ 0 = 80 /\ (ArrowDown = ArrowUp \/ ArrowDown = ArrowDown)).
Proof. apply (arrow_keys ArrowDown blank_writer); done. Defined.
