(* ===== verification/Abi.v ===== *)
(** * What the kernel and the user program agree on

    Messages and error codes (kernel/src/sync.rs, kernel/src/syscall.rs). *)
From S2P Require Import Prelude.

(** [sync::Message] *)
Inductive Message :=
| Packet (data1 data2 data3 : Z).

#[export] Instance Message_eq_dec : EqDecision Message.
Proof. solve_decision. Defined.

Definition MESSAGE_TYPE_KEY : Z := 0.

(** Error codes of the system calls. *)
Definition SYSCALL_ERROR_SEND_BLOCKING : Z := 1.
Definition SYSCALL_ERROR_RECV_BLOCKING : Z := 2.
Definition SYSCALL_ERROR_INVALID_HANDLE : Z := 3.
Definition SYSCALL_ERROR_MEMALLOC : Z := 9.
