(* ===== verification/Sync.v ===== *)
(** * Sockets (kernel/src/sync.rs)

    A socket is a one-slot rendezvous point.  Its operations use three methods
    of a thread only ([get_thread_id], [return_error], [return_message]), so
    they are written against the class [SocketThread]; Thread.v gives the
    instance for the kernel's threads, and [Tracing] below one that records
    the calls. *)
From S2P Require Import Prelude Abi.

(** What a socket needs of a thread [T] over a memory [M]. *)
Class SocketThread (T M : Type) := {
  get_thread_id : T -> Z;
  return_error : T -> Z -> M -> M;
  return_message : T -> Message -> M -> M;
}.

(** What it relies on: the two methods write the thread's reply, which reads
    back as written and is not disturbed by writes to a [separate] thread. *)
Class SocketThreadLaws (T M : Type) `{SocketThread T M} := {
  reply_code : T -> M -> Z;
  reply_payload : T -> M -> Message;
  separate : T -> T -> Prop;
  code_error : forall t e m, reply_code t (return_error t e m) = e;
  code_message : forall t p m, reply_code t (return_message t p m) = 0;
  payload_message : forall t p m, reply_payload t (return_message t p m) = p;
  payload_error : forall t e m, reply_payload t (return_error t e m) = reply_payload t m;
  code_error_ne : forall t t' e m, separate t t' ->
    reply_code t (return_error t' e m) = reply_code t m;
  payload_error_ne : forall t t' e m, separate t t' ->
    reply_payload t (return_error t' e m) = reply_payload t m;
  code_message_ne : forall t t' p m, separate t t' ->
    reply_code t (return_message t' p m) = reply_code t m;
  payload_message_ne : forall t t' p m, separate t t' ->
    reply_payload t (return_message t' p m) = reply_payload t m;
}.

#[export] Hint Rewrite @code_error @code_message @payload_message @payload_error : zephyr_rw.

Module Socket.

(** [sync::Socket] *)
Inductive Socket (T : Type) : Type :=
| Empty
| Sending (thread : option T) (message : Message)
| Receiving (thread : T) (some_tid : option Z)
| SendReceiving (thread : T) (message : Message).
Arguments Empty {T}.
Arguments Sending {T} thread message.
Arguments Receiving {T} thread some_tid.
Arguments SendReceiving {T} thread message.

#[global] Instance Socket_inhabited {T} : Inhabited (Socket T) := populate Empty.

Section Operations.
Context {T M : Type} `{SocketThread T M}.
Implicit Types (t : T) (m : M) (self : Socket T).

(** [if let Some(t) = &thread { t.return_error(code) }] *)
Definition return_error_opt (thread : option T) (code : Z) (m : M) : M :=
  match thread with
  | Some t => return_error t code m
  | None => m
  end.

(** [Socket::send_message].  The result is the socket left behind, the pair
    of threads of the source, and the memory. *)
Definition send_message (self : Socket T) (thread : option T) (message : Message)
    (m : M) : Socket T * (option T * option T) * M :=
  let complete rec_thread :=
    (Empty, (Some rec_thread, thread),
     return_error_opt thread 0 (return_message rec_thread message m)) in
  match self with
  | Empty => (Sending thread message, (None, None), m)
  | Sending _ _ => (self, (thread, None), return_error_opt thread 1 m)
  | Receiving rec_thread some_tid =>
      match some_tid with
      | Some tid =>
          match thread with
          | Some t =>
              if decide (get_thread_id t ≠ tid)
              then (self, (thread, None), return_error t 7 m)
              else complete rec_thread
          | None => (self, (thread, None), m)
          end
      | None => complete rec_thread
      end
  | SendReceiving _ _ => (self, (thread, None), return_error_opt thread 8 m)
  end.

(** [Socket::receive] *)
Definition receive (self : Socket T) (thread : T) (m : M) :
    Socket T * (option T * option T) * M :=
  match self with
  | Empty => (Receiving thread None, (None, None), m)
  | Sending snd_thread message =>
      (Empty, (Some thread, snd_thread),
       return_error_opt snd_thread 0 (return_message thread message m))
  | Receiving _ _ =>
      (self, (Some thread, None),
       return_error thread SYSCALL_ERROR_RECV_BLOCKING m)
  | SendReceiving snd_thread message =>
      (Receiving snd_thread (Some (get_thread_id thread)), (Some thread, None),
       return_message thread message m)
  end.

(** [Socket::send_receive] *)
Definition send_receive (self : Socket T) (thread : T) (message : Message) (m : M) :
    Socket T * (option T * option T) * M :=
  let complete rec_thread :=
    (Receiving thread (Some (get_thread_id rec_thread)), (Some rec_thread, None),
     return_message rec_thread message m) in
  match self with
  | Empty => (SendReceiving thread message, (None, None), m)
  | Sending _ _ =>
      (self, (Some thread, None),
       return_error thread SYSCALL_ERROR_SEND_BLOCKING m)
  | Receiving rec_thread some_tid =>
      match some_tid with
      | Some tid =>
          if decide (get_thread_id thread ≠ tid)
          then (self, (Some thread, None),
                return_error thread SYSCALL_ERROR_RECV_BLOCKING m)
          else complete rec_thread
      | None => complete rec_thread
      end
  | SendReceiving _ _ =>
      (self, (Some thread, None),
       return_error thread SYSCALL_ERROR_SEND_BLOCKING m)
  end.

(** [Socket::get_state], [Socket::peek_message], [Socket::reset] *)
Definition get_state (self : Socket T) : string :=
  match self with
  | Empty => "Empty"
  | Sending _ _ => "Sending"
  | Receiving _ _ => "Receiving"
  | SendReceiving _ _ => "SendReceiving"
  end.

Definition peek_message (self : Socket T) : option Message :=
  match self with
  | Sending _ message => Some message
  | _ => None
  end.

Definition reset (self : Socket T) : Socket T := Empty.

(** ** Calls on one socket *)

Inductive call :=
| Send (thread : option T) (message : Message)
| Receive (thread : T)
| SendReceive (thread : T) (message : Message).

Definition exec (self : Socket T) (c : call) (m : M) :
    Socket T * (option T * option T) * M :=
  match c with
  | Send thread message => send_message self thread message m
  | Receive thread => receive self thread m
  | SendReceive thread message => send_receive self thread message m
  end.

(** A sequence of calls, as the scheduler interleaves them. *)
Fixpoint exec_all (self : Socket T) (cs : list call) (m : M) : Socket T * M :=
  match cs with
  | [] => (self, m)
  | c :: cs' =>
      let '(self', _, m') := exec self c m in exec_all self' cs' m'
  end.

(** The calling thread. *)
Definition caller (c : call) : option T :=
  match c with
  | Send thread _ => thread
  | Receive thread | SendReceive thread _ => Some thread
  end.

(** The threads a socket owns. *)
Definition held (self : Socket T) : list T :=
  match self with
  | Empty => []
  | Sending thread _ => option_list thread
  | Receiving thread _ | SendReceiving thread _ => [thread]
  end.

(** The threads handed back by a sequence of calls. *)
Fixpoint handed_back (self : Socket T) (cs : list call) (m : M) : list T :=
  match cs with
  | [] => []
  | c :: cs' =>
      let '(self', (t1, t2), m') := exec self c m in
      option_list t1 ++ option_list t2 ++ handed_back self' cs' m'
  end.

(** The message a socket holds. *)
Definition pending (self : Socket T) : list Message :=
  match self with
  | Sending _ message | SendReceiving _ message => [message]
  | _ => []
  end.

(** ** The contract

    [admits] says when a call is let in: a send when the slot is free or a
    receiver is waiting that accepts this sender, a receive unless one is
    already waiting. *)
Definition from_ok (some_tid : option Z) (sender : option T) : bool :=
  match some_tid with
  | None => true
  | Some tid =>
      match sender with
      | Some t => bool_decide (get_thread_id t = tid)
      | None => false
      end
  end.

Definition admits (self : Socket T) (c : call) : bool :=
  match c, self with
  | Receive _, Receiving _ _ => false
  | Receive _, _ => true
  | _, Empty => true
  | (Send _ _ | SendReceive _ _), Receiving _ some_tid => from_ok some_tid (caller c)
  | _, _ => false
  end.
End Operations.
Arguments call T : clear implicits.

(** ** Lemmas *)

Section Facts.
Context {T M : Type} `{SocketThread T M}.
Implicit Types (t : T) (m : M) (self : Socket T) (c : call T).

(** A call the contract does not let in leaves the socket alone and hands the
    caller back. *)
Lemma exec_rejected self c m :
  admits self c = false -> exists m', exec self c m = (self, (caller c, None), m').
Proof.
  destruct self as [|th msg|th [tid|]|th msg], c as [[t|] p|t|t p];
    simpl; intros Ha; simplify_eq/=; eauto.
  all: by rewrite decide_True by (by apply bool_decide_eq_false in Ha); eauto.
Qed.

(** One call conserves threads. *)
Lemma exec_conserves self c m :
  let '(self', (t1, t2), _) := exec self c m in
  held self' ++ option_list t1 ++ option_list t2 ≡ₚ held self ++ option_list (caller c).
Proof.
  destruct self as [|th msg|th [wanted|]|th msg], c as [[u|] p|u|u p]; simpl;
    unfold send_message, receive, send_receive;
    repeat case_decide; simpl; rewrite ?app_nil_r; try solve_Permutation.
  all: done.
Qed.

Lemma exec_all_app self cs1 cs2 m :
  exec_all self (cs1 ++ cs2) m =
    let '(self', m') := exec_all self cs1 m in exec_all self' cs2 m'.
Proof.
  revert self m. induction cs1 as [|c cs1 IH]; intros self m; [done|].
  simpl. destruct (exec self c m) as [[self' ts] m']. apply IH.
Qed.

(** A socket that waits for one sender only lets in calls of that sender. *)
Lemma admits_restricted t tid c :
  match c with
  | Send _ _ | SendReceive _ _ => get_thread_id <$> caller c ≠ Some tid
  | Receive _ => True
  end ->
  admits (Receiving t (Some tid)) c = false.
Proof. destruct c as [[u|] p|u|u p]; simpl; try done; intros; by rewrite bool_decide_eq_false_2 by congruence. Qed.
End Facts.

Section LawFacts.
Context {T M : Type} `{SocketThreadLaws T M}.
Implicit Types (t : T) (m : M) (self : Socket T) (c : call T).

(** A rejected call writes the reply of its caller only. *)
Lemma exec_rejected_frame self c m self' ts m' t :
  admits self c = false -> exec self c m = (self', ts, m') ->
  (forall u, caller c = Some u -> separate t u) ->
  reply_code t m' = reply_code t m /\ reply_payload t m' = reply_payload t m.
Proof.
  destruct self as [|th msg|th [tid|]|th msg], c as [[u|] p|u|u p];
    simpl; intros Ha He Hs; split_cases; try done.
  all: rewrite code_error_ne, payload_error_ne by auto; done.
Qed.

(** After a completed rendezvous both threads read code 0. *)
Lemma code_success t u p m :
  u = t \/ separate t u ->
  reply_code t (return_error u 0 (return_message t p m)) = 0.
Proof.
  intros [->|Hs]; [apply code_error|].
  rewrite code_error_ne by done. apply code_message.
Qed.

(** The calls of threads other than [tid], and of threads whose replies are
    written elsewhere than [t]'s. *)
Definition bystander (t : T) (tid : Z) (c : call T) : Prop :=
  match c with
  | Send _ _ | SendReceive _ _ => get_thread_id <$> caller c ≠ Some tid
  | Receive _ => True
  end /\ forall u, caller c = Some u -> separate t u.

(** While a socket waits for the reply of thread [tid], calls of other
    threads change neither it nor what the waiting thread will read. *)
Lemma exec_all_restricted t tid cs m :
  Forall (bystander t tid) cs ->
  exists m', exec_all (Receiving t (Some tid)) cs m = (Receiving t (Some tid), m').
Proof.
  intros Hcs. revert m. induction Hcs as [|c cs [Hc _] _ IH]; intros m; [by eexists|].
  destruct (exec_rejected (Receiving t (Some tid)) c m) as [m' He];
    [by apply admits_restricted|].
  simpl. rewrite He. apply IH.
Qed.
End LawFacts.

End Socket.

(** ** Threads that record the calls made on them *)
Module Tracing.

Inductive effect (T : Type) : Type :=
| Error (t : T) (code : Z)
| Delivery (t : T) (message : Message).
Arguments Error {T} t code.
Arguments Delivery {T} t message.

Definition tracing {T} (tid : T -> Z) : SocketThread T (list (effect T)) := {|
  get_thread_id := tid;
  return_error t code tr := tr ++ [Error t code];
  return_message t message tr := tr ++ [Delivery t message];
|}.

(** The messages delivered in a trace, oldest first. *)
Definition delivered {T} (tr : list (effect T)) : list Message :=
  omap (fun e => match e with Delivery _ message => Some message | _ => None end) tr.

(** The messages of the calls that are let in, oldest first. *)
Definition message_of {T} (c : Socket.call T) : list Message :=
  match c with
  | Socket.Send _ message | Socket.SendReceive _ message => [message]
  | Socket.Receive _ => []
  end.

Section Traces.
Context {T : Type} (tid : T -> Z).
#[local] Existing Instance tracing.

Fixpoint accepted (self : Socket.Socket T) (cs : list (Socket.call T)) : list Message :=
  match cs with
  | [] => []
  | c :: cs' =>
      let '(self', _, _) := Socket.exec (H:=tracing tid) self c [] in
      (if Socket.admits (H:=tracing tid) self c then message_of c else []) ++ accepted self' cs'
  end.

Lemma delivered_app tr1 tr2 : delivered (T:=T) (tr1 ++ tr2) = delivered tr1 ++ delivered tr2.
Proof. apply omap_app. Qed.

(** One call: what was pending and what is let in is what is delivered and
    what stays pending. *)
Lemma exec_fifo (self : Socket.Socket T) c tr self' ts tr' :
  Socket.exec (H:=tracing tid) self c tr = (self', ts, tr') ->
  delivered tr' ++ Socket.pending self' =
    delivered tr ++ Socket.pending self ++
      (if Socket.admits (H:=tracing tid) self c then message_of c else []).
Proof.
  destruct self as [|th msg|th [wanted|]|th msg], c as [[u|] p|u|u p]; simpl;
    unfold Socket.send_message, Socket.receive, Socket.send_receive,
      Socket.return_error_opt; intros He; split_cases;
    repeat (case_bool_decide || case_match); simplify_eq/=;
    rewrite ?delivered_app; simpl; rewrite ?app_nil_r, <-?app_assoc; done.
Qed.

(** The socket left behind does not depend on the trace so far. *)
Lemma exec_trace_irrelevant (self : Socket.Socket T) c tr1 tr2 :
  (Socket.exec (H:=tracing tid) self c tr1).1 = (Socket.exec (H:=tracing tid) self c tr2).1.
Proof.
  destruct self as [|th msg|th [wanted|]|th msg], c as [[u|] p|u|u p]; simpl;
    repeat case_decide; done.
Qed.
End Traces.

End Tracing.

(** ** Properties *)

Section Properties.
Context {T M : Type} `{SocketThreadLaws T M}.

(** A socket neither loses nor duplicates a thread: over any sequence of
    calls, the threads it owned at first together with the callers are the
    threads it owns at the end together with those it handed back. *)
Lemma socket_conserves_threads (cs : list (Socket.call T)) (self : Socket.Socket T) (m : M) :
  Socket.held (Socket.exec_all self cs m).1 ++ Socket.handed_back self cs m
    ≡ₚ Socket.held self ++ (cs ≫= fun c => option_list (Socket.caller c)).
Proof.
  revert self m. induction cs as [|c cs IH]; intros self m; [done|].
  pose proof (Socket.exec_conserves self c m) as Hc. simpl.
  destruct (Socket.exec self c m) as [[self' [t1 t2]] m'].
  rewrite (app_assoc (option_list t1)), (Permutation_app_comm _ (Socket.handed_back _ _ _)).
  rewrite app_assoc, IH, (app_assoc (Socket.held self)), <-Hc. solve_Permutation.
Qed.

(** A call the socket cannot serve (a second sender, a second receiver,
    a sender other than the one a reply is expected from) leaves the socket
    as it was, hands the caller back, and the error code it reads is not 0;
    a call that is served never returns an error code. *)
Lemma socket_rejection (self : Socket.Socket T) (c : Socket.call T) (m : M) self' t1 t2 m'
    (Hexec : Socket.exec self c m = (self', (t1, t2), m')) :
  if Socket.admits self c
  then forall t, t ∈ option_list t1 ++ option_list t2 ->
    (forall u, u ∈ Socket.held self ++ option_list (Socket.caller c) -> u = t \/ separate t u) ->
    reply_code t m' = 0
  else self' = self /\ t1 = Socket.caller c /\ t2 = None /\
    match Socket.caller c with
    | Some t => reply_code t m' ≠ 0 /\ reply_payload t m' = reply_payload t m
    | None => m' = m
    end.
Proof.
  destruct self as [|th msg|th [wanted|]|th msg], c as [[u|] p|u|u p]; simpl in *;
    unfold Socket.send_message, Socket.receive, Socket.send_receive,
      Socket.return_error_opt in *; split_cases.
  all: try (repeat split; rewrite ?code_error, ?payload_error; done).
  all: intros t0 Ht Hsep; set_unfold in Ht; destruct_or?; subst; try done.
  all: rewrite ?code_error, ?code_message; try done.
  all: apply Socket.code_success, Hsep; set_solver.
Qed.

(** The rest of an exchange on a socket that awaits the answer of [server] for
    [client]. *)
Definition answered (client server : T) (answer : Message) (others : list (Socket.call T)) (m1 : M) : Prop :=
  let awaiting := Socket.Receiving client (Some (get_thread_id server)) in
  exists m2 m3, Socket.exec_all awaiting others m1 = (awaiting, m2) /\
    Socket.send_message awaiting (Some server) answer m2 =
      (Socket.Empty, (Some client, Some server), m3) /\
    reply_code client m3 = 0 /\ reply_payload client m3 = answer /\
    reply_code server m3 = 0.

Lemma awaiting_answered client server answer others m1 :
  separate client server -> separate server client ->
  Forall (Socket.bystander client (get_thread_id server)) others ->
  answered client server answer others m1.
Proof.
  intros Hsep Hsep' Hothers.
  destruct (Socket.exec_all_restricted client (get_thread_id server) others m1 Hothers) as [m2 Hm2].
  exists m2. eexists. split; [exact Hm2|]. simpl. rewrite (decide_False (P:=_ ≠ _)) by auto.
  split; [done|]. split; [apply Socket.code_success; by right|].
  split; [by rewrite payload_error_ne, payload_message|apply code_error].
Qed.

(** C25: the request-reply pattern.  A client sends a query with [send_receive]
    and waits on the same socket.  If the server already waits there, for
    anyone or for this client, it is woken with the query and code 0, and the
    socket then waits for its answer; if it waits for the answer of another
    thread, the call is refused and the server waits on.  If the client comes
    first, the server gets the query when it receives.  Either way the client
    gets, as its reply, the answer of the very thread that received the query:
    whatever other threads call on the socket in the meantime is refused, does
    not change what the socket holds, and the answer is delivered to the client
    with code 0. *)
Theorem socket_request_reply (client server : T) (query answer : Message)
    (others : list (Socket.call T)) (m : M)
    (Hsep : separate client server) (Hsep' : separate server client)
    (Hothers : Forall (Socket.bystander client (get_thread_id server)) others) :
  let awaiting := Socket.Receiving client (Some (get_thread_id server)) in
  (forall expected, match expected with Some tid => tid = get_thread_id client | None => True end ->
    exists m1, Socket.send_receive (Socket.Receiving server expected) client query m =
        (awaiting, (Some server, None), m1) /\
      reply_code server m1 = 0 /\ reply_payload server m1 = query /\
      answered client server answer others m1) /\
  (forall tid, tid ≠ get_thread_id client ->
    exists m1, Socket.send_receive (Socket.Receiving server (Some tid)) client query m =
        (Socket.Receiving server (Some tid), (Some client, None), m1) /\
      reply_code client m1 = SYSCALL_ERROR_RECV_BLOCKING) /\
  Socket.send_receive Socket.Empty client query m =
    (Socket.SendReceiving client query, (None, None), m) /\
  exists m1, Socket.receive (Socket.SendReceiving client query) server m =
      (awaiting, (Some server, None), m1) /\
    reply_code server m1 = 0 /\ reply_payload server m1 = query /\
    answered client server answer others m1.
Proof.
  intros awaiting.
  assert (Hgot : reply_code server (return_message server query m) = 0 /\
    reply_payload server (return_message server query m) = query /\
    answered client server answer others (return_message server query m)).
  { split; [apply code_message|]. split; [apply payload_message|by apply awaiting_answered]. }
  split; [|split; [|split; [done|by eexists]]].
  - intros expected He. exists (return_message server query m). split; [|exact Hgot].
    cbn. destruct expected as [tid|]; [|done]. subst. by rewrite (decide_False (P:=_ ≠ _)) by auto.
  - intros tid Hne. eexists. cbn. rewrite decide_True by done. split; [done|apply code_error].
Qed.
End Properties.

Section FifoProperty.
Context {T : Type} (tid : T -> Z).
#[local] Existing Instance Tracing.tracing.

(** C24: messages are neither lost nor duplicated nor reordered: over any
    sequence of calls on a socket, what is delivered followed by what the
    socket still holds is what it held at first followed by the messages of
    the calls that were let in, in the order of the calls. *)
Theorem socket_fifo (cs : list (Socket.call T)) (self : Socket.Socket T) tr :
  let '(self', tr') := Socket.exec_all (H:=Tracing.tracing tid) self cs tr in
  Tracing.delivered tr' ++ Socket.pending self' =
    Tracing.delivered tr ++ Socket.pending self ++ Tracing.accepted tid self cs.
Proof.
  revert self tr. induction cs as [|c cs IH]; intros self tr;
    [simpl; by rewrite app_nil_r|].
  simpl. destruct (Socket.exec self c tr) as [[self' ts] tr'] eqn:Hc.
  pose proof (Tracing.exec_trace_irrelevant tid self c tr []) as Hi.
  rewrite Hc in Hi. destruct (Socket.exec self c []) as [[self'' ts''] tr''].
  simplify_eq/=. specialize (IH self'' tr').
  destruct (Socket.exec_all self'' cs tr') as [self3 tr3].
  apply Tracing.exec_fifo in Hc. rewrite IH, app_assoc, Hc, <-!app_assoc. done.
Qed.
End FifoProperty.

(** ** A concrete instance

    Threads that are their own identifier and whose replies are kept in a map:
    the laws can be met. *)
Module Mailbox.

Definition box : Type := Z * Message.
Definition read (t : Z) (m : gmap Z box) : box := default (0, Packet 0 0 0) (m !! t).

#[export] Instance mailbox : SocketThread Z (gmap Z box) := {|
  get_thread_id := id;
  return_error t e m := <[t := (e, (read t m).2)]> m;
  return_message t p m := <[t := (0, p)]> m;
|}.

#[export] Program Instance mailbox_laws : SocketThreadLaws Z (gmap Z box) := {|
  reply_code t m := (read t m).1;
  reply_payload t m := (read t m).2;
  separate := (≠);
|}.
Solve All Obligations with
  by intros; unfold read; cbn; rewrite ?lookup_insert_eq, ?lookup_insert_ne by congruence.

End Mailbox.

#[local] Existing Instances Mailbox.mailbox Mailbox.mailbox_laws.

Lemma socket_rejection_witness :
  let self := Socket.Receiving 1 (Some 2) in
  exists m' : gmap Z Mailbox.box,
    Socket.exec self (Socket.Send (Some 3) (Packet 7 8 9)) ∅ = (self, (Some 3, None), m')
    /\ reply_code 3 m' ≠ 0.
Proof.
  eexists. split; [reflexivity|].
  exact (proj1 (proj2 (proj2 (proj2 (socket_rejection (M:=gmap Z Mailbox.box) (Socket.Receiving 1 (Some 2))
    (Socket.Send (Some 3) (Packet 7 8 9)) ∅ _ _ _ _ eq_refl))))).
Defined.

Lemma socket_request_reply_witness :
  exists m1 m2 m3 : gmap Z Mailbox.box,
    Socket.send_receive (Socket.Receiving 2 None) 1 (Packet 6 0 0) ∅ =
      (Socket.Receiving 1 (Some 2), (Some 2, None), m1) /\
    Socket.exec_all (Socket.Receiving 1 (Some 2))
      [Socket.Receive 3; Socket.Send (Some 4) (Packet 5 5 5)] m1 =
      (Socket.Receiving 1 (Some 2), m2) /\
    Socket.send_message (Socket.Receiving 1 (Some 2)) (Some 2) (Packet 42 0 0) m2 =
      (Socket.Empty, (Some 1, Some 2), m3) /\
    reply_payload 1 m3 = Packet 42 0 0.
Proof.
  destruct (socket_request_reply (T:=Z) (M:=gmap Z Mailbox.box) 1 2 (Packet 6 0 0) (Packet 42 0 0)
    [Socket.Receive 3; Socket.Send (Some 4) (Packet 5 5 5)] ∅) as [Hwaits _].
  - intros [=].
  - intros [=].
  - repeat constructor; try (intros [=]); intros u [= <-]; intros [=].
  - destruct (Hwaits None I) as (m1 & H1 & _ & _ & m2 & m3 & H2 & H3 & _ & H4 & _).
    exists m1, m2, m3. auto.
Defined.
