(* ===== verification/Isf.v ===== *)
(** * Saved contexts (struct ISF of kernel/src/boot/interrupts.rs)

    A thread's saved registers are an [ISF] at the address in its [context]
    field; the kernel reads and writes them through that raw address.  Memory
    is a map from addresses to 64-bit words, a context is the 20 words at
    [ctx], [ctx + 8], ..., in the order of the [repr(C)] structure, and two
    threads with overlapping contexts do see each other's writes.  A word that
    was never written reads as 0; no property depends on such a read. *)
From S2P Require Import Prelude.

Module Isf.

Record ISF := mkISF {
  r15 : Z; r14 : Z; r13 : Z; r12 : Z; r11 : Z; r10 : Z; r9 : Z; r8 : Z;
  rbp : Z; rsi : Z; rdi : Z; rdx : Z; rcx : Z; rbx : Z; rax : Z;
  instruction_pointer : Z;
  code_segment : Z;
  flags : Z;
  stack_pointer : Z;
  stack_segment : Z;
}.

(** The fields, in the order of the structure. *)
Inductive field :=
| R15 | R14 | R13 | R12 | R11 | R10 | R9 | R8
| RBP | RSI | RDI | RDX | RCX | RBX | RAX
| InstructionPointer | CodeSegment | Flags | StackPointer | StackSegment.

#[export] Instance field_eq_dec : EqDecision field.
Proof. solve_decision. Defined.

Definition fields : list field :=
  [R15; R14; R13; R12; R11; R10; R9; R8; RBP; RSI; RDI; RDX; RCX; RBX; RAX;
   InstructionPointer; CodeSegment; Flags; StackPointer; StackSegment].

Definition index (f : field) : Z :=
  match f with
  | R15 => 0 | R14 => 1 | R13 => 2 | R12 => 3 | R11 => 4 | R10 => 5 | R9 => 6
  | R8 => 7 | RBP => 8 | RSI => 9 | RDI => 10 | RDX => 11 | RCX => 12
  | RBX => 13 | RAX => 14 | InstructionPointer => 15 | CodeSegment => 16
  | Flags => 17 | StackPointer => 18 | StackSegment => 19
  end.

Definition get (f : field) (i : ISF) : Z :=
  match f with
  | R15 => r15 i | R14 => r14 i | R13 => r13 i | R12 => r12 i | R11 => r11 i
  | R10 => r10 i | R9 => r9 i | R8 => r8 i | RBP => rbp i | RSI => rsi i
  | RDI => rdi i | RDX => rdx i | RCX => rcx i | RBX => rbx i | RAX => rax i
  | InstructionPointer => instruction_pointer i | CodeSegment => code_segment i
  | Flags => flags i | StackPointer => stack_pointer i
  | StackSegment => stack_segment i
  end.

Definition of_fun (g : field -> Z) : ISF :=
  {| r15 := g R15; r14 := g R14; r13 := g R13; r12 := g R12; r11 := g R11;
     r10 := g R10; r9 := g R9; r8 := g R8; rbp := g RBP; rsi := g RSI;
     rdi := g RDI; rdx := g RDX; rcx := g RCX; rbx := g RBX; rax := g RAX;
     instruction_pointer := g InstructionPointer; code_segment := g CodeSegment;
     flags := g Flags; stack_pointer := g StackPointer;
     stack_segment := g StackSegment |}.

Definition INTERRUPT_CONTEXT_SIZE : Z := 20 * 8.

(** Reading and writing one field of the context at address [ctx]. *)
Definition read (m : gmap Z Z) (ctx : Z) (f : field) : Z := m !!! (ctx + 8 * index f).

Definition write (ctx : Z) (f : field) (v : Z) (m : gmap Z Z) : gmap Z Z :=
  <[ctx + 8 * index f := v]> m.

(** The whole structure, as [clone] and an assignment of it do. *)
Definition load (m : gmap Z Z) (ctx : Z) : ISF := of_fun (read m ctx).

Definition store_fields (ctx : Z) (i : ISF) (fs : list field) (m : gmap Z Z) : gmap Z Z :=
  foldr (fun f m => write ctx f (get f i) m) m fs.

Definition store (ctx : Z) (i : ISF) (m : gmap Z Z) : gmap Z Z :=
  store_fields ctx i fields m.

Arguments read : simpl never.
Arguments write : simpl never.
Arguments load : simpl never.
Arguments store : simpl never.

(** Contexts that share no byte. *)
Definition apart (a b : Z) : Prop :=
  a + INTERRUPT_CONTEXT_SIZE <= b \/ b + INTERRUPT_CONTEXT_SIZE <= a.

#[export] Instance apart_dec a b : Decision (apart a b).
Proof. unfold apart. apply _. Defined.

(** ** Lemmas *)

#[export] Instance index_inj : Inj (=) (=) index.
Proof. intros [] []; simpl; intros; congruence. Qed.

Lemma index_bounds f : 0 <= index f < 20.
Proof. destruct f; simpl; lia. Qed.

Lemma fields_complete f : f ∈ fields.
Proof. destruct f; unfold fields; set_solver. Qed.

Lemma fields_NoDup : NoDup fields.
Proof. apply (bool_decide_unpack _). vm_compute. exact I. Qed.

Lemma apart_sym a b : apart a b -> apart b a.
Proof. unfold apart. tauto. Qed.

Lemma read_write_eq m ctx f v : read (write ctx f v m) ctx f = v.
Proof. apply lookup_total_insert_eq. Qed.

Lemma read_write_ne m ctx f g v : f ≠ g -> read (write ctx f v m) ctx g = read m ctx g.
Proof.
  intros Hne. apply lookup_total_insert_ne. intros Heq. apply Hne, (inj index). lia.
Qed.

Lemma read_write_apart m ctx ctx' f g v :
  apart ctx ctx' -> read (write ctx f v m) ctx' g = read m ctx' g.
Proof.
  intros Ha. apply lookup_total_insert_ne.
  pose proof (index_bounds f). pose proof (index_bounds g).
  unfold apart, INTERRUPT_CONTEXT_SIZE in Ha. lia.
Qed.

Lemma read_write m ctx f g v :
  read (write ctx f v m) ctx g = if decide (f = g) then v else read m ctx g.
Proof. case_decide; subst; [apply read_write_eq|by apply read_write_ne]. Qed.

Lemma read_store_fields m ctx i fs g :
  read (store_fields ctx i fs m) ctx g = if decide (g ∈ fs) then get g i else read m ctx g.
Proof.
  induction fs as [|f fs IH]; [done|].
  change (store_fields ctx i (f :: fs) m) with (write ctx f (get f i) (store_fields ctx i fs m)).
  rewrite read_write, IH. repeat case_decide; set_solver.
Qed.

Lemma read_store_fields_apart m ctx ctx' i fs g :
  apart ctx ctx' -> read (store_fields ctx i fs m) ctx' g = read m ctx' g.
Proof.
  intros Ha. induction fs as [|f fs IH]; simpl; [done|].
  by rewrite read_write_apart.
Qed.

Lemma read_store m ctx i g : read (store ctx i m) ctx g = get g i.
Proof.
  unfold store. rewrite read_store_fields. pose proof (fields_complete g).
  by case_decide.
Qed.

Lemma read_store_apart m ctx ctx' i g :
  apart ctx ctx' -> read (store ctx i m) ctx' g = read m ctx' g.
Proof. apply read_store_fields_apart. Qed.

Lemma get_of_fun g f : get f (of_fun g) = g f.
Proof. by destruct f. Qed.

Lemma ISF_ext i j : (forall f, get f i = get f j) -> i = j.
Proof.
  intros Heq. destruct i, j.
  f_equal; [apply (Heq R15)|apply (Heq R14)|apply (Heq R13)|apply (Heq R12)
    |apply (Heq R11)|apply (Heq R10)|apply (Heq R9)|apply (Heq R8)|apply (Heq RBP)
    |apply (Heq RSI)|apply (Heq RDI)|apply (Heq RDX)|apply (Heq RCX)|apply (Heq RBX)
    |apply (Heq RAX)|apply (Heq InstructionPointer)|apply (Heq CodeSegment)
    |apply (Heq Flags)|apply (Heq StackPointer)|apply (Heq StackSegment)].
Qed.

Lemma load_store m ctx i : load (store ctx i m) ctx = i.
Proof. apply ISF_ext. intros f. unfold load. by rewrite get_of_fun, read_store. Qed.

Lemma load_write_apart m ctx ctx' f v :
  apart ctx ctx' -> load (write ctx f v m) ctx' = load m ctx'.
Proof.
  intros Ha. apply ISF_ext. intros g. unfold load.
  by rewrite !get_of_fun, read_write_apart.
Qed.

Lemma load_store_apart m ctx ctx' i :
  apart ctx ctx' -> load (store ctx i m) ctx' = load m ctx'.
Proof.
  intros Ha. apply ISF_ext. intros g. unfold load.
  by rewrite !get_of_fun, read_store_apart.
Qed.

End Isf.

#[export] Hint Rewrite Isf.read_write_eq Isf.read_store Isf.load_store Isf.get_of_fun : zephyr_rw.
#[export] Hint Resolve Isf.apart_sym : zephyr.

(** Normalise reads of contexts after writes at the same address. *)
Ltac isf_simpl :=
  repeat first
    [ rewrite Isf.read_write_eq
    | rewrite Isf.read_write_ne by discriminate
    | rewrite Isf.read_store
    | rewrite Isf.read_write_apart by auto with zephyr
    | rewrite Isf.read_store_apart by auto with zephyr ].
