(* ===== verification/Thread.v ===== *)
(** * Threads and processes (the data of kernel/src/proc/process.rs)

    [Arc<RwLock<Process>>] and [Arc<RwLock<Socket>>] are references: a
    [process] field and an entry of [sockets] hold the key of the object in
    the kernel's heap of processes and of sockets (Kernel.v), so that two
    threads of one process share its handles. *)
From S2P Require Import Prelude Abi Sync Isf.

Definition KERNEL_STACK_SIZE : Z := 4096 * 3.
Definition USER_STACK_SIZE : Z := 4096 * 10.
Definition USER_CODE_START : Z := 0x5000000.
Definition USER_CODE_END : Z := 0x90000000.
Definition USER_HEAP_START : Z := 0x28000600000.
Definition USER_HEAP_SIZE : Z := 4194304.

Inductive ThreadType := Kernel | User.

#[export] Instance ThreadType_eq_dec : EqDecision ThreadType.
Proof. solve_decision. Defined.

(** A [Vec<u8>] of length 0, which owns its buffer. *)
Record Vec := mkVec {
  vec_ptr : Z;
  vec_capacity : Z;
}.

#[export] Instance Vec_eq_dec : EqDecision Vec.
Proof. solve_decision. Defined.

(** [process::Thread] *)
Record Thread := mkThread {
  thread_id : Z;
  process : Z;
  kernel_stack : Vec;
  kernel_stack_end : Z;
  context : Z;
  user_stack_end : Z;
  page_table_phys : Z;
  thread_type : ThreadType;
}.

#[export] Instance Thread_eq_dec : EqDecision Thread.
Proof. solve_decision. Defined.

(** [process::Process] *)
Record Process := mkProcess {
  page_table_physaddr : Z;
  sockets : list (option Z);
}.

#[export] Instance Process_inhabited : Inhabited Process := populate (mkProcess 0 []).

(** [Thread::set_context] *)
Definition set_context (context_ptr : Z) (t : Thread) : Thread :=
  {| thread_id := thread_id t; process := process t; kernel_stack := kernel_stack t;
     kernel_stack_end := kernel_stack_end t; context := context_ptr;
     user_stack_end := user_stack_end t; page_table_phys := page_table_phys t;
     thread_type := thread_type t |}.

(** The two assignments [update_current_thread] makes. *)
Definition set_context_and_table (context_addr page_table : Z) (t : Thread) : Thread :=
  {| thread_id := thread_id t; process := process t; kernel_stack := kernel_stack t;
     kernel_stack_end := kernel_stack_end t; context := context_addr;
     user_stack_end := user_stack_end t; page_table_phys := page_table;
     thread_type := thread_type t |}.

(** [Thread::return_error] *)
Definition thread_return_error (t : Thread) (error_code : Z) (m : gmap Z Z) : gmap Z Z :=
  Isf.write (context t) Isf.RAX error_code m.

(** [Thread::return_message] *)
Definition thread_return_message (t : Thread) (message : Message) (m : gmap Z Z) :
    gmap Z Z :=
  let m := Isf.write (context t) Isf.RAX 0 m in
  match message with
  | Packet data1 data2 data3 =>
      let m := Isf.write (context t) Isf.RDI data1 m in
      let m := Isf.write (context t) Isf.RSI data2 m in
      Isf.write (context t) Isf.RDX data3 m
  end.

#[export] Instance thread_socket : SocketThread Thread (gmap Z Z) := {|
  get_thread_id := thread_id;
  return_error := thread_return_error;
  return_message := thread_return_message;
|}.

(** The threads of the kernel meet what sockets rely on: replies are the
    registers a resumed thread finds. *)
#[export] Program Instance thread_socket_laws : SocketThreadLaws Thread (gmap Z Z) := {|
  reply_code t m := Isf.read m (context t) Isf.RAX;
  reply_payload t m :=
    Packet (Isf.read m (context t) Isf.RDI) (Isf.read m (context t) Isf.RSI)
      (Isf.read m (context t) Isf.RDX);
  separate t t' := Isf.apart (context t) (context t');
|}.
Solve All Obligations with
  by intros; cbn; unfold thread_return_error, thread_return_message;
     try match goal with p : Message |- _ => destruct p end; isf_simpl.

(** A reply changes no registers but those of the thread it is for. *)
Lemma load_return_error t e m ctx :
  Isf.apart (context t) ctx -> Isf.load (thread_return_error t e m) ctx = Isf.load m ctx.
Proof. intros. by apply Isf.load_write_apart. Qed.

Lemma load_return_message t message m ctx :
  Isf.apart (context t) ctx -> Isf.load (thread_return_message t message m) ctx = Isf.load m ctx.
Proof. intros. destruct message. cbn. by rewrite !Isf.load_write_apart. Qed.

(** A call on a socket changes no registers but those of its caller and of the
    threads parked there. *)
Lemma load_exec (self : Socket.Socket Thread) call m ctx :
  (forall u, u ∈ option_list (Socket.caller call) ++ Socket.held self -> Isf.apart (context u) ctx) ->
  Isf.load (Socket.exec self call m).2 ctx = Isf.load m ctx.
Proof.
  intros Ha.
  assert (Hm : forall u message m', u ∈ option_list (Socket.caller call) ++ Socket.held self ->
    Isf.load (return_message u message m') ctx = Isf.load m' ctx)
    by (intros; by apply load_return_message, Ha).
  assert (He : forall u e m', u ∈ option_list (Socket.caller call) ++ Socket.held self ->
    Isf.load (return_error u e m') ctx = Isf.load m' ctx)
    by (intros; by apply load_return_error, Ha).
  destruct call as [[t|] message|t|t message], self as [|[u|] pending|u [tid|]|u pending];
    cbn in Hm, He |- *; repeat case_decide; cbn [snd];
    rewrite ?He, ?Hm, ?He by set_solver; done.
Qed.

(** ** Handles

    [Thread::get_sockets], [take_socket], [give_socket] and
    [Process::add_handle], on the process behind the lock. *)
Module Handles.

(** [sockets.get(id).unwrap_or(&None).as_ref().map(clone)] *)
Definition get_sockets (p : Process) (id : Z) : option Z :=
  match vget (sockets p) id with
  | Some slot => slot
  | None => None
  end.

Definition take_socket (p : Process) (id : Z) : option Z * Process :=
  match vget (sockets p) id with
  | Some slot =>
      (slot, mkProcess (page_table_physaddr p) (<[Z.to_nat id := None]> (sockets p)))
  | None => (None, p)
  end.

(** The loop of [give_socket]: [pos] counts, the first [None] is overwritten,
    [None] is returned when there is none. *)
Fixpoint fill_first (pos : Z) (slots : list (option Z)) (socket : Z) :
    option (Z * list (option Z)) :=
  match slots with
  | [] => None
  | None :: slots' => Some (pos, Some socket :: slots')
  | Some s :: slots' =>
      match fill_first (pos + 1) slots' socket with
      | Some (pos', slots'') => Some (pos', Some s :: slots'')
      | None => None
      end
  end.

Definition give_socket (p : Process) (socket : Z) : Z * Process :=
  match fill_first 0 (sockets p) socket with
  | Some (pos, slots) => (pos, mkProcess (page_table_physaddr p) slots)
  | None =>
      let slots := sockets p ++ [Some socket] in
      (Z.of_nat (length slots) - 1, mkProcess (page_table_physaddr p) slots)
  end.

(** [Process::add_handle], through [Iterator::position]. *)
Definition add_handle (p : Process) (rv : Z) : Z * Process :=
  match list_find (fun handle => handle = None) (sockets p) with
  | Some (index, _) =>
      (Z.of_nat index, mkProcess (page_table_physaddr p) (<[index := Some rv]> (sockets p)))
  | None =>
      let slots := sockets p ++ [Some rv] in
      (Z.of_nat (length slots) - 1, mkProcess (page_table_physaddr p) slots)
  end.

Lemma fill_first_find slots pos socket :
  fill_first pos slots socket =
    match list_find (fun handle => handle = None) slots with
    | Some (i, _) => Some (pos + Z.of_nat i, <[i := Some socket]> slots)
    | None => None
    end.
Proof.
  revert pos. induction slots as [|[s|] slots IH]; intros pos; simpl; [done|..].
  - rewrite IH. destruct (list_find _ slots) as [[i ?]|]; simpl; [|done].
    do 2 f_equal. lia.
  - do 2 f_equal. lia.
Qed.

Lemma give_socket_add_handle p socket : give_socket p socket = add_handle p socket.
Proof.
  unfold give_socket, add_handle. rewrite fill_first_find.
  destruct (list_find _ _) as [[i ?]|]; [|done]. done.
Qed.

Lemma get_sockets_lookup p id :
  get_sockets p id = if decide (0 <= id) then mjoin (sockets p !! Z.to_nat id) else None.
Proof.
  unfold get_sockets. destruct (vget (sockets p) id) as [slot|] eqn:Hv.
  - apply vget_Some in Hv as [? ->]. by rewrite decide_True.
  - unfold vget in Hv. repeat case_decide; try done; [by rewrite Hv|].
    rewrite lookup_ge_None_2 by lia. done.
Qed.

Lemma get_sockets_nat p (n : nat) :
  get_sockets p (Z.of_nat n) = mjoin (sockets p !! n).
Proof. rewrite get_sockets_lookup, decide_True, Nat2Z.id by lia. done. Qed.

(** Two tables that agree at every [nat] agree at every handle. *)
Lemma get_sockets_ext p (g : Z -> option Z) :
  (forall j, j < 0 -> g j = None) ->
  (forall n : nat, get_sockets p (Z.of_nat n) = g (Z.of_nat n)) ->
  forall j, get_sockets p j = g j.
Proof.
  intros Hneg Hnat j. destruct (decide (0 <= j)).
  - rewrite <-(Z2Nat.id j) by done. apply Hnat.
  - rewrite get_sockets_lookup, decide_False, Hneg by lia. done.
Qed.

Lemma get_sockets_neg p j : j < 0 -> get_sockets p j = None.
Proof. intros. rewrite get_sockets_lookup, decide_False by lia. done. Qed.

(** Overwriting slot [n] of a table changes the handle [n] only. *)
Lemma get_sockets_insert p (n : nat) slot :
  (n < length (sockets p))%nat ->
  forall j, get_sockets (mkProcess (page_table_physaddr p) (<[n := slot]> (sockets p))) j =
    if decide (j = Z.of_nat n) then slot else get_sockets p j.
Proof.
  intros Hn. apply get_sockets_ext.
  - intros j Hj. rewrite decide_False by lia. by apply get_sockets_neg.
  - intros i. rewrite !get_sockets_nat. simpl. destruct (decide (i = n)) as [->|Hne].
    + rewrite list_lookup_insert_eq, decide_True by done. by destruct slot.
    + rewrite list_lookup_insert_ne, decide_False by lia. done.
Qed.

Lemma get_sockets_push p slot :
  forall j, get_sockets (mkProcess (page_table_physaddr p) (sockets p ++ [slot])) j =
    if decide (j = Z.of_nat (length (sockets p))) then slot else get_sockets p j.
Proof.
  apply get_sockets_ext.
  - intros j Hj. rewrite decide_False by lia. by apply get_sockets_neg.
  - intros i. rewrite !get_sockets_nat. simpl.
    destruct (decide (i = length (sockets p))) as [->|Hne].
    + rewrite decide_True by lia. rewrite lookup_app_r, Nat.sub_diag by lia. by destruct slot.
    + rewrite decide_False by lia. destruct (decide (i < length (sockets p))%nat).
      * by rewrite lookup_app_l.
      * rewrite !lookup_ge_None_2; [done|lia|rewrite length_app; simpl; lia].
Qed.

Lemma add_handle_spec p socket handle p' :
  add_handle p socket = (handle, p') ->
  exists n : nat, handle = Z.of_nat n /\ get_sockets p (Z.of_nat n) = None /\
    (forall i : nat, (i < n)%nat -> is_Some (get_sockets p (Z.of_nat i))) /\
    (forall j, get_sockets p' j =
       if decide (j = Z.of_nat n) then Some socket else get_sockets p j).
Proof.
  unfold add_handle. destruct (list_find _ _) as [[n x]|] eqn:Hf; intros [= <- <-].
  - apply list_find_Some in Hf as (Hn & -> & Hlow).
    exists n. split; [done|]. split; [by rewrite get_sockets_nat, Hn|]. split.
    + intros i Hi. rewrite get_sockets_nat.
      destruct (lookup_lt_is_Some_2 (sockets p) i) as [[s|] Hs].
      * apply lookup_lt_Some in Hn. lia.
      * rewrite Hs. by eexists.
      * by destruct (Hlow _ _ Hs Hi).
    + apply get_sockets_insert. by apply lookup_lt_Some in Hn.
  - apply list_find_None in Hf. exists (length (sockets p)).
    split; [rewrite length_app; simpl; lia|]. split; [|split].
    + rewrite get_sockets_nat, lookup_ge_None_2 by lia. done.
    + intros i Hi. rewrite get_sockets_nat.
      destruct (lookup_lt_is_Some_2 (sockets p) i) as [[s|] Hs]; [done|..].
      * rewrite Hs. by eexists.
      * rewrite Forall_lookup in Hf. by destruct (Hf _ _ Hs).
    + apply get_sockets_push.
Qed.

Lemma take_socket_set p (n : nat) socket :
  get_sockets p (Z.of_nat n) = Some socket ->
  exists p', take_socket p (Z.of_nat n) = (Some socket, p') /\
    forall j, get_sockets p' j =
      if decide (j = Z.of_nat n) then None else get_sockets p j.
Proof.
  unfold take_socket, get_sockets at 1. rewrite vget_lookup, Nat2Z.id.
  destruct (sockets p !! n) as [slot|] eqn:Hn; [|done]. intros ->.
  eexists. split; [done|]. apply get_sockets_insert. by apply lookup_lt_Some in Hn.
Qed.

End Handles.

(** ** Properties *)

(** The handle table of a process.  [give_socket] and [add_handle] (the
    same loop written twice) pick the lowest handle not in use, make it name
    the socket, and leave every other handle alone; [take_socket] on that
    handle gives the socket back and empties the handle only. *)
Lemma handle_table (p : Process) (socket : Z) :
  let '(handle, p') := Handles.give_socket p socket in
  Handles.add_handle p socket = (handle, p') /\
  0 <= handle /\ Handles.get_sockets p handle = None /\
  (forall j, 0 <= j < handle -> is_Some (Handles.get_sockets p j)) /\
  (forall j, Handles.get_sockets p' j =
     if decide (j = handle) then Some socket else Handles.get_sockets p j) /\
  let '(taken, p'') := Handles.take_socket p' handle in
  taken = Some socket /\
  forall j, Handles.get_sockets p'' j =
    if decide (j = handle) then None else Handles.get_sockets p j.
Proof.
  rewrite Handles.give_socket_add_handle.
  destruct (Handles.add_handle p socket) as [handle p'] eqn:Hadd.
  destruct (Handles.add_handle_spec p socket handle p' Hadd)
    as (n & -> & Hfree & Hlow & Hset).
  destruct (Handles.take_socket_set p' n socket) as (p'' & Htake & Hrest);
    [by rewrite Hset, decide_True|].
  rewrite Htake. split; [done|]. split; [lia|]. split; [done|].
  split; [intros j Hj; rewrite <-(Z2Nat.id j) by lia; apply Hlow; lia|].
  split; [done|]. split; [done|].
  intros j. rewrite Hrest. case_decide; [done|]. by rewrite Hset, decide_False.
Qed.
