(* ===== verification/Diagnostics.v ===== *)
(** * The text of a thread (impl Display for Thread of kernel/src/proc/process.rs)

    The lines of the format string and the arguments, in the order the code
    passes them. *)
From S2P Require Import Prelude Text Abi Sync Isf Thread.

(** [{:?}] of a [ThreadType] *)
Definition debug_thread_type (t : ThreadType) : list Z :=
  match t with
  | Kernel => text "Kernel"
  | User => text "User"
  end.

(** The format string, with a value for each placeholder. *)
Definition thread_text (id kind start1 end1 isf start2 end2 rsp rip : list Z) : list Z :=
  let line s := s ++ [0x0A] in
  line (text "===========================================") ++
  line (text "Thread ID: " ++ id ++ text " , " ++ kind) ++
  line (text "===========================================") ++
  line (text "Kernel Stack:") ++
  line (text "    Start: " ++ start1) ++
  line (text "    End:   " ++ end1) ++
  line (text "    ISF Address: " ++ isf) ++
  line (text "-------------------------------------------") ++
  line (text "User Stack:") ++
  line (text "    Start: " ++ start2) ++
  line (text "    End:   " ++ end2) ++
  line (text "    RSP:   " ++ rsp) ++
  line (text "-------------------------------------------") ++
  line (text "Execution:") ++
  line (text "    RIP: " ++ rip) ++
  line (text "===========================================").

(** [fmt]: the placeholders are filled in the order of the arguments. *)
Definition fmt (t : Thread) (m : gmap Z Z) : list Z :=
  let ctx := Isf.load m (context t) in
  let kernel_stack_start := kernel_stack_end t -w KERNEL_STACK_SIZE in
  let user_stack_start := user_stack_end t -w USER_STACK_SIZE in
  let contextRip := Isf.instruction_pointer ctx in
  let contextRsp := Isf.stack_pointer ctx in
  thread_text (decimal (thread_id t)) (debug_thread_type (thread_type t))
    (hexadecimal_016 contextRip) (hexadecimal_016 kernel_stack_start)
    (hexadecimal_016 (kernel_stack_end t)) (hexadecimal_016 (context t))
    (hexadecimal_016 user_stack_start) (hexadecimal_016 (user_stack_end t))
    (hexadecimal_016 contextRsp).

(** What the labels of the format string announce. *)
Definition labelled (t : Thread) (m : gmap Z Z) : list Z :=
  let ctx := Isf.load m (context t) in
  thread_text (decimal (thread_id t)) (debug_thread_type (thread_type t))
    (hexadecimal_016 (kernel_stack_end t -w KERNEL_STACK_SIZE)) (hexadecimal_016 (kernel_stack_end t))
    (hexadecimal_016 (context t)) (hexadecimal_016 (user_stack_end t -w USER_STACK_SIZE))
    (hexadecimal_016 (user_stack_end t)) (hexadecimal_016 (Isf.stack_pointer ctx))
    (hexadecimal_016 (Isf.instruction_pointer ctx)).

(** The instruction pointer is passed first and printed as the start of the
    kernel stack; every value after it is one line late. *)
Example fmt_is_shifted :
  let t := {| thread_id := 1; process := 0; kernel_stack := mkVec 0x10000 KERNEL_STACK_SIZE;
    kernel_stack_end := 0x20000; context := 0x1ff00; user_stack_end := 0x30000;
    page_table_phys := 0; thread_type := User |} in
  fmt t ∅ ≠ labelled t ∅.
Proof. vm_compute. discriminate. Qed.
