(* ===== verification/Mapping.v ===== *)
(** * Mapping pages (kernel/src/mem/memory.rs, kernel/src/mem/allocator.rs)

    The functions that map pages through the crate's [Mapper]: the user heap,
    the pages of a program, the kernel heap.  The mapper and the address types
    are the crate x86_64, parameters here with their documented behaviour; a
    page is named by its first address. *)
From S2P Require Import Prelude Logger Heap Bump FixedBlock Frames Paging Thread.

(** [VirtAddr] arithmetic and [Page]: an address that is not canonical is a
    panic. *)
Class VirtPages := {
  virt_new : Z -> outcome Z;
  virt_add : Z -> Z -> outcome Z;
  virt_sub : Z -> Z -> outcome Z;
  page_containing : Z -> Z;
  page_range_inclusive : Z -> Z -> list Z;
}.

(** In the lower half of the address space. *)
Definition lower (a : Z) : Prop := 0 <= a < 2 ^ 47.

(** [VirtAddr::new] extends the sign of bit 47, and the sum wraps in a release
    build, so a result in the lower half is the argument, and the sum of 64
    bits. *)
Class VirtPagesLaws `{VirtPages} := {
  virt_new_lower a : lower a -> virt_new a = Done a;
  virt_new_Done a b : virt_new a = Done b -> b < 2 ^ 47 -> b = a;
  virt_add_Done a n b : virt_add a n = Done b -> b < 2 ^ 47 -> b = a +w n;
  virt_add_lower a n : lower a -> 0 <= n -> lower (a + n) -> virt_add a n = Done (a + n);
  virt_sub_lower a n : lower a -> 0 <= n -> lower (a - n) -> virt_sub a n = Done (a - n);
  page_containing_lower a : lower a -> page_containing a = a - a mod 4096;
  page_range_spec p q r :
    lower p -> lower q -> p mod 4096 = 0 -> q mod 4096 = 0 ->
    r ∈ page_range_inclusive p q <-> p <= r <= q /\ r mod 4096 = 0;
  page_range_nodup p q : NoDup (page_range_inclusive p q);
}.

Inductive MapToError :=
| FrameAllocationFailed
| ParentEntryHugePage
| PageAlreadyMapped (frame : Z).

#[export] Instance MapToError_eq_dec : EqDecision MapToError.
Proof. solve_decision. Defined.

(** The memory as [Mapper] and [FrameAllocator] change it; the first argument
    of an operation is the level 4 table the mapper was made for, [translate]
    the frame and the flags of a 4 KiB page. *)
Class Mapper (S : Type) := {
  allocate_frame : S -> outcome (option Z * S);
  translate : S -> Z -> Z -> option (Z * Z);
  map_to : Z -> Z -> Z -> Z -> S -> outcome (result unit MapToError * S);
  map_to_with_table_flags : Z -> Z -> Z -> Z -> Z -> S -> outcome (result unit MapToError * S);
  update_flags : Z -> Z -> Z -> S -> result unit string * S;
  unmap : Z -> Z -> S -> result Z string * S;
}.

(** [now] is [before] except at [page]. *)
Definition remapped (page : Z) (x : option (Z * Z)) (before now : Z -> option (Z * Z)) : Prop :=
  forall q, now q = if decide (q = page) then x else before q.

(** [valid_table] is what [OffsetPageTable::new] demands of a level 4 table: it
    is the root of a well-formed hierarchy.  [valid_flags] are the flags of a
    page that is present and of 4 KiB. *)
Class MapperLaws (S : Type) `{Mapper S} := {
  in_use : S -> Z -> Prop;
  valid_table : S -> Z -> Prop;
  valid_flags : Z -> Prop;
  valid_flags_user : valid_flags USER_FLAGS;
  valid_flags_kernel : valid_flags (Z.lor PRESENT WRITABLE);
  allocate_frame_Some s f s' : allocate_frame s = Done (Some f, s') ->
    ~ in_use s f /\ in_use s' f /\ (forall g, in_use s g -> in_use s' g) /\
    forall t, (valid_table s t -> valid_table s' t) /\ forall q, translate s' t q = translate s t q;
  map_to_Ok t page f flags s s' :
    valid_table s t -> valid_flags flags -> map_to t page f flags s = Done (Ok tt, s') ->
    translate s t page = None /\ valid_table s' t /\
    remapped page (Some (f, flags)) (translate s t) (translate s' t) /\
    forall g, in_use s g -> in_use s' g;
  map_to_with_table_flags_Ok t page f flags parent s s' :
    valid_table s t -> valid_flags flags -> valid_flags parent ->
    map_to_with_table_flags t page f flags parent s = Done (Ok tt, s') ->
    translate s t page = None /\ valid_table s' t /\
    remapped page (Some (f, flags)) (translate s t) (translate s' t) /\
    forall g, in_use s g -> in_use s' g;
  update_flags_Ok t page flags s s' :
    valid_table s t -> valid_flags flags -> update_flags t page flags s = (Ok tt, s') ->
    exists f old, translate s t page = Some (f, old) /\ valid_table s' t /\
    remapped page (Some (f, flags)) (translate s t) (translate s' t) /\
    forall g, in_use s' g <-> in_use s g;
  unmap_mapped t page f flags s :
    valid_table s t -> valid_flags flags -> translate s t page = Some (f, flags) ->
    exists s', unmap t page s = (Ok f, s') /\ valid_table s' t /\
    remapped page None (translate s t) (translate s' t) /\
    forall g, in_use s' g <-> in_use s g;
}.

(** A loop whose body ends in [?]. *)
Fixpoint try_each {X S E} (xs : list X) (f : X -> S -> outcome (result unit E * S)) (s : S) :
    outcome (result unit E * S) :=
  match xs with
  | [] => Done (Ok tt, s)
  | x :: xs =>
      '(r, s) ← f x s;
      match r with
      | Ok _ => try_each xs f s
      | Err e => Done (Err e, s)
      end
  end.

Module Mapping.
Section Operations.
Context {S : Type} `{VirtPages} `{Mapper S}.
Implicit Types (s : S).

(** The pages of the [size] bytes at [start]: [end_addr = start + size - 1]. *)
Definition page_range (start size : Z) : outcome (Z * list Z) :=
  sum ← virt_add start size;
  end_addr ← virt_sub sum 1;
  let start_page := page_containing start in
  Done (start_page, page_range_inclusive start_page (page_containing end_addr)).

(** [create_user_ondemand_pages] *)
Definition create_user_ondemand_pages (level_4_table start size : Z) s :
    outcome (result unit MapToError * S) :=
  '(start_page, pages) ← page_range start size;
  '(frame, s) ← allocate_frame s;
  match frame with
  | None => Done (Err FrameAllocationFailed, s)
  | Some frame =>
      '(r, s) ← try_each pages (fun page s =>
        map_to_with_table_flags level_4_table page frame USER_FLAGS USER_FLAGS s) s;
      match r with
      | Err e => Done (Err e, s)
      | Ok _ =>
          let '(r, s) := update_flags level_4_table start_page USER_FLAGS s in
          match r with
          | Err _ => Done (Err FrameAllocationFailed, s)
          | Ok _ => Done (Ok tt, s)
          end
      end
  end.

(** [allocate_user_heap] *)
Definition allocate_user_heap (user_pt_phys : Z) s : outcome (result unit string * S) :=
  '(r, s) ← create_user_ondemand_pages user_pt_phys USER_HEAP_START USER_HEAP_SIZE s;
  match r with
  | Err _ => Done (Err "Couldn't allocate on-demand pages for user heap"%string, s)
  | Ok _ => Done (Ok tt, s)
  end.

(** The body of the loops below: a page on a new frame. *)
Definition map_new_page (table flags page : Z) s : outcome (result unit MapToError * S) :=
  '(frame, s) ← allocate_frame s;
  match frame with
  | None => Done (Err FrameAllocationFailed, s)
  | Some frame => map_to table page frame flags s
  end.

(** [allocate_pages_mapper]; [table] is the level 4 table of the mapper. *)
Definition allocate_pages_mapper (table start size flags : Z) s :
    outcome (result unit MapToError * S) :=
  '(_, pages) ← page_range start size;
  try_each pages (map_new_page table flags) s.

(** [allocate_pages] *)
Definition allocate_pages (level_4_table start size flags : Z) s :
    outcome (result unit MapToError * S) :=
  allocate_pages_mapper level_4_table start size flags s.

(** [deallocate_page]; the frames [unmap] returns are dropped. *)
Definition deallocate_page (table address size : Z) s : outcome S :=
  start ← virt_new address;
  last ← virt_new (address +w size -w 1);
  let pages := page_range_inclusive (page_containing start) (page_containing last) in
  for_each pages (fun page s => Done (unmap table page s).2) s.

(** [init_heap] with the global allocator it initialises. *)
Definition init_heap {H} `{FallbackHeap H} (table : Z) s
    (allocator : FixedBlock.FixedSizeBlockAllocator H) :
    outcome (result unit MapToError * S * FixedBlock.FixedSizeBlockAllocator H) :=
  '(_, pages) ← page_range HEAP_START HEAP_SIZE;
  '(r, s) ← try_each pages (map_new_page table (Z.lor PRESENT WRITABLE)) s;
  match r with
  | Err e => Done (Err e, s, allocator)
  | Ok _ => Done (Ok tt, s, FixedBlock.init HEAP_START HEAP_SIZE allocator)
  end.
End Operations.

(** What the mapper may do to the memory, whatever it answers, when it is used
    on the tables and with the flags [P]. *)
Class MapperKeeps (S : Type) `{Mapper S} (P : Z -> Z -> Prop) (R : S -> S -> Prop) := {
  keeps_preorder : PreOrder R;
  allocate_frame_keeps s r s' : allocate_frame s = Done (r, s') -> R s s';
  map_to_keeps t page f flags s r s' :
    P t flags -> map_to t page f flags s = Done (r, s') -> R s s';
  map_to_with_table_flags_keeps t page f flags parent s r s' :
    P t flags -> P t parent ->
    map_to_with_table_flags t page f flags parent s = Done (r, s') -> R s s';
  update_flags_keeps t page flags s r s' :
    P t flags -> update_flags t page flags s = (r, s') -> R s s';
}.

Section Keeps.
Context {S : Type} `{VirtPages} `{MapperKeeps S P R}.
#[local] Existing Instance keeps_preorder.
Implicit Types (s : S).

Lemma try_each_keeps {X S' E} (R' : S' -> S' -> Prop) `{!PreOrder R'}
    (f : X -> S' -> outcome (result unit E * S')) xs : forall (s : S') r (s' : S'),
  (forall x (s1 : S') r1 (s2 : S'), f x s1 = Done (r1, s2) -> R' s1 s2) ->
  try_each xs f s = Done (r, s') -> R' s s'.
Proof.
  induction xs as [|x xs IH]; intros s r s' Hf Hrun; cbn in Hrun; [by simplify_eq|].
  bind_Done Hrun. destruct r0 as [[u|e] s1].
  - etransitivity; [by eapply Hf|by eapply IH].
  - simplify_eq. by eapply Hf.
Qed.

Lemma map_new_page_keeps t flags page s r s' :
  P t flags -> map_new_page t flags page s = Done (r, s') -> R s s'.
Proof.
  unfold map_new_page. intros HP Hrun. bind_Done Hrun. destruct r0 as [[f|] s1].
  - etransitivity; [by eapply allocate_frame_keeps|by eapply map_to_keeps].
  - simplify_eq. by eapply allocate_frame_keeps.
Qed.

Lemma allocate_pages_keeps t start size flags s r s' :
  P t flags -> allocate_pages t start size flags s = Done (r, s') -> R s s'.
Proof.
  unfold allocate_pages, allocate_pages_mapper. intros HP Hrun. bind_Done Hrun. destruct r0 as [p pages].
  eapply try_each_keeps; [apply keeps_preorder| |exact Hrun]. intros. by eapply map_new_page_keeps.
Qed.

Lemma init_heap_keeps {F} `{FallbackHeap F} t s (a : FixedBlock.FixedSizeBlockAllocator F) r s' a' :
  P t (Z.lor PRESENT WRITABLE) -> init_heap t s a = Done (r, s', a') -> R s s'.
Proof.
  unfold init_heap. intros HP Hrun. bind_Done Hrun. destruct r0 as [p pages]. bind_Done Hrun.
  destruct r0 as [r0 s1]. assert (s1 = s') as -> by (destruct r0 as [[]|]; by simplify_eq).
  eapply try_each_keeps; [apply keeps_preorder| |exact Hr0]. intros. by eapply map_new_page_keeps.
Qed.

Lemma allocate_user_heap_keeps t s r s' :
  P t USER_FLAGS -> allocate_user_heap t s = Done (r, s') -> R s s'.
Proof.
  unfold allocate_user_heap, create_user_ondemand_pages. intros HP Hrun. bind_Done Hrun.
  destruct r0 as [r0 s1]. assert (s1 = s') as -> by (destruct r0 as [[]|]; by simplify_eq).
  clear Hrun. bind_Done Hr. destruct r1 as [p pages]. bind_Done Hr. destruct r1 as [[f|] s2].
  - bind_Done Hr. destruct r1 as [r1 s3].
    assert (R s2 s3).
    { eapply try_each_keeps; [apply keeps_preorder| |exact Hr2].
      intros x sa ra sb Hx. cbn in Hx. by eapply map_to_with_table_flags_keeps. }
    etransitivity; [by eapply allocate_frame_keeps|]. etransitivity; [done|].
    destruct r1 as [u|e]; [|by simplify_eq]. destruct (update_flags t p USER_FLAGS s3) as [r2 s4] eqn:Hu.
    apply update_flags_keeps in Hu; [|done]. by destruct r2; simplify_eq.
  - simplify_eq. by eapply allocate_frame_keeps.
Qed.
End Keeps.

Section Facts.
Context {S : Type} `{VirtPagesLaws} `{MapperLaws S}.
Implicit Types (s : S).

(** What holds of the elements already visited, step by step. *)
Lemma try_each_Ok {X E} (I : list X -> S -> Prop) (f : X -> S -> outcome (result unit E * S)) xs s s' :
  I [] s ->
  (forall dn x s1 s2, x ∈ xs -> I dn s1 -> f x s1 = Done (Ok tt, s2) -> I (dn ++ [x]) s2) ->
  try_each xs f s = Done (Ok tt, s') -> I xs s'.
Proof.
  intros Hnil Hstep. change xs with ([] ++ xs) at 2. revert s Hnil.
  generalize (@nil X) as dn. induction xs as [|x xs IH]; intros dn s HI Hrun; cbn in Hrun.
  - simplify_eq. by rewrite app_nil_r.
  - bind_Done Hrun. destruct r as [[[]|e] s1]; [|done].
    replace (dn ++ x :: xs) with ((dn ++ [x]) ++ xs) by by rewrite <-app_assoc.
    eapply IH; [|by eapply Hstep; [apply list_elem_of_here|..]|exact Hrun].
    intros. eapply Hstep; [by apply list_elem_of_further|done..].
Qed.

(** Ranges of bytes in the lower half. *)
Record range_ok (start size : Z) : Prop := {
  range_start : 0 <= start;
  range_size : 0 < size;
  range_end : start + size < 2 ^ 47;
}.

Definition pages_of (start size : Z) : list Z :=
  page_range_inclusive (page_containing start) (page_containing (start + size - 1)).

Lemma page_range_ok start size :
  range_ok start size -> page_range start size = Done (page_containing start, pages_of start size).
Proof.
  intros [? ? ?]. unfold page_range. rewrite virt_add_lower by (unfold lower; lia). cbn.
  rewrite virt_sub_lower by (unfold lower; lia). done.
Qed.

Lemma containing_spec a : lower a -> page_containing a mod 4096 = 0 /\ lower (page_containing a) /\
  page_containing a <= a < page_containing a + 4096.
Proof.
  intros Ha. rewrite page_containing_lower by done. unfold lower in *. Z.div_mod_to_equations. lia.
Qed.

Lemma page_in_range start size a :
  range_ok start size -> start <= a < start + size -> page_containing a ∈ pages_of start size.
Proof.
  intros [? ? ?] Ha.
  destruct (containing_spec start) as (? & ? & ?); [unfold lower; lia|].
  destruct (containing_spec (start + size - 1)) as (? & ? & ?); [unfold lower; lia|].
  destruct (containing_spec a) as (? & ? & ?); [unfold lower; lia|].
  apply page_range_spec; [done..|]. split; [|done]. Z.div_mod_to_equations. lia.
Qed.

Lemma pages_of_bounds start size page :
  range_ok start size -> page ∈ pages_of start size -> start - 4096 < page < start + size.
Proof.
  intros [? ? ?] Hp.
  destruct (containing_spec start) as (? & ? & ?); [unfold lower; lia|].
  destruct (containing_spec (start + size - 1)) as (? & ? & ?); [unfold lower; lia|].
  apply page_range_spec in Hp as [Hp _]; [lia|done..].
Qed.

(** The pages [dn] of [t] are all on [frame]. *)
Definition all_on (t frame : Z) (s0 : S) (dn : list Z) s : Prop :=
  valid_table s t /\ forall q, translate s t q = if decide (q ∈ dn) then Some (frame, USER_FLAGS) else translate s0 t q.

Lemma remapped_snoc dn page x (before now old : Z -> option (Z * Z)) :
  (forall q, before q = if decide (q ∈ dn) then x else old q) -> remapped page x before now ->
  forall q, now q = if decide (q ∈ dn ++ [page]) then x else old q.
Proof.
  intros Hb Hn q. rewrite Hn, Hb. repeat case_decide; subst; try done; set_solver.
Qed.

Lemma ondemand_pages_shared t start size s s' :
  valid_table s t -> range_ok start size ->
  create_user_ondemand_pages t start size s = Done (Ok tt, s') ->
  exists frame, ~ in_use s frame /\ all_on t frame s (pages_of start size) s'.
Proof.
  intros Hvalid Hok Hrun. unfold create_user_ondemand_pages in Hrun. rewrite page_range_ok in Hrun by done.
  cbn [mbind outcome_bind] in Hrun. bind_Done Hrun. destruct r as [[frame|] s1]; [|done].
  apply allocate_frame_Some in Hr as (Hfresh & _ & _ & Ht). destruct (Ht t) as [Hv1 Ht1].
  bind_Done Hrun. destruct r as [[[]|e] s2]; [|done].
  apply (try_each_Ok (all_on t frame s)) in Hr as [Hv2 Hall].
  - destruct (update_flags t _ _ s2) as [[[]|e] s3] eqn:Hu; [|done]. simplify_eq.
    exists frame. split; [done|].
    apply update_flags_Ok in Hu as (f & old & Hf & Hv3 & Hre & _); [|done|apply valid_flags_user].
    split; [done|]. intros q. rewrite Hre.
    assert (Hin : page_containing start ∈ pages_of start size)
      by (apply page_in_range; [done|]; destruct Hok; lia).
    rewrite Hall in Hf. rewrite decide_True in Hf by done. simplify_eq.
    case_decide; subst; [by rewrite decide_True|apply Hall].
  - split; [by apply Hv1|]. intros q. rewrite decide_False by set_solver. apply Ht1.
  - intros dn page sa sb _ [Hva Hdn] Hm.
    apply map_to_with_table_flags_Ok in Hm as (_ & Hvb & Hre & _); [|done|apply valid_flags_user..].
    split; [done|]. intros q. by eapply remapped_snoc.
Qed.

(** The pages [dn] are on frames [fs], one each, taken since [s0]. *)
Record backed (t flags : Z) (s0 : S) (dn fs : list Z) s : Prop := {
  bk_valid : valid_table s t;
  bk_pages : Forall2 (fun page f => translate s t page = Some (f, flags)) dn fs;
  bk_other : forall q, q ∉ dn -> translate s t q = translate s0 t q;
  bk_unmapped : forall q, q ∈ dn -> translate s0 t q = None;
  bk_nodup : NoDup fs;
  bk_fresh : Forall (fun f => in_use s f /\ ~ in_use s0 f) fs;
  bk_kept : forall g, in_use s0 g -> in_use s g;
}.

Lemma backed_snoc t flags s0 dn fs s page s' :
  valid_flags flags -> backed t flags s0 dn fs s -> map_new_page t flags page s = Done (Ok tt, s') ->
  exists f, backed t flags s0 (dn ++ [page]) (fs ++ [f]) s'.
Proof.
  intros Hflags [Hv Hp Ho Hn Hnd Hf Hk] Hrun. unfold map_new_page in Hrun. bind_Done Hrun.
  destruct r as [[f|] s1]; [|done]. apply allocate_frame_Some in Hr as (Hfr & Hus & Hmono & Htv).
  destruct (Htv t) as [Hv1 Ht].
  apply map_to_Ok in Hrun as (Hnone & Hv2 & Hre & Hmono2); [|by apply Hv1|done]. exists f.
  assert (Hpage : page ∉ dn).
  { intros Hin. rewrite Ht in Hnone. apply list_elem_of_lookup in Hin as [i Hi].
    destruct (Forall2_lookup_l _ _ _ _ _ Hp Hi) as (y & _ & Hy). congruence. }
  rewrite Forall_forall in Hf. constructor; [done|..].
  - apply Forall2_app.
    + apply Forall2_lookup. intros i. pose proof (proj1 (Forall2_lookup _ _ _) Hp i) as Hi.
      destruct (dn !! i) as [q|] eqn:Hq, (fs !! i) as [g|]; inversion Hi; subst; constructor.
      rewrite Hre, Ht. by rewrite decide_False by (intros ->; by eapply Hpage, list_elem_of_lookup_2).
    + constructor; [|done]. by rewrite Hre, decide_True.
  - intros q Hq. rewrite Hre, Ht. rewrite decide_False by set_solver. apply Ho. set_solver.
  - intros q [Hq| ->%list_elem_of_singleton]%elem_of_app; [by apply Hn|].
    rewrite Ht in Hnone. by rewrite Ho in Hnone.
  - apply NoDup_app. split; [done|]. split; [|apply NoDup_singleton].
    intros g Hg ->%list_elem_of_singleton. by apply Hfr, Hf.
  - apply Forall_app. split.
    + apply Forall_forall. intros g Hg. destruct (Hf g Hg). auto.
    + constructor; [|done]. split; [auto|]. auto.
  - auto.
Qed.

Lemma allocate_pages_backed t start size flags s s' :
  valid_table s t -> valid_flags flags -> range_ok start size -> allocate_pages t start size flags s = Done (Ok tt, s') ->
  exists fs, backed t flags s (pages_of start size) fs s'.
Proof.
  intros Hv Hflags Hok Hrun. unfold allocate_pages, allocate_pages_mapper in Hrun.
  rewrite page_range_ok in Hrun by done. cbn [mbind outcome_bind] in Hrun.
  eapply (try_each_Ok (fun dn s' => exists fs, backed t flags s dn fs s')); [| |exact Hrun].
  - exists []. constructor; try done; [set_solver|apply NoDup_nil_2].
  - intros dn page s1 s2 _ [fs Hb] Hm. apply (backed_snoc _ _ _ _ _ _ _ _ Hflags Hb) in Hm as [f Hf].
    by exists (fs ++ [f]).
Qed.
End Facts.
End Mapping.

Section Properties.
Context {S : Type} `{VirtPagesLaws} `{MapperLaws S}.
Implicit Types (s : S).

Lemma user_heap_range : Mapping.range_ok USER_HEAP_START USER_HEAP_SIZE.
Proof. by constructor. Qed.

(** C28: the user heap is one frame.  When [allocate_user_heap] succeeds on a
    valid table, every
    byte of the four megabytes is mapped, writable, to the same frame: the
    bytes at one offset of all 1024 pages are the same memory, and a write to
    the heap never faults, so no page gets a frame of its own on demand. *)
Theorem user_heap_aliased t s s' (Hvalid : valid_table s t)
    (Hrun : Mapping.allocate_user_heap t s = Done (Ok tt, s')) :
  exists frame, ~ in_use s frame /\
    (forall a, USER_HEAP_START <= a < USER_HEAP_START + USER_HEAP_SIZE ->
      translate s' t (page_containing a) = Some (frame, USER_FLAGS)) /\
    (forall q, q ∉ Mapping.pages_of USER_HEAP_START USER_HEAP_SIZE ->
      translate s' t q = translate s t q).
Proof.
  unfold Mapping.allocate_user_heap in Hrun. bind_Done Hrun. destruct r as [[[]|e] s1]; simplify_eq.
  apply Mapping.ondemand_pages_shared in Hr as (frame & Hf & _ & Hall); [|done|apply user_heap_range].
  exists frame. split; [done|]. split.
  - intros a Ha. rewrite Hall. by rewrite decide_True by (apply Mapping.page_in_range; [apply user_heap_range|done]).
  - intros q Hq. rewrite Hall. by rewrite decide_False.
Qed.

(** Unmapping the pages that are on the frames [fs]. *)
Lemma unmap_all t flags (s0 : S) dn fs s :
  valid_flags flags -> NoDup dn -> Mapping.backed t flags s0 dn fs s ->
  exists s', for_each dn (fun page s => Done (unmap t page s).2) s = Done s' /\
    (forall q, translate s' t q = translate s0 t q) /\
    Forall (fun f => in_use s' f /\ ~ in_use s0 f) fs.
Proof.
  intros Hflags Hnd [Hv Hp Ho Hn _ Hf _].
  assert (Hgoal : exists s', for_each dn (fun page s => Done (unmap t page s).2) s = Done s' /\
    (forall q, translate s' t q = if decide (q ∈ dn) then None else translate s t q) /\
    forall g, in_use s' g <-> in_use s g).
  { clear Ho Hn Hf. revert s fs Hv Hp. induction Hnd as [|page dn Hpage Hnd IH]; intros s fs Hv Hp.
    - exists s. cbn. split; [done|]. split; [|done]. intros q. by rewrite decide_False by set_solver.
    - inversion Hp as [|? f ? fs' Hpf Hrest]; subst.
      destruct (unmap_mapped t page f flags s Hv Hflags Hpf) as (s1 & Hu & Hv1 & Hre & Huse).
      destruct (IH s1 fs' Hv1) as (s2 & Hrun & Ht & Huse2).
      { apply Forall2_lookup. intros i. pose proof (proj1 (Forall2_lookup _ _ _) Hrest i) as Hi.
        destruct (dn !! i) as [q|] eqn:Hq, (fs' !! i) as [g|]; inversion Hi; subst; constructor.
        rewrite Hre. by rewrite decide_False by (intros ->; by eapply Hpage, list_elem_of_lookup_2). }
      exists s2. cbn. rewrite Hu. cbn. split; [done|]. split; [|intros g; by rewrite Huse2].
      intros q. rewrite Ht, Hre. repeat case_decide; subst; try done; set_solver. }
  destruct Hgoal as (s' & Hrun & Ht & Huse). exists s'. split; [done|]. split.
  - intros q. rewrite Ht. case_decide; [by rewrite Hn|by apply Ho].
  - eapply Forall_impl; [exact Hf|]. intros g [? ?]. by rewrite Huse.
Qed.

(** C27: [allocate_pages] and [deallocate_page].  When [allocate_pages]
    succeeds on a valid table, each page of the range was unmapped and is now on a frame of
    its own that nobody used; releasing the range makes every address of the
    table translate as before.  But the frames stay in use: they are never
    given back to the allocator. *)
Theorem pages_roundtrip t start size flags s s1
    (Hvalid : valid_table s t) (Hok : Mapping.range_ok start size) (Hflags : valid_flags flags)
    (Hrun : Mapping.allocate_pages t start size flags s = Done (Ok tt, s1)) :
  exists fs s2,
    Forall2 (fun page f => translate s1 t page = Some (f, flags) /\ translate s t page = None)
      (Mapping.pages_of start size) fs /\
    NoDup fs /\ Forall (fun f => ~ in_use s f) fs /\
    Mapping.deallocate_page t start size s1 = Done s2 /\
    (forall q, translate s2 t q = translate s t q) /\ Forall (in_use s2) fs.
Proof.
  apply Mapping.allocate_pages_backed in Hrun as [fs Hb]; [|done..].
  destruct (unmap_all t flags s (Mapping.pages_of start size) fs s1) as (s2 & Hun & Ht & Hf);
    [done|apply page_range_nodup|done|].
  exists fs, s2. destruct Hb as [_ Hp _ Hn Hnd Hfr _]. apply Forall_and in Hf as [Hf _].
  apply Forall_and in Hfr as [_ Hfr]. split; [|split_and!; try done].
  - apply Forall2_lookup. intros i. pose proof (proj1 (Forall2_lookup _ _ _) Hp i) as Hi.
    destruct (Mapping.pages_of start size !! i) as [q|] eqn:Hq, (fs !! i) as [g|];
      inversion Hi; subst; constructor.
    split; [done|]. by eapply Hn, list_elem_of_lookup_2.
  - destruct Hok as [? ? ?]. unfold Mapping.deallocate_page. rewrite (virt_new_lower start) by (unfold lower; lia).
    cbn [mbind outcome_bind]. rewrite (wrap64_small (start + size)) by (unfold is_u64; lia).
    rewrite wrap64_small by (unfold is_u64; lia). by rewrite virt_new_lower by (unfold lower; lia).
Qed.

(** The kernel heap is backed by memory.  After [init_heap], whatever a
    correct client asks of the global allocator and gives back, every byte of
    every block it holds is on a page that is mapped, present and writable,
    and pages are on distinct frames that were free. *)
Lemma kernel_heap_backed {F} `{FallbackHeapLaws F HEAP_START (HEAP_START + HEAP_SIZE)}
    t s s' calls live (a b : FixedBlock.FixedSizeBlockAllocator F)
    (Hvalid : valid_table s t) (Hfresh : fb_inv (fb_init HEAP_START HEAP_SIZE fb_empty) [])
    (Hrun : Mapping.init_heap t s FixedBlock.new = Done (Ok tt, s', a))
    (Hcalls : Forall call_ok calls) (Hclient : client calls [] a = Done (live, b)) :
  exists frame_of : Z -> Z,
    (forall block address, block ∈ live -> block.1 <= address < block_end block ->
      let page := page_containing address in
      translate s' t page = Some (frame_of page, Z.lor PRESENT WRITABLE) /\
      ~ in_use s (frame_of page)) /\
    (forall p q, p ∈ Mapping.pages_of HEAP_START HEAP_SIZE ->
      q ∈ Mapping.pages_of HEAP_START HEAP_SIZE -> frame_of p = frame_of q -> p = q).
Proof.
  unfold Mapping.init_heap in Hrun. rewrite Mapping.page_range_ok in Hrun by done.
  cbn [mbind outcome_bind] in Hrun. bind_Done Hrun. destruct r as [[[]|e] s1]; [|done].
  apply Done_inj in Hrun. injection Hrun as -> <-.
  destruct (Mapping.allocate_pages_backed t HEAP_START HEAP_SIZE (Z.lor PRESENT WRITABLE) s s')
    as [fs [_ Hp _ _ Hnd Hfr _]]; [done|apply valid_flags_kernel|done|by unfold Mapping.allocate_pages, Mapping.allocate_pages_mapper; rewrite Mapping.page_range_ok|].
  assert (Hplaced : placed HEAP_START (HEAP_START + HEAP_SIZE) live).
  { apply (heap_inv_placed (lo := HEAP_START) (hi := HEAP_START + HEAP_SIZE) b).
    eapply client_heap_inv; [exact Hcalls| |exact Hclient]. by apply fixed_inv_fresh. }
  exists (fun page => from_option fst 0 (translate s' t page)).
  assert (Hpage : forall page, page ∈ Mapping.pages_of HEAP_START HEAP_SIZE ->
    exists i f, Mapping.pages_of HEAP_START HEAP_SIZE !! i = Some page /\ fs !! i = Some f /\
      translate s' t page = Some (f, Z.lor PRESENT WRITABLE)).
  { intros page [i Hi]%list_elem_of_lookup.
    destruct (Forall2_lookup_l _ _ _ _ _ Hp Hi) as (f & Hfi & Hf). by exists i, f. }
  split.
  - intros block address Hb Ha page. destruct (Hpage page) as (i & f & _ & Hi & Hf).
    { apply Mapping.page_in_range; [done|]. destruct Hplaced as [Hrange _ _]. rewrite Forall_forall in Hrange.
      destruct (Hrange block Hb). lia. }
    rewrite Hf. split; [done|]. cbn. rewrite Forall_forall in Hfr. by eapply Hfr, list_elem_of_lookup_2.
  - intros p q (i & f & Hi & Hf & ->)%Hpage (j & g & Hj & Hg & ->)%Hpage. cbn. intros ->.
    assert (i = j) as -> by (by eapply NoDup_lookup). congruence.
Qed.
End Properties.

(** ** At concrete inputs

    Addresses as numbers, and a mapper that keeps a map from pages to frames
    hands out frames in order, and has the contents of physical memory. *)
Definition canonical (a : Z) : outcome Z :=
  if decide (0 <= a < 2 ^ 47 \/ 2 ^ 64 - 2 ^ 47 <= a < 2 ^ 64) then Done a else Panic.

Definition plain_pages : VirtPages := {|
  virt_new := canonical;
  virt_add a n := canonical (a +w n);
  virt_sub a n := canonical (a -w n);
  page_containing a := a - a mod 4096;
  page_range_inclusive p q := (fun i => p + 4096 * i) <$> seqZ 0 ((q - p) / 4096 + 1);
|}.

Lemma canonical_lower a : lower a -> canonical a = Done a.
Proof. unfold lower, canonical. intros. rewrite decide_True by lia. done. Qed.

Lemma canonical_Done a b : canonical a = Done b -> b = a.
Proof. unfold canonical. case_decide; [|done]. by intros [= <-]. Qed.

Lemma plain_pages_laws : @VirtPagesLaws plain_pages.
Proof.
  constructor; cbn.
  - apply canonical_lower.
  - intros a b Ha _. by apply canonical_Done in Ha.
  - intros a n b Ha _. by apply canonical_Done in Ha.
  - unfold lower. intros. rewrite wrap64_small by (unfold is_u64; lia). by apply canonical_lower.
  - unfold lower. intros. rewrite wrap64_small by (unfold is_u64; lia). by apply canonical_lower.
  - done.
  - intros p q r _ _ Hp Hq. rewrite list_elem_of_fmap. split.
    + intros (i & -> & Hi%elem_of_seqZ). Z.div_mod_to_equations. lia.
    + intros [Hr Hm]. exists ((r - p) / 4096). rewrite elem_of_seqZ. Z.div_mod_to_equations. lia.
  - intros p q. apply NoDup_fmap; [intros x y; lia|apply NoDup_seqZ].
Qed.

Record PageMap := mkPageMap {
  page_map : gmap (Z * Z) (Z * Z);
  frames_used : Z;
  contents : gmap Z Z;
}.

Definition page_map_to (t page f flags : Z) (s : PageMap) : outcome (result unit MapToError * PageMap) :=
  match page_map s !! (t, page) with
  | Some (g, _) => Done (Err (PageAlreadyMapped g), s)
  | None => Done (Ok tt, mkPageMap (<[(t, page) := (f, flags)]> (page_map s)) (frames_used s) (contents s))
  end.

Definition page_mapper : Mapper PageMap := {|
  allocate_frame s := Done (Some (4096 * frames_used s), mkPageMap (page_map s) (frames_used s + 1) (contents s));
  translate s t page := page_map s !! (t, page);
  map_to := page_map_to;
  map_to_with_table_flags t page f flags _ := page_map_to t page f flags;
  update_flags t page flags s :=
    match page_map s !! (t, page) with
    | Some (f, _) => (Ok tt, mkPageMap (<[(t, page) := (f, flags)]> (page_map s)) (frames_used s) (contents s))
    | None => (Err "PageNotMapped"%string, s)
    end;
  unmap t page s :=
    match page_map s !! (t, page) with
    | Some (f, _) => (Ok f, mkPageMap (delete (t, page) (page_map s)) (frames_used s) (contents s))
    | None => (Err "PageNotMapped"%string, s)
    end;
|}.

Lemma page_map_to_Ok t page f flags (s s' : PageMap) :
  page_map_to t page f flags s = Done (Ok tt, s') ->
  page_map s !! (t, page) = None /\
  s' = mkPageMap (<[(t, page) := (f, flags)]> (page_map s)) (frames_used s) (contents s).
Proof. unfold page_map_to. destruct (page_map s !! (t, page)) as [[? ?]|]; naive_solver. Qed.

Lemma remapped_insert (t page : Z) (x : Z * Z) (m : gmap (Z * Z) (Z * Z)) :
  remapped page (Some x) (fun q => m !! (t, q)) (fun q => <[(t, page) := x]> m !! (t, q)).
Proof.
  intros q. case_decide; subst; [apply lookup_insert_eq|]. apply lookup_insert_ne. congruence.
Qed.

Lemma remapped_delete (t page : Z) (m : gmap (Z * Z) (Z * Z)) :
  remapped page None (fun q => m !! (t, q)) (fun q => delete (t, page) m !! (t, q)).
Proof.
  intros q. case_decide; subst; [apply lookup_delete_eq|]. apply lookup_delete_ne. congruence.
Qed.

#[local] Program Instance page_mapper_laws : @MapperLaws PageMap page_mapper := {|
  in_use s f := f < 4096 * frames_used s;
  valid_table _ _ := True;
  valid_flags _ := True;
|}.
Next Obligation. done. Qed.
Next Obligation. done. Qed.
Next Obligation. intros s f s' Ha. cbn in Ha. simplify_eq/=. split_and!; intros; try lia. done. Qed.
Next Obligation.
  intros t page f flags s s' _ _ Hm. cbn in Hm. apply page_map_to_Ok in Hm as [Hn ->].
  split; [exact Hn|]. split; [done|]. split; [apply remapped_insert|done].
Qed.
Next Obligation.
  intros t page f flags parent s s' _ _ _ Hm. cbn in Hm. apply page_map_to_Ok in Hm as [Hn ->].
  split; [exact Hn|]. split; [done|]. split; [apply remapped_insert|done].
Qed.
Next Obligation.
  intros t page flags s s' _ _ Hu. cbn in Hu. destruct (page_map s !! (t, page)) as [[f old]|] eqn:Hf; [|done].
  simplify_eq. exists f, old. split; [exact Hf|]. split; [done|]. split; [apply remapped_insert|done].
Qed.
Next Obligation.
  intros t page f flags s _ _ Hf. cbn in *. rewrite Hf. eexists. split; [done|].
  split; [done|]. split; [apply remapped_delete|done].
Qed.

#[local] Existing Instances plain_pages plain_pages_laws page_mapper.

Definition no_pages : PageMap := mkPageMap ∅ 16 ∅.

Definition heap_mapped : PageMap :=
  (done_or (Ok tt, no_pages) (Mapping.allocate_user_heap 0x9000 no_pages)).2.

Lemma heap_mapped_run : Mapping.allocate_user_heap 0x9000 no_pages = Done (Ok tt, heap_mapped).
Proof.
  unfold heap_mapped.
  apply (done_or_snd (Ok tt, no_pages) (Mapping.allocate_user_heap 0x9000 no_pages) (Ok tt)).
  vm_compute. reflexivity.
Qed.

Lemma user_heap_aliased_witness :
  exists frame, ~ in_use no_pages frame /\
    (forall a, USER_HEAP_START <= a < USER_HEAP_START + USER_HEAP_SIZE ->
      translate heap_mapped 0x9000 (page_containing a) = Some (frame, USER_FLAGS)) /\
    (forall q, q ∉ Mapping.pages_of USER_HEAP_START USER_HEAP_SIZE ->
      translate heap_mapped 0x9000 q = translate no_pages 0x9000 q).
Proof.
  apply (user_heap_aliased 0x9000 no_pages heap_mapped).
  - exact I.
  - exact heap_mapped_run.
Defined.

(** Three pages from 0x5000000 on. *)
Definition code_mapped : PageMap :=
  (done_or (Ok tt, no_pages) (Mapping.allocate_pages 0x9000 0x5000000 9000 USER_FLAGS no_pages)).2.

Lemma pages_roundtrip_witness :
  exists fs s2,
    Forall2 (fun page f => translate code_mapped 0x9000 page = Some (f, USER_FLAGS) /\
      translate no_pages 0x9000 page = None) (Mapping.pages_of 0x5000000 9000) fs /\
    NoDup fs /\ Forall (fun f => ~ in_use no_pages f) fs /\
    Mapping.deallocate_page 0x9000 0x5000000 9000 code_mapped = Done s2 /\
    (forall q, translate s2 0x9000 q = translate no_pages 0x9000 q) /\ Forall (in_use s2) fs.
Proof.
  apply (pages_roundtrip 0x9000 0x5000000 9000 USER_FLAGS no_pages code_mapped).
  - exact I.
  - by constructor.
  - reflexivity.
  - apply (done_or_snd (Ok tt, no_pages)). vm_compute. reflexivity.
Defined.

(** The kernel heap and the client of FixedBlock.v. *)
#[local] Existing Instances bump_fallback bump_fallback_laws.

Definition heap_pages : PageMap :=
  match Mapping.init_heap 0x9000 no_pages FixedBlock.new with
  | Done (_, s, _) => s
  | _ => no_pages
  end.

Lemma kernel_heap_backed_witness :
  exists frame_of : Z -> Z,
    (forall block address,
      block ∈ [(0x444444440000, mkLayout 80 16); (0x444444441000, mkLayout 3000 4096)] ->
      block.1 <= address < block_end block ->
      let page := page_containing address in
      translate heap_pages 0x9000 page = Some (frame_of page, Z.lor PRESENT WRITABLE) /\
      ~ in_use no_pages (frame_of page)) /\
    (forall p q, p ∈ Mapping.pages_of HEAP_START HEAP_SIZE ->
      q ∈ Mapping.pages_of HEAP_START HEAP_SIZE -> frame_of p = frame_of q -> p = q).
Proof.
  eapply (kernel_heap_backed 0x9000 no_pages heap_pages fixed_calls _ kernel_heap).
  - exact I.
  - constructor; done || apply placed_nil.
  - vm_compute. reflexivity.
  - constructor; [by apply (request_ok 3)|]. constructor; [by apply (request_ok 12)|].
    constructor; [done|]. constructor; [by apply (request_ok 4)|constructor].
  - vm_compute. reflexivity.
Defined.
