(* ===== verification/Kernel.v ===== *)
(** * Kernel state and scheduler (kernel/src/proc/process.rs, kernel/src/boot/gdt.rs)

    The global objects of the kernel as one record, and the operations of the
    scheduler on it.  System calls run with interrupts masked (FMASK), handlers
    too (interrupt gates), so on the one CPU each operation is one atomic step;
    Locks.v says which of the spin locks around the fields are free whenever
    they are taken, PageFault.v where one is not. *)
From S2P Require Import Prelude Abi Sync Isf Thread.

(** What process.rs asks of memory.rs and of the kernel heap.  [MM] is their
    state; a page table is named by its physical address.  A [Vec] is allocated
    with a capacity and freed with its pointer and capacity; [read_byte] is what
    a raw pointer reads under a page table, [remaps] says what the mapping of
    pages and a store to mapped memory can do to it. *)
Class MemoryManager (MM : Type) := {
  allocate_user_stack : Z -> Z -> MM -> outcome (result (Z * Z) string * MM);
  free_user_stack : Z -> Z -> MM -> outcome (result unit string * MM);
  free_user_pagetables : Z -> MM -> outcome MM;
  kernel_page_tables : MM -> Z;
  vec_with_capacity : Z -> MM -> outcome (Z * MM);
  vec_drop : Z -> Z -> MM -> outcome MM;
  read_byte : Z -> Z -> MM -> Z;
  remaps : MM -> MM -> Prop;
}.

(** [gdt::Selectors]: the values [GlobalDescriptorTable::add_entry] returned. *)
Record Selectors := mkSelectors {
  code_selector : Z;
  data_selector : Z;
  tss_selector : Z;
  user_data_selector : Z;
  user_code_selector : Z;
}.
Existing Class Selectors.

Definition get_user_segments {gdt : Selectors} : Z * Z :=
  (user_code_selector gdt, user_data_selector gdt).
Definition get_kernel_segments {gdt : Selectors} : Z * Z :=
  (code_selector gdt, data_selector gdt).

Definition TIMER_INTERRUPT_INDEX : Z := 1.
Definition KEYBOARD_INTERRUPT_INDEX : Z := 1.

(** [gdt::set_interrupt_stack_table] on the seven entries of the TSS. *)
Definition set_interrupt_stack_table (index stack_end : Z) (ist : list Z) :
    outcome (list Z) := vset ist index stack_end.

(** The kernel's statics, the memory that holds saved contexts, the heaps
    behind the [Arc]s, and the registers the code reads back (CR3, the
    interrupt stack table of the TSS).  [printed] is what was written to the
    console, in order; Console.v says what the screen shows of it. *)
Record kernel (MM : Type) := mkKernel {
  memory : gmap Z Z;
  WAIT_QUEUE : list Thread;
  RUNNING_THREAD : option Thread;
  COUNTER : Z;
  process_heap : gmap Z Process;
  socket_heap : gmap Z (Socket.Socket Thread);
  cr3 : Z;
  interrupt_stack_table : list Z;
  printed : list Z;
  mm : MM;
}.
Arguments mkKernel {MM}.
Arguments memory {MM}.
Arguments WAIT_QUEUE {MM}.
Arguments RUNNING_THREAD {MM}.
Arguments COUNTER {MM}.
Arguments process_heap {MM}.
Arguments socket_heap {MM}.
Arguments cr3 {MM}.
Arguments interrupt_stack_table {MM}.
Arguments printed {MM}.
Arguments mm {MM}.

Section Setters.
Context {MM : Type}.
Implicit Types k : kernel MM.

Definition with_memory (x : gmap Z Z) k : kernel MM :=
  mkKernel x (WAIT_QUEUE k) (RUNNING_THREAD k) (COUNTER k) (process_heap k)
    (socket_heap k) (cr3 k) (interrupt_stack_table k) (printed k) (mm k).
Definition with_queue (x : list Thread) k : kernel MM :=
  mkKernel (memory k) x (RUNNING_THREAD k) (COUNTER k) (process_heap k)
    (socket_heap k) (cr3 k) (interrupt_stack_table k) (printed k) (mm k).
Definition with_running (x : option Thread) k : kernel MM :=
  mkKernel (memory k) (WAIT_QUEUE k) x (COUNTER k) (process_heap k)
    (socket_heap k) (cr3 k) (interrupt_stack_table k) (printed k) (mm k).
Definition with_counter (x : Z) k : kernel MM :=
  mkKernel (memory k) (WAIT_QUEUE k) (RUNNING_THREAD k) x (process_heap k)
    (socket_heap k) (cr3 k) (interrupt_stack_table k) (printed k) (mm k).
Definition with_processes (x : gmap Z Process) k : kernel MM :=
  mkKernel (memory k) (WAIT_QUEUE k) (RUNNING_THREAD k) (COUNTER k) x
    (socket_heap k) (cr3 k) (interrupt_stack_table k) (printed k) (mm k).
Definition with_sockets (x : gmap Z (Socket.Socket Thread)) k : kernel MM :=
  mkKernel (memory k) (WAIT_QUEUE k) (RUNNING_THREAD k) (COUNTER k) (process_heap k)
    x (cr3 k) (interrupt_stack_table k) (printed k) (mm k).
Definition with_cr3 (x : Z) k : kernel MM :=
  mkKernel (memory k) (WAIT_QUEUE k) (RUNNING_THREAD k) (COUNTER k) (process_heap k)
    (socket_heap k) x (interrupt_stack_table k) (printed k) (mm k).
Definition with_ist (x : list Z) k : kernel MM :=
  mkKernel (memory k) (WAIT_QUEUE k) (RUNNING_THREAD k) (COUNTER k) (process_heap k)
    (socket_heap k) (cr3 k) x (printed k) (mm k).
Definition with_mm (x : MM) k : kernel MM :=
  mkKernel (memory k) (WAIT_QUEUE k) (RUNNING_THREAD k) (COUNTER k) (process_heap k)
    (socket_heap k) (cr3 k) (interrupt_stack_table k) (printed k) x.
Definition with_printed (x : list Z) k : kernel MM :=
  mkKernel (memory k) (WAIT_QUEUE k) (RUNNING_THREAD k) (COUNTER k) (process_heap k)
    (socket_heap k) (cr3 k) (interrupt_stack_table k) x (mm k).
End Setters.

(** How a handler leaves the CPU: it returns to the context it was entered
    with, [launch_thread] loads another context (and does not return), or the
    CPU halts until the next timer interrupt. *)
Inductive control :=
| Return
| Launch (context_addr : Z)
| Halt.

#[export] Instance control_eq_dec : EqDecision control.
Proof. solve_decision. Defined.

(** Every thread the kernel owns: waiting, running, or parked in a socket. *)
Definition parked (h : gmap Z (Socket.Socket Thread)) : list Thread :=
  map_to_list h ≫= fun '(_, s) => Socket.held s.

Definition all_threads {MM} (k : kernel MM) : list Thread :=
  WAIT_QUEUE k ++ option_list (RUNNING_THREAD k) ++ parked (socket_heap k).

(** What [f] sees of them. *)
Definition owned {MM X} (f : Thread -> X) (k : kernel MM) : list X := f <$> all_threads k.

Definition tids {MM} (k : kernel MM) : list Z := owned thread_id k.

(** The threads that can run, in the order in which they will. *)
Definition ready {MM} (k : kernel MM) : list Thread :=
  option_list (RUNNING_THREAD k) ++ WAIT_QUEUE k.

(** [print!] of a text that is already formatted, and [println!]. *)
Definition print {MM} (s : list Z) (k : kernel MM) : kernel MM :=
  with_printed (printed k ++ s) k.
Definition println {MM} (s : list Z) (k : kernel MM) : kernel MM := print (s ++ [0x0A]) k.

Lemma print_nil {MM} (k : kernel MM) : print [] k = k.
Proof. unfold print. rewrite app_nil_r. by destruct k. Qed.

Lemma print_print {MM} s1 s2 (k : kernel MM) : print s2 (print s1 k) = print (s1 ++ s2) k.
Proof. unfold print. cbn. by rewrite app_assoc. Qed.

Section Scheduler.
Context {MM : Type}.
Implicit Types (k : kernel MM) (t : Thread).

(** [unique_id] *)
Definition unique_id k : Z * kernel MM :=
  let counter := COUNTER k +w 1 in (counter, with_counter counter k).

(** [schedule_thread] *)
Definition schedule_thread t k : kernel MM := with_queue (t :: WAIT_QUEUE k) k.

(** [take_current_thread] *)
Definition take_current_thread k : option Thread * kernel MM :=
  (RUNNING_THREAD k, with_running None k).

(** [set_current_thread] *)
Definition set_current_thread t k : kernel MM :=
  let old_current := RUNNING_THREAD k in
  let k := with_running (Some t) k in
  match old_current with
  | Some t => schedule_thread t k
  | None => k
  end.

(** [update_current_thread] on the two locked values; [active] is CR3. *)
Definition update_current_thread (context_addr active : Z) (waiting_queue : list Thread)
    (current_thread : option Thread) : list Thread * option Thread :=
  match current_thread with
  | Some thread =>
      (waiting_queue ++ [set_context_and_table context_addr active thread], None)
  | None => (waiting_queue, None)
  end.

(** [schedule] *)
Definition schedule (context_addr : Z) k : outcome (Z * kernel MM) :=
  let '(waiting_queue, _) :=
    update_current_thread context_addr (cr3 k) (WAIT_QUEUE k) (RUNNING_THREAD k) in
  match waiting_queue with
  | thread :: waiting_queue =>
      let k := with_queue waiting_queue (with_running (Some thread) k) in
      ist ← set_interrupt_stack_table TIMER_INTERRUPT_INDEX (kernel_stack_end thread)
              (interrupt_stack_table k);
      let k := with_ist ist k in
      let k := if decide (page_table_phys thread ≠ 0)
               then with_cr3 (page_table_phys thread) k else k in
      Done (context thread, k)
  | [] => Done (0, with_queue [] (with_running None k))
  end.
End Scheduler.

(** ** Lemmas *)

Lemma parked_insert h s x :
  parked (<[s := x]> h) ≡ₚ Socket.held x ++ parked (delete s h).
Proof.
  unfold parked. rewrite <-insert_delete_eq.
  rewrite map_to_list_insert by apply lookup_delete_eq. done.
Qed.

Lemma parked_split h s :
  parked h ≡ₚ Socket.held (h !!! s) ++ parked (delete s h).
Proof.
  rewrite lookup_total_alt. destruct (h !! s) as [x|] eqn:Hs; simpl.
  - rewrite <-(insert_id h s x) at 1 by done. apply parked_insert.
  - by rewrite delete_id.
Qed.

(** Replacing the socket at [s] replaces the threads it owned. *)
Lemma parked_replace h s x :
  parked (<[s := x]> h) ++ Socket.held (h !!! s) ≡ₚ parked h ++ Socket.held x.
Proof. rewrite parked_insert, (parked_split h s). solve_Permutation. Qed.

Section SchedulerFacts.
Context {MM : Type}.
Implicit Types (k : kernel MM) (t : Thread).

Lemma ready_all k : all_threads k ≡ₚ ready k ++ parked (socket_heap k).
Proof. unfold all_threads, ready. solve_Permutation. Qed.

Lemma schedule_thread_all t k : all_threads (schedule_thread t k) ≡ₚ t :: all_threads k.
Proof. done. Qed.

Lemma set_current_thread_all t k :
  all_threads (set_current_thread t k) ≡ₚ t :: all_threads k.
Proof.
  unfold set_current_thread, all_threads.
  destruct (RUNNING_THREAD k); simpl; solve_Permutation.
Qed.

Lemma take_current_thread_all k t :
  RUNNING_THREAD k = Some t ->
  all_threads k ≡ₚ t :: all_threads (with_running None k).
Proof. intros Hr. unfold all_threads. rewrite Hr. simpl. solve_Permutation. Qed.

(** What [schedule] does to the list of ready threads. *)
Lemma schedule_ready context_addr k a k' :
  schedule context_addr k = Done (a, k') ->
  ready k' = WAIT_QUEUE k ++
    option_list (set_context_and_table context_addr (cr3 k) <$> RUNNING_THREAD k) /\
  RUNNING_THREAD k' = head (ready k') /\
  a = from_option context 0 (RUNNING_THREAD k').
Proof.
  unfold schedule, update_current_thread, ready.
  destruct (RUNNING_THREAD k) as [r|]; simpl.
  - destruct (WAIT_QUEUE k ++ _) as [|t q] eqn:Hq; [by apply app_eq_nil in Hq as [_ ?]|].
    destruct (set_interrupt_stack_table _ _ _); simpl; intros; simplify_eq.
    case_decide; simpl; auto.
  - rewrite app_nil_r. destruct (WAIT_QUEUE k) as [|t q]; [naive_solver|].
    destruct (set_interrupt_stack_table _ _ _); simpl; intros; simplify_eq.
    by case_decide.
Qed.

(** The table of stacks but for the entry of the timer, which the scheduler
    sets. *)
Definition other_stacks k : list Z := <[1%nat := 0]> (interrupt_stack_table k).

Lemma other_stacks_length k k' :
  other_stacks k' = other_stacks k ->
  length (interrupt_stack_table k') = length (interrupt_stack_table k).
Proof. intros Ho%(f_equal length). unfold other_stacks in Ho. by rewrite !length_insert in Ho. Qed.

(** [schedule] touches the ready threads, the TSS and CR3 only. *)
Lemma schedule_frame context_addr k a k' :
  schedule context_addr k = Done (a, k') ->
  memory k' = memory k /\ COUNTER k' = COUNTER k /\ process_heap k' = process_heap k /\
  socket_heap k' = socket_heap k /\ mm k' = mm k /\
  other_stacks k' = other_stacks k.
Proof.
  unfold schedule. destruct (update_current_thread _ _ _ _) as [[|t q] ?].
  - intros. by simplify_eq.
  - unfold set_interrupt_stack_table, other_stacks.
    destruct (vset _ _ _) as [ist| |] eqn:Hv; simpl; [|done..].
    apply vset_Done in Hv as [_ ->].
    intros. simplify_eq. case_decide; simpl; by rewrite list_insert_insert_eq.
Qed.

Lemma schedule_printed context_addr k a k' :
  schedule context_addr k = Done (a, k') -> printed k' = printed k.
Proof.
  unfold schedule. destruct (update_current_thread _ _ _ _) as [[|t q] ?].
  - intros. by simplify_eq.
  - intros Hs. bind_Done Hs. simplify_eq. by case_decide.
Qed.

Lemma schedule_total context_addr k :
  length (interrupt_stack_table k) = 7%nat ->
  exists a k', schedule context_addr k = Done (a, k').
Proof.
  intros Hl. unfold schedule. destruct (update_current_thread _ _ _ _) as [[|t q] ?]; [eauto|].
  unfold set_interrupt_stack_table, TIMER_INTERRUPT_INDEX.
  cbn -[vset]. rewrite vset_in by lia. simpl. eauto.
Qed.

(** [schedule] leaves the TSS with the kernel stack of the thread it starts. *)
Definition on_stack k : Prop :=
  forall t, RUNNING_THREAD k = Some t ->
  interrupt_stack_table k !! 1%nat = Some (kernel_stack_end t).

Lemma schedule_on_stack context_addr k a k' :
  schedule context_addr k = Done (a, k') -> on_stack k'.
Proof.
  unfold schedule, on_stack. destruct (update_current_thread _ _ _ _) as [[|t q] ?].
  - intros. by simplify_eq.
  - intros Hs. bind_Done Hs. simplify_eq.
    apply vset_Done in Hr as [Hl ->]. intros u Hu.
    assert (u = t) as -> by (case_decide; cbn in Hu; congruence).
    cbn in Hl. unfold TIMER_INTERRUPT_INDEX in Hl.
    case_decide; apply list_lookup_insert_eq; change (Z.to_nat TIMER_INTERRUPT_INDEX) with 1%nat; cbn; lia.
Qed.
End SchedulerFacts.

(** ** Steps that move threads

    A call may move threads and give the running one a new context; [f] does
    not see the difference when it [keeps] the running thread. *)
Section Moves.
Context {MM X : Type} (f : Thread -> X).
Implicit Types (k : kernel MM) (t : Thread).

Definition keeps (ctx : Z) t : Prop :=
  f (set_context ctx t) = f t /\ forall p, f (set_context_and_table ctx p t) = f t.

Definition keeps_running (ctx : Z) k : Prop :=
  forall t, RUNNING_THREAD k = Some t -> keeps ctx t.

(** The threads are the same for [f], and so is what no thread owns. *)
Record unmoved k k' : Prop := {
  um_owned : owned f k' ≡ₚ owned f k;
  um_counter : COUNTER k' = COUNTER k;
  um_ist : other_stacks k' = other_stacks k;
  um_mm : mm k' = mm k;
}.

Lemma unmoved_trans k1 k2 k3 : unmoved k1 k2 -> unmoved k2 k3 -> unmoved k1 k3.
Proof. intros [? ? ? ?] [? ? ? ?]. constructor; by etransitivity. Qed.

Lemma schedule_unmoved ctx k a k' :
  keeps_running ctx k -> schedule ctx k = Done (a, k') -> unmoved k k'.
Proof.
  intros Hk Hs. pose proof (schedule_ready _ _ _ _ Hs) as (Hr & _).
  pose proof (schedule_frame _ _ _ _ Hs) as (_ & Hc & _ & Hh & Hm & Hi).
  constructor; [|done..]. unfold owned. rewrite !ready_all, Hr, Hh. unfold ready.
  rewrite !fmap_app. destruct (RUNNING_THREAD k) as [t|] eqn:Hrun; simpl; [|solve_Permutation].
  rewrite (proj2 (Hk t Hrun)). solve_Permutation.
Qed.
End Moves.

(** What a thread keeps for life. *)
Definition identity (t : Thread) : Z * Vec * Z := (thread_id t, kernel_stack t, kernel_stack_end t).

Lemma keeps_identity {MM} ctx (k : kernel MM) : keeps_running identity ctx k.
Proof. by split. Qed.

Lemma keeps_thread_id {MM} ctx (k : kernel MM) : keeps_running thread_id ctx k.
Proof. by split. Qed.

#[export] Hint Resolve keeps_identity keeps_thread_id : zephyr.

(** ** Sequences of timer interrupts *)

(** [ctxs] are the contexts the successive interrupts save. *)
Fixpoint tick_all {MM} (ctxs : list Z) (k : kernel MM) : outcome (kernel MM) :=
  match ctxs with
  | [] => Done k
  | context_addr :: ctxs =>
      '(_, k) ← schedule context_addr k;
      tick_all ctxs k
  end.

Section Ticks.
Context {MM : Type}.
Implicit Types (k : kernel MM).

Lemma tick_all_snoc ctxs c k :
  tick_all (ctxs ++ [c]) k =
    (k ← tick_all ctxs k; '(_, k) ← schedule c k; Done k).
Proof.
  revert k. induction ctxs as [|c' ctxs IH]; intros k; simpl.
  - destruct (schedule c k) as [[a k']| |]; done.
  - destruct (schedule c' k) as [[a k']| |]; simpl; auto.
Qed.

(** With a thread running, [schedule] rotates the ready threads by one and
    records the context the running thread was interrupted with. *)
Lemma schedule_rotate c k t q :
  ready k = t :: q -> is_Some (RUNNING_THREAD k) ->
  length (interrupt_stack_table k) = 7%nat ->
  exists k', schedule c k = Done (from_option context 0 (head (ready k')), k') /\
    ready k' = q ++ [set_context_and_table c (cr3 k) t] /\
    RUNNING_THREAD k' = head (ready k') /\
    length (interrupt_stack_table k') = 7%nat.
Proof.
  intros Hr [r Hrun] Hl. unfold ready in Hr. rewrite Hrun in Hr. simpl in Hr.
  injection Hr as -> <-.
  destruct (schedule_total c k Hl) as (a & k' & Hs). exists k'.
  pose proof (schedule_ready _ _ _ _ Hs) as (H1 & H2 & ->).
  pose proof (schedule_frame _ _ _ _ Hs) as (_ & _ & _ & _ & _ & H3%other_stacks_length).
  rewrite Hrun in H1. rewrite H2 in Hs. rewrite H1 in *. auto with congruence.
Qed.

(** C22: round robin.  While only timer interrupts happen and a thread is
    running, scheduling never fails; after [n] interrupts the ready threads
    are rotated by [n], so that every waiting thread runs after as many
    interrupts as its place in the queue says and everybody has run after a
    full round; and each thread interrupted on the way will resume at the
    very context it was interrupted with. *)
Theorem round_robin (ctxs : list Z) k
    (Hrun : is_Some (RUNNING_THREAD k))
    (Hist : length (interrupt_stack_table k) = 7%nat)
    (Hround : (length ctxs <= length (ready k))%nat) :
  let n := length ctxs in
  exists k', tick_all ctxs k = Done k' /\
    thread_id <$> ready k' = drop n (thread_id <$> ready k) ++ take n (thread_id <$> ready k) /\
    context <$> ready k' = drop n (context <$> ready k) ++ ctxs /\
    RUNNING_THREAD k' = head (ready k').
Proof.
  enough (exists k', tick_all ctxs k = Done k' /\
    thread_id <$> ready k' = drop (length ctxs) (thread_id <$> ready k) ++
      take (length ctxs) (thread_id <$> ready k) /\
    context <$> ready k' = drop (length ctxs) (context <$> ready k) ++ ctxs /\
    RUNNING_THREAD k' = head (ready k') /\
    length (interrupt_stack_table k') = 7%nat) as (k' & ? & ? & ? & ? & _) by eauto.
  induction ctxs as [|c ctxs IH] using rev_ind.
  - exists k. simpl. rewrite !drop_0, !take_0, !app_nil_r.
    repeat split; [|done]. destruct Hrun as [r Hr]. unfold ready. by rewrite Hr.
  - rewrite length_app in *. simpl in *.
    destruct IH as (k1 & Ht & Hids & Hctx & Hr & Hl); [lia|].
    destruct (ready k1) as [|t q] eqn:Hk1.
    { apply (f_equal length) in Hids. rewrite length_app, length_drop, length_take, !length_fmap in Hids.
      simpl in Hids. destruct Hrun as [r Hr']. unfold ready in Hround, Hids. rewrite Hr' in *. simpl in *. lia. }
    destruct (schedule_rotate c k1 t q) as (k2 & Hs & Hk2 & Hr2 & Hl2);
      [done|by rewrite Hr|done|].
    exists k2. rewrite tick_all_snoc, Ht. cbn. rewrite Hs. cbn.
    split; [done|]. rewrite Hk2, !fmap_app. simpl in *.
    split; [|split; [|by rewrite <-Hk2]].
    + symmetry. apply rotate_step; [rewrite length_fmap; lia|done].
    + rewrite app_assoc. f_equal. symmetry. apply (drop_step _ _ _ (context t)); [rewrite length_fmap; lia|done].
Qed.
End Ticks.

(** Three threads, two interrupts. *)
Lemma round_robin_witness :
  let t i := mkThread i 0 (mkVec 0 0) 0 (i * 0x1000) 0 0 User in
  let k := mkKernel ∅ [t 2; t 3] (Some (t 1)) 3 ∅ ∅ 0 (replicate 7 0) [] tt in
  exists k', tick_all [0x1010; 0x2020] k = Done k' /\
    thread_id <$> ready k' = [3; 1; 2] /\
    context <$> ready k' = [0x3000; 0x1010; 0x2020] /\
    RUNNING_THREAD k' = head (ready k').
Proof.
  intros t k. apply (round_robin [0x1010; 0x2020] k).
  - by eexists.
  - reflexivity.
  - vm_compute. lia.
Defined.
