(* ===== verification/Syscall.v ===== *)
(** * System calls (kernel/src/syscall.rs, fork and exit of kernel/src/proc/process.rs)

    One definition per handler, on the state of Kernel.v.  [context_ptr] is the
    address of the context the entry code saved; a handler that lets its caller
    continue returns [Return], one that switches threads [Launch]. *)
From S2P Require Import Prelude Text Abi Sync Isf Thread Kernel.

Section Syscalls.
Context {MM : Type} `{MemoryManager MM} {gdt : Selectors}.
Implicit Types (k : kernel MM) (t : Thread).

(** [process.read().sockets.get(..)] and the lock of a socket. *)
Definition thread_get_sockets t (id : Z) k : option Z :=
  Handles.get_sockets (process_heap k !!! process t) id.

Definition socket_at (s : Z) k : Socket.Socket Thread := socket_heap k !!! s.

(** The loop over [\[thread2, thread1\]] that ends [sys_receive] and
    [sys_send]: the caller is made current again, any other thread is queued;
    [returning] tells whether the caller was among them. *)
Definition place_thread (current_tid : Z) (returning_k : bool * kernel MM)
    (maybe_thread : option Thread) : bool * kernel MM :=
  let '(returning, k) := returning_k in
  match maybe_thread with
  | Some t =>
      if decide (thread_id t = current_tid)
      then (true, set_current_thread t k)
      else (returning, schedule_thread t k)
  | None => (returning, k)
  end.

Definition place_threads (current_tid : Z) (ts : list (option Thread)) k :
    bool * kernel MM :=
  fold_left (place_thread current_tid) ts (false, k).

(** [if !returning { launch_thread(schedule(context_ptr)) }] *)
Definition switch_unless (returning : bool) (context_ptr : Z) k :
    outcome (control * kernel MM) :=
  if returning then Done (Return, k)
  else '(new_context_addr, k) ← schedule context_ptr k;
       Done (Launch new_context_addr, k).

(** [sys_receive] *)
Definition sys_receive (context_ptr handle : Z) k : outcome (control * kernel MM) :=
  let '(maybe_thread, k) := take_current_thread k in
  match maybe_thread with
  | Some thread =>
      let current_thread_id := thread_id thread in
      let thread := set_context context_ptr thread in
      match thread_get_sockets thread handle k with
      | Some s =>
          let '(socket', (thread1, thread2), memory') :=
            Socket.receive (socket_at s k) thread (memory k) in
          let k := with_memory memory' (with_sockets (<[s := socket']> (socket_heap k)) k) in
          let '(returning, k) := place_threads current_thread_id [thread2; thread1] k in
          switch_unless returning context_ptr k
      | None =>
          let k := with_memory
            (thread_return_error thread SYSCALL_ERROR_INVALID_HANDLE (memory k)) k in
          Done (Return, set_current_thread thread k)
      end
  | None => Done (Return, k)
  end.

(** [sys_send] *)
Definition sys_send (context_ptr syscall_id data1 data2 data3 : Z) k :
    outcome (control * kernel MM) :=
  let handle := Z.shiftr syscall_id 32 in
  let '(maybe_thread, k) := take_current_thread k in
  match maybe_thread with
  | Some thread =>
      let current_tid := thread_id thread in
      let thread := set_context context_ptr thread in
      match thread_get_sockets thread handle k with
      | Some s =>
          let message := Packet data1 data2 data3 in
          r ← (if decide (Z.land syscall_id 0xFF = 4)
               then Done (Socket.send_message (socket_at s k) (Some thread) message (memory k))
               else if decide (Z.land syscall_id 0xFF = 5)
               then Done (Socket.send_receive (socket_at s k) thread message (memory k))
               else Panic);
          let '(socket', (thread1, thread2), memory') := r in
          let k := with_memory memory' (with_sockets (<[s := socket']> (socket_heap k)) k) in
          let '(returning, k) := place_threads current_tid [thread2; thread1] k in
          switch_unless returning context_ptr k
      | None =>
          let k := with_memory
            (thread_return_error thread SYSCALL_ERROR_INVALID_HANDLE (memory k)) k in
          Done (Return, set_current_thread thread k)
      end
  | None => Done (Return, k)
  end.

(** [sys_yield] *)
Definition sys_yield (context_ptr : Z) k : outcome (control * kernel MM) :=
  '(next_stack, k) ← schedule context_ptr k;
  Done (Launch next_stack, k).

(** ** fork *)

(** [fork_current_thread]: the new thread is a copy of the current one with
    its own stacks and a copy of the saved context. *)
Definition fork_current_thread (current_context : Z) k : outcome (control * kernel MM) :=
  match RUNNING_THREAD k with
  | Some current_thread =>
      let '(n_start, k) := unique_id k in
      '(stack, mm') ← allocate_user_stack (cr3 k) n_start (mm k);
      let k := with_mm mm' k in
      match stack with
      | Ok (_, user_stack_end) =>
          '(stack_ptr, mm') ← vec_with_capacity KERNEL_STACK_SIZE (mm k);
          let k := with_mm mm' k in
          let kernel_stack_end := stack_ptr +w KERNEL_STACK_SIZE in
          let '(thread_id, k) := unique_id k in
          let new_thread :=
            {| thread_id := thread_id; process := process current_thread;
               page_table_phys := page_table_phys current_thread;
               kernel_stack := mkVec stack_ptr KERNEL_STACK_SIZE;
               kernel_stack_end := kernel_stack_end;
               user_stack_end := user_stack_end;
               context := kernel_stack_end -w Isf.INTERRUPT_CONTEXT_SIZE;
               thread_type := thread_type current_thread |} in
          let new_context := context new_thread in
          let m := Isf.store new_context (Isf.load (memory k) current_context) (memory k) in
          let m := Isf.write new_context Isf.StackPointer user_stack_end m in
          let m := Isf.write new_context Isf.RAX 0 m in
          let m := Isf.write new_context Isf.RDI 0 m in
          let m := Isf.write current_context Isf.RAX 0 m in
          let m := Isf.write current_context Isf.RDI thread_id m in
          let k := with_memory m k in
          Done (Return, with_queue (WAIT_QUEUE k ++ [new_thread]) k)
      | Err _ =>
          let k := println (text "err") k in
          Done (Return, with_memory
            (Isf.write current_context Isf.RAX SYSCALL_ERROR_MEMALLOC (memory k)) k)
      end
  | None =>
      let k := println (text "err 2 ") k in
      Done (Return, with_memory (Isf.write current_context Isf.RAX 2 (memory k)) k)
  end.

(** ** exit *)

(** [memory::kernel_mode] *)
Definition kernel_mode k : kernel MM := with_cr3 (kernel_page_tables (mm k)) k.

(** [Drop for Process], when the last [Arc] goes.  The sockets of its handles
    stay in the heap: they are statics or held by a kernel thread as well. *)
Definition drop_process (pid : Z) k : outcome (kernel MM) :=
  let table := page_table_physaddr (process_heap k !!! pid) in
  let k := if decide (table = cr3 k) then kernel_mode k else k in
  mm' ← free_user_pagetables table (mm k);
  let k := println (text "[!] - Process with page table at " ++ hexadecimal table ++
                    text " deallocated its user page tables") (with_mm mm' k) in
  Done (with_processes (delete pid (process_heap k)) k).

(** [Drop for Thread] and the drop of its fields; [others] are the threads
    that are still to be dropped and keep their process alive. *)
Definition drop_thread (others : list Thread) t k : outcome (kernel MM) :=
  '(_, mm') ← free_user_stack (cr3 k) (user_stack_end t) (mm k);
  let k := println (text "[!] - Thread " ++ decimal (thread_id t) ++
                    text " deallocated user stack at " ++ hexadecimal (user_stack_end t))
             (with_mm mm' k) in
  k ← (if decide (Exists (fun u => process u = process t) (others ++ all_threads k))
       then Done k else drop_process (process t) k);
  mm' ← vec_drop (vec_ptr (kernel_stack t)) (vec_capacity (kernel_stack t)) (mm k);
  Done (with_mm mm' k).

Fixpoint drop_threads (ts : list Thread) k : outcome (kernel MM) :=
  match ts with
  | [] => Done k
  | t :: ts => k ← drop_thread ts t k; drop_threads ts k
  end.

(** [exit_current_thread]; it ends in a [hlt] loop. *)
Definition exit_current_thread (_current_context : Z) k : outcome (control * kernel MM) :=
  match RUNNING_THREAD k with
  | Some _thread =>
      let k := with_running None k in
      let same := fun t => thread_id t = thread_id _thread in
      let gone := filter same (WAIT_QUEUE k) in
      let k := with_queue (filter (fun t => thread_id t ≠ thread_id _thread) (WAIT_QUEUE k)) k in
      k ← drop_threads (gone ++ [_thread]) k;
      Done (Halt, k)
  | None => Done (Halt, k)
  end.

(** ** Dispatch *)

(** [slice::from_raw_parts] under the active page table. *)
Definition from_raw_parts (ptr size : Z) k : list Z :=
  (fun i => read_byte (cr3 k) (ptr +w i) (mm k)) <$> seqZ 0 size.

(** [sys_write] *)
Definition sys_write (ptr size : Z) k : outcome (control * kernel MM) :=
  if decide (size = 0) then Done (Return, k)
  else
    let slice := from_raw_parts ptr size k in
    if is_utf8 slice then Done (Return, print slice k) else Done (Return, k).

(** [dispatch_syscall] *)
Definition dispatch_syscall (context_ptr syscall_id arg1 arg2 arg3 : Z) k :
    outcome (control * kernel MM) :=
  let '(code, data) :=
    if decide (Isf.read (memory k) context_ptr Isf.InstructionPointer < USER_CODE_START)
    then get_kernel_segments else get_user_segments in
  let m := Isf.write context_ptr Isf.CodeSegment code (memory k) in
  let m := Isf.write context_ptr Isf.StackSegment data m in
  let k := with_memory m k in
  match Z.land syscall_id 0xFF with
  | 0 => fork_current_thread context_ptr k
  | 1 => exit_current_thread context_ptr k
  | 2 => sys_write arg1 arg2 k
  | 3 => sys_receive context_ptr arg1 k
  | 4 => sys_send context_ptr syscall_id arg1 arg2 arg3 k
  | 5 => sys_send context_ptr syscall_id arg1 arg2 arg3 k
  | 9 => sys_yield context_ptr k
  | _ =>
      Done (Return, println (text "Unknown syscall " ++ hexadecimal context_ptr ++ text " " ++
        decimal syscall_id ++ text " " ++ decimal arg1 ++ text " " ++ decimal arg2) k)
  end.

(** [handle_syscall]: the registers are saved as a context at [context_ptr]
    and [dispatch_syscall] gets RAX, RDI, RSI and RDX. *)
Definition handle_syscall (context_ptr : Z) (regs : Isf.ISF) k :
    outcome (control * kernel MM) :=
  dispatch_syscall context_ptr (Isf.rax regs) (Isf.rdi regs) (Isf.rsi regs) (Isf.rdx regs)
    (with_memory (Isf.store context_ptr regs (memory k)) k).
End Syscalls.

(** ** Lemmas *)

Section SyscallFacts.
Context {MM : Type} `{MemoryManager MM} {gdt : Selectors}.
Implicit Types (k : kernel MM) (t : Thread).

(** Everything but the ready threads. *)
Definition same_rest k k' : Prop :=
  memory k' = memory k /\ COUNTER k' = COUNTER k /\ process_heap k' = process_heap k /\
  socket_heap k' = socket_heap k /\ cr3 k' = cr3 k /\
  interrupt_stack_table k' = interrupt_stack_table k /\ mm k' = mm k.

Lemma set_current_thread_rest t k : same_rest k (set_current_thread t k).
Proof. unfold set_current_thread. by destruct (RUNNING_THREAD k). Qed.

Lemma same_rest_trans k1 k2 k3 : same_rest k1 k2 -> same_rest k2 k3 -> same_rest k1 k3.
Proof. unfold same_rest. intuition congruence. Qed.

Lemma place_thread_spec tid (maybe : option Thread) b k b' k' :
  place_thread tid (b, k) maybe = (b', k') ->
  same_rest k k' /\ all_threads k' ≡ₚ option_list maybe ++ all_threads k /\
  (b' = false -> b = false /\ RUNNING_THREAD k' = RUNNING_THREAD k).
Proof.
  unfold place_thread. intros Hp. destruct maybe as [t|]; [|by simplify_eq].
  case_decide; injection Hp as <- <-; (split; [|split; [simpl|done]]).
  - apply set_current_thread_rest.
  - apply set_current_thread_all.
  - done.
  - apply schedule_thread_all.
Qed.

Lemma place_threads_spec tid (t1 t2 : option Thread) k b k' :
  place_threads tid [t2; t1] k = (b, k') ->
  same_rest k k' /\ all_threads k' ≡ₚ option_list t1 ++ option_list t2 ++ all_threads k /\
  (b = false -> RUNNING_THREAD k' = RUNNING_THREAD k).
Proof.
  unfold place_threads. cbn [fold_left]. intros Hp.
  destruct (place_thread tid (false, k) t2) as [b2 k2] eqn:H2.
  apply place_thread_spec in H2 as (H2 & Ha & Hr2). apply place_thread_spec in Hp as (Hp & Hb & Hr).
  split; [by eapply same_rest_trans|]. split; [by rewrite Hb, Ha|].
  intros ->. destruct (Hr eq_refl) as [-> Hk]. rewrite Hk. by apply Hr2.
Qed.

Section Moving.
Context {X : Type} (f : Thread -> X).

Lemma switch_unless_unmoved b context_ptr k c k' :
  (b = false -> keeps_running f context_ptr k) ->
  switch_unless b context_ptr k = Done (c, k') -> unmoved f k k'.
Proof.
  unfold switch_unless. destruct b; [intros; by simplify_eq|].
  intros Hk Hs. bind_Done Hs. destruct r as [a k1]. simplify_eq/=.
  eapply schedule_unmoved; [by apply Hk|done].
Qed.

(** The step the two message-passing calls share: a call on socket [s] with
    the current thread, then the loop and the switch. *)
Lemma rendezvous_unmoved s call context_ptr k thread socket' (t1 t2 : option Thread)
    memory' b k1 c k' :
  Socket.exec (socket_at s k) call (memory k) = (socket', (t1, t2), memory') ->
  Socket.caller call = Some (set_context context_ptr thread) ->
  RUNNING_THREAD k = Some thread -> keeps f context_ptr thread ->
  place_threads (thread_id thread) [t2; t1]
    (with_memory memory' (with_sockets (<[s := socket']> (socket_heap k)) (with_running None k)))
    = (b, k1) ->
  switch_unless b context_ptr k1 = Done (c, k') -> unmoved f k k'.
Proof.
  intros He Hcall Hrun Hkeep Hp Hsw.
  apply place_threads_spec in Hp as ((_ & Hc & _ & _ & _ & Hi & Hm) & Hall & Hidle).
  apply switch_unless_unmoved in Hsw as [Ht Hc' Hi' Hm'];
    [|intros -> t Ht; rewrite Hidle in Ht by done; done].
  constructor; [|by rewrite Hc', Hc|by rewrite Hi'; unfold other_stacks; rewrite Hi|by rewrite Hm', Hm].
  rewrite Ht. unfold owned.
  rewrite Hall, (take_current_thread_all k thread) by done. rewrite fmap_cons, <-(proj1 Hkeep).
  rewrite <-fmap_cons. apply fmap_Permutation.
  unfold all_threads. simpl.
  pose proof (Socket.exec_conserves (socket_at s k) call (memory k)) as Hcons.
  rewrite He, Hcall in Hcons. simpl in Hcons.
  pose proof (parked_replace (socket_heap k) s socket') as Hpk.
  apply (Permutation_app_inv_l (Socket.held (socket_at s k))).
  unfold socket_at in *.
  set (held_s := Socket.held (socket_heap k !!! s)) in *.
  transitivity ((option_list t1 ++ option_list t2) ++ WAIT_QUEUE k ++
    (parked (<[s:=socket']> (socket_heap k)) ++ held_s)); [solve_Permutation|].
  rewrite Hpk.
  transitivity ((Socket.held socket' ++ option_list t1 ++ option_list t2) ++
    WAIT_QUEUE k ++ parked (socket_heap k)); [solve_Permutation|].
  rewrite Hcons. solve_Permutation.
Qed.

(** Handing the current thread back after an error leaves the threads alone. *)
Lemma restore_unmoved m thread context_ptr k :
  RUNNING_THREAD k = Some thread -> keeps f context_ptr thread ->
  unmoved f k (set_current_thread (set_context context_ptr thread)
    (with_memory m (with_running None k))).
Proof.
  intros Hr Hkeep. constructor; [|done..]. unfold owned. rewrite set_current_thread_all.
  rewrite (take_current_thread_all k thread) by done. by rewrite !fmap_cons, (proj1 Hkeep).
Qed.

Lemma idle_unmoved k : RUNNING_THREAD k = None -> unmoved f k (with_running None k).
Proof. intros Hr. constructor; [|done..]. unfold owned, all_threads. simpl. by rewrite Hr. Qed.

Lemma sys_receive_unmoved context_ptr handle k c k' :
  keeps_running f context_ptr k ->
  sys_receive context_ptr handle k = Done (c, k') -> unmoved f k k'.
Proof.
  unfold sys_receive, take_current_thread. intros Hk.
  destruct (RUNNING_THREAD k) as [thread|] eqn:Hr; [|intros; simplify_eq; by apply idle_unmoved].
  destruct (thread_get_sockets _ _ _) as [s|].
  - destruct (Socket.receive _ _ _) as [[socket' [t1 t2]] memory'] eqn:He.
    destruct (place_threads _ _ _) as [b k1] eqn:Hp. intros Hsw.
    exact (rendezvous_unmoved s (Socket.Receive (set_context context_ptr thread))
      context_ptr k thread _ _ _ _ _ _ _ _ He eq_refl Hr (Hk _ Hr) Hp Hsw).
  - intros. simplify_eq/=. apply restore_unmoved; auto.
Qed.

Lemma sys_send_unmoved context_ptr id d1 d2 d3 k c k' :
  keeps_running f context_ptr k ->
  sys_send context_ptr id d1 d2 d3 k = Done (c, k') -> unmoved f k k'.
Proof.
  unfold sys_send, take_current_thread. intros Hk.
  destruct (RUNNING_THREAD k) as [thread|] eqn:Hr; [|intros; simplify_eq; by apply idle_unmoved].
  destruct (thread_get_sockets _ _ _) as [s|].
  - intros Hb. bind_Done Hb. destruct r as [[socket' [t1 t2]] memory'].
    destruct (place_threads _ _ _) as [b k1] eqn:Hp.
    repeat case_decide; try done; injection Hr0 as He.
    + exact (rendezvous_unmoved s
        (Socket.Send (Some (set_context context_ptr thread)) (Packet d1 d2 d3))
        context_ptr k thread _ _ _ _ _ _ _ _ He eq_refl Hr (Hk _ Hr) Hp Hb).
    + exact (rendezvous_unmoved s
        (Socket.SendReceive (set_context context_ptr thread) (Packet d1 d2 d3))
        context_ptr k thread _ _ _ _ _ _ _ _ He eq_refl Hr (Hk _ Hr) Hp Hb).
  - intros. simplify_eq/=. apply restore_unmoved; auto.
Qed.

Lemma sys_yield_unmoved context_ptr k c k' :
  keeps_running f context_ptr k -> sys_yield context_ptr k = Done (c, k') -> unmoved f k k'.
Proof.
  unfold sys_yield. intros Hk Hb. bind_Done Hb. destruct r as [a k1]. simplify_eq.
  by eapply schedule_unmoved.
Qed.

(** Printing leaves everything else alone. *)
Lemma print_unmoved s k c k' : Done (Return, print s k) = Done (c, k') -> unmoved f k k'.
Proof. intros Hd. by injection Hd as <- <-. Qed.

Lemma sys_write_unmoved ptr size k c k' :
  sys_write ptr size k = Done (c, k') -> unmoved f k k'.
Proof. unfold sys_write. repeat case_match; intros; by simplify_eq. Qed.

Lemma push_back_owned t k :
  owned f (with_queue (WAIT_QUEUE k ++ [t]) k) ≡ₚ f t :: owned f k.
Proof.
  unfold owned. rewrite <-fmap_cons. apply fmap_Permutation.
  unfold all_threads. simpl. solve_Permutation.
Qed.

(** A fork either fails and leaves the threads alone or adds one thread, whose
    identifier is the counter it leaves and whose kernel stack was allocated
    last. *)
Lemma fork_cases context_ptr k c k' :
  fork_current_thread context_ptr k = Done (c, k') ->
  let n := COUNTER k +w 1 in
  length (interrupt_stack_table k') = length (interrupt_stack_table k) /\
  RUNNING_THREAD k' = RUNNING_THREAD k /\ interrupt_stack_table k' = interrupt_stack_table k /\
  ((owned f k' ≡ₚ owned f k /\
    (COUNTER k' = COUNTER k /\ mm k' = mm k \/
     COUNTER k' = n /\ exists e, allocate_user_stack (cr3 k) n (mm k) = Done (Err e, mm k'))) \/
   exists t stack mm1 p, owned f k' ≡ₚ f t :: owned f k /\
     thread_id t = COUNTER k' /\ COUNTER k' = n +w 1 /\
     kernel_stack t = mkVec p KERNEL_STACK_SIZE /\
     kernel_stack_end t = p +w KERNEL_STACK_SIZE /\
     context t = kernel_stack_end t -w Isf.INTERRUPT_CONTEXT_SIZE /\
     allocate_user_stack (cr3 k) n (mm k) = Done (Ok stack, mm1) /\
     vec_with_capacity KERNEL_STACK_SIZE mm1 = Done (p, mm k')).
Proof.
  unfold fork_current_thread, unique_id.
  destruct (RUNNING_THREAD k) as [cur|] eqn:Hrun.
  2: { intros Hd. apply Done_inj in Hd. injection Hd as <- <-. cbn zeta.
       split; [done|]. split; [done|]. split; [done|]. left. split; [|by left].
       unfold owned, all_threads. simpl. by rewrite Hrun. }
  intros Hb. bind_Done Hb. destruct r as [[[u1 u2]|e] mm1].
  - bind_Done Hb. destruct r as [p mm2]. simplify_eq/=.
    split; [done|]. split; [done|]. split; [done|]. right.
    match goal with |- context [with_queue (_ ++ [?t]) ?k1] => exists t, (u1, u2), mm1, p;
      split; [etransitivity; [exact (push_back_owned t k1)|]|done] end.
    unfold owned, all_threads. simpl. by rewrite Hrun.
  - simplify_eq/=. split; [done|]. split; [done|]. split; [done|]. left.
    split; [unfold owned, all_threads; simpl; by rewrite Hrun|]. right. eauto.
Qed.
End Moving.

(** A thread is known by its identifier. *)
Lemma same_thread k t u :
  NoDup (tids k) -> t ∈ all_threads k -> u ∈ all_threads k -> thread_id t = thread_id u -> t = u.
Proof.
  intros Hn [i Hi]%list_elem_of_lookup [j Hj]%list_elem_of_lookup Heq.
  assert (Hij : i = j).
  { unfold tids, owned in Hn. eapply (NoDup_lookup _ _ _ (thread_id t)); [exact Hn|..].
    - by rewrite list_lookup_fmap, Hi.
    - rewrite list_lookup_fmap, Hj. cbn. by rewrite Heq. }
  subst. congruence.
Qed.

Lemma running_owned k t : RUNNING_THREAD k = Some t -> t ∈ all_threads k.
Proof. intros Hr. unfold all_threads. rewrite Hr. set_solver. Qed.

(** The running thread stays the same, and so does the TSS. *)
Lemma still_on_stack k k' cur :
  unmoved identity k k' -> NoDup (tids k) -> on_stack k ->
  interrupt_stack_table k' = interrupt_stack_table k -> RUNNING_THREAD k = Some cur ->
  (forall t, RUNNING_THREAD k' = Some t -> thread_id t = thread_id cur) -> on_stack k'.
Proof.
  intros Hm Hn Hs Hi Hcur Hid t Ht. rewrite Hi.
  assert (Hin : identity t ∈ owned identity k).
  { rewrite <-(um_owned _ _ _ Hm). apply list_elem_of_fmap_2. by apply running_owned. }
  apply list_elem_of_fmap_1 in Hin as (u & Heq & Hu). unfold identity in Heq. injection Heq as H1 H2 ->.
  rewrite (same_thread k u cur Hn Hu (running_owned _ _ Hcur)); [by apply Hs|].
  rewrite <-H1. by apply Hid.
Qed.

Lemma place_threads_running tid (t1 t2 : option Thread) k b k' :
  place_threads tid [t2; t1] k = (b, k') -> b = true ->
  exists t, RUNNING_THREAD k' = Some t /\ thread_id t = tid.
Proof.
  unfold place_threads, place_thread, set_current_thread. cbn [fold_left].
  intros Hp ->. repeat case_match; simplify_eq/=; eauto.
Qed.

(** What the message-passing calls share: their effect on the threads and on
    the TSS. *)
Lemma rendezvous_on_stack s call context_ptr k thread socket' (t1 t2 : option Thread)
    memory' b k1 c k' :
  Socket.exec (socket_at s k) call (memory k) = (socket', (t1, t2), memory') ->
  Socket.caller call = Some (set_context context_ptr thread) ->
  RUNNING_THREAD k = Some thread -> NoDup (tids k) -> on_stack k ->
  place_threads (thread_id thread) [t2; t1]
    (with_memory memory' (with_sockets (<[s := socket']> (socket_heap k)) (with_running None k)))
    = (b, k1) ->
  switch_unless b context_ptr k1 = Done (c, k') -> on_stack k'.
Proof.
  intros He Hcall Hrun Hn Hs Hp Hsw.
  assert (Hm : unmoved identity k k') by (eapply (rendezvous_unmoved identity s call); eauto; by split).
  destruct b; [|unfold switch_unless in Hsw; bind_Done Hsw; destruct r; simplify_eq;
    by eapply schedule_on_stack].
  unfold switch_unless in Hsw. apply Done_inj in Hsw. injection Hsw as <- <-.
  apply (still_on_stack k k1 thread); [done..| |done|].
  - apply place_threads_spec in Hp as ((_ & _ & _ & _ & _ & Hi & _) & _). exact Hi.
  - intros t Ht. apply place_threads_running in Hp as (t' & Ht' & Hid); [|done]. congruence.
Qed.

Lemma restore_on_stack m thread context_ptr k :
  RUNNING_THREAD k = Some thread -> on_stack k ->
  on_stack (set_current_thread (set_context context_ptr thread)
    (with_memory m (with_running None k))).
Proof. intros Hr Hs t Ht. injection Ht as <-. exact (Hs _ Hr). Qed.

Lemma sys_receive_on_stack context_ptr handle k c k' :
  NoDup (tids k) -> on_stack k -> sys_receive context_ptr handle k = Done (c, k') -> on_stack k'.
Proof.
  unfold sys_receive, take_current_thread. intros Hn Hs.
  destruct (RUNNING_THREAD k) as [thread|] eqn:Hr; [|intros; by simplify_eq].
  destruct (thread_get_sockets _ _ _) as [s|].
  - destruct (Socket.receive _ _ _) as [[socket' [t1 t2]] memory'] eqn:He.
    destruct (place_threads _ _ _) as [b k1] eqn:Hp. intros Hsw.
    exact (rendezvous_on_stack s (Socket.Receive (set_context context_ptr thread))
      context_ptr k thread _ _ _ _ _ _ _ _ He eq_refl Hr Hn Hs Hp Hsw).
  - intros. simplify_eq/=. by apply restore_on_stack.
Qed.

Lemma sys_send_on_stack context_ptr id d1 d2 d3 k c k' :
  NoDup (tids k) -> on_stack k -> sys_send context_ptr id d1 d2 d3 k = Done (c, k') -> on_stack k'.
Proof.
  unfold sys_send, take_current_thread. intros Hn Hs.
  destruct (RUNNING_THREAD k) as [thread|] eqn:Hr; [|intros; by simplify_eq].
  destruct (thread_get_sockets _ _ _) as [s|].
  - intros Hb. bind_Done Hb. destruct r as [[socket' [t1 t2]] memory'].
    destruct (place_threads _ _ _) as [b k1] eqn:Hp.
    repeat case_decide; try done; injection Hr0 as He.
    + exact (rendezvous_on_stack s
        (Socket.Send (Some (set_context context_ptr thread)) (Packet d1 d2 d3))
        context_ptr k thread _ _ _ _ _ _ _ _ He eq_refl Hr Hn Hs Hp Hb).
    + exact (rendezvous_on_stack s
        (Socket.SendReceive (set_context context_ptr thread) (Packet d1 d2 d3))
        context_ptr k thread _ _ _ _ _ _ _ _ He eq_refl Hr Hn Hs Hp Hb).
  - intros. simplify_eq/=. by apply restore_on_stack.
Qed.

(** Dropping threads and processes leaves the scheduler alone. *)
Definition same_threads k k' : Prop :=
  WAIT_QUEUE k' = WAIT_QUEUE k /\ RUNNING_THREAD k' = RUNNING_THREAD k /\
  socket_heap k' = socket_heap k /\ COUNTER k' = COUNTER k /\
  memory k' = memory k /\ interrupt_stack_table k' = interrupt_stack_table k.

Lemma drop_process_same pid k k' : drop_process pid k = Done k' -> same_threads k k'.
Proof.
  unfold drop_process. intros Hb. bind_Done Hb. apply Done_inj in Hb as <-.
  destruct (decide (page_table_physaddr (process_heap k !!! pid) = cr3 k)); repeat split.
Qed.

Lemma drop_thread_same others t k k' :
  drop_thread others t k = Done k' -> same_threads k k'.
Proof.
  unfold drop_thread. intros Hb. bind_Done Hb. destruct r as [u mm1].
  bind_Done Hb. bind_Done Hb. apply Done_inj in Hb as <-.
  destruct (decide _); [apply Done_inj in Hr0 as <-; by repeat split|].
  apply drop_process_same in Hr0. exact Hr0.
Qed.

Lemma drop_threads_same ts k k' :
  drop_threads ts k = Done k' -> same_threads k k'.
Proof.
  revert k. induction ts as [|t ts IH]; intros k Hd; simpl in Hd; [by simplify_eq|].
  bind_Done Hd. apply IH in Hd. apply drop_thread_same in Hr.
  unfold same_threads in *. intuition congruence.
Qed.

(** No thread but the running one is dropped by an exit. *)
Lemma exit_drops context_ptr k c k' cur :
  NoDup (tids k) -> RUNNING_THREAD k = Some cur ->
  exit_current_thread context_ptr k = Done (c, k') ->
  c = Halt /\ exists k1, all_threads k ≡ₚ cur :: all_threads k1 /\ RUNNING_THREAD k1 = None /\
    mm k1 = mm k /\ drop_threads [cur] k1 = Done k'.
Proof.
  unfold exit_current_thread. intros Hn Hrun. rewrite Hrun. intros Hb. bind_Done Hb.
  injection Hb as <- <-. split; [done|]. eexists. split; [|split; [|split; [|]]].
  4: { rewrite (list_filter_none (fun t => thread_id t = thread_id cur)) in Hr; [exact Hr|].
       cbn [WAIT_QUEUE with_running]. unfold tids, owned, all_threads in Hn.
       rewrite Hrun, !fmap_app in Hn. apply NoDup_app in Hn as (_ & Hn & _).
       apply Forall_forall. intros u Hu Heq. apply (Hn (thread_id u));
         [by apply list_elem_of_fmap_2|]. rewrite Heq. by left. }
  - unfold all_threads. rewrite Hrun. cbn. rewrite list_filter_all.
    + solve_Permutation.
    + unfold tids, owned, all_threads in Hn.
      rewrite Hrun, !fmap_app in Hn. apply NoDup_app in Hn as (_ & Hn & _).
      apply Forall_forall. intros u Hu Heq. apply (Hn (thread_id u));
         [by apply list_elem_of_fmap_2|]. rewrite Heq. by left.
  - done.
  - done.
Qed.

Lemma exit_unmoved {X} (f : Thread -> X) context_ptr k c k' :
  exit_current_thread context_ptr k = Done (c, k') ->
  owned f k' ⊆+ owned f k /\ COUNTER k' = COUNTER k /\ c = Halt /\ RUNNING_THREAD k' = None /\
  interrupt_stack_table k' = interrupt_stack_table k.
Proof.
  unfold exit_current_thread. destruct (RUNNING_THREAD k) as [t|] eqn:Hr; [|naive_solver].
  intros Hb. bind_Done Hb. simplify_eq.
  apply drop_threads_same in Hr0 as (Hq & Hrun & Hs & -> & _ & ->). simpl in *.
  split; [|done]. unfold owned, all_threads. rewrite Hq, Hrun, Hs. simpl.
  apply fmap_submseteq, sublist_submseteq, sublist_app; [apply sublist_filter|].
  by apply sublist_inserts_l.
Qed.
End SyscallFacts.
