(* ===== verification/Spawn.v ===== *)
(** * Creating threads (kernel/src/proc/process.rs)

    [spawn_kernel_thread] and [initialise_thread]: a new thread object, the
    context its first run starts from, and its place in the queue.  What
    goes to the serial port and [monitor] are not modelled. *)
From S2P Require Import Prelude Text Abi Sync Isf Thread Kernel Syscall.

Section Spawn.
Context {MM : Type} `{MemoryManager MM} {gdt : Selectors}.
Implicit Types (k : kernel MM).

(** [Arc::new(RwLock::new(Process { .. }))]: a key not in use. *)
Definition new_process (page_table : Z) (handles : list Z) k : Z * kernel MM :=
  let pid := fresh (dom (process_heap k)) in
  (pid, with_processes (<[pid := mkProcess page_table (Some <$> handles)]> (process_heap k)) k).

(** [spawn_kernel_thread]; [function] is the address of the function. *)
Definition spawn_kernel_thread (function : Z) (handles : list Z) k :
    outcome (Z * kernel MM) :=
  '(stack_ptr, mm') ← vec_with_capacity (KERNEL_STACK_SIZE + USER_STACK_SIZE) (mm k);
  let k := with_mm mm' k in
  let kernel_stack_end := stack_ptr +w KERNEL_STACK_SIZE in
  let user_stack_end := kernel_stack_end +w USER_STACK_SIZE in
  let '(uid, k) := unique_id k in
  let '(pid, k) := new_process 0 handles k in
  let new_thread :=
    {| thread_id := uid; process := pid;
       kernel_stack := mkVec stack_ptr (KERNEL_STACK_SIZE + USER_STACK_SIZE);
       kernel_stack_end := kernel_stack_end;
       context := kernel_stack_end -w Isf.INTERRUPT_CONTEXT_SIZE;
       user_stack_end := user_stack_end; page_table_phys := 0; thread_type := Kernel |} in
  let ctx := context new_thread in
  let '(code, data) := get_kernel_segments in
  let m := Isf.write ctx Isf.InstructionPointer function (memory k) in
  let m := Isf.write ctx Isf.Flags 0x200 m in
  let m := Isf.write ctx Isf.CodeSegment code m in
  let m := Isf.write ctx Isf.StackSegment data m in
  let m := Isf.write ctx Isf.StackPointer user_stack_end m in
  Done (uid, schedule_thread new_thread (with_memory m k)).

(** [initialise_thread]; [user_pt_phys] names the page table both by its
    physical address and through the pointer argument. *)
Definition initialise_thread (entry_point user_pt_phys : Z) (params : list Z) k :
    outcome (result Z string * kernel MM) :=
  let '(uid, k) := unique_id k in
  '(stack_ptr, mm') ← vec_with_capacity KERNEL_STACK_SIZE (mm k);
  let k := with_mm mm' k in
  let kernel_stack_end := stack_ptr +w KERNEL_STACK_SIZE in
  let '(n_start, k) := unique_id k in
  '(stack, mm') ← allocate_user_stack user_pt_phys n_start (mm k);
  let k := with_mm mm' k in
  match stack with
  | Err e =>
      mm' ← vec_drop stack_ptr KERNEL_STACK_SIZE (mm k);
      Done (Err e, with_mm mm' k)
  | Ok (user_stack_start, user_stack_end) =>
      let k := println (text "Thread " ++ decimal uid ++ text " allocated user stack from " ++
        hexadecimal user_stack_start ++ text " to " ++ hexadecimal user_stack_end) k in
      let '(pid, k) := new_process user_pt_phys params k in
      let new_thread :=
        {| thread_id := uid; process := pid; page_table_phys := user_pt_phys;
           kernel_stack := mkVec stack_ptr KERNEL_STACK_SIZE; kernel_stack_end := kernel_stack_end;
           user_stack_end := user_stack_end;
           context := kernel_stack_end -w Isf.INTERRUPT_CONTEXT_SIZE;
           thread_type := User |} in
      let ctx := context new_thread in
      let m := Isf.write ctx Isf.InstructionPointer entry_point (memory k) in
      let m := Isf.write ctx Isf.Flags 0x0200 m in
      let '(code, data) := get_user_segments in
      let m := Isf.write ctx Isf.CodeSegment code m in
      let m := Isf.write ctx Isf.StackSegment data m in
      let m := Isf.write ctx Isf.StackPointer user_stack_end m in
      let m := Isf.write ctx Isf.RAX USER_HEAP_START m in
      let m := Isf.write ctx Isf.RCX USER_HEAP_SIZE m in
      Done (Ok uid, schedule_thread new_thread (with_memory m k))
  end.

(** ** Lemmas *)

(** A creation that succeeds puts one new thread in front of the queue, on a
    kernel stack allocated for it. *)
Lemma spawn_kernel_thread_cases {X} (f : Thread -> X) function handles k uid k' :
  spawn_kernel_thread function handles k = Done (uid, k') ->
  exists t p, owned f k' ≡ₚ f t :: owned f k /\
    thread_id t = uid /\ uid = COUNTER k +w 1 /\ COUNTER k' = uid /\
    kernel_stack t = mkVec p (KERNEL_STACK_SIZE + USER_STACK_SIZE) /\
    kernel_stack_end t = p +w KERNEL_STACK_SIZE /\
    context t = kernel_stack_end t -w Isf.INTERRUPT_CONTEXT_SIZE /\
    vec_with_capacity (KERNEL_STACK_SIZE + USER_STACK_SIZE) (mm k) = Done (p, mm k') /\
    RUNNING_THREAD k' = RUNNING_THREAD k /\ interrupt_stack_table k' = interrupt_stack_table k.
Proof.
  unfold spawn_kernel_thread, new_process. intros Hb.
  bind_Done Hb. destruct r as [p mm1]. cbn in Hb. simplify_eq.
  match goal with |- context [schedule_thread ?t _] => exists t, p end. split; [reflexivity|done].
Qed.

Lemma spawn_kernel_thread_starts function handles k uid k' :
  spawn_kernel_thread function handles k = Done (uid, k') ->
  socket_heap k' = socket_heap k /\ RUNNING_THREAD k' = RUNNING_THREAD k /\
  exists t, WAIT_QUEUE k' = t :: WAIT_QUEUE k /\
    process_heap k' !! process t = Some (mkProcess 0 (Some <$> handles)) /\
    Isf.instruction_pointer (Isf.load (memory k') (context t)) = function.
Proof.
  unfold spawn_kernel_thread, new_process, get_kernel_segments. intros Hb.
  bind_Done Hb. destruct r as [p mm1]. cbn in Hb. simplify_eq/=. split; [done|]. split; [done|].
  eexists. split; [reflexivity|]. cbn [process context]. split; [apply lookup_insert_eq|].
  unfold Isf.load. cbn. by isf_simpl.
Qed.

(** The first run of a kernel thread. *)
Lemma spawn_kernel_thread_context function handles k uid k' :
  spawn_kernel_thread function handles k = Done (uid, k') ->
  exists t, WAIT_QUEUE k' = t :: WAIT_QUEUE k /\ thread_id t = COUNTER k +w 1 /\
    thread_type t = Kernel /\
    let regs := Isf.load (memory k') (context t) in
    Isf.instruction_pointer regs = function /\ Isf.flags regs = 0x200 /\
    (Isf.code_segment regs, Isf.stack_segment regs) = get_kernel_segments.
Proof.
  unfold spawn_kernel_thread, new_process, get_kernel_segments. intros Hb.
  bind_Done Hb. destruct r as [p mm1]. cbn in Hb. simplify_eq/=.
  eexists. split; [reflexivity|]. split; [done|]. split; [done|].
  unfold Isf.load. cbn. split_and!; by isf_simpl.
Qed.

Lemma spawn_kernel_thread_ist function handles k uid k' :
  spawn_kernel_thread function handles k = Done (uid, k') ->
  interrupt_stack_table k' = interrupt_stack_table k.
Proof.
  unfold spawn_kernel_thread, new_process, get_kernel_segments. intros Hb.
  bind_Done Hb. destruct r as [p mm1]. cbn in Hb. by simplify_eq/=.
Qed.

Lemma initialise_thread_cases {X} (f : Thread -> X) entry pt params k r k' :
  initialise_thread entry pt params k = Done (r, k') ->
  COUNTER k' = COUNTER k +w 1 +w 1 /\
  RUNNING_THREAD k' = RUNNING_THREAD k /\ interrupt_stack_table k' = interrupt_stack_table k /\
  exists p mm1 stack mm2, vec_with_capacity KERNEL_STACK_SIZE (mm k) = Done (p, mm1) /\
    allocate_user_stack pt (COUNTER k +w 1 +w 1) mm1 = Done (stack, mm2) /\
    match r with
    | Ok uid => exists t, uid = COUNTER k +w 1 /\ owned f k' ≡ₚ f t :: owned f k /\
        thread_id t = uid /\ kernel_stack t = mkVec p KERNEL_STACK_SIZE /\
        kernel_stack_end t = p +w KERNEL_STACK_SIZE /\
        context t = kernel_stack_end t -w Isf.INTERRUPT_CONTEXT_SIZE /\ mm k' = mm2
    | Err _ => owned f k' = owned f k /\ vec_drop p KERNEL_STACK_SIZE mm2 = Done (mm k')
    end.
Proof.
  unfold initialise_thread, new_process. cbn [unique_id]. intros Hb.
  bind_Done Hb. destruct r0 as [p mm1]. cbn in Hb.
  bind_Done Hb. destruct r0 as [[[u1 u2]|e] mm2].
  - cbn in Hb. simplify_eq. split; [done|]. split; [done|]. split; [done|].
    exists p, mm1, (Ok (u1, u2)), mm2. split; [done|]. split; [done|].
    match goal with |- context [schedule_thread ?t _] => exists t end.
    split; [done|]. split; [reflexivity|done].
  - bind_Done Hb. simplify_eq. split; [done|]. split; [done|]. split; [done|].
    exists p, mm1, (Err e), mm2. done.
Qed.
(** Apart from the new thread and its process nothing changes. *)
Lemma initialise_thread_keeps entry table params k r k' :
  initialise_thread entry table params k = Done (r, k') ->
  RUNNING_THREAD k' = RUNNING_THREAD k /\ socket_heap k' = socket_heap k /\ cr3 k' = cr3 k /\
  (forall p, p ∈ dom (process_heap k) -> process_heap k' !! p = process_heap k !! p) /\
  forall e, r = Err e -> WAIT_QUEUE k' = WAIT_QUEUE k.
Proof.
  unfold initialise_thread, new_process. cbn [unique_id]. intros Hb.
  bind_Done Hb. destruct r0 as [p mm1]. cbn in Hb.
  bind_Done Hb. destruct r0 as [[[u1 u2]|e] mm2].
  - cbn in Hb. simplify_eq. do 3 (split; [done|]). split; [|done].
    intros q Hq. apply lookup_insert_ne. intros <-. revert Hq. apply is_fresh.
  - bind_Done Hb. by simplify_eq.
Qed.

(** The first run of a user thread.  When [initialise_thread] succeeds
    there is a new thread at the front of the queue, with a process of its
    own that holds the given handles in order, and the context it will be
    launched from, which ends where its kernel stack ends, has the entry
    point, interrupts enabled, the user segments, the top of its user stack,
    and the bounds of the heap in RAX and RCX. *)
Lemma spawned_context entry table params k uid k'
    (Hspawn : initialise_thread entry table params k = Done (Ok uid, k')) :
  exists t, WAIT_QUEUE k' = t :: WAIT_QUEUE k /\ thread_id t = uid /\
    page_table_phys t = table /\ thread_type t = User /\
    process_heap k !! process t = None /\
    process_heap k' !!! process t = mkProcess table (Some <$> params) /\
    context t = kernel_stack_end t -w Isf.INTERRUPT_CONTEXT_SIZE /\
    let regs := Isf.load (memory k') (context t) in
    Isf.instruction_pointer regs = entry /\ Isf.flags regs = 0x200 /\
    (Isf.code_segment regs, Isf.stack_segment regs) = get_user_segments /\
    Isf.stack_pointer regs = user_stack_end t /\
    Isf.rax regs = USER_HEAP_START /\ Isf.rcx regs = USER_HEAP_SIZE.
Proof.
  unfold initialise_thread in Hspawn. cbn [unique_id] in Hspawn.
  bind_Done Hspawn. destruct r as [ks mm1]. cbn in Hspawn.
  bind_Done Hspawn. destruct r as [[[u1 stack_end]|e] mm2]; [|bind_Done Hspawn; by simplify_eq].
  unfold get_user_segments. simplify_eq/=. eexists. split; [reflexivity|].
  cbn [thread_id page_table_phys thread_type process context kernel_stack_end user_stack_end].
  split; [done|]. split; [done|]. split; [done|].
  split; [apply not_elem_of_dom, is_fresh|].
  split; [apply lookup_total_insert_eq|]. split; [done|].
  unfold Isf.load. cbn. split_and!; by isf_simpl.
Qed.
End Spawn.
