(* ===== verification/Irq.v ===== *)
(** * Interrupt handlers (kernel/src/boot/interrupts.rs)

    The two hardware interrupts.  A handler returns the address of the context
    to resume (0: the interrupted one).  The interrupt controller and the
    keyboard port are hardware; the decoder of scancodes is the crate
    pc-keyboard, a parameter here. *)
From S2P Require Import Prelude Text Vga Keyboard Abi Sync Isf Thread Kernel Syscall.

(** [Keyboard::add_byte] followed by [Keyboard::process_keyevent] on the
    decoder's state: the state after a scancode and the key it completes. *)
Class KeyboardDecoder (K : Type) := {
  decode_scancode : K -> Z -> K * option DecodedKey;
}.

(** The keys of the kernel's static sockets in the socket heap. *)
Definition KEYBOARD_SOCKET : Z := 0.
Definition ID_SOCKET : Z := 1.
Definition FIN_SOCKET : Z := 2.
Definition PROC_FIN_SOCKET : Z := 3.

Section Interrupts.
Context {MM K : Type} `{KeyboardDecoder K}.
Implicit Types (k : kernel MM).

(** [timer_handler] *)
Definition timer_handler (context_addr : Z) k : outcome (Z * kernel MM) :=
  schedule context_addr k.

(** [socket.write().send_message(None, message)], the call the kernel makes
    on its own behalf. *)
Definition kernel_send (s : Z) (message : Message) k :
    (option Thread * option Thread) * kernel MM :=
  let '(socket', ts, memory') :=
    Socket.send_message (socket_at s k) None message (memory k) in
  (ts, with_memory memory' (with_sockets (<[s := socket']> (socket_heap k)) k)).

Definition schedule_thread_opt (maybe : option Thread) k : kernel MM :=
  match maybe with
  | Some t => schedule_thread t k
  | None => k
  end.

(** [keyboard_handler_inner]; [keyboard] is the decoder behind its lock and
    [scancode] the byte read from port 0x60. *)
Definition keyboard_handler_inner (context_addr : Z) (keyboard : K) (scancode : Z) k :
    outcome (Z * K * kernel MM) :=
  let '(keyboard, key) := decode_scancode keyboard scancode in
  let '(returning, k) :=
    match key with
    | Some (Unicode character) =>
        let k := print (encode_utf8 character) k in
        let '((thread1, thread2), k) :=
          kernel_send KEYBOARD_SOCKET (Packet MESSAGE_TYPE_KEY character 0) k in
        let k := schedule_thread_opt thread2 k in
        match thread1 with
        | Some t => (false, schedule_thread t k)
        | None => (true, k)
        end
    | Some (RawKey key) => (true, print (debug_name key) k)
    | None => (true, k)
    end in
  if (returning : bool) then Done (context_addr, keyboard, k)
  else '(next_context, k) ← schedule context_addr k;
       Done (next_context, keyboard, k).

(** ** Lemmas *)

(** A message the kernel sends moves threads out of the socket. *)
Lemma kernel_send_all s message k t1 t2 k' :
  kernel_send s message k = ((t1, t2), k') ->
  (option_list t1 ++ option_list t2) ++ all_threads k' ≡ₚ all_threads k /\
  COUNTER k' = COUNTER k /\ interrupt_stack_table k' = interrupt_stack_table k /\
  mm k' = mm k /\ RUNNING_THREAD k' = RUNNING_THREAD k.
Proof.
  unfold kernel_send.
  pose proof (Socket.exec_conserves (socket_at s k) (Socket.Send None message) (memory k)) as Hc.
  simpl in Hc.
  destruct (Socket.send_message _ _ _ _) as [[socket' [u1 u2]] memory'].
  intros. simplify_eq/=. split; [|done].
  unfold all_threads. simpl. rewrite app_nil_r in Hc.
  pose proof (parked_replace (socket_heap k) s socket') as Hpk.
  unfold socket_at in *. set (held_s := Socket.held (socket_heap k !!! s)) in *.
  apply (Permutation_app_inv_r held_s).
  transitivity ((option_list t1 ++ option_list t2) ++ WAIT_QUEUE k ++
    option_list (RUNNING_THREAD k) ++
    (parked (<[s:=socket']> (socket_heap k)) ++ held_s)); [solve_Permutation|].
  rewrite Hpk. rewrite <-Hc. solve_Permutation.
Qed.

(** The keyboard interrupt up to the switch: threads may be woken, and a switch
    follows when one was. *)
Lemma keyboard_wakes context_addr keyboard scancode k a keyboard' k' :
  keyboard_handler_inner context_addr keyboard scancode k = Done (a, keyboard', k') ->
  exists k1, (forall X (f : Thread -> X), unmoved f k k1) /\
    RUNNING_THREAD k1 = RUNNING_THREAD k /\
    interrupt_stack_table k1 = interrupt_stack_table k /\
    (k' = k1 \/ schedule context_addr k1 = Done (a, k')).
Proof.
  unfold keyboard_handler_inner.
  destruct (decode_scancode keyboard scancode) as [kb [[ch|key]|]].
  2,3: intros Hb; exists k'; apply Done_inj in Hb; injection Hb as <- <- <-;
    split; [intros; by constructor|]; split; [done|]; split; [done|by left].
  destruct (kernel_send _ _ _) as [[t1 t2] k1] eqn:Hk.
  apply kernel_send_all in Hk as (Ht & Hc & Hi & Hm & Hr).
  intros Hb. exists (schedule_thread_opt t1 (schedule_thread_opt t2 k1)).
  assert (Hall : all_threads (schedule_thread_opt t1 (schedule_thread_opt t2 k1)) ≡ₚ all_threads k).
  { rewrite <-(Ht : _ ≡ₚ all_threads k). by destruct t1, t2. }
  split; [|split; [by destruct t1, t2; exact Hr|split; [by destruct t1, t2; exact Hi|]]].
  - intros X f. constructor; [by unfold owned; rewrite Hall|destruct t1, t2..];
      first [exact Hc|exact Hm|exact (f_equal (<[1%nat := 0]>) Hi)].
  - destruct t1 as [t1|]; cbn [schedule_thread_opt] in *.
    + right. bind_Done Hb. destruct r. by simplify_eq.
    + left. by simplify_eq.
Qed.

Lemma keyboard_unmoved {X} (f : Thread -> X) context_addr keyboard scancode k a keyboard' k' :
  keeps_running f context_addr k ->
  keyboard_handler_inner context_addr keyboard scancode k = Done (a, keyboard', k') ->
  unmoved f k k'.
Proof.
  intros Hf Hd. apply keyboard_wakes in Hd as (k1 & Hm & Hr & _ & [->|Hs]); [done|].
  eapply unmoved_trans; [apply Hm|]. eapply schedule_unmoved; [|done].
  intros t Ht. apply Hf. by rewrite <-Hr.
Qed.

Lemma keyboard_on_stack context_addr keyboard scancode k a keyboard' k' :
  on_stack k -> keyboard_handler_inner context_addr keyboard scancode k = Done (a, keyboard', k') ->
  on_stack k'.
Proof.
  intros Hf Hd. apply keyboard_wakes in Hd as (k1 & _ & Hr & Hi & [->|Hs]).
  - unfold on_stack. by rewrite Hr, Hi.
  - by eapply schedule_on_stack.
Qed.
End Interrupts.

(** ** Properties *)

Section Properties.
Context {MM K : Type} `{KeyboardDecoder K}.
Implicit Types (k : kernel MM).

(** C34: a key press.  When the decoder completes a character, the character
    is printed; then a thread that waits to receive on the keyboard socket gets
    it as a message, runs next, and the interrupted thread goes to the end of
    the queue with its context; if nobody waits and the socket is idle, the
    message stays in the socket and the interrupted thread resumes; in every
    other state of the socket the message is dropped and no thread is
    affected. *)
Theorem key_press k context_addr (keyboard keyboard' : K) scancode character cur
    (Hkey : decode_scancode keyboard scancode = (keyboard', Some (Unicode character)))
    (Hrun : RUNNING_THREAD k = Some cur) (Hist : length (interrupt_stack_table k) = 7%nat) :
  let message := Packet MESSAGE_TYPE_KEY character 0 in
  exists a k', keyboard_handler_inner context_addr keyboard scancode k = Done (a, keyboard', k') /\
    printed k' = printed k ++ encode_utf8 character /\
    match socket_at KEYBOARD_SOCKET k with
    | Socket.Receiving r None =>
        a = context r /\ RUNNING_THREAD k' = Some r /\
        WAIT_QUEUE k' = WAIT_QUEUE k ++ [set_context_and_table context_addr (cr3 k) cur] /\
        socket_at KEYBOARD_SOCKET k' = Socket.Empty /\
        reply_code r (memory k') = 0 /\ reply_payload r (memory k') = message
    | Socket.Empty =>
        a = context_addr /\ ready k' = ready k /\ memory k' = memory k /\
        socket_at KEYBOARD_SOCKET k' = Socket.Sending None message
    | _ =>
        a = context_addr /\ ready k' = ready k /\ memory k' = memory k /\
        socket_at KEYBOARD_SOCKET k' = socket_at KEYBOARD_SOCKET k
    end.
Proof.
  intros message. unfold keyboard_handler_inner. rewrite Hkey. unfold kernel_send. fold message.
  change (socket_at KEYBOARD_SOCKET (print _ k)) with (socket_at KEYBOARD_SOCKET k).
  destruct (socket_at KEYBOARD_SOCKET k) as [|t m|r [tid|]|t m] eqn:Hs;
    cbn -[schedule reply_code reply_payload encode_utf8 app].
  4: { match goal with |- context [schedule context_addr ?x] =>
         destruct (schedule_total context_addr x Hist) as (a & k' & Hsch) end.
       rewrite Hsch. cbn -[reply_code reply_payload encode_utf8 app]. exists a, k'.
       pose proof (schedule_ready _ _ _ _ Hsch) as (Hready & Hrun' & ->).
       pose proof (schedule_frame _ _ _ _ Hsch) as (Hm & _ & _ & Hh & _).
       apply schedule_printed in Hsch as Hpr.
       cbn in Hready. rewrite Hrun in Hready. rewrite Hready in Hrun'. cbn in Hrun'.
       unfold ready in Hready. rewrite Hrun' in Hready |- *. cbn in Hready.
       injection Hready as Hq. split; [done|]. split; [exact Hpr|]. split; [done|].
       split; [done|]. split; [done|].
       split; [unfold socket_at; rewrite Hh; cbn; by rewrite lookup_total_insert_eq|].
       assert (Hm' : memory k' = return_message r message (memory k)) by exact Hm.
       rewrite Hm'. split; [apply code_message|apply payload_message]. }
  all: do 2 eexists; split; [done|]; split; [done|]; split; [done|]; split; [done|];
    split; [done|]; unfold socket_at; cbn; by rewrite lookup_total_insert_eq.
Qed.
End Properties.
