(* ===== verification/Locks.v ===== *)
(** * Spin locks and the interrupt flag (kernel/src/proc/process.rs, syscall.rs, boot/interrupts.rs, dev, mem)

    The rest of the development takes an entry of the kernel as one step.  This
    file looks inside: it keeps of each function the locks it takes, in the
    order it takes them and as long as its guards live, where it masks
    interrupts, and the threads it starts.  On the one CPU a lock that is held
    is waited for in a loop; with interrupts masked that loop never ends unless
    the holder is the code itself, so the question is which locks masked code
    can find taken.  Faults are not among the interrupts here
    (PageFault.v says what their handlers do). *)
From S2P Require Import Prelude Irq Kernel.

(** The locks of the statics; a socket and a process have one each. *)
Inductive Lock :=
| ALLOCATOR
| MEMORYLOGGER
| WRITER
| SERIAL1
| COUNTER
| WAIT_QUEUE
| RUNNING_THREAD
| TSS
| PICS
| KEYBOARD
| SOCKET (s : Z)
| PROCESS (p : Z).

#[export] Instance Lock_eq_dec : EqDecision Lock.
Proof. solve_decision. Defined.

(** [read] of a [RwLock]; [write], and [lock] of a [Mutex]. *)
Variant Access := Shared | Exclusive.

#[export] Instance Access_eq_dec : EqDecision Access.
Proof. solve_decision. Defined.

(** The threads that are started: user programs, and the listener of the
    console. *)
Variant Program := User | Listener.

Variant Handler := Timer | Key.

(** What is left of the code: [With] is a guard and the code it is alive in,
    [Masked] is [without_interrupts], [Trap] a system call, [Halt] the loop of
    [hlt] with interrupts enabled that a thread ends in. *)
Inductive code :=
| Nop
| With (l : Lock) (a : Access) (body : code)
| Masked (body : code)
| Then (c1 c2 : code)
| Either (c1 c2 : code)
| Repeat (c : code)
| Any (f : Z -> code)
| Trap (body : code)
| Start (p : Program)
| Halt.

Declare Scope code_scope.
Delimit Scope code_scope with code.
Bind Scope code_scope with code.
Notation "c1 ;; c2" := (Then c1 c2)
  (at level 100, c2 at level 200, right associativity) : code_scope.

Module Locks.
Local Open Scope code_scope.

(** ** What the kernel's functions lock *)

Fixpoint times (n : nat) (c : code) : code :=
  match n with O => Nop | S n => c;; times n c end.

(** [Locked::lock] in [GlobalAlloc::alloc] and [dealloc] *)
Definition alloc : code := With ALLOCATOR Exclusive Nop.
Definition dealloc : code := With ALLOCATOR Exclusive Nop.

(** [_print] of vga_buffer.rs and of serial.rs *)
Definition print : code := Masked (With WRITER Exclusive Nop).
Definition serial_print : code := Masked (With SERIAL1 Exclusive Nop).

(** [allocate_frame] and [deallocate_frame], which log what they do *)
Definition allocate_frame : code :=
  Either (With MEMORYLOGGER Exclusive serial_print) serial_print.
Definition deallocate_frame : code :=
  Either Nop serial_print;; With MEMORYLOGGER Exclusive serial_print.

(** [unique_id] *)
Definition unique_id : code := Masked (With COUNTER Exclusive Nop).

(** [push_front] and [push_back] of the queue, which may have to grow *)
Definition push : code := Either Nop (alloc;; dealloc).

(** [schedule_thread]; [new] tells whether the thread is a new one. *)
Definition schedule_thread (new : code) : code :=
  Masked (With WAIT_QUEUE Exclusive (push;; new)).

(** [take_current_thread] and [set_current_thread] *)
Definition take_current_thread : code := With RUNNING_THREAD Exclusive Nop.
Definition set_current_thread : code :=
  With RUNNING_THREAD Exclusive Nop;; Either Nop (schedule_thread Nop).

(** [monitor] and [print_details] *)
Definition monitor : code := Either Nop serial_print.
Definition print_details : code := times 9 serial_print.

(** [get_sockets] *)
Definition get_sockets : code := Any (fun p => With (PROCESS p) Shared Nop).

(** [allocate_user_stack]; the first frames are those of page tables. *)
Definition allocate_user_stack : code :=
  Repeat allocate_frame;; unique_id;; Repeat allocate_frame.

(** [Drop for Thread], with [free_user_stack], and the drop of its fields *)
Definition drop_thread : code :=
  Repeat deallocate_frame;; monitor;; print;; serial_print;; dealloc;; dealloc.

(** [Drop for Process], with [free_user_pagetables] *)
Definition drop_process : code := Repeat deallocate_frame;; print;; dealloc.

(** A thread may be the last to hold its process, the process the last to hold
    a socket, and a thread may be parked there. *)
Definition drop_threads : code := Repeat (Either drop_thread (Either drop_process dealloc)).

(** [update_current_thread] and [schedule] *)
Definition update_current_thread : code := Either Nop (monitor;; Either Nop serial_print;; push).
Definition schedule : code :=
  With WAIT_QUEUE Exclusive (With RUNNING_THREAD Exclusive
    (update_current_thread;; Either Nop (With TSS Exclusive Nop))).

(** [fork_current_thread] *)
Definition fork_current_thread : code :=
  With RUNNING_THREAD Shared (Either print
    (allocate_user_stack;;
     Either print
       (alloc;; unique_id;; alloc;; print_details;; monitor;;
        With WAIT_QUEUE Exclusive (push;; Start User)))).

(** [exit_current_thread] *)
Definition exit_current_thread : code :=
  With RUNNING_THREAD Exclusive
    (Either Nop (With WAIT_QUEUE Exclusive drop_threads;; drop_threads));;
  Halt.

(** What becomes of the threads a socket returns. *)
Definition returned : code := Either Nop (Either set_current_thread (schedule_thread Nop)).

(** [sys_receive] and [sys_send] on the socket [s] *)
Definition sys_receive (s : Z) : code :=
  take_current_thread;;
  Either Nop (get_sockets;;
    Either (With (SOCKET s) Exclusive Nop;; returned;; returned;; Either Nop schedule)
      set_current_thread).
Definition sys_send (s : Z) : code := sys_receive s.

Definition sys_write : code := Either Nop print.
Definition sys_yield : code := schedule.

Definition dispatch_syscall : code :=
  Either fork_current_thread (Either exit_current_thread (Either sys_write
    (Either (Any sys_receive) (Either (Any sys_send) (Either sys_yield print))))).

(** [timer_handler] and [keyboard_handler_inner] *)
Definition timer_handler : code :=
  schedule;; With RUNNING_THREAD Shared (Either Nop monitor);; With PICS Exclusive Nop.
Definition keyboard_handler_inner : code :=
  With KEYBOARD Exclusive
    (Either Nop (Either print
       (print;; With (SOCKET KEYBOARD_SOCKET) Exclusive Nop;;
        Either Nop (schedule_thread Nop);; Either Nop (schedule_thread Nop)));;
     Either Nop schedule;;
     With PICS Exclusive Nop).

Definition handler (h : Handler) : code :=
  match h with Timer => timer_handler | Key => keyboard_handler_inner end.

(** [spawn_kernel_thread] *)
Definition spawn_kernel_thread (p : Program) : code :=
  alloc;; unique_id;; Either Nop alloc;; alloc;; alloc;; monitor;; print_details;;
  schedule_thread (Start p);; Either Nop dealloc.

(** [start_listener] *)
Definition start_listener : code := alloc;; alloc;; spawn_kernel_thread Listener.

(** [initialise_thread], when it succeeds and when it does not *)
Definition initialise_thread (ok : bool) : code :=
  unique_id;; alloc;; allocate_user_stack;;
  if ok then
    print;; serial_print;; alloc;; alloc;; alloc;; dealloc;;
    monitor;; print_details;; schedule_thread (Start User)
  else dealloc;; dealloc.

(** [spawn_user_thread]: the page tables, the heap, the segments, the thread *)
Definition spawn_user_thread (ok : bool) : code :=
  if ok then
    Repeat allocate_frame;; Repeat allocate_frame;; Repeat allocate_frame;; initialise_thread true
  else
    Either Nop (Repeat allocate_frame;; Repeat allocate_frame;;
      Either Nop (Repeat allocate_frame;; Either Nop (initialise_thread false))).

(** [kernel_thread_main]; the threads that [send_message] returns are dropped. *)
Definition kernel_thread_main : code :=
  start_listener;; alloc;;
  Either
    (spawn_user_thread true;;
     With (SOCKET ID_SOCKET) Exclusive (Either Nop drop_threads);;
     Halt)
    (spawn_user_thread false;; print).

Definition program (p : Program) : code :=
  match p with
  | User => Repeat (Trap dispatch_syscall)
  | Listener => Any (fun s => Repeat (Trap (sys_receive s)))
  end.

(** ** The machine *)

(** A continuation: code to run, a guard to drop, a flag to restore, the end of
    an interrupt or a system call. *)
Inductive item :=
| Run (c : code)
| Drop (l : Lock) (a : Access)
| RestoreFlag (enabled : bool)
| Iret.

Record state := mkState {
  enabled : bool;
  guards : list (Lock * Access);
  running : list item;
  suspended : list (list item);
}.

(** Readers share a lock with readers. *)
Definition compatible (a b : Access) : bool :=
  match a, b with Shared, Shared => true | _, _ => false end.

Definition free (l : Lock) (a : Access) (held : list (Lock * Access)) : bool :=
  forallb (fun '(l', b) => negb (bool_decide (l' = l)) || compatible a b) held.

Fixpoint drop_guard (g : Lock * Access) (held : list (Lock * Access)) : list (Lock * Access) :=
  match held with
  | [] => []
  | g' :: held => if decide (g' = g) then held else g' :: drop_guard g held
  end.

(** What happens next: the code goes on (a branch and a number for its choices),
    an interrupt arrives, or the end of an interrupt or a system call gives
    the processor to another thread. *)
Variant choice := Act (first : bool) (n : Z) | Interrupt (h : Handler) | Switch (i : nat).

Definition run_code (first : bool) (n : Z) (c : code) (k : list item) (s : state) : option state :=
  let next k := Some (mkState (enabled s) (guards s) k (suspended s)) in
  match c with
  | Nop => next k
  | With l a body =>
      if free l a (guards s)
      then Some (mkState (enabled s) ((l, a) :: guards s) (Run body :: Drop l a :: k) (suspended s))
      else None
  | Masked body =>
      Some (mkState false (guards s) (Run body :: RestoreFlag (enabled s) :: k) (suspended s))
  | Then c1 c2 => next (Run c1 :: Run c2 :: k)
  | Either c1 c2 => next (Run (if first then c1 else c2) :: k)
  | Repeat c => if first then next k else next (Run c :: Run (Repeat c) :: k)
  | Any f => next (Run (f n) :: k)
  | Trap body => Some (mkState false (guards s) (Run body :: Iret :: k) (suspended s))
  | Start p => Some (mkState (enabled s) (guards s) k ([Run (program p)] :: suspended s))
  | Halt => Some (mkState true (guards s) [] (suspended s))
  end.

Definition step (x : choice) (s : state) : option state :=
  match x with
  | Interrupt h =>
      if enabled s
      then Some (mkState false (guards s) (Run (handler h) :: Iret :: running s) (suspended s))
      else None
  | Switch i =>
      match running s, suspended s !! i with
      | Iret :: k, Some other => Some (mkState true (guards s) other (k :: delete i (suspended s)))
      | _, _ => None
      end
  | Act first n =>
      match running s with
      | [] => None
      | Run c :: k => run_code first n c k s
      | Drop l a :: k =>
          Some (mkState (enabled s) (drop_guard (l, a) (guards s)) k (suspended s))
      | RestoreFlag b :: k => Some (mkState b (guards s) k (suspended s))
      | Iret :: k => Some (mkState true (guards s) k (suspended s))
      end
  end.

Fixpoint run (xs : list choice) (s : state) : option state :=
  match xs with
  | [] => Some s
  | x :: xs => s ← step x s; run xs s
  end.

(** After boot: the processor idles, the first thread is in the queue. *)
Definition booted : state := mkState true [] [] [[Run kernel_thread_main]].

Definition reachable (s : state) : Prop := exists xs, run xs booted = Some s.

(** The lock the code waits for. *)
Definition waits (s : state) : option Lock :=
  match running s with
  | Run (With l a _) :: _ => if free l a (guards s) then None else Some l
  | _ => None
  end.

(** ** The discipline

    A lock is [irq_safe] if it is only ever held with interrupts masked. *)

(** The locks kernel threads take with interrupts enabled. *)
Definition open_locks : list Lock := [ALLOCATOR; MEMORYLOGGER; SOCKET ID_SOCKET].

Definition irq_safe (l : Lock) : bool :=
  match l with
  | ALLOCATOR | MEMORYLOGGER => false
  | SOCKET s => negb (bool_decide (s = ID_SOCKET))
  | _ => true
  end.

Lemma irq_safe_false l : irq_safe l = false -> l ∈ open_locks.
Proof.
  unfold open_locks. destruct l as [| | | | | | | | | |s|]; try done; intros Hs.
  - set_solver.
  - set_solver.
  - apply negb_false_iff, bool_decide_eq_true in Hs as ->. set_solver.
Qed.

(** Code that keeps the discipline: [held] are the safe locks it runs under. *)
Fixpoint disciplined (masked : bool) (held : list (Lock * Access)) (c : code) : Prop :=
  match c with
  | Nop | Start _ => True
  | With l a body =>
      if irq_safe l
      then masked = true /\ free l a held = true /\ disciplined masked ((l, a) :: held) body
      else disciplined masked held body
  | Masked body => disciplined true held body
  | Then c1 c2 | Either c1 c2 => disciplined masked held c1 /\ disciplined masked held c2
  | Repeat c => disciplined masked held c
  | Any f => forall n, disciplined masked held (f n)
  | Trap body => masked = false /\ disciplined true [] body
  | Halt => held = []
  end.

(** A continuation that keeps it: guards are dropped in the order of the
    stack, and none is left when interrupts are enabled again. *)
Fixpoint orderly (masked : bool) (held : list (Lock * Access)) (k : list item) : Prop :=
  match k with
  | [] => masked = false
  | Run c :: k => disciplined masked held c /\ orderly masked held k
  | Drop l a :: k =>
      if irq_safe l then exists held', held = (l, a) :: held' /\ masked = true /\ orderly masked held' k
      else orderly masked held k
  | RestoreFlag b :: k => masked = true /\ (b = true -> held = []) /\ orderly (negb b) held k
  | Iret :: k => masked = true /\ held = [] /\ orderly false [] k
  end.

Definition safe_guards (s : state) : list (Lock * Access) :=
  filter (fun g => irq_safe g.1 = true) (guards s).

Record good (s : state) : Prop := {
  good_running : orderly (negb (enabled s)) (safe_guards s) (running s);
  good_suspended : Forall (orderly false []) (suspended s);
  good_enabled : enabled s = true -> safe_guards s = [];
}.

(** *** The kernel keeps the discipline *)

Ltac discipline :=
  cbn; repeat (intros || split || (destruct (negb _))); try done; try reflexivity.

Lemma syscalls_disciplined : disciplined true [] dispatch_syscall.
Proof. discipline. Qed.

Lemma handlers_disciplined h : disciplined true [] (handler h).
Proof. destruct h; discipline. Qed.

Lemma program_disciplined p : disciplined false [] (program p).
Proof. destruct p; discipline. Qed.

Lemma kernel_thread_disciplined : disciplined false [] kernel_thread_main.
Proof. discipline. Qed.

(** *** Every step keeps the order *)

Lemma good_booted : good booted.
Proof.
  constructor; [done| |done]. constructor; [|constructor].
  split; [apply kernel_thread_disciplined|done].
Qed.

(** The guards of the safe locks, before and after. *)
Lemma filter_safe_cons l a gs :
  filter (fun g : Lock * Access => irq_safe g.1 = true) ((l, a) :: gs) =
    (if irq_safe l then [(l, a)] else []) ++ filter (fun g => irq_safe g.1 = true) gs.
Proof. rewrite filter_cons. cbn [fst]. case_decide as Hl; destruct (irq_safe l); done. Qed.

Lemma filter_drop_guard l a gs :
  filter (fun g : Lock * Access => irq_safe g.1 = true) (drop_guard (l, a) gs) =
    if irq_safe l then drop_guard (l, a) (filter (fun g => irq_safe g.1 = true) gs)
    else filter (fun g => irq_safe g.1 = true) gs.
Proof.
  induction gs as [|[l' b] gs IH]; [by destruct (irq_safe l)|]. cbn [drop_guard].
  rewrite filter_safe_cons. case_decide as Hg.
  - injection Hg as -> ->. destruct (irq_safe l) eqn:Hl; [|done]. cbn. by rewrite decide_True.
  - rewrite filter_safe_cons, IH. destruct (irq_safe l'), (irq_safe l); try done. cbn.
    by rewrite decide_False.
Qed.

Lemma run_code_good first n c k s s' :
  good s -> running s = Run c :: k -> run_code first n c k s = Some s' -> good s'.
Proof.
  intros [Hr Hs He] Hrun Hstep. rewrite Hrun in Hr. destruct Hr as [Hc Hk].
  destruct c as [|l a body|body|c1 c2|c1 c2|c|f|body|p|]; cbn in Hstep, Hc.
  - simplify_eq. by constructor.
  - destruct (free l a (guards s)); [|done]. simplify_eq.
    constructor; unfold safe_guards in *; cbn [enabled guards running suspended orderly]; [|done|];
      rewrite filter_safe_cons; destruct (irq_safe l); try done.
    + destruct Hc as (Hm & _ & Hc). split; [done|]. by eexists.
    + destruct Hc as (Hm%negb_true_iff & _). by rewrite Hm.
  - simplify_eq. constructor; [|done|done]. cbn. split; [done|]. split; [done|]. by split.
  - destruct Hc. simplify_eq. by constructor.
  - destruct Hc. simplify_eq. constructor; [|done|done]. by destruct first.
  - destruct first; simplify_eq; by constructor.
  - simplify_eq. constructor; [|done|done]. by split.
  - destruct Hc as [Hm%negb_false_iff Hc]. simplify_eq. pose proof (He Hm) as Hg.
    rewrite Hm, Hg in Hk. constructor; [|done|done]. unfold safe_guards in *. cbn. rewrite Hg. by split.
  - simplify_eq. constructor; [done| |done]. constructor; [|done].
    split; [apply program_disciplined|done].
  - simplify_eq. by constructor.
Qed.

Lemma interrupt_good h s : good s -> enabled s = true ->
  good (mkState false (guards s) (Run (handler h) :: Iret :: running s) (suspended s)).
Proof.
  intros [Hr Hs He] Hen. pose proof (He Hen) as Hg. rewrite Hen, Hg in Hr.
  constructor; [|done|done]. unfold safe_guards in *. cbn [guards running enabled orderly negb]. rewrite Hg.
  split; [apply handlers_disciplined|]. by split.
Qed.

Lemma step_good x s s' : good s -> step x s = Some s' -> good s'.
Proof.
  intros Hgood Hstep. destruct x as [first n|h|i]; cbn in Hstep.
  - destruct (running s) as [|[c|l a|b|] k] eqn:Hrun; [done| | | |].
    + by eapply run_code_good.
    + destruct Hgood as [Hr Hs He]. rewrite Hrun in Hr. simplify_eq. cbn in Hr.
      constructor; unfold safe_guards in *; cbn [enabled guards running suspended]; [|done|];
        rewrite filter_drop_guard; destruct (irq_safe l); try done.
      * destruct Hr as (held & -> & -> & Hk). cbn. by rewrite decide_True.
      * destruct Hr as (held & Hg & Hm%negb_true_iff & _). by rewrite Hm.
    + destruct Hgood as [Hr Hs He]. rewrite Hrun in Hr. destruct Hr as (_ & Hb & Hk).
      simplify_eq. by constructor.
    + destruct Hgood as [Hr Hs He]. rewrite Hrun in Hr. destruct Hr as (_ & Hg & Hk). simplify_eq.
      constructor; [|done|done]. unfold safe_guards in *. cbn. by rewrite Hg.
  - destruct (enabled s) eqn:Hen; [|done]. simplify_eq. by apply interrupt_good.
  - destruct (running s) as [|[c|l a|b|] k] eqn:Hrun; [done..|].
    destruct (suspended s !! i) as [other|] eqn:Ho; [|done]. destruct Hgood as [Hr Hs He].
    rewrite Hrun in Hr. destruct Hr as (_ & Hg & Hk). simplify_eq.
    rewrite Forall_forall in Hs. pose proof (Hs other (list_elem_of_lookup_2 _ _ _ Ho)) as Hother.
    constructor.
    + unfold safe_guards in *. cbn. by rewrite Hg.
    + constructor; [done|]. apply Forall_forall. intros k' Hk'. apply Hs.
      rewrite (delete_Permutation _ _ _ Ho). by right.
    + done.
Qed.

Lemma run_good xs : forall s s', good s -> run xs s = Some s' -> good s'.
Proof.
  induction xs as [|x xs IH]; intros s s' Hg Hrun; cbn in Hrun; [by simplify_eq|].
  destruct (step x s) as [s1|] eqn:Hs; [|done]. cbn in Hrun. eapply IH; [|done].
  by eapply step_good.
Qed.

Lemma good_reachable s : reachable s -> good s.
Proof. intros [xs Hxs]. eapply run_good; [apply good_booted|done]. Qed.

(** A safe lock is free for code that may take it. *)
Lemma free_safe l a gs :
  irq_safe l = true -> free l a (filter (fun g : Lock * Access => irq_safe g.1 = true) gs) = true ->
  free l a gs = true.
Proof.
  intros Hl. unfold free. induction gs as [|[l' b] gs IH]; [done|]. rewrite filter_safe_cons. cbn [forallb].
  destruct (irq_safe l') eqn:Hl'; cbn.
  - intros [Hb Hf]%andb_true_iff. by rewrite Hb, IH.
  - intros Hf. rewrite IH by done. rewrite bool_decide_false; [done|]. intros ->. congruence.
Qed.

Lemma good_waits s l : good s -> waits s = Some l -> enabled s = false -> irq_safe l = false.
Proof.
  intros [Hr _ _] Hw Hen. unfold waits in Hw. destruct (running s) as [|[c| | |] k]; try done.
  destruct c as [|l' a body| | | | | | | |]; try done. destruct (free l' a (guards s)) eqn:Hf; [done|].
  simplify_eq. destruct (irq_safe l) eqn:Hl; [|done]. cbn in Hr. rewrite Hl in Hr.
  destruct Hr as ((_ & Hfree & _) & _). by rewrite (free_safe _ _ _ Hl Hfree) in Hf.
Qed.

(** Masked code that waits for nothing goes on. *)
Lemma good_progress s : good s -> enabled s = false -> waits s = None ->
  exists s', step (Act true 0) s = Some s'.
Proof.
  intros [Hr _ _] Hen Hw. unfold waits in Hw. cbn. destruct (running s) as [|[c|l a|b|] k]; [| |eauto..].
  - by rewrite Hen in Hr.
  - destruct c as [|l a body| | | | | | | |]; cbn; eauto. destruct (free l a (guards s)); [eauto|done].
Qed.

(** ** Properties *)

(** The first thread gives the shell its identifier and is interrupted while
    it holds the lock of [ID_SOCKET]; the shell asks for its identifier. *)
Definition go : choice := Act true 0.
Definition other : choice := Act false 0.
Definition identifier_run : list choice :=
  Interrupt Timer :: replicate 18 go ++ Switch 0 :: replicate 229 go ++
  Interrupt Timer :: replicate 18 go ++ Switch 0 ::
  [other; go; other; other; other; go; Act true ID_SOCKET; go; go; go; go; other; go; go; go; go; go;
   go; go].

Lemma identifier_deadlock : exists s, reachable s /\ enabled s = false /\
  waits s = Some (SOCKET ID_SOCKET) /\ forall x, step x s = None.
Proof.
  assert (Hrun : match run identifier_run booted with
    | Some s => bool_decide (waits s = Some (SOCKET ID_SOCKET)) && negb (enabled s)
    | None => false
    end = true) by (vm_compute; reflexivity).
  destruct (run identifier_run booted) as [s|] eqn:Hs; [|done].
  apply andb_true_iff in Hrun as [Hw%bool_decide_eq_true Hen%negb_true_iff].
  exists s. split; [exists identifier_run; exact Hs|]. clear Hs. split; [done|]. split; [done|].
  unfold waits in Hw. intros x. destruct (running s) as [|[c| | |] k] eqn:Hr; try done.
  destruct c as [|l a body| | | | | | | |]; try done. destruct (free l a (guards s)) eqn:Hf; [done|].
  destruct x; cbn; rewrite ?Hr, ?Hen; try done. cbn. by rewrite Hf.
Qed.

(** C8: locks and interrupts.  Whatever the threads do and whenever the timer
    and the keyboard interrupt them, code that runs with interrupts masked, that
    is every system call, every interrupt handler and every
    [without_interrupts], goes on or waits for one of three locks: those of
    the scheduler, the console, the serial port, the descriptor tables, the
    processes and all sockets but one are free whenever it takes them.  The
    three are taken by [kernel_thread_main] with interrupts enabled; the one of
    [ID_SOCKET] does stop the machine: interrupted while it sends the
    identifier, and asked for it by the shell, the kernel waits for ever. *)
Theorem masked_waits s (Hs : reachable s) (Hmasked : enabled s = false) :
  match waits s with
  | Some l => l ∈ open_locks
  | None => exists s', step (Act true 0) s = Some s'
  end /\
  exists stuck, reachable stuck /\ waits stuck = Some (SOCKET ID_SOCKET) /\
    forall x, step x stuck = None.
Proof.
  pose proof (good_reachable s Hs) as Hgood. split.
  - destruct (waits s) as [l|] eqn:Hw; [|by apply good_progress].
    by eapply irq_safe_false, good_waits.
  - destruct identifier_deadlock as (stuck & Hr & _ & Hw & Hstuck). by exists stuck.
Qed.
End Locks.

(** The timer arrives right after boot. *)
Lemma masked_waits_witness :
  let s := Locks.mkState false [] [Locks.Run Locks.timer_handler; Locks.Iret]
             [[Locks.Run Locks.kernel_thread_main]] in
  Locks.reachable s /\ Locks.waits s = None /\ exists s', Locks.step (Locks.Act true 0) s = Some s'.
Proof.
  intros s. assert (Hs : Locks.reachable s) by (exists [Locks.Interrupt Timer]; reflexivity).
  split; [exact Hs|]. split; [reflexivity|]. exact (proj1 (Locks.masked_waits s Hs eq_refl)).
Defined.
