(* ===== verification/Scancodes.v ===== *)
(** * The stream of scancodes (kernel/src/dev/keyboard.rs)

    [add_scancode] fills a queue from the keyboard interrupt, [ScancodeStream]
    empties it from an asynchronous task.  The queue and the waker cell are the
    crates crossbeam-queue and futures-util, parameters here.  On the one CPU
    the interrupt runs to its end between two actions of [poll_next]: the
    scancodes that arrive at each such place are an argument of [poll_next].
    A [Waker] is the number of the task it wakes. *)
From S2P Require Import Prelude Text Vga Keyboard Kernel Irq.

(** [crossbeam_queue::ArrayQueue<u8>] *)
Class ArrayQueue (Q : Type) := {
  aq_new : Z -> Q;
  aq_push : Z -> Q -> result unit Z * Q;
  aq_pop : Q -> option Z * Q;
}.

Class ArrayQueueLaws (Q : Type) `{ArrayQueue Q} := {
  aq_items : Q -> list Z;
  aq_capacity : Q -> Z;
  aq_new_empty n : 0 < n -> aq_items (aq_new n) = [] /\ aq_capacity (aq_new n) = n;
  aq_push_spec c q : exists q', aq_capacity q' = aq_capacity q /\
    if decide (Z.of_nat (length (aq_items q)) < aq_capacity q)
    then aq_push c q = (Ok tt, q') /\ aq_items q' = aq_items q ++ [c]
    else aq_push c q = (Err c, q') /\ aq_items q' = aq_items q;
  aq_pop_spec q : exists q', aq_capacity q' = aq_capacity q /\
    aq_pop q = (head (aq_items q), q') /\ aq_items q' = tail (aq_items q);
}.

(** [futures_util::task::AtomicWaker]; [wake] is [take] and the wake-up of what
    it returns. *)
Class AtomicWaker (W : Type) := {
  aw_new : W;
  aw_register : Z -> W -> W;
  aw_take : W -> option Z * W;
}.

Class AtomicWakerLaws (W : Type) `{AtomicWaker W} := {
  aw_registered : W -> option Z;
  aw_new_none : aw_registered aw_new = None;
  aw_register_some t w : aw_registered (aw_register t w) = Some t;
  aw_take_spec w : exists w', aw_take w = (aw_registered w, w') /\ aw_registered w' = None;
}.

(** The statics [SCANCODE_QUEUE] and [WAKER], the tasks woken so far and what
    was printed. *)
Record Input (Q W : Type) := mkInput {
  SCANCODE_QUEUE : option Q;
  WAKER : W;
  woken : list Z;
  shown : list Z;
}.
Arguments mkInput {Q W}.
Arguments SCANCODE_QUEUE {Q W}.
Arguments WAKER {Q W}.
Arguments woken {Q W}.
Arguments shown {Q W}.

(** [Poll<Option<u8>>]; the stream never ends. *)
Inductive Poll := Ready (scancode : Z) | Pending.

Module Scancodes.
Section Operations.
Context {Q W : Type} `{ArrayQueue Q} `{AtomicWaker W}.
Implicit Types (s : Input Q W).

Definition with_queue (q : Q) s : Input Q W := mkInput (Some q) (WAKER s) (woken s) (shown s).
Definition with_waker (w : W) s : Input Q W := mkInput (SCANCODE_QUEUE s) w (woken s) (shown s).
Definition say (line : list Z) s : Input Q W :=
  mkInput (SCANCODE_QUEUE s) (WAKER s) (woken s) (shown s ++ line ++ [0x0A]).

(** [AtomicWaker::wake] *)
Definition wake s : Input Q W :=
  let '(task, w) := aw_take (WAKER s) in
  mkInput (SCANCODE_QUEUE s) w (woken s ++ option_list task) (shown s).

Definition FULL : list Z := text "SCANCODE QUEUE FULL".

(** [add_scancode] *)
Definition add_scancode (scancode : Z) s : Input Q W :=
  match SCANCODE_QUEUE s with
  | Some queue =>
      match aq_push scancode queue with
      | (Err _, queue) => say FULL (with_queue queue s)
      | (Ok _, queue) => wake (with_queue queue s)
      end
  | None => say (text "SCANCODE QUEUE UNINITIALISED") s
  end.

(** The interrupts at one place. *)
Definition arrive (scancodes : list Z) s : Input Q W := foldl (fun s c => add_scancode c s) s scancodes.

(** [ScancodeStream::new] *)
Definition new s : outcome (Input Q W) :=
  match SCANCODE_QUEUE s with
  | None => Done (with_queue (aq_new 100) s)
  | Some _ => Panic
  end.

(** [queue.pop()] *)
Definition pop s : outcome (option Z * Input Q W) :=
  match SCANCODE_QUEUE s with
  | Some queue => let '(r, queue) := aq_pop queue in Done (r, with_queue queue s)
  | None => Panic
  end.

(** [poll_next]; the interrupts are those after the first [pop], after the
    waker is registered, and after the second [pop]. *)
Definition poll_next (cx : Z) (first second third : list Z) s : outcome (Poll * Input Q W) :=
  '(r, s) ← pop s;
  let s := arrive first s in
  match r with
  | Some scancode => Done (Ready scancode, arrive third (arrive second s))
  | None =>
      let s := with_waker (aw_register cx (WAKER s)) s in
      '(r, s) ← pop (arrive second s);
      let s := arrive third s in
      match r with
      | Some scancode => Done (Ready scancode, with_waker (aw_take (WAKER s)).2 s)
      | None => Done (Pending, s)
      end
  end.
End Operations.

(** ** The loop of [output_keypress] *)
Section Loop.
Context {K : Type} `{KeyboardDecoder K}.

(** What it does with a scancode the stream has delivered. *)
Definition handle_scancode (scancode : Z) (s : K * Writer) : outcome (K * Writer) :=
  let '(keyboard, key) := decode_scancode s.1 scancode in
  match key with
  | Some key => w ← Keyboard.handle_key key s.2; Done (keyboard, w)
  | None => Done (keyboard, s.2)
  end.

Definition output_keypress (scancodes : list Z) (s : K * Writer) : outcome (K * Writer) :=
  for_each scancodes handle_scancode s.
End Loop.

(** ** Histories *)
Section Histories.
Context {Q W : Type} `{ArrayQueueLaws Q} `{AtomicWakerLaws W}.
Implicit Types (s : Input Q W).

Inductive event :=
| Interrupt (scancode : Z)
| Task (cx : Z) (first second third : list Z).

(** The scancodes of an event, in the order they arrive. *)
Definition event_codes (e : event) : list Z :=
  match e with Interrupt c => [c] | Task _ first second third => first ++ second ++ third end.

(** The stream, the scancodes delivered, and the task that was told to wait;
    a poll uses up the wake-ups before it. *)
Record world := mkWorld { input : Input Q W; delivered : list Z; waiting : option Z }.

Definition play (e : event) (x : world) : outcome world :=
  match e with
  | Interrupt c => Done (mkWorld (add_scancode c (input x)) (delivered x) (waiting x))
  | Task cx first second third =>
      let s := mkInput (SCANCODE_QUEUE (input x)) (WAKER (input x)) [] (shown (input x)) in
      '(r, s) ← poll_next cx first second third s;
      match r with
      | Ready c => Done (mkWorld s (delivered x ++ [c]) None)
      | Pending => Done (mkWorld s (delivered x) (Some cx))
      end
  end.

(** The queue holds [items]. *)
Definition holds (items : list Z) s : Prop := exists q,
  SCANCODE_QUEUE s = Some q /\ aq_capacity q = 100 /\ aq_items q = items /\
  (length items <= 100)%nat.

Definition full_lines (n : nat) : list Z := mjoin (replicate n (FULL ++ [0x0A])).

Lemma full_lines_add n m : full_lines (n + m) = full_lines n ++ full_lines m.
Proof. unfold full_lines. by rewrite replicate_add, join_app. Qed.

(** The scancodes [codes] came in: [fresh] got a place, [n] did not; the first
    that got one woke the task registered. *)
Record came_in (codes fresh : list Z) (n : nat) s s' : Prop := {
  ci_sublist : sublist fresh codes;
  ci_count : length codes = (length fresh + n)%nat;
  ci_room items : holds items s -> holds (items ++ fresh) s';
  ci_shown : shown s' = shown s ++ full_lines n;
  ci_quiet : fresh = [] -> aw_registered (WAKER s') = aw_registered (WAKER s) /\ woken s' = woken s;
  ci_woken t : t ∈ woken s -> t ∈ woken s';
  ci_wakes t : fresh ≠ [] -> aw_registered (WAKER s) = Some t -> t ∈ woken s';
}.

Lemma add_scancode_spec c items s :
  holds items s -> exists fresh n, came_in [c] fresh n s (add_scancode c s) /\
    holds (items ++ fresh) (add_scancode c s).
Proof.
  intros (q & Hq & Hcap & Hitems & Hlen). unfold add_scancode. rewrite Hq.
  destruct (aq_push_spec c q) as (q' & Hcap' & Hpush). rewrite Hcap, Hitems in Hpush.
  destruct (decide (Z.of_nat (length items) < 100)) as [Hroom|Hfull]; destruct Hpush as [-> Hi].
  - unfold wake. cbn. destruct (aw_take_spec (WAKER s)) as (w & -> & Hw).
    assert (Hh : holds (items ++ [c]) (mkInput (Some q') w
      (woken s ++ option_list (aw_registered (WAKER s))) (shown s))).
    { exists q'. rewrite length_app. cbn. split_and!; [done|lia|done|lia]. }
    exists [c], 0%nat. split; [|done]. constructor; cbn; try done.
    + intros items' (q1 & Hq1 & _ & Hi1 & _). by simplify_eq.
    + by rewrite app_nil_r.
    + set_solver.
    + intros t _ ->. cbn. set_solver.
  - assert (Hh : holds (items ++ []) (say FULL (with_queue q' s))).
    { exists q'. rewrite app_nil_r. split_and!; [done|lia|done|done]. }
    exists [], 1%nat. split; [|done]. constructor; cbn; try done.
    + apply sublist_nil_l.
    + intros items' (q1 & Hq1 & _ & Hi1 & _). by simplify_eq.
Qed.

Lemma came_in_trans codes1 fresh1 n1 codes2 fresh2 n2 s1 s2 s3 :
  came_in codes1 fresh1 n1 s1 s2 -> came_in codes2 fresh2 n2 s2 s3 ->
  came_in (codes1 ++ codes2) (fresh1 ++ fresh2) (n1 + n2) s1 s3.
Proof.
  intros [Hs1 Hc1 Hr1 Hp1 Hq1 Hw1 Hk1] [Hs2 Hc2 Hr2 Hp2 Hq2 Hw2 Hk2]. constructor.
  - by apply sublist_app.
  - rewrite !length_app. lia.
  - intros items Hh. rewrite app_assoc. auto.
  - by rewrite Hp2, Hp1, full_lines_add, app_assoc.
  - intros [-> ->]%app_nil. destruct Hq1 as [Ha Hb], Hq2 as [Hc Hd]; [done..|].
    by rewrite Hc, Hd.
  - auto.
  - intros t Hne Hreg. destruct (decide (fresh1 = [])) as [->|Hne1]; [|by apply Hw2, Hk1].
    destruct Hq1 as [Hsame _]; [done|]. apply Hk2; [done|congruence].
Qed.

Lemma arrive_spec codes : forall items s,
  holds items s -> exists fresh n, came_in codes fresh n s (arrive codes s) /\
    holds (items ++ fresh) (arrive codes s).
Proof.
  induction codes as [|c codes IH]; intros items s Hh.
  - exists [], 0%nat. split; [|by rewrite app_nil_r]. constructor; try done.
    + intros ? ?. by rewrite app_nil_r.
    + cbn. by rewrite app_nil_r.
  - destruct (add_scancode_spec c items s Hh) as (f1 & n1 & Hc1 & Hh1).
    destruct (IH _ _ Hh1) as (f2 & n2 & Hc2 & Hh2). exists (f1 ++ f2), (n1 + n2)%nat.
    split; [exact (came_in_trans [c] f1 n1 codes f2 n2 _ _ _ Hc1 Hc2)|].
    by rewrite app_assoc.
Qed.

Lemma pop_spec items s :
  holds items s -> exists q, pop s = Done (head items, with_queue q s) /\
    holds (tail items) (with_queue q s).
Proof.
  intros (q & Hq & Hcap & Hitems & Hlen). unfold pop. rewrite Hq.
  destruct (aq_pop_spec q) as (q' & Hcap' & -> & Hi). rewrite Hitems in *.
  exists q'. split; [done|]. exists q'. split_and!; [done|lia|done|].
  destruct items; cbn in *; lia.
Qed.
(** What holds after a history in which [arrived] came in. *)
Record stream_inv (arrived : list Z) (n : nat) (items : list Z) (x : world) : Prop := {
  si_holds : holds items (input x);
  si_accepted : sublist (delivered x ++ items) arrived;
  si_count : length arrived = (length (delivered x ++ items) + n)%nat;
  si_waiting t : waiting x = Some t ->
    items = [] /\ aw_registered (WAKER (input x)) = Some t \/ t ∈ woken (input x);
}.

(** After an event: what came in was queued behind [items]. *)
Lemma stream_inv_grow arrived n items fresh codes m (x : world) s' out w :
  stream_inv arrived n items x -> sublist fresh codes -> length codes = (length fresh + m)%nat ->
  forall rest, holds rest s' -> out ++ rest = delivered x ++ items ++ fresh ->
  (forall t, w = Some t -> rest = [] /\ aw_registered (WAKER s') = Some t \/ t ∈ woken s') ->
  stream_inv (arrived ++ codes) (n + m) rest (mkWorld s' out w).
Proof.
  intros [_ Ha Hc _] Hs Hm rest Hh Heq Hw. constructor; cbn; [done| | |done]; rewrite Heq, app_assoc.
  - by apply sublist_app.
  - rewrite !length_app in *. lia.
Qed.

Lemma poll_spec cx first second third items s :
  holds items s -> exists fresh n r s', poll_next cx first second third s = Done (r, s') /\
    sublist fresh (first ++ second ++ third) /\
    length (first ++ second ++ third) = (length fresh + n)%nat /\
    shown s' = shown s ++ full_lines n /\
    match r with
    | Ready c => exists rest, items ++ fresh = c :: rest /\ holds rest s'
    | Pending => items = [] /\ holds fresh s' /\
        (fresh = [] /\ aw_registered (WAKER s') = Some cx \/ cx ∈ woken s')
    end.
Proof.
  intros Hh. unfold poll_next. destruct (pop_spec items s Hh) as (q & -> & Hh1).
  cbn [mbind outcome_bind]. destruct items as [|c items]; cbn [head tail] in *.
  - destruct (arrive_spec first [] _ Hh1) as (f1 & n1 & [Hs1 Hc1 _ Hp1 _ _ _] & Hh2).
    set (s2 := with_waker _ _).
    assert (Hh2' : holds f1 s2) by (destruct Hh2 as (q2 & ?); by exists q2).
    destruct (arrive_spec second f1 s2 Hh2') as (f2 & n2 & [Hs2 Hc2 _ Hp2 Hq2 Hw2 Hk2] & Hh3).
    destruct (pop_spec _ _ Hh3) as (q3 & -> & Hh4). cbn [mbind outcome_bind].
    destruct (arrive_spec third _ _ Hh4) as (f3 & n3 & [Hs3 Hc3 _ Hp3 Hq3 Hw3 Hk3] & Hh5).
    exists (f1 ++ f2 ++ f3), (n1 + (n2 + n3))%nat.
    destruct (f1 ++ f2) as [|c rest] eqn:Hf; cbn [head tail] in *; do 2 eexists; (split; [done|]).
    all: split; [by repeat apply sublist_app|split; [rewrite !length_app; lia|split]].
    + rewrite Hp3. cbn. rewrite Hp2. cbn. rewrite Hp1. cbn. by rewrite !full_lines_add, !app_assoc.
    + apply app_nil in Hf as [-> ->]. split; [done|]. cbn in *. split; [done|].
      destruct Hq2 as [Hreg _]; [done|]. cbn in Hreg. rewrite aw_register_some in Hreg.
      destruct (decide (f3 = [])) as [->|Hne]; [left|right].
      * split; [done|]. destruct Hq3 as [-> _]; done.
      * by apply Hk3.
    + cbn. rewrite Hp3. cbn. rewrite Hp2. cbn. rewrite Hp1. cbn. by rewrite !full_lines_add, !app_assoc.
    + exists (rest ++ f3). split; [cbn; by rewrite (app_assoc f1), Hf|]. destruct Hh5 as (q5 & ?). by exists q5.
  - destruct (arrive_spec first items _ Hh1) as (f1 & n1 & H1' & Hh2).
    destruct (arrive_spec second _ _ Hh2) as (f2 & n2 & H2' & Hh3).
    destruct (arrive_spec third _ _ Hh3) as (f3 & n3 & H3' & Hh4).
    pose proof (came_in_trans _ _ _ _ _ _ _ _ _ H1' (came_in_trans _ _ _ _ _ _ _ _ _ H2' H3')) as [? ? _ Hp _ _ _].
    exists (f1 ++ f2 ++ f3), (n1 + (n2 + n3))%nat, (Ready c). eexists. split; [done|].
    split; [done|]. split; [done|]. split; [exact Hp|]. exists (items ++ f1 ++ f2 ++ f3).
    split; [done|]. by rewrite !app_assoc in *.
Qed.

Lemma play_spec e arrived n items x :
  stream_inv arrived n items x -> exists m items' x', play e x = Done x' /\
    shown (input x') = shown (input x) ++ full_lines m /\
    stream_inv (arrived ++ event_codes e) (n + m) items' x'.
Proof.
  intros Hi. destruct e as [c|cx first second third]; cbn [play event_codes].
  - destruct (add_scancode_spec c items _ (si_holds _ _ _ _ Hi)) as (f & m & [Hs Hc _ Hp Hq Hw Hk] & Hh).
    exists m, (items ++ f). eexists. split; [done|]. split; [done|].
    eapply stream_inv_grow; [done..|]. intros t Ht.
    destruct (si_waiting _ _ _ _ Hi t Ht) as [[-> Hreg]|Hin]; [|right; auto].
    destruct (decide (f = [])) as [->|Hne]; [left|right; by apply Hk].
    split; [done|]. destruct Hq as [-> _]; done.
  - set (s0 := mkInput _ _ [] _).
    assert (Hh : holds items s0) by (destruct (si_holds _ _ _ _ Hi) as (q & ?); by exists q).
    destruct (poll_spec cx first second third items s0 Hh) as (f & m & r & s' & -> & Hs & Hc & Hp & Hr).
    cbn [mbind outcome_bind]. destruct r as [c|].
    + destruct Hr as (rest & Heq & Hrest). exists m, rest. eexists. split; [done|]. split; [done|].
      eapply stream_inv_grow; [done..| |done]. by rewrite Heq, <-app_assoc.
    + destruct Hr as (-> & Hf & Hw). exists m, f. eexists. split; [done|]. split; [done|].
      eapply stream_inv_grow; [done..|]. by intros t [= ->].
Qed.

Lemma for_each_play es : forall arrived n items x,
  stream_inv arrived n items x -> exists m items' x', for_each es play x = Done x' /\
    shown (input x') = shown (input x) ++ full_lines m /\
    stream_inv (arrived ++ (es ≫= event_codes)) (n + m) items' x'.
Proof.
  induction es as [|e es IH]; intros arrived n items x Hi.
  - exists 0%nat, items, x. by rewrite !app_nil_r, Nat.add_0_r.
  - destruct (play_spec e _ _ _ _ Hi) as (m1 & i1 & x1 & Hp & Hs1 & Hi1).
    destruct (IH _ _ _ _ Hi1) as (m2 & i2 & x2 & Hr & Hs2 & Hi2).
    exists (m1 + m2)%nat, i2, x2. cbn [for_each]. rewrite Hp. cbn [mbind outcome_bind].
    split; [done|]. rewrite Hs2, Hs1, full_lines_add, bind_cons, !app_assoc in *.
    by rewrite Nat.add_assoc.
Qed.
End Histories.
End Scancodes.

(** ** Properties *)

(** C35: the stream of scancodes.  Whatever the interleaving of keyboard
    interrupts with the polls of the tasks, interrupts in the middle of a poll
    included, nothing panics; the scancodes delivered, followed by those in the
    queue, are in order those that arrived, less [n] that found the queue full,
    each of which printed one line; and a task that was told to wait while a
    scancode is in the queue has been woken since. *)
Theorem scancode_stream {Q W} `{ArrayQueueLaws Q} `{AtomicWakerLaws W} (s : Input Q W)
    (es : list Scancodes.event) (Hboot : SCANCODE_QUEUE s = None) :
  exists s' n items x, Scancodes.new s = Done s' /\
    for_each es Scancodes.play (Scancodes.mkWorld s' [] None) = Done x /\
    let arrived := es ≫= Scancodes.event_codes in
    sublist (Scancodes.delivered x ++ items) arrived /\
    length arrived = (length (Scancodes.delivered x ++ items) + n)%nat /\
    Scancodes.holds items (Scancodes.input x) /\
    shown (Scancodes.input x) = shown s ++ Scancodes.full_lines n /\
    (forall t, Scancodes.waiting x = Some t -> items ≠ [] -> t ∈ woken (Scancodes.input x)).
Proof.
  unfold Scancodes.new. rewrite Hboot. set (s' := Scancodes.with_queue _ s).
  destruct (aq_new_empty 100) as [He Hc]; [done|].
  destruct (Scancodes.for_each_play es [] 0 [] (Scancodes.mkWorld s' [] None))
    as (n & items & x & Hrun & Hshown & [Hh Ha Hcount Hw]).
  { constructor; [|done..]. eexists. split_and!; [done..|cbn; lia]. }
  exists s', n, items, x. split_and!; [done..|]. intros t Ht Hne.
  by destruct (Hw t Ht) as [[-> _]|].
Qed.

(** ** At concrete inputs *)

(** A queue as its items and its capacity, a waker cell as its content. *)
Definition list_queue : ArrayQueue (list Z * Z) := {|
  aq_new n := ([], n);
  aq_push c q := if decide (Z.of_nat (length q.1) < q.2) then (Ok tt, (q.1 ++ [c], q.2)) else (Err c, q);
  aq_pop q := (head q.1, (tail q.1, q.2));
|}.

Lemma list_queue_laws : @ArrayQueueLaws _ list_queue.
Proof.
  refine {| aq_items := fst; aq_capacity := snd |}; [done| |].
  - intros c q. cbn. case_decide; eexists; (split; [|split; done]); done.
  - intros q. eexists. split; [|split; done]. done.
Defined.

Definition option_waker : AtomicWaker (option Z) := {|
  aw_new := None;
  aw_register t _ := Some t;
  aw_take w := (w, None);
|}.

Lemma option_waker_laws : @AtomicWakerLaws _ option_waker.
Proof. refine {| aw_registered := id |}; [done..|]. intros w. by exists None. Defined.

#[local] Existing Instances list_queue list_queue_laws option_waker option_waker_laws.

(** Task 7 waits, one scancode arrives just before it would sleep, and it is
    polled again. *)
Definition no_input : Input (list Z * Z) (option Z) := mkInput None None [] [].
Definition two_polls : list Scancodes.event :=
  [Scancodes.Task 7 [] [] [0x1E]; Scancodes.Interrupt 0x9E; Scancodes.Task 7 [] [] []].

Lemma scancode_stream_witness :
  exists x, for_each two_polls Scancodes.play
      (Scancodes.mkWorld (Scancodes.with_queue ([], 100) no_input) [] None) = Done x /\
    Scancodes.delivered x = [0x1E] /\ Scancodes.holds [0x9E] (Scancodes.input x).
Proof.
  destruct (scancode_stream no_input two_polls eq_refl)
    as (s' & n & items & x & Hnew & Hrun & _ & _ & Hh & _).
  injection Hnew as <-. exists x. split; [exact Hrun|].
  vm_compute in Hrun. injection Hrun as <-. split; [reflexivity|].
  exists ([0x9E], 100). split_and!; [reflexivity..|]. cbn. lia.
Defined.
