(* ===== verification/Arena.v ===== *)
(** * A concrete machine

    The smallest instances of the interfaces of Kernel.v and Irq.v, on which
    the theorems about the kernel are run: a memory manager that hands out
    addresses in order, segment selectors in the order gdt.rs adds the
    entries, and a decoder that takes a scancode for the character itself. *)
From S2P Require Import Prelude Vga Keyboard Abi Sync Isf Thread Kernel Syscall Irq.

Definition arena : MemoryManager Z := {|
  allocate_user_stack _ n_start m :=
    Done (Ok (m, m + USER_STACK_SIZE), m + USER_STACK_SIZE);
  free_user_stack _ _ m := Done (Ok tt, m);
  free_user_pagetables _ m := Done m;
  kernel_page_tables _ := 0x1000;
  vec_with_capacity size m := Done (m, m + size);
  vec_drop _ _ m := Done m;
  read_byte _ address m := address mod 0x80;
  remaps := eq;
|}.

Definition flat_gdt : Selectors := mkSelectors 8 16 24 43 51.

Definition plain_keyboard : KeyboardDecoder unit := {|
  decode_scancode u scancode := (u, Some (Unicode scancode));
|}.

(** A user thread and a kernel with a running thread and a queue. *)
Definition demo_thread (tid proc ctx : Z) : Thread := {|
  thread_id := tid; process := proc; kernel_stack := mkVec (tid * 0x10000) KERNEL_STACK_SIZE;
  kernel_stack_end := tid * 0x10000 + KERNEL_STACK_SIZE; context := ctx;
  user_stack_end := 0; page_table_phys := 0; thread_type := User;
|}.

Definition demo_kernel (running : option Thread) (queue : list Thread) : kernel Z := {|
  memory := ∅; WAIT_QUEUE := queue; RUNNING_THREAD := running; COUNTER := 10;
  process_heap := {[ 7 := mkProcess 0 [Some 0; None; Some 3] ]};
  socket_heap := ∅; cr3 := 0;
  interrupt_stack_table := <[1%nat := from_option kernel_stack_end 0 running]> (replicate 7 0);
  printed := []; mm := 0x100000;
|}.

(** A thread reads the keyboard socket when the key A is pressed. *)
Definition reading_kernel : kernel Z :=
  with_sockets {[KEYBOARD_SOCKET := Socket.Receiving (demo_thread 3 7 0x5000) None]}
    (demo_kernel (Some (demo_thread 1 7 0)) []).

Lemma key_press_witness :
  exists k', keyboard_handler_inner (H := plain_keyboard) 0x3000 tt 65 reading_kernel =
      Done (0x5000, tt, k') /\ printed k' = [65] /\
    RUNNING_THREAD k' = Some (demo_thread 3 7 0x5000) /\
    reply_payload (demo_thread 3 7 0x5000) (memory k') = Packet MESSAGE_TYPE_KEY 65 0.
Proof.
  destruct (key_press (H := plain_keyboard) reading_kernel 0x3000 tt tt 65 65
    (demo_thread 1 7 0) eq_refl eq_refl eq_refl)
    as (a & k' & Hk & Hpr & -> & Hr & _ & _ & _ & Hp).
  exists k'. done.
Defined.
