(* ===== verification/System.v ===== *)
(** * The kernel as a transition system

    The entry points of the kernel (system calls, the two interrupts, the
    creation of threads, the message kernel_thread_main sends) and the work of
    the rest of the kernel (mapping pages, printing, creating sockets) as the
    steps of one relation on the state of Kernel.v, and the invariants of every
    state it reaches. *)
From S2P Require Import Prelude Text Abi Sync Isf Thread Kernel Syscall Spawn Irq Arena.

Section System.
Context {MM K : Type} `{MemoryManager MM} {gdt : Selectors} `{KeyboardDecoder K}.
Implicit Types (k : kernel MM).

(** The end of [kernel_thread_main] (kernel/src/main.rs): the identifier of
    the user thread is sent to ID_SOCKET and the threads the call returns
    are dropped with the statement's temporary. *)
Definition notify_id (proc_id : Z) k : outcome (kernel MM) :=
  let '((thread1, thread2), k) := kernel_send ID_SOCKET (Packet proc_id 0 0) k in
  drop_threads (option_list thread1 ++ option_list thread2) k.

(** The state before the first thread is created: the four static sockets
    are empty, nothing is queued; [shown] was printed while booting. *)
Definition initial (shown : list Z) (table : Z) (ist : list Z) (mem : MM) : kernel MM :=
  {| memory := ∅; WAIT_QUEUE := []; RUNNING_THREAD := None; COUNTER := 0;
     process_heap := ∅;
     socket_heap := {[KEYBOARD_SOCKET := Socket.Empty; ID_SOCKET := Socket.Empty;
                      FIN_SOCKET := Socket.Empty; PROC_FIN_SOCKET := Socket.Empty]};
     cr3 := table; interrupt_stack_table := ist; printed := shown; mm := mem |}.

(** Identifiers are 64-bit: a step that may draw two of them is taken while
    fewer than 2^64 - 2 have been drawn. *)
Definition ids_left k : Prop := COUNTER k + 2 < 2 ^ 64.

(** The entry points; [context_ptr] and [context_addr] are where the entry code
    saved the registers [regs]. *)
Definition interrupted (context_addr : Z) (regs : Isf.ISF) k : kernel MM :=
  with_memory (Isf.store context_addr regs (memory k)) k.

(** What code of the kernel outside the scheduler does between the other steps:
    it maps pages and fills them, changes the page table, prints, and creates
    sockets. *)
Inductive works : kernel MM -> kernel MM -> Prop :=
| WorkRemap k m : remaps (mm k) m -> works k (with_mm m k)
| WorkTable k table : works k (with_cr3 table k)
| WorkPrint k s : is_utf8 s = true -> works k (print s k)
| WorkSocket k s : s ∉ dom (socket_heap k) ->
    works k (with_sockets (<[s := Socket.Empty]> (socket_heap k)) k).

Inductive event :=
| Syscall (context_ptr : Z) (regs : Isf.ISF)
| Timer (context_addr : Z) (regs : Isf.ISF)
| Key (context_addr : Z) (regs : Isf.ISF) (keyboard : K) (scancode : Z)
| SpawnKernel (function : Z) (handles : list Z)
| SpawnUser (entry table : Z) (params : list Z)
| Notify (proc_id : Z)
| Work.

Inductive step : event -> kernel MM -> kernel MM -> Prop :=
| StepSyscall context_ptr regs k c k' :
    ids_left k -> handle_syscall context_ptr regs k = Done (c, k') ->
    step (Syscall context_ptr regs) k k'
| StepTimer context_addr regs k a k' :
    timer_handler context_addr (interrupted context_addr regs k) = Done (a, k') ->
    step (Timer context_addr regs) k k'
| StepKeyboard context_addr regs (keyboard : K) scancode k a keyboard' k' :
    keyboard_handler_inner context_addr keyboard scancode (interrupted context_addr regs k) =
      Done (a, keyboard', k') ->
    step (Key context_addr regs keyboard scancode) k k'
| StepSpawnKernel function handles k uid k' :
    ids_left k -> spawn_kernel_thread function handles k = Done (uid, k') ->
    step (SpawnKernel function handles) k k'
| StepSpawnUser entry table params k r k' :
    ids_left k -> initialise_thread entry table params k = Done (r, k') ->
    step (SpawnUser entry table params) k k'
| StepNotify proc_id k k' :
    notify_id proc_id k = Done k' -> step (Notify proc_id) k k'
| StepWork k k' : works k k' -> step Work k k'.

(** The states after boot, from a memory that satisfies [boot], and any sequence
    of events [ok] allows. *)
Inductive reachable_by (boot : MM -> Prop) (ok : kernel MM -> event -> Prop) : kernel MM -> Prop :=
| ReachInitial shown table ist mem :
    length ist = 7%nat -> boot mem -> reachable_by boot ok (initial shown table ist mem)
| ReachStep e k k' :
    reachable_by boot ok k -> ok k e -> step e k k' -> reachable_by boot ok k'.

Definition reachable : kernel MM -> Prop := reachable_by (fun _ => True) (fun _ _ => True).

(** What a kernel thread does: it creates threads, works and sends the message. *)
Definition thread_event (e : event) : Prop :=
  match e with
  | SpawnKernel _ _ | SpawnUser _ _ _ | Notify _ | Work => True
  | _ => False
  end.

Definition thread_step k k' : Prop := exists e, thread_event e /\ step e k k'.

Lemma thread_steps_reach boot (ok : kernel MM -> event -> Prop) k k' :
  (forall k e, thread_event e -> ok k e) ->
  reachable_by boot ok k -> rtc thread_step k k' -> reachable_by boot ok k'.
Proof.
  intros Hok Hr Hs. induction Hs as [|k k1 k' (e & He & Hstep) _ IH]; [done|].
  apply IH. by eapply ReachStep; [|apply Hok|].
Qed.

Lemma works_step k k' : works k k' -> thread_step k k'.
Proof. intros Hw. exists Work. split; [done|by constructor]. Qed.

(** ** The invariant *)

Record wf k : Prop := {
  wf_nodup : NoDup (tids k);
  wf_issued : Forall (fun id => 1 <= id <= COUNTER k) (tids k);
  wf_counter : 0 <= COUNTER k < 2 ^ 64;
  wf_ist : length (interrupt_stack_table k) = 7%nat;
  wf_on_stack : on_stack k;
}.

(** Steps that draw no identifier: threads may only disappear. *)
Lemma wf_submseteq k k' :
  wf k -> tids k' ⊆+ tids k -> COUNTER k <= COUNTER k' < 2 ^ 64 ->
  length (interrupt_stack_table k') = length (interrupt_stack_table k) -> on_stack k' -> wf k'.
Proof.
  intros [Hn Hi Hc Hl _] Hs Hcc Hll Ho. constructor; [| | |congruence|done].
  - apply submseteq_Permutation in Hs as [l Hp]. rewrite Hp in Hn.
    by apply NoDup_app in Hn as [? _].
  - apply Forall_forall. intros i Hin. rewrite Forall_forall in Hi.
    apply submseteq_Permutation in Hs as [l Hp].
    specialize (Hi i). rewrite Hp in Hi. specialize (Hi (proj2 (elem_of_app _ _ _) (or_introl Hin))).
    lia.
  - lia.
Qed.

Lemma wf_unmoved k k' : wf k -> unmoved thread_id k k' -> on_stack k' -> wf k'.
Proof.
  intros Hwf [Ht Hc Hi%other_stacks_length _] Ho.
  apply (wf_submseteq k); [done|by apply Permutation_submseteq|destruct Hwf; lia|done..].
Qed.

(** Steps that create a thread with an identifier not yet issued. *)
Lemma wf_create k k' id :
  wf k -> tids k' ≡ₚ id :: tids k -> COUNTER k < id <= COUNTER k' -> COUNTER k' < 2 ^ 64 ->
  RUNNING_THREAD k' = RUNNING_THREAD k -> interrupt_stack_table k' = interrupt_stack_table k ->
  wf k'.
Proof.
  intros [Hn Hi Hc Hl Ho] Hp Hid Hc' Hrun Hll. rewrite Forall_forall in Hi. constructor.
  - rewrite Hp. constructor; [|done]. intros Hin. specialize (Hi _ Hin). lia.
  - rewrite Hp. constructor; [lia|]. apply Forall_forall. intros i Hin.
    specialize (Hi _ Hin). lia.
  - lia.
  - congruence.
  - unfold on_stack. by rewrite Hrun, Hll.
Qed.

Lemma wf_memory m k : wf k -> wf (with_memory m k).
Proof. intros [? ? ? ? ?]. by constructor. Qed.

Lemma wf_initial shown table ist mem : length ist = 7%nat -> wf (initial shown table ist mem).
Proof. intros Hl. by constructor; [apply NoDup_nil_2|constructor|simpl; lia|..]. Qed.

Lemma wf_issue k : wf k -> ids_left k ->
  COUNTER k +w 1 = COUNTER k + 1 /\ COUNTER k +w 1 +w 1 = COUNTER k + 2.
Proof.
  intros [_ _ Hc _ _] Hl. unfold ids_left in Hl.
  assert (COUNTER k +w 1 = COUNTER k + 1) as -> by (apply wrap64_small; unfold is_u64; lia).
  split; [done|]. rewrite wrap64_small; unfold is_u64; lia.
Qed.

(** It touches no thread. *)
Lemma works_frame k k' : works k k' ->
  WAIT_QUEUE k' = WAIT_QUEUE k /\ RUNNING_THREAD k' = RUNNING_THREAD k /\
  parked (socket_heap k') ≡ₚ parked (socket_heap k) /\ COUNTER k' = COUNTER k /\
  memory k' = memory k /\ interrupt_stack_table k' = interrupt_stack_table k /\
  (mm k' = mm k \/ remaps (mm k) (mm k')).
Proof.
  intros [k0 m Hm|k0 table|k0 s Hs|k0 s Hs]; split_and!; try done; auto. cbn.
  rewrite parked_insert, delete_id; [done|]. by apply not_elem_of_dom.
Qed.

Lemma works_owned {X} (f : Thread -> X) k k' : works k k' -> owned f k' ≡ₚ owned f k.
Proof.
  intros (Hq & Hr & Hp & _)%works_frame. unfold owned, all_threads. by rewrite Hq, Hr, Hp.
Qed.

(** Every call that is neither fork nor exit moves threads. *)
Lemma dispatch_cases context_ptr regs k c k' :
  wf k -> handle_syscall context_ptr regs k = Done (c, k') ->
  exists m, let k0 := with_memory m k in
  match Z.land (Isf.rax regs) 0xFF with
  | 0 => fork_current_thread context_ptr k0 = Done (c, k')
  | 1 => exit_current_thread context_ptr k0 = Done (c, k')
  | _ => (forall X (f : Thread -> X), keeps_running f context_ptr k -> unmoved f k k') /\ on_stack k'
  end.
Proof.
  intros Hwf Hd. unfold handle_syscall, dispatch_syscall in Hd.
  destruct (if decide _ then _ else _) as [code data] in Hd.
  match type of Hd with context [Isf.write ?a ?b ?v ?m] =>
    exists (Isf.write a b v m); set (k0 := with_memory (Isf.write a b v m) _) in Hd end.
  cbn zeta. change (with_memory _ k) with k0.
  assert (Hn : NoDup (tids k0)) by apply Hwf. assert (Ho : on_stack k0) by apply Hwf.
  assert (Hsame : (forall X (f : Thread -> X), keeps_running f context_ptr k0 -> unmoved f k0 k') ->
    forall X (f : Thread -> X), keeps_running f context_ptr k -> unmoved f k k').
  { intros Hm X f Hf. apply Hm in Hf as [? ? ? ?]. by constructor. }
  clearbody k0. generalize dependent (Z.land (Isf.rax regs) 0xFF). intros op Hd.
  repeat case_match; subst; try exact Hd; (split; [apply Hsame; intros X f Hf|]).
  all: first
    [ by eapply print_unmoved | by eapply sys_write_unmoved
    | by eapply (sys_receive_unmoved f) | by eapply (sys_send_unmoved f)
    | by eapply (sys_yield_unmoved f) | by eapply sys_receive_on_stack
    | by eapply sys_send_on_stack
    | by unfold sys_yield in Hd; bind_Done Hd; destruct r; simplify_eq; eapply schedule_on_stack
    | by unfold sys_write in Hd; repeat case_match; simplify_eq
    | by apply Done_inj in Hd; injection Hd as <- <- ].
Qed.

Lemma wf_syscall context_ptr regs k c k' :
  wf k -> ids_left k -> handle_syscall context_ptr regs k = Done (c, k') -> wf k'.
Proof.
  intros Hwf Hl Hd. destruct (dispatch_cases _ _ _ _ _ Hwf Hd) as [m Hc]. cbn zeta in Hc.
  pose proof (wf_memory m k Hwf) as Hwf0.
  assert (Hmove : (forall X (f : Thread -> X), keeps_running f context_ptr k -> unmoved f k k') /\
    on_stack k' -> wf k').
  { intros [Hm Ho]. apply (wf_unmoved k); [done|apply Hm; auto with zephyr|done]. }
  repeat case_match; auto.
  - apply (fork_cases thread_id) in Hc as (Hi & Hr & Hist & Hc).
    destruct (wf_issue k Hwf Hl) as [Hw1 Hw2]. cbn [COUNTER with_memory] in Hc. unfold ids_left in Hl.
    destruct Hc as [[Ht Hc]|(t & stack & mm1 & p & Ht & Hid & Hc & _)].
    + rewrite Hw1 in Hc. apply (wf_submseteq k); [done|by apply Permutation_submseteq| |done|].
      * destruct Hwf. destruct Hc as [[Hc _]|[Hc _]]; cbn in *; lia.
      * unfold on_stack. rewrite Hr, Hist. apply Hwf.
    + rewrite Hw2 in Hc. apply (wf_create k _ (thread_id t)); [done|done|lia|lia|done|done].
  - apply (exit_unmoved thread_id) in Hc as (Ht & Hc & _ & Hr & Hi).
    apply (wf_submseteq k); [done|done| |by rewrite Hi|by unfold on_stack; rewrite Hr].
    rewrite Hc. split; [done|apply Hwf].
Qed.

Lemma notify_submseteq {X} (f : Thread -> X) pid k k' :
  notify_id pid k = Done k' ->
  owned f k' ⊆+ owned f k /\ COUNTER k' = COUNTER k /\ RUNNING_THREAD k' = RUNNING_THREAD k /\
  interrupt_stack_table k' = interrupt_stack_table k.
Proof.
  unfold notify_id. destruct (kernel_send _ _ _) as [[t1 t2] k1] eqn:Hk. intros Hd.
  apply kernel_send_all in Hk as (Ht & Hc & Hi & _ & Hr1).
  apply drop_threads_same in Hd as (Hq & Hr & Hs & Hc' & _ & Hi').
  split; [|split; [congruence|split; congruence]].
  unfold owned. rewrite <-Ht. unfold all_threads at 1. rewrite Hq, Hr, Hs.
  by apply fmap_submseteq, submseteq_inserts_l.
Qed.

Lemma wf_step e k k' : wf k -> step e k k' -> wf k'.
Proof.
  intros Hwf Hs. destruct Hs as [ctx regs k c k' Hl Hd|ctx regs k a k' Hd|ctx regs kb sc k a kb' k' Hd
    |f hs k uid k' Hl Hd|e tb ps k r k' Hl Hd|pid k k' Hd|k k' Hd].
  - by eapply wf_syscall.
  - unfold timer_handler in Hd. apply (wf_unmoved (interrupted ctx regs k));
      [by apply wf_memory| |by eapply schedule_on_stack].
    eapply schedule_unmoved; [|done]. auto with zephyr.
  - apply (wf_unmoved (interrupted ctx regs k)); [by apply wf_memory|
      |by eapply keyboard_on_stack; [|exact Hd]; apply Hwf].
    eapply keyboard_unmoved; [|done]. auto with zephyr.
  - destruct (wf_issue k Hwf Hl) as [Hw1 Hw2]. unfold ids_left in Hl.
    apply (spawn_kernel_thread_cases thread_id) in Hd
      as (t & p & Ht & Hid & Hu & Hc & _ & _ & _ & _ & Hr & Hi). rewrite Hw1 in Hu.
    apply (wf_create k _ uid); [done|by rewrite <-Hid|lia|lia|done..].
  - destruct (wf_issue k Hwf Hl) as [Hw1 Hw2]. unfold ids_left in Hl.
    apply (initialise_thread_cases thread_id) in Hd
      as (Hc & Hr & Hi & p & mm1 & stack & mm2 & _ & _ & Hcase). rewrite Hw2 in Hc.
    destruct r as [uid|e'].
    + destruct Hcase as (t & Hu & Ht & Hid & _). rewrite Hw1 in Hu.
      apply (wf_create k _ uid); [done|by rewrite <-Hid|lia|lia|done..].
    + destruct Hcase as [Ht _].
      apply (wf_submseteq k); [done|by unfold tids; rewrite Ht| |by rewrite Hi|].
      * destruct Hwf. lia.
      * unfold on_stack. rewrite Hr, Hi. apply Hwf.
  - apply (notify_submseteq thread_id) in Hd as (Ht & Hc & Hr & Hi).
    apply (wf_submseteq k); [done|done|destruct Hwf; lia|by rewrite Hi|].
    unfold on_stack. rewrite Hr, Hi. apply Hwf.
  - apply (works_owned thread_id) in Hd as Ht.
    destruct (works_frame _ _ Hd) as (_ & Hr & _ & Hc & _ & Hi & _).
    apply (wf_submseteq k); [done|by apply Permutation_submseteq|destruct Hwf; lia|by rewrite Hi|].
    unfold on_stack. rewrite Hr, Hi. apply Hwf.
Qed.

(** No step gives another stack than the timer's. *)
Lemma step_other_stacks e k k' : wf k -> step e k k' -> other_stacks k' = other_stacks k.
Proof.
  intros Hwf Hs. unfold other_stacks.
  destruct Hs as [ctx regs k c k' Hl Hd|ctx regs k a k' Hd|ctx regs kb sc k a kb' k' Hd
    |f hs k uid k' Hl Hd|e tb ps k r k' Hl Hd|pid k k' Hd|k k' Hd].
  - destruct (dispatch_cases _ _ _ _ _ Hwf Hd) as [m Hc]. cbn zeta in Hc.
    assert (Hmove : (forall X (f : Thread -> X), keeps_running f ctx k -> unmoved f k k') /\
      on_stack k' -> other_stacks k' = other_stacks k).
    { intros [Hm _]. apply (um_ist thread_id). apply Hm. auto with zephyr. }
    repeat case_match; auto.
    + apply (fork_cases thread_id) in Hc as (_ & _ & -> & _). done.
    + apply (exit_unmoved thread_id) in Hc as (_ & _ & _ & _ & ->). done.
  - by apply schedule_frame in Hd as (_ & _ & _ & _ & _ & Hi).
  - eapply (um_ist thread_id (interrupted ctx regs k)), keyboard_unmoved; [|done]. auto with zephyr.
  - by apply (spawn_kernel_thread_cases thread_id) in Hd
      as (t & p & _ & _ & _ & _ & _ & _ & _ & _ & _ & ->).
  - by apply (initialise_thread_cases thread_id) in Hd as (_ & _ & -> & _).
  - by apply (notify_submseteq thread_id) in Hd as (_ & _ & _ & ->).
  - by apply works_frame in Hd as (_ & _ & _ & _ & _ & -> & _).
Qed.

Lemma wf_reachable boot ok k : reachable_by boot ok k -> wf k.
Proof. induction 1; [by apply wf_initial|by eapply wf_step]. Qed.

(** ** Properties *)

(** C1: thread ownership.  In every state the kernel reaches, whatever the
    interleaving of system calls, timer and keyboard interrupts, forks, exits
    and thread creations, no thread is in two places (in the queue, running,
    or parked in a socket) and all identifiers are distinct and were issued. *)
Theorem threads_owned_once k (Hr : reachable k) :
  NoDup (tids k) /\ Forall (fun id => 1 <= id <= COUNTER k) (tids k).
Proof. by destruct (wf_reachable _ _ k Hr). Qed.
End System.

(** Two kernel threads are created, a timer interrupt starts the second, it
    waits on the socket of its handle 0, and the first is started. *)
Definition boot0 : kernel Z := initial [] 0x1000 (replicate 7 0) 0x100000.
Definition boot1 : kernel Z :=
  (done_or (0, boot0)
    (spawn_kernel_thread (H := arena) (gdt := flat_gdt) 0x5000 [] boot0)).2.
Definition boot2 : kernel Z :=
  (done_or (0, boot1)
    (spawn_kernel_thread (H := arena) (gdt := flat_gdt) 0x6000 [3] boot1)).2.
(** Registers at the first interrupt. *)
Definition boot_regs : Isf.ISF := Isf.of_fun (fun _ => 0).

Definition boot3 : kernel Z :=
  (done_or (0, boot2) (timer_handler 0 (interrupted 0 boot_regs boot2))).2.
Definition receive_regs : Isf.ISF :=
  Isf.of_fun (fun f => match f with Isf.RAX => 3 | _ => 0 end).
Definition boot4 : kernel Z :=
  (done_or (Return, boot3)
    (handle_syscall (H := arena) (gdt := flat_gdt) 0x110000 receive_regs boot3)).2.

Lemma threads_owned_once_witness :
  thread_id <$> ready boot4 = [1] /\
    NoDup (tids boot4) /\ Forall (fun id => 1 <= id <= COUNTER boot4) (tids boot4).
Proof.
  split; [vm_compute; reflexivity|].
  apply (threads_owned_once (H := arena) (gdt := flat_gdt) (H0 := plain_keyboard)).
  apply (ReachStep _ _ (Syscall 0x110000 receive_regs) boot3); [|done|].
  - apply (ReachStep _ _ (Timer 0 boot_regs) boot2); [|done|].
    + apply (ReachStep _ _ (SpawnKernel 0x6000 [3]) boot1); [|done|].
      * apply (ReachStep _ _ (SpawnKernel 0x5000 []) boot0); [|done|].
        { by apply (ReachInitial _ _ [] 0x1000 (replicate 7 0) 0x100000). }
        apply (StepSpawnKernel 0x5000 [] boot0 1 boot1); vm_compute; reflexivity.
      * apply (StepSpawnKernel 0x6000 [3] boot1 2 boot2); vm_compute; reflexivity.
    + apply (StepTimer 0 boot_regs boot2 (from_option context 0 (RUNNING_THREAD boot3)) boot3).
      vm_compute; reflexivity.
  - apply (StepSyscall 0x110000 receive_regs boot3
      (Launch (from_option context 0 (RUNNING_THREAD boot4))) boot4); vm_compute; reflexivity.
Defined.
