(* ===== verification/Loader.v ===== *)
(** * Loading programs (kernel/src/proc/process.rs)

    From the bytes of an ELF file to a thread at its entry point:
    [validate_binary], [load_binary_into_memory] and [spawn_user_thread].  The
    ELF parser is the crate object, a parameter here; the segments are copied
    through the page tables of the new program, so a byte is written where
    the active table translates its address to. *)
From S2P Require Import Prelude Text Logger Heap Bump FixedBlock Frames Paging Vga Abi Sync Isf Thread Mapping Kernel Syscall Spawn Irq Arena System.

Module Elf.

(** What the loader reads of [object::File]; [data] fails for a segment
    outside the file. *)
Record Segment := mkSegment {
  address : Z;
  size : Z;
  data : option (list Z);
}.

Record File := mkFile {
  entry : Z;
  segments : list Segment;
}.
End Elf.

(** [object::File::parse] *)
Class ElfParser := {
  parse : list Z -> option Elf.File;
}.

(** Physical memory byte by byte, and the copy of the kernel's tables. *)
Class PhysicalMemory (MM : Type) := {
  physical_byte : Z -> MM -> Z;
  write_physical : Z -> Z -> MM -> MM;
  create_kernel_only_pagetable : MM -> outcome (Z * MM);
}.

Section Loader.
Context {MM : Type} `{MemoryManager MM} {gdt : Selectors} `{VirtPages} `{Mapper MM}
  `{PhysicalMemory MM} `{ElfParser}.
Implicit Types (k : kernel MM) (m : MM).

Definition MAGIC_BYTES : list Z := [0x7F; 0x45; 0x4C; 0x46].

(** [validate_binary]: the slice [bin\[0..4\]] panics on a shorter file. *)
Definition validate_binary (bin : list Z) : outcome bool :=
  if decide (4 <= length bin)%nat then Done (bool_decide (take 4 bin = MAGIC_BYTES)) else Panic.

(** [parse_elf_binary] *)
Definition parse_elf_binary (bin : list Z) : result Elf.File string :=
  match parse bin with
  | Some obj => Ok obj
  | None => Err "Could not parse ELF"%string
  end.

(** A store of the kernel through the page table [table].  A page that is not
    mapped or not writable is a page fault of the kernel, which
    [page_fault_handler] does not return from (PageFault.v). *)
Definition write_byte (table a v : Z) m : outcome MM :=
  match translate m table (page_containing a) with
  | Some (frame, flags) =>
      if contains flags WRITABLE then Done (write_physical (frame + a mod 4096) v m) else Hang
  | None => Hang
  end.

(** The loop over the data of a segment, from address [a] on. *)
Definition copy_data (a : Z) (bytes : list Z) k : outcome (kernel MM) :=
  for_each (zip (seqZ 0 (Z.of_nat (length bytes))) bytes) (fun '(index, value) k =>
    m ← write_byte (cr3 k) (a +w index) value (mm k);
    Done (with_mm m k)) k.

(** The body of the loop of [load_binary_into_memory]. *)
Definition load_segment (user_page_table : Z) (segment : Elf.Segment) k :
    outcome (result unit string * kernel MM) :=
  start_virt_addr ← virt_new (Elf.address segment);
  end_virt_addr ← virt_add start_virt_addr (Elf.size segment);
  if bool_decide (start_virt_addr < USER_CODE_START) || bool_decide (USER_CODE_END <= end_virt_addr)
  then Done (Err "ELF segment outside allowed range"%string, k) else
  '(r, m) ← Mapping.allocate_pages user_page_table start_virt_addr (Elf.size segment) USER_FLAGS (mm k);
  let k := with_mm m k in
  match r with
  | Err _ => Done (Err "Could not allocate memory"%string, k)
  | Ok _ =>
      let k := with_cr3 user_page_table k in
      match Elf.data segment with
      | None => Done (Err "Could not get segment data"%string, k)
      | Some segment_data =>
          if decide (Elf.size segment < Z.of_nat (length segment_data))
          then Done (Err "ELF data length > segment size"%string, k)
          else k ← copy_data (Elf.address segment) segment_data k; Done (Ok tt, k)
      end
  end.

(** [load_binary_into_memory] *)
Definition load_binary_into_memory (elf_file : Elf.File) (user_page_table : Z) k :
    outcome (result unit string * kernel MM) :=
  try_each (Elf.segments elf_file) (load_segment user_page_table) k.

(** [switch_pagetable_and_execute] *)
Definition switch_pagetable_and_execute {R} (page_table : Z)
    (func : kernel MM -> outcome (R * kernel MM)) k : outcome (R * kernel MM) :=
  let original_page_table := cr3 k in
  let k := with_cr3 page_table k in
  '(result, k) ← func k;
  Done (result, with_cr3 original_page_table k).

(** The closure of [spawn_user_thread]. *)
Definition load_and_initialise (obj : Elf.File) (user_page_table : Z) (params : list Z) k :
    outcome (result Z string * kernel MM) :=
  '(r, k) ← load_binary_into_memory obj user_page_table k;
  match r with
  | Err e => Done (Err e, k)
  | Ok _ => initialise_thread (Elf.entry obj) user_page_table params k
  end.

(** [spawn_user_thread]; [params] are the sockets. *)
Definition spawn_user_thread (bin_file : list Z) (params : list Z) k :
    outcome (result Z string * kernel MM) :=
  valid ← validate_binary bin_file;
  if negb valid then Done (Err "Invalid binary format"%string, k) else
  match parse_elf_binary bin_file with
  | Err _ => Done (Err "Failed to parse ELF"%string, k)
  | Ok obj =>
      '(user_page_table, m) ← create_kernel_only_pagetable (mm k);
      '(r, m) ← Mapping.allocate_user_heap user_page_table m;
      let k := with_mm m k in
      match r with
      | Err e => Done (Err e, k)
      | Ok _ =>
          '(r, k) ← switch_pagetable_and_execute user_page_table
            (load_and_initialise obj user_page_table params) k;
          Done (match r with
                | Ok id => Ok id
                | Err _ => Err "Error creating user thread"%string
                end, k)
      end
  end.
End Loader.

(** ** What a loaded program reads *)

(** A frame number apart from its mapping: [p - p mod 4096] is the frame of the
    physical address [p].  Frames that user pages are mapped to hold no page
    table; mapping a page writes only to frames that are not in use. *)
Class PhysicalMemoryLaws (MM : Type) `{MemoryManager MM} `{VirtPages} `{MapperLaws MM}
    `{PhysicalMemory MM} := {
  physical_write p v q (m : MM) :
    physical_byte q (write_physical p v m) = if decide (q = p) then v else physical_byte q m;
  translate_write p v (m : MM) t page flags t' page' :
    translate m t page = Some (p - p mod 4096, flags) -> contains flags USER_FLAGS = true ->
    translate (write_physical p v m) t' page' = translate m t' page' /\
    (valid_table m t' -> valid_table (write_physical p v m) t');
  in_use_write p v (m : MM) f : in_use (write_physical p v m) f <-> in_use m f;
  allocate_frame_aligned (m : MM) f m' : allocate_frame m = Done (Some f, m') -> f mod 4096 = 0;
  allocate_frame_bytes (m : MM) r m' p :
    allocate_frame m = Done (r, m') -> physical_byte p m' = physical_byte p m;
  map_to_bytes t page f flags (m m' : MM) p :
    map_to t page f flags m = Done (Ok tt, m') -> in_use m (p - p mod 4096) ->
    physical_byte p m' = physical_byte p m;
  read_byte_mapped t a (m : MM) f flags :
    lower a -> translate m t (page_containing a) = Some (f, flags) ->
    read_byte t a m = physical_byte (f + a mod 4096) m;
}.

Section Facts.
Context {MM : Type} `{MemoryManager MM} {gdt : Selectors} `{VirtPagesLaws}
  `{Mapper MM} `{!MapperLaws MM} `{PhysicalMemory MM} `{!PhysicalMemoryLaws MM} `{ElfParser}.
Implicit Types (k : kernel MM) (m : MM) (seg : Elf.Segment).

(** The memory [m] is [m0] with the pages [dn] of [t] mapped to new frames. *)
Record grown (t : Z) (m0 : MM) (dn : list Z) m : Prop := {
  gr_backed : exists fs, Mapping.backed t USER_FLAGS m0 dn fs m;
  gr_aligned : forall page f flags,
    page ∈ dn -> translate m t page = Some (f, flags) -> f mod 4096 = 0;
  gr_bytes : forall p, in_use m0 (p - p mod 4096) -> physical_byte p m = physical_byte p m0;
}.

Lemma grown_snoc t m0 dn m page m' :
  grown t m0 dn m -> Mapping.map_new_page t USER_FLAGS page m = Done (Ok tt, m') ->
  grown t m0 (dn ++ [page]) m'.
Proof.
  intros [[fs Hb] Ha Hbytes] Hrun.
  destruct (Mapping.backed_snoc _ _ _ _ _ _ _ _ valid_flags_user Hb Hrun) as [f0 Hb'].
  unfold Mapping.map_new_page in Hrun. bind_Done Hrun. destruct r as [[f|] m1]; [|done].
  pose proof (allocate_frame_Some _ _ _ Hr) as (_ & _ & Hmono & Htv). destruct (Htv t) as [Hv Ht].
  pose proof (map_to_Ok _ _ _ _ _ _ (Hv (Mapping.bk_valid _ _ _ _ _ _ Hb)) valid_flags_user Hrun)
    as (Hnone & _ & Hre & _).
  constructor; [by eexists|..].
  - intros q g flags Hq. rewrite Hre. case_decide as Hqp.
    + intros [= <- _]. by eapply allocate_frame_aligned.
    + rewrite Ht. apply Ha. set_solver.
  - intros p Hp. rewrite <-Hbytes by done. destruct Hb as [_ _ _ _ _ _ Hkept].
    rewrite (map_to_bytes _ _ _ _ _ _ _ Hrun) by auto. by eapply allocate_frame_bytes.
Qed.

Lemma grown_nil t m : valid_table m t -> grown t m [] m.
Proof.
  intros Hv. constructor; [|set_solver|done]. exists [].
  constructor; try done; [set_solver|apply NoDup_nil_2].
Qed.

Lemma allocate_pages_grown t start size m m' :
  valid_table m t -> Mapping.allocate_pages t start size USER_FLAGS m = Done (Ok tt, m') ->
  exists first pages, Mapping.page_range start size = Done (first, pages) /\ grown t m pages m'.
Proof.
  intros Hv Hrun. unfold Mapping.allocate_pages, Mapping.allocate_pages_mapper in Hrun.
  bind_Done Hrun. destruct r as [first pages]. exists first, pages. split; [done|].
  eapply (Mapping.try_each_Ok (grown t m)); [by apply grown_nil| |exact Hrun].
  intros. by eapply grown_snoc.
Qed.

(** What [grown] says of one address. *)
Lemma grown_at t m0 dn m a :
  grown t m0 dn m -> page_containing a ∈ dn ->
  translate m0 t (page_containing a) = None /\
  exists f, translate m t (page_containing a) = Some (f, USER_FLAGS) /\ f mod 4096 = 0 /\
    in_use m f /\ ~ in_use m0 f.
Proof.
  intros [[fs [_ Hp _ Hn _ Hf _]] Ha _] Hin. split; [by apply Hn|].
  apply list_elem_of_lookup in Hin as Hi. destruct Hi as [i Hi].
  destruct (Forall2_lookup_l _ _ _ _ _ Hp Hi) as (f & Hfi & Htr).
  rewrite Forall_forall in Hf. destruct (Hf f) as [? ?]; [by eapply list_elem_of_lookup_2|].
  exists f. split; [done|]. split; [by eapply Ha|done].
Qed.

Lemma grown_inj t m0 dn m p q f :
  grown t m0 dn m -> p ∈ dn -> q ∈ dn ->
  translate m t p = Some (f, USER_FLAGS) -> translate m t q = Some (f, USER_FLAGS) -> p = q.
Proof.
  intros [[fs [_ Hp _ _ Hnd _ _]] _ _] [i Hi]%list_elem_of_lookup [j Hj]%list_elem_of_lookup Htp Htq.
  destruct (Forall2_lookup_l _ _ _ _ _ Hp Hi) as (x & Hx & Hpx).
  destruct (Forall2_lookup_l _ _ _ _ _ Hp Hj) as (y & Hy & Hqy).
  simplify_eq. assert (i = j) as -> by (by eapply NoDup_lookup). congruence.
Qed.

(** Where the store to the address [a] goes. *)
Definition phys (t : Z) m a : Z := from_option fst 0 (translate m t (page_containing a)) + a mod 4096.

Lemma page_mod f a : f mod 4096 = 0 -> f + a mod 4096 - (f + a mod 4096) mod 4096 = f.
Proof. intros. Z.div_mod_to_equations. lia. Qed.

Lemma phys_inj t m0 dn m a b :
  grown t m0 dn m -> lower a -> lower b -> page_containing a ∈ dn -> page_containing b ∈ dn ->
  phys t m a = phys t m b -> a = b.
Proof.
  intros Hg Ha Hb Hina Hinb Heq. unfold phys in Heq.
  destruct (grown_at _ _ _ _ _ Hg Hina) as (_ & f & Hf & Hfa & _).
  destruct (grown_at _ _ _ _ _ Hg Hinb) as (_ & g & Hgg & Hga & _).
  rewrite Hf, Hgg in Heq. cbn in Heq.
  assert (f = g) as <- by (rewrite <-(page_mod f a), <-(page_mod g b) by done; by rewrite Heq).
  pose proof (grown_inj _ _ _ _ _ _ _ Hg Hina Hinb Hf Hgg) as Hp.
  rewrite !page_containing_lower in Hp by done. lia.
Qed.

(** [m'] is [m] with the first [n] of [bytes] copied to the address [a]. *)
Record copied (t a : Z) (bytes : list Z) (n : nat) m m' : Prop := {
  cp_translate : forall t' q, translate m' t' q = translate m t' q;
  cp_valid : valid_table m t -> valid_table m' t;
  cp_in_use : forall f, in_use m' f <-> in_use m f;
  cp_new : forall i b, (i < n)%nat -> bytes !! i = Some b ->
    physical_byte (phys t m (a + Z.of_nat i)) m' = b;
  cp_old : forall p, (forall i, a <= i < a + Z.of_nat n -> p <> phys t m i) ->
    physical_byte p m' = physical_byte p m;
}.

Lemma write_byte_copied t m0 dn a bytes n v m m' :
  grown t m0 dn m -> lower a -> lower (a + Z.of_nat n) ->
  (forall i, a <= i <= a + Z.of_nat n -> page_containing i ∈ dn) ->
  copied t a bytes n m m' -> bytes !! n = Some v ->
  exists m'', write_byte t (a +w Z.of_nat n) v m' = Done m'' /\ copied t a bytes (S n) m m''.
Proof.
  intros Hg Ha Hlen Hin [Ht Hvt Hu Hnew Hold] Hv. unfold lower in *.
  rewrite wrap64_small by (unfold is_u64; lia).
  destruct (grown_at _ _ _ _ (a + Z.of_nat n) Hg) as (_ & f & Hf & Hal & _); [apply Hin; lia|].
  assert (Hphys : phys t m (a + Z.of_nat n) = f + (a + Z.of_nat n) mod 4096)
    by (unfold phys; by rewrite Hf).
  unfold write_byte. rewrite Ht, Hf. eexists. split; [done|].
  assert (Hwrite : forall t' q v,
    translate (write_physical (f + (a + Z.of_nat n) mod 4096) v m') t' q = translate m' t' q /\
    (valid_table m' t' -> valid_table (write_physical (f + (a + Z.of_nat n) mod 4096) v m') t')).
  { intros. apply (translate_write _ _ _ t (page_containing (a + Z.of_nat n)) USER_FLAGS); [|done].
    rewrite page_mod by done. by rewrite Ht. }
  constructor.
  - intros t' q. rewrite <-Ht. apply Hwrite.
  - intros Hvalid. by apply (Hwrite t 0), Hvt.
  - intros g. by rewrite in_use_write.
  - intros i b Hi Hb. rewrite physical_write, <-Hphys. case_decide as Hp.
    + apply (phys_inj _ _ _ _ _ _ Hg) in Hp; [|unfold lower; lia..|apply Hin; lia|apply Hin; lia].
      assert (i = n) as -> by lia. congruence.
    + apply Hnew; [|done]. assert (i <> n) by (intros ->; by apply Hp). lia.
  - intros p Hp. rewrite physical_write, <-Hphys. rewrite decide_False by (apply Hp; lia).
    apply Hold. intros i Hi. apply Hp. lia.
Qed.

Lemma copy_data_spec m0 dn a bytes k :
  grown (cr3 k) m0 dn (mm k) -> lower a -> lower (a + Z.of_nat (length bytes)) ->
  (forall i, a <= i < a + Z.of_nat (length bytes) -> page_containing i ∈ dn) ->
  exists m', copy_data a bytes k = Done (with_mm m' k) /\
    copied (cr3 k) a bytes (length bytes) (mm k) m'.
Proof.
  intros Hg Ha Hlen Hin. unfold copy_data.
  destruct (for_each_total
    (fun dn k1 => k1 = with_mm (mm k1) k /\ copied (cr3 k) a bytes (length dn) (mm k) (mm k1))
    (fun '(index, value) k => m ← write_byte (cr3 k) (a +w index) value (mm k); Done (with_mm m k))
    (zip (seqZ 0 (Z.of_nat (length bytes))) bytes) k) as (k' & Hrun & Hk & Hc).
  - split; [by destruct k|]. constructor; cbn; try done. intros; lia.
  - intros vis x rest k1 Hxs [Hk1 Hc].
    assert (Hx : zip (seqZ 0 (Z.of_nat (length bytes))) bytes !! length vis = Some x).
    { rewrite Hxs. by apply list_lookup_middle. }
    destruct x as [index v]. apply lookup_zip_with_Some in Hx as (i & v' & [= <- <-] & Hi & Hv).
    apply lookup_seqZ in Hi as [-> Hi]. rewrite Hk1. cbn [cr3 with_mm mm].
    destruct (write_byte_copied (cr3 k) m0 dn a bytes (length vis) v (mm k) (mm k1)) as (m'' & Hw & Hc').
    { done. } { done. } { unfold lower in *. lia. } { intros j Hj. apply Hin. lia. } { done. } { done. }
    exists (with_mm m'' k). rewrite Z.add_0_l, Hw. split; [done|]. rewrite length_app, Nat.add_1_r. done.
  - exists (mm k'). rewrite Hrun, Hk. split; [done|].
    by rewrite length_zip_with_l_eq, length_seqZ, Nat2Z.id in Hc by (rewrite length_seqZ; lia).
Qed.

(** The sum of the start and the size of a segment does not wrap; that both are
    unsigned is their type. *)
Record segment_ok seg : Prop := {
  so_size : 0 <= Elf.size seg;
  so_end : forall start, virt_new (Elf.address seg) = Done start ->
    0 <= start /\ start + Elf.size seg < 2 ^ 64;
}.

(** Then the check of the range means what it says. *)
Lemma segment_checked seg start e :
  segment_ok seg -> virt_new (Elf.address seg) = Done start -> virt_add start (Elf.size seg) = Done e ->
  USER_CODE_START <= start -> e < USER_CODE_END ->
  start = Elf.address seg /\ e = start + Elf.size seg /\ lower start /\ lower e.
Proof.
  intros [Hs Hend] Hv Ha Hlo Hhi. destruct (Hend _ Hv) as [H0' Hw].
  unfold USER_CODE_START, USER_CODE_END in *.
  apply virt_add_Done in Ha; [|lia]. rewrite wrap64_small in Ha by (unfold is_u64; lia).
  apply virt_new_Done in Hv; [|lia]. unfold lower. lia.
Qed.

Definition spans seg a : Prop := Elf.address seg <= a < Elf.address seg + Elf.size seg.

(** Its bytes are on frames taken since [m0], and its data is there. *)
Record segment_loaded (t : Z) (m0 m : MM) seg : Prop := {
  sl_range : USER_CODE_START <= Elf.address seg /\ Elf.address seg + Elf.size seg < USER_CODE_END;
  sl_mapped : forall a, spans seg a -> exists f,
    translate m t (page_containing a) = Some (f, USER_FLAGS) /\ f mod 4096 = 0 /\
    in_use m f /\ ~ in_use m0 f;
  sl_data : exists d, Elf.data seg = Some d /\ Z.of_nat (length d) <= Elf.size seg /\
    forall i b, d !! i = Some b ->
      physical_byte (phys t m (Elf.address seg + Z.of_nat i)) m = b;
}.

(** What loading a further segment keeps. *)
Record later (t : Z) (m m' : MM) : Prop := {
  lt_valid : valid_table m t -> valid_table m' t;
  lt_translate : forall q x, translate m t q = Some x -> translate m' t q = Some x;
  lt_in_use : forall f, in_use m f -> in_use m' f;
  lt_bytes : forall p, in_use m (p - p mod 4096) -> physical_byte p m' = physical_byte p m;
}.

Lemma segment_loaded_later t m0 m m' seg :
  segment_loaded t m0 m seg -> later t m m' -> segment_loaded t m0 m' seg.
Proof.
  intros [Hr Hm (d & Hd & Hlen & Hb)] [_ Ht Hu Hby]. constructor; [done|..].
  - intros a Ha. destruct (Hm a Ha) as (f & Hf & ? & ? & ?). exists f. split_and!; auto.
  - exists d. split; [done|]. split; [done|]. intros i b Hi. rewrite <-(Hb i b Hi).
    destruct (Hm (Elf.address seg + Z.of_nat i)) as (f & Hf & Hal & Huse & _).
    { unfold spans. apply lookup_lt_Some in Hi. lia. }
    unfold phys. rewrite (Ht _ _ Hf), Hf. cbn. apply Hby. by rewrite page_mod.
Qed.

Lemma grown_later t m dn m' : grown t m dn m' -> later t m m'.
Proof.
  intros [[fs [Hv _ Ho Hn _ _ Hk]] _ Hb]. constructor; [done| |done|done].
  intros q x Hx. rewrite Ho; [done|]. intros Hq. rewrite Hn in Hx; done.
Qed.

(** Copying to frames that were free keeps what was there. *)
Lemma copied_later t m0 dn a bytes m m' :
  grown t m0 dn m -> lower a -> lower (a + Z.of_nat (length bytes)) ->
  (forall i, a <= i < a + Z.of_nat (length bytes) -> page_containing i ∈ dn) ->
  copied t a bytes (length bytes) m m' -> later t m0 m'.
Proof.
  intros Hg Ha Hlen Hin [Ht Hv Hu _ Hold]. destruct (grown_later _ _ _ _ Hg) as [Lv Lt Lu Lb].
  constructor; [by auto|..].
  - intros q x Hx. rewrite Ht. auto.
  - intros f Hf. rewrite Hu. auto.
  - intros p Hp. rewrite Hold; [by apply Lb|]. intros i Hi ->.
    destruct (grown_at _ _ _ _ i Hg) as (_ & f & Hf & Hal & _ & Hfree); [by apply Hin|].
    unfold phys in Hp. rewrite Hf in Hp. cbn in Hp. by rewrite page_mod in Hp.
Qed.

(** Whatever its result, a segment changes the memory and CR3 only. *)
Lemma load_segment_frame t seg k r k' :
  load_segment t seg k = Done (r, k') -> k' = with_cr3 (cr3 k') (with_mm (mm k') k).
Proof.
  unfold load_segment, copy_data. intros Hrun. bind_Done Hrun. bind_Done Hrun.
  case_match; [injection Hrun as _ <-; by destruct k|]. bind_Done Hrun. destruct r2 as [[[]|e] m]; [|by simplify_eq].
  destruct (Elf.data seg) as [d|]; [|by simplify_eq]. case_decide; [by simplify_eq|].
  bind_Done Hrun. simplify_eq. revert Hr2. generalize (Elf.address seg) as a. intros a.
  apply (for_each_inv (fun _ k2 => k2 = with_cr3 (cr3 k2) (with_mm (mm k2) k))); [done|].
  intros _ [i v] _ k1 k2 _ Hk1 Hw. bind_Done Hw. simplify_eq. by rewrite Hk1.
Qed.

Lemma load_segment_Ok t seg k k' :
  valid_table (mm k) t -> segment_ok seg -> load_segment t seg k = Done (Ok tt, k') ->
  later t (mm k) (mm k') /\ segment_loaded t (mm k) (mm k') seg /\
  forall a, spans seg a -> translate (mm k) t (page_containing a) = None.
Proof.
  intros Hvalid Hok. unfold load_segment. intros Hrun. bind_Done Hrun. bind_Done Hrun.
  destruct (bool_decide_reflect (r < USER_CODE_START)) as [|Hlo]; [done|].
  destruct (bool_decide_reflect (USER_CODE_END <= r0)) as [|Hhi]; [done|].
  destruct (segment_checked _ _ _ Hok Hr Hr0) as (-> & -> & Ha & He); [lia..|].
  clear Hr Hr0. destruct Hok as [Hs _].
  cbn [orb] in Hrun. bind_Done Hrun. destruct r as [[[]|e] m]; [|done].
  destruct (Elf.data seg) as [d|] eqn:Hd; [|done]. case_decide as Hlen; [done|].
  apply allocate_pages_grown in Hr as (first & pages & Hpages & Hg); [|done].
  assert (Hin : forall i, spans seg i -> page_containing i ∈ pages).
  { intros i Hi. unfold spans, lower in *. rewrite Mapping.page_range_ok in Hpages by (constructor; lia).
    simplify_eq. apply Mapping.page_in_range; [constructor; lia|lia]. }
  assert (Hin_d : forall i, Elf.address seg <= i < Elf.address seg + Z.of_nat (length d) ->
    page_containing i ∈ pages) by (intros i Hi; apply Hin; unfold spans; lia).
  assert (Hend : lower (Elf.address seg + Z.of_nat (length d))) by (unfold lower in *; lia).
  destruct (copy_data_spec (mm k) pages (Elf.address seg) d (with_cr3 t (with_mm m k)))
    as (m' & Hcopy & Hc); [done..|].
  rewrite Hcopy in Hrun. simplify_eq/=. cbn [mm with_mm with_cr3 cr3] in Hc.
  split; [by apply (copied_later t (mm k) pages (Elf.address seg) d m)|].
  split; [|intros a' Ha'; by eapply grown_at, Hin].
  destruct Hc as [Ht _ Hu Hnew _]. constructor; [lia|..].
  - intros a' Ha'. destruct (grown_at _ _ _ _ a' Hg) as (_ & f & Hf & ? & ? & ?); [by apply Hin|].
    exists f. rewrite Ht, Hu. done.
  - exists d. split; [done|]. split; [lia|]. intros i b Hi.
    unfold phys in *. rewrite Ht. apply Hnew; [|done]. by eapply lookup_lt_Some.
Qed.

(** The segments [dn] are loaded, on pages of their own. *)
Record loaded (t : Z) k0 (dn : list Elf.Segment) k : Prop := {
  ld_valid : valid_table (mm k0) t;
  ld_segments : Forall (segment_loaded t (mm k0) (mm k)) dn;
  ld_later : later t (mm k0) (mm k);
  ld_apart : forall i j s1 s2 a b, (i < j)%nat -> dn !! i = Some s1 -> dn !! j = Some s2 ->
    spans s1 a -> spans s2 b -> page_containing a <> page_containing b;
}.

Lemma loaded_snoc t k0 dn seg k k' :
  segment_ok seg -> loaded t k0 dn k -> load_segment t seg k = Done (Ok tt, k') ->
  loaded t k0 (dn ++ [seg]) k'.
Proof.
  intros Hok [Hv Hs Hl Ha] Hrun. destruct Hl as [Lv Lt Lu Lb].
  apply load_segment_Ok in Hrun as (Hlater & Hseg & Hfree); [|by apply Lv|done].
  rewrite Forall_forall in Hs. destruct Hlater as [Lv' Lt' Lu' Lb'] eqn:HL. constructor; [done|..].
  - apply Forall_app. split.
    + apply Forall_forall. intros s Hin. eapply segment_loaded_later; [by apply Hs|done].
    + constructor; [|done]. destruct Hseg as [Hr Hm Hd]. constructor; [done| |done].
      intros a Hsp. destruct (Hm a Hsp) as (f & ? & ? & ? & ?). exists f. split_and!; auto.
  - constructor; [auto..|]. intros p Hp. rewrite Lb' by auto. auto.
  - intros i j s1 s2 a b Hij H1' H2' Hsa Hsb Heq.
    apply lookup_snoc_Some in H2' as [[Hj H2']|[Hj ->]].
    + rewrite lookup_app_l in H1' by lia. by eapply (Ha i j).
    + rewrite lookup_app_l in H1' by lia.
      destruct (sl_mapped _ _ _ _ (Hs s1 (list_elem_of_lookup_2 _ _ _ H1')) a Hsa) as (f & Hf & _).
      rewrite Heq, Hfree in Hf by done. done.
Qed.

Lemma load_binary_loaded obj t k k' :
  valid_table (mm k) t -> Forall segment_ok (Elf.segments obj) ->
  load_binary_into_memory obj t k = Done (Ok tt, k') -> loaded t k (Elf.segments obj) k'.
Proof.
  intros Hv Hok. rewrite Forall_forall in Hok. unfold load_binary_into_memory.
  apply (Mapping.try_each_Ok (loaded t k)).
  - constructor; [done|done|done|]. intros i j s1 s2 a b _ Hi. done.
  - intros dn seg k1 k2 Hin Hl Hrun. by eapply loaded_snoc; [apply Hok|..].
Qed.

Lemma load_binary_frame obj t k r k' :
  load_binary_into_memory obj t k = Done (r, k') -> k' = with_cr3 (cr3 k') (with_mm (mm k') k).
Proof.
  unfold load_binary_into_memory. revert k. induction (Elf.segments obj) as [|seg segs IH]; intros k Hrun.
  - cbn in Hrun. simplify_eq. by destruct k'.
  - cbn [try_each] in Hrun. bind_Done Hrun. destruct r0 as [[[]|e] k1].
    + apply load_segment_frame in Hr. apply IH in Hrun. rewrite Hrun, Hr. done.
    + simplify_eq. by eapply load_segment_frame.
Qed.
End Facts.

(** ** The loader as steps of the kernel *)

(** The mapper, the stores and the copy of the kernel's tables stay within
    [remaps]. *)
Class LoaderRemaps (MM : Type) `{MemoryManager MM} `{Mapper MM} `{PhysicalMemory MM} := {
  mapper_remaps :: Mapping.MapperKeeps MM (fun _ _ => True) remaps;
  write_physical_remaps p v (m : MM) : remaps m (write_physical p v m);
  create_kernel_only_pagetable_remaps (m : MM) table m' :
    create_kernel_only_pagetable m = Done (table, m') -> remaps m m';
}.

Section Steps.
Context {MM K : Type} `{MemoryManager MM} {gdt : Selectors} `{VirtPages} `{Mapper MM}
  `{PhysicalMemory MM} `{!LoaderRemaps MM} `{ElfParser} `{KeyboardDecoder K}.
Implicit Types (k : kernel MM) (m : MM).
#[local] Existing Instance Mapping.keeps_preorder.

Abbreviation steps := (rtc (thread_step (K := K))).

Lemma remap_step k m : remaps (mm k) m -> thread_step (K := K) k (with_mm m k).
Proof. intros Hm. by apply works_step, WorkRemap. Qed.

Lemma table_step k table : thread_step (K := K) k (with_cr3 table k).
Proof. by apply works_step, WorkTable. Qed.

Lemma write_byte_remaps table a v m m' : write_byte table a v m = Done m' -> remaps m m'.
Proof.
  unfold write_byte. destruct (translate _ _ _) as [[f flags]|]; [|done].
  destruct (contains _ _); [|done]. intros ?. simplify_eq. apply write_physical_remaps.
Qed.

Lemma copy_data_steps a bytes k k' : copy_data a bytes k = Done k' -> steps k k'.
Proof.
  unfold copy_data. generalize (zip (seqZ 0 (Z.of_nat (length bytes))) bytes). intros xs. revert k.
  induction xs as [|[i v] xs IH]; intros k Hrun; cbn in Hrun; [by simplify_eq|].
  bind_Done Hrun. bind_Done Hr. simplify_eq. eapply rtc_l; [|by eapply IH].
  by eapply remap_step, write_byte_remaps.
Qed.

Lemma load_segment_steps table segment k r k' :
  load_segment table segment k = Done (r, k') -> steps k k'.
Proof.
  unfold load_segment. intros Hrun. bind_Done Hrun. bind_Done Hrun.
  destruct (_ || _); [by simplify_eq|]. bind_Done Hrun. destruct r2 as [r2 m].
  apply (Mapping.allocate_pages_keeps (R := remaps)) in Hr1; [|done].
  eapply rtc_l; [by apply remap_step|].
  destruct r2 as [u|e]; [|by simplify_eq]. eapply rtc_l; [apply (table_step _ table)|].
  destruct (Elf.data segment) as [bytes|]; [|by simplify_eq].
  case_decide; [by simplify_eq|]. bind_Done Hrun. simplify_eq. by eapply copy_data_steps.
Qed.

Lemma load_binary_steps obj table k r k' :
  load_binary_into_memory obj table k = Done (r, k') -> steps k k'.
Proof.
  unfold load_binary_into_memory. eapply (Mapping.try_each_keeps steps).
  intros. by eapply load_segment_steps.
Qed.

Lemma spawn_user_step entry table params k r k' :
  ids_left k -> initialise_thread entry table params k = Done (r, k') ->
  thread_step (K := K) k k' /\ COUNTER k' = COUNTER k +w 1 +w 1.
Proof.
  intros Hids Hi. split; [exists (SpawnUser entry table params); split; [done|by econstructor]|].
  by apply (initialise_thread_cases thread_id) in Hi as [Hc _].
Qed.

(** [spawn_user_thread] is a sequence of steps of a kernel thread. *)
Lemma spawn_user_thread_steps bin params k r k' :
  ids_left k -> spawn_user_thread bin params k = Done (r, k') -> steps k k'.
Proof.
  intros Hids Hspawn. unfold spawn_user_thread in Hspawn. bind_Done Hspawn.
  destruct (negb r0); [by simplify_eq|]. destruct (parse_elf_binary bin) as [obj|e]; [|by simplify_eq].
  bind_Done Hspawn. destruct r1 as [table m]. bind_Done Hspawn. destruct r1 as [r1 m1].
  assert (Hm : remaps (mm k) m1).
  { etransitivity; [by eapply create_kernel_only_pagetable_remaps|].
    by eapply (Mapping.allocate_user_heap_keeps (R := remaps)). }
  eapply rtc_l; [by apply remap_step|]. destruct r1 as [u|e]; [|by simplify_eq].
  bind_Done Hspawn. destruct r1 as [r1 k2]. simplify_eq.
  unfold switch_pagetable_and_execute in Hr2. bind_Done Hr2. destruct r as [r k3]. simplify_eq.
  eapply rtc_l; [apply (table_step _ table)|].
  eapply rtc_r; [|apply table_step]. unfold load_and_initialise in Hr3. bind_Done Hr3.
  destruct r as [[u1|e] k4].
  - etransitivity; [by eapply load_binary_steps|]. apply rtc_once.
    apply load_binary_frame in Hr2. apply spawn_user_step in Hr3 as [Hs _]; [done|].
    unfold ids_left. rewrite Hr2. exact Hids.
  - simplify_eq. by eapply load_binary_steps.
Qed.
End Steps.

Section Properties.
Context {MM : Type} `{MemoryManager MM} {gdt : Selectors} `{VirtPagesLaws}
  `{Mapper MM} `{!MapperLaws MM} `{PhysicalMemory MM} `{!PhysicalMemoryLaws MM} `{ElfParser}.
Implicit Types (k : kernel MM) (seg : Elf.Segment).

(** C7: a loaded program is in memory.  Let [load_binary_into_memory] succeed
    on a valid table, for a file in which no sum of the start and the size of a
    segment wraps in 64 bits ([segment_ok]; where it wraps, the check of the
    range passes and nothing is mapped, as [guard_bypassed] shows).  Then every
    segment lies in the range of user code, each of its bytes is mapped for the
    user on a frame that was free, and reading its address under the new table
    gives the byte of the file.  No two segments share a page, nothing but the
    memory and CR3 changed, and no byte of a frame that was in use. *)
Theorem program_loaded obj t k k'
    (Hvalid : valid_table (mm k) t) (Hok : Forall segment_ok (Elf.segments obj))
    (Hload : load_binary_into_memory obj t k = Done (Ok tt, k')) :
  (forall seg, seg ∈ Elf.segments obj ->
    USER_CODE_START <= Elf.address seg /\ Elf.address seg + Elf.size seg < USER_CODE_END /\
    (forall a, spans seg a -> exists f,
      translate (mm k') t (page_containing a) = Some (f, USER_FLAGS) /\ ~ in_use (mm k) f) /\
    exists d, Elf.data seg = Some d /\ Z.of_nat (length d) <= Elf.size seg /\
      forall i b, d !! i = Some b -> read_byte t (Elf.address seg + Z.of_nat i) (mm k') = b) /\
  (forall i j s1 s2 a b, (i < j)%nat ->
    Elf.segments obj !! i = Some s1 -> Elf.segments obj !! j = Some s2 ->
    spans s1 a -> spans s2 b -> page_containing a <> page_containing b) /\
  (forall p, in_use (mm k) (p - p mod 4096) ->
    physical_byte p (mm k') = physical_byte p (mm k)) /\
  k' = with_cr3 (cr3 k') (with_mm (mm k') k).
Proof.
  pose proof (load_binary_frame _ _ _ _ _ Hload) as Hframe.
  apply load_binary_loaded in Hload as [_ Hs [_ _ _ Hb] Ha]; [|done..].
  split; [|done]. intros seg Hin. rewrite Forall_forall in Hs.
  destruct (Hs seg Hin) as [[Hlo Hhi] Hm (d & Hd & Hlen & Hdata)].
  split; [done|]. split; [done|]. split.
  - intros a Hsp. destruct (Hm a Hsp) as (f & ? & _ & _ & ?). by exists f.
  - exists d. split; [done|]. split; [done|]. intros i b Hi. rewrite <-(Hdata i b Hi).
    assert (Hlow : lower (Elf.address seg + Z.of_nat i)).
    { apply lookup_lt_Some in Hi. unfold lower, USER_CODE_START, USER_CODE_END in *. lia. }
    destruct (Hm (Elf.address seg + Z.of_nat i)) as (f & Hf & _).
    { unfold spans. apply lookup_lt_Some in Hi. lia. }
    rewrite (read_byte_mapped _ _ _ _ _ Hlow Hf). unfold phys. by rewrite Hf.
Qed.

Lemma spawn_user_thread_spec bin params k r k' :
  spawn_user_thread bin params k = Done (r, k') ->
  cr3 k' = cr3 k /\ RUNNING_THREAD k' = RUNNING_THREAD k /\ socket_heap k' = socket_heap k /\
  (forall p, p ∈ dom (process_heap k) -> process_heap k' !! p = process_heap k !! p) /\
  match r with
  | Ok uid => exists obj table m m0 k1 t, take 4 bin = MAGIC_BYTES /\ parse bin = Some obj /\
      create_kernel_only_pagetable (mm k) = Done (table, m) /\
      Mapping.allocate_user_heap table m = Done (Ok tt, m0) /\
      load_binary_into_memory obj table (with_cr3 table (with_mm m0 k)) = Done (Ok tt, k1) /\
      WAIT_QUEUE k' = t :: WAIT_QUEUE k /\ thread_id t = uid /\ page_table_phys t = table /\
      process_heap k !! process t = None /\
      process_heap k' !!! process t = mkProcess table (Some <$> params) /\
      let regs := Isf.load (memory k') (context t) in
      Isf.instruction_pointer regs = Elf.entry obj /\ Isf.stack_pointer regs = user_stack_end t
  | Err e => WAIT_QUEUE k' = WAIT_QUEUE k /\
      (e = "Invalid binary format"%string /\ take 4 bin <> MAGIC_BYTES \/
       e = "Failed to parse ELF"%string /\ parse bin = None \/
       e = "Couldn't allocate on-demand pages for user heap"%string \/
       e = "Error creating user thread"%string)
  end.
Proof.
  intros Hspawn.
  unfold spawn_user_thread, validate_binary, parse_elf_binary in Hspawn. case_decide; [|done].
  cbn [mbind outcome_bind] in Hspawn.
  destruct (bool_decide_reflect (take 4 bin = MAGIC_BYTES)) as [Hmagic|Hmagic];
    cbn [negb] in Hspawn; [|simplify_eq; naive_solver].
  destruct (parse bin) as [obj|] eqn:Hparse; [|simplify_eq; naive_solver].
  bind_Done Hspawn. destruct r0 as [table m]. bind_Done Hspawn. destruct r0 as [[[]|e] m0].
  - bind_Done Hspawn. destruct r0 as [r0 k2]. apply Done_inj in Hspawn. injection Hspawn as <- <-.
    unfold switch_pagetable_and_execute in Hr1. bind_Done Hr1. destruct r as [r k3].
    apply Done_inj in Hr1. injection Hr1 as <- <-. cbn [cr3 RUNNING_THREAD socket_heap WAIT_QUEUE
      process_heap memory with_cr3 with_mm].
    unfold load_and_initialise in Hr2. bind_Done Hr2. destruct r0 as [[[]|e] k1].
    + apply load_binary_frame in Hr1 as Hk1.
      destruct (initialise_thread_keeps _ _ _ _ _ _ Hr2) as (Hrun & Hsock & _ & Hproc & Herr).
      rewrite Hk1 in Hproc. rewrite Hrun, Hsock, Hk1. do 3 (split; [done|]). split; [exact Hproc|].
      destruct r as [uid|e]; [|split; [by rewrite (Herr e eq_refl), Hk1|naive_solver]].
      apply spawned_context in Hr2
        as (t & Hq & Hid & Hpt & _ & Hnew & Hsockets & _ & Hip & _ & _ & Hsp & _).
      rewrite Hk1 in Hq, Hnew. exists obj, table, m, m0, k1, t. done.
    + apply Done_inj in Hr2. injection Hr2 as <- <-. apply load_binary_frame in Hr1 as ->. naive_solver.
  - apply Done_inj in Hspawn. injection Hspawn as <- <-.
    assert (e = "Couldn't allocate on-demand pages for user heap"%string) as ->; [|naive_solver].
    unfold Mapping.allocate_user_heap in Hr0. bind_Done Hr0. by destruct r as [[[]|e'] m1]; simplify_eq.
Qed.

(** C21: [spawn_user_thread].  Whatever happens, it returns under the page table
    it was called with, and the running thread and the sockets are as before.
    It succeeds only on a file that starts with the ELF magic and parses; then
    its segments were loaded into the copy of the kernel's tables and there is
    one new thread, first in the queue, with the identifier it returns, a
    process of its own with the given sockets, and a context that starts at
    the entry point of the file.  On an error the queue is as before. *)
Theorem program_spawned bin params k r k'
    (Hspawn : spawn_user_thread bin params k = Done (r, k')) :
  cr3 k' = cr3 k /\ RUNNING_THREAD k' = RUNNING_THREAD k /\ socket_heap k' = socket_heap k /\
  match r with
  | Ok uid => exists obj table m m0 k1 t, take 4 bin = MAGIC_BYTES /\ parse bin = Some obj /\
      create_kernel_only_pagetable (mm k) = Done (table, m) /\
      Mapping.allocate_user_heap table m = Done (Ok tt, m0) /\
      load_binary_into_memory obj table (with_cr3 table (with_mm m0 k)) = Done (Ok tt, k1) /\
      WAIT_QUEUE k' = t :: WAIT_QUEUE k /\ thread_id t = uid /\ page_table_phys t = table /\
      process_heap k !! process t = None /\
      process_heap k' !!! process t = mkProcess table (Some <$> params) /\
      let regs := Isf.load (memory k') (context t) in
      Isf.instruction_pointer regs = Elf.entry obj /\ Isf.stack_pointer regs = user_stack_end t
  | Err e => WAIT_QUEUE k' = WAIT_QUEUE k /\
      (e = "Invalid binary format"%string /\ take 4 bin <> MAGIC_BYTES \/
       e = "Failed to parse ELF"%string /\ parse bin = None \/
       e = "Couldn't allocate on-demand pages for user heap"%string \/
       e = "Error creating user thread"%string)
  end.
Proof.
  apply spawn_user_thread_spec in Hspawn as (? & ? & ? & _ & ?). done.
Qed.
End Properties.

(** ** At concrete inputs

    The mapper of Mapping.v with one user stack and one kernel stack, and a
    parser that knows one file: two segments, the first of two pages with
    three bytes of data, the second without data. *)
#[local] Existing Instances plain_pages plain_pages_laws page_mapper page_mapper_laws flat_gdt.

Definition page_manager : MemoryManager PageMap := {|
  allocate_user_stack _ _ m := Done (Ok (0x30000001000, 0x3000000B000), m);
  free_user_stack _ _ m := Done (Ok tt, m);
  free_user_pagetables _ m := Done m;
  kernel_page_tables _ := 0x1000;
  vec_with_capacity _ m := Done (HEAP_START, m);
  vec_drop _ _ m := Done m;
  read_byte t a m :=
    match translate m t (page_containing a) with
    | Some (f, _) => contents m !!! (f + a mod 4096)
    | None => 0
    end;
  remaps _ _ := True;
|}.

Definition page_memory : PhysicalMemory PageMap := {|
  physical_byte p m := contents m !!! p;
  write_physical p v m := mkPageMap (page_map m) (frames_used m) (<[p := v]> (contents m));
  create_kernel_only_pagetable m :=
    Done (4096 * frames_used m, mkPageMap (page_map m) (frames_used m + 1) (contents m));
|}.
#[local] Existing Instances page_manager page_memory.

Lemma page_memory_laws : PhysicalMemoryLaws PageMap.
Proof.
  constructor.
  - intros p v q m. cbn. case_decide; subst; [apply lookup_total_insert_eq|].
    by apply lookup_total_insert_ne.
  - done.
  - done.
  - intros m f m' Ha. cbn in Ha. simplify_eq. by rewrite Z.mul_comm, Z_mod_mult.
  - intros m r m' p Ha. cbn in Ha. by simplify_eq.
  - intros t page f flags m m' p Hm _. cbn in Hm. by apply page_map_to_Ok in Hm as [_ ->].
  - intros t a m f flags _ Ht. cbn in *. by rewrite Ht.
Qed.
#[local] Existing Instance page_memory_laws.

Definition demo_file : list Z := MAGIC_BYTES ++ [2; 1; 1].
Definition demo_elf : Elf.File := Elf.mkFile 0x5000010
  [Elf.mkSegment 0x5000000 5000 (Some [0x48; 0x31; 0xC0]); Elf.mkSegment 0x5002000 8 (Some [])].
#[local] Instance demo_parser : ElfParser := {|
  parse bin := if decide (bin = demo_file) then Some demo_elf else None;
|}.

Definition before_load : kernel PageMap := initial [] 0x9000 (replicate 7 0) no_pages.
Definition after_load : kernel PageMap :=
  (done_or (Ok tt, before_load) (load_binary_into_memory demo_elf 0x9000 before_load)).2.

Lemma demo_segments_ok : Forall segment_ok (Elf.segments demo_elf).
Proof.
  apply Forall_forall. intros seg Hin. set_unfold in Hin.
  destruct Hin as [->|[->|[]]]; split; cbn; [lia|intros start [= <-]; lia|lia|intros start [= <-]; lia].
Qed.

Lemma program_loaded_witness :
  (fun i => read_byte 0x9000 (0x5000000 + i) (mm after_load)) <$> [0; 1; 2] = [0x48; 0x31; 0xC0] /\
  exists f, translate (mm after_load) 0x9000 0x5001000 = Some (f, USER_FLAGS) /\
    ~ in_use no_pages f.
Proof.
  destruct (program_loaded demo_elf 0x9000 before_load after_load) as (Hs & _ & _ & _).
  - exact I.
  - apply demo_segments_ok.
  - apply (done_or_snd (Ok tt, before_load) (load_binary_into_memory demo_elf 0x9000 before_load)).
    vm_compute. reflexivity.
  - destruct (Hs (Elf.mkSegment 0x5000000 5000 (Some [0x48; 0x31; 0xC0]))) as (_ & _ & Hm & d & Hd & _ & Hb).
    { apply list_elem_of_here. }
    injection Hd as <-. split.
    + apply (f_equal2 cons (Hb 0%nat _ eq_refl)), (f_equal2 cons (Hb 1%nat _ eq_refl)),
        (f_equal2 cons (Hb 2%nat _ eq_refl)). done.
    + destruct (Hm 0x5001000) as (f & Hf & Hfree); [by unfold spans; cbn; lia|]. by exists f.
Defined.

Definition spawned_program : result Z string * kernel PageMap :=
  done_or (Ok 0, before_load) (spawn_user_thread demo_file [3; 5] before_load).

Lemma program_spawned_witness :
  spawned_program.1 = Ok 1 /\ cr3 spawned_program.2 = 0x9000 /\
  exists t, WAIT_QUEUE spawned_program.2 = [t] /\
    Isf.instruction_pointer (Isf.load (memory spawned_program.2) (context t)) = 0x5000010.
Proof.
  assert (Hrun : spawn_user_thread demo_file [3; 5] before_load = Done (Ok 1, spawned_program.2)).
  { apply (done_or_snd (Ok 0, before_load) (spawn_user_thread demo_file [3; 5] before_load)).
    vm_compute. reflexivity. }
  destruct (program_spawned _ _ _ _ _ Hrun)
    as (Hcr3 & _ & _ & obj & table & m & m0 & k1 & t & _ & Hp & _ & _ & _ & Hq & _ & _ & _ & _ & Hip & _).
  split; [vm_compute; reflexivity|]. split; [exact Hcr3|]. exists t. split; [exact Hq|].
  rewrite Hip. assert (obj = demo_elf) as -> by (injection Hp as <-; reflexivity). reflexivity.
Defined.

(** The range check of process.rs:532 when the sum wraps: a segment that starts
    at an address of the kernel and whose size makes it end at 0x200 passes, no
    page is mapped for it, and its data overwrites the memory of the kernel. *)
Definition kernel_mapped : kernel PageMap :=
  initial [] 0x9000 (replicate 7 0)
    (mkPageMap {[(0x9000, 0xFFFF800000000000) := (0x8000, Z.lor PRESENT WRITABLE)]} 16 ∅).
Definition wrapping_elf : Elf.File := Elf.mkFile 0x5000010
  [Elf.mkSegment 0xFFFF800000000000 0x800000000200 (Some [0x66])].

Example guard_bypassed :
  match load_binary_into_memory wrapping_elf 0x9000 kernel_mapped with
  | Done (r, k) => r = Ok tt /\ page_map (mm k) = page_map (mm kernel_mapped) /\
      physical_byte 0x8000 (mm k) = 0x66 /\ in_use (mm kernel_mapped) 0x8000
  | _ => False
  end.
Proof. vm_compute. auto. Qed.
