(* ===== verification/Printed.v ===== *)
(** * What the kernel prints is text

    Rust's type [str] is valid UTF-8; what reaches the console of Vga.v goes
    through [&str] and [fmt].  Whatever bytes user programs pass to sys_write,
    every step of System.v appends well-formed UTF-8 to what was printed. *)
From S2P Require Import Prelude Text Vga Keyboard Abi Sync Isf Thread Kernel Syscall Spawn Irq Arena System.

(** Keys are typed as well: a character is a scalar value, the name of a key is
    a [str]. *)
Class KeyboardDecoderLaws (K : Type) `{KeyboardDecoder K} := {
  decoded_typed (keyboard : K) scancode keyboard' key :
    decode_scancode keyboard scancode = (keyboard', Some key) ->
    match key with
    | Unicode character => is_char character
    | RawKey key => is_utf8 (debug_name key) = true
    end;
}.

(** [k'] has printed more than [k], all of it well-formed. *)
Definition said {MM} (k k' : kernel MM) : Prop :=
  exists s, printed k' = printed k ++ s /\ is_utf8 s = true.

#[export] Instance said_preorder {MM} : PreOrder (@said MM).
Proof.
  split.
  - intros k. exists []. by rewrite app_nil_r.
  - intros k1 k2 k3 (s1 & H1 & U1) (s2 & H2 & U2). exists (s1 ++ s2).
    split; [by rewrite H2, H1, app_assoc|by apply app_utf8].
Qed.

Lemma said_print {MM} s (k : kernel MM) : is_utf8 s = true -> said k (print s k).
Proof. intros Hs. by exists s. Qed.

Lemma said_println {MM} s (k : kernel MM) : is_utf8 s = true -> said k (println s k).
Proof. intros Hs. apply said_print. auto with utf8. Qed.

Lemma said_silent {MM} (k k' : kernel MM) : printed k' = printed k -> said k k'.
Proof. intros Hp. exists []. by rewrite app_nil_r. Qed.

Section Printed.
Context {MM K : Type} `{MemoryManager MM} {gdt : Selectors} `{KeyboardDecoderLaws K}.
Implicit Types (k : kernel MM) (t : Thread).

(** ** Operations that print nothing *)

Lemma set_current_thread_printed t k : printed (set_current_thread t k) = printed k.
Proof. unfold set_current_thread. by destruct (RUNNING_THREAD k). Qed.

Lemma place_thread_printed tid b k maybe : printed (place_thread tid (b, k) maybe).2 = printed k.
Proof.
  destruct maybe as [t|]; [|done]. unfold place_thread. case_decide; [|done].
  apply set_current_thread_printed.
Qed.

Lemma place_threads_printed tid (t1 t2 : option Thread) k b k' :
  place_threads tid [t2; t1] k = (b, k') -> printed k' = printed k.
Proof.
  unfold place_threads. cbn [fold_left]. destruct (place_thread tid (false, k) t2) as [b2 k2] eqn:Hp.
  intros Hq. pose proof (place_thread_printed tid false k t2) as Ht2. rewrite Hp in Ht2.
  pose proof (place_thread_printed tid b2 k2 t1) as Ht1. rewrite Hq in Ht1. cbn in *. congruence.
Qed.

Lemma switch_unless_printed b ctx k c k' :
  switch_unless b ctx k = Done (c, k') -> printed k' = printed k.
Proof.
  unfold switch_unless. destruct b; intros Hs; [by simplify_eq|].
  bind_Done Hs. destruct r. simplify_eq. by eapply schedule_printed.
Qed.

Lemma sys_receive_printed ctx handle k c k' :
  sys_receive ctx handle k = Done (c, k') -> printed k' = printed k.
Proof.
  unfold sys_receive, take_current_thread. destruct (RUNNING_THREAD k) as [t|]; [|intros; by simplify_eq].
  destruct (thread_get_sockets _ _ _) as [s|].
  - destruct (Socket.receive _ _ _) as [[socket' [t1 t2]] m'].
    destruct (place_threads _ _ _) as [b k1] eqn:Hp. intros Hs.
    apply place_threads_printed in Hp. apply switch_unless_printed in Hs. by rewrite Hs, Hp.
  - intros. simplify_eq. by rewrite set_current_thread_printed.
Qed.

Lemma sys_send_printed ctx id d1 d2 d3 k c k' :
  sys_send ctx id d1 d2 d3 k = Done (c, k') -> printed k' = printed k.
Proof.
  unfold sys_send, take_current_thread. destruct (RUNNING_THREAD k) as [t|]; [|intros; by simplify_eq].
  destruct (thread_get_sockets _ _ _) as [s|].
  - intros Hs. bind_Done Hs. destruct r as [[socket' [t1 t2]] m'].
    destruct (place_threads _ _ _) as [b k1] eqn:Hp.
    apply place_threads_printed in Hp. apply switch_unless_printed in Hs. by rewrite Hs, Hp.
  - intros. simplify_eq. by rewrite set_current_thread_printed.
Qed.

Lemma kernel_send_printed s message k ts k' :
  kernel_send s message k = (ts, k') -> printed k' = printed k.
Proof.
  unfold kernel_send. destruct (Socket.send_message _ _ _ _) as [[socket' u] m']. intros. by simplify_eq.
Qed.

(** ** Operations that print *)

Lemma drop_process_said pid k k' : drop_process pid k = Done k' -> said k k'.
Proof.
  unfold drop_process. intros Hd. bind_Done Hd. apply Done_inj in Hd. subst k'.
  match goal with |- said k (with_processes _ ?k1) => transitivity k1; [|by apply said_silent] end.
  match goal with |- said k (println _ ?k1) => transitivity k1; [|apply said_println; auto 6 with utf8] end.
  apply said_silent. cbn. by case_decide.
Qed.

Lemma drop_thread_said others t k k' : drop_thread others t k = Done k' -> said k k'.
Proof.
  unfold drop_thread. intros Hd. bind_Done Hd. destruct r as [x mm1]. bind_Done Hd. bind_Done Hd.
  apply Done_inj in Hd. subst k'. rename r into k1. transitivity k1; [|by apply said_silent].
  match type of Hr0 with (if _ then Done ?k2 else _) = _ => transitivity k2 end.
  - transitivity (with_mm mm1 k); [by apply said_silent|]. apply said_println. auto 6 with utf8.
  - case_decide; [apply Done_inj in Hr0; by subst|by eapply drop_process_said].
Qed.

Lemma drop_threads_said ts k k' : drop_threads ts k = Done k' -> said k k'.
Proof.
  revert k. induction ts as [|t ts IH]; intros k Hd; cbn in Hd; [by simplify_eq|].
  bind_Done Hd. apply drop_thread_said in Hr. transitivity r; [done|by apply IH].
Qed.

Lemma fork_said ctx k c k' : fork_current_thread ctx k = Done (c, k') -> said k k'.
Proof.
  unfold fork_current_thread, unique_id. destruct (RUNNING_THREAD k) as [t|].
  - cbn. intros Hf. bind_Done Hf. destruct r as [[[u1 u2]|e] mm1].
    + cbn in Hf. bind_Done Hf. destruct r as [p mm2]. apply Done_inj in Hf.
      injection Hf as _ <-. by apply said_silent.
    + apply Done_inj in Hf. injection Hf as _ <-. by exists (text "err" ++ [0x0A]); split; [|auto with utf8].
  - intros Hf. apply Done_inj in Hf. injection Hf as _ <-.
    exists (text "err 2 " ++ [0x0A]). split; [done|auto with utf8].
Qed.

Lemma exit_said ctx k c k' : exit_current_thread ctx k = Done (c, k') -> said k k'.
Proof.
  unfold exit_current_thread. destruct (RUNNING_THREAD k) as [t|]; [|intros; by simplify_eq].
  intros He. bind_Done He. apply Done_inj in He. injection He as _ <-.
  apply drop_threads_said in Hr. etransitivity; [|exact Hr]. by apply said_silent.
Qed.

Lemma sys_write_said ptr size k c k' : sys_write ptr size k = Done (c, k') -> said k k'.
Proof.
  unfold sys_write. case_decide; [intros; by simplify_eq|].
  destruct (is_utf8 _) eqn:Hu; intros; simplify_eq; [by apply said_print|done].
Qed.

(** A call that continues from [k0], which differs from [k] in silence. *)
Lemma said_from k0 k k' : printed k0 = printed k -> said k0 k' -> said k k'.
Proof. intros Hp Hs. transitivity k0; [by apply said_silent|done]. Qed.

Lemma handle_syscall_said ctx regs k c k' : handle_syscall ctx regs k = Done (c, k') -> said k k'.
Proof.
  unfold handle_syscall, dispatch_syscall. destruct (if decide _ then _ else _) as [code data].
  set (k0 := with_memory _ (with_memory _ k)). intros Hd. apply (said_from k0); [done|]. clearbody k0.
  assert (Hunknown : Done (Return, println (text "Unknown syscall " ++ hexadecimal ctx ++ text " " ++
      decimal (Isf.rax regs) ++ text " " ++ decimal (Isf.rdi regs) ++ text " " ++ decimal (Isf.rsi regs)) k0)
      = Done (c, k') -> said k0 k').
  { intros Hu. apply Done_inj in Hu. injection Hu as _ <-. apply said_println. auto 10 with utf8. }
  repeat match type of Hd with (match ?x with _ => _ end) = _ => destruct x end; auto.
  all: first [by eapply exit_said|by eapply fork_said|by eapply sys_write_said|apply said_silent].
  all: first [by eapply sys_receive_printed|by eapply sys_send_printed|idtac].
  unfold sys_yield in Hd. bind_Done Hd. destruct r. apply Done_inj in Hd. injection Hd as _ <-.
  by eapply schedule_printed.
Qed.

Lemma schedule_thread_opt_printed (maybe : option Thread) k : printed (schedule_thread_opt maybe k) = printed k.
Proof. by destruct maybe. Qed.

Lemma keyboard_said ctx keyboard scancode k a keyboard' k' :
  keyboard_handler_inner ctx keyboard scancode k = Done (a, keyboard', k') -> said k k'.
Proof.
  unfold keyboard_handler_inner. destruct (decode_scancode keyboard scancode) as [kb [key|]] eqn:Hk;
    [|intros; by simplify_eq].
  apply decoded_typed in Hk. destruct key as [ch|key].
  - destruct (kernel_send _ _ _) as [[t1 t2] k1] eqn:Hsend. apply kernel_send_printed in Hsend.
    intros Hb. assert (Hp : printed k' = printed k1).
    { destruct t1 as [t|].
      - bind_Done Hb. destruct r. apply Done_inj in Hb. injection Hb as _ _ <-.
        apply schedule_printed in Hr. rewrite Hr. apply (schedule_thread_opt_printed t2).
      - apply Done_inj in Hb. injection Hb as _ _ <-. apply schedule_thread_opt_printed. }
    transitivity (print (encode_utf8 ch) k); [apply said_print; auto with utf8|].
    apply said_silent. by rewrite Hp.
  - intros Hb. apply Done_inj in Hb. injection Hb as _ _ <-. by apply said_print.
Qed.

Lemma spawn_kernel_thread_said function handles k uid k' :
  spawn_kernel_thread function handles k = Done (uid, k') -> said k k'.
Proof.
  unfold spawn_kernel_thread, new_process. destruct get_kernel_segments as [code data].
  intros Hb. bind_Done Hb. destruct r. cbn in Hb. apply Done_inj in Hb. injection Hb as _ <-.
  by apply said_silent.
Qed.

Lemma initialise_thread_said entry pt params k r k' :
  initialise_thread entry pt params k = Done (r, k') -> said k k'.
Proof.
  unfold initialise_thread, new_process. cbn [unique_id]. destruct get_user_segments as [code data].
  intros Hb. bind_Done Hb. destruct r0 as [p mm1]. cbn in Hb. bind_Done Hb.
  destruct r0 as [[[u1 u2]|e] mm2].
  - apply Done_inj in Hb. injection Hb as _ <-. eexists. split; [reflexivity|]. auto 10 with utf8.
  - bind_Done Hb. apply Done_inj in Hb. injection Hb as _ <-. by apply said_silent.
Qed.

Lemma step_said e k k' : step e k k' -> said k k'.
Proof.
  intros Hs. destruct Hs as [ctx regs k c k' _ Hd|ctx regs k a k' Hd|ctx regs kb sc k a kb' k' Hd
    |f hs k uid k' _ Hd|e tb ps k r k' _ Hd|pid k k' Hd|k k' Hd].
  - by eapply handle_syscall_said.
  - apply schedule_printed in Hd. by apply said_silent.
  - apply keyboard_said in Hd. by apply (said_from (interrupted ctx regs k)).
  - by eapply spawn_kernel_thread_said.
  - by eapply initialise_thread_said.
  - unfold notify_id in Hd. destruct (kernel_send _ _ _) as [[t1 t2] k1] eqn:Hk.
    apply kernel_send_printed in Hk. apply drop_threads_said in Hd. by apply (said_from k1).
  - destruct Hd; first [by apply said_print | by apply said_silent].
Qed.

(** ** Properties *)

(** C23: the console is typed.  Whatever steps the kernel makes, whatever bytes,
    handles and numbers user programs pass to it, what it prints is appended to
    what it printed before and is well-formed UTF-8, so the text on the console
    always is. *)
Theorem printed_utf8 k0 k
    (Hsteps : rtc (fun k k' => exists e : @event K, step e k k') k0 k) :
  exists s, printed k = printed k0 ++ s /\ is_utf8 s = true /\
    (is_utf8 (printed k0) = true -> is_utf8 (printed k) = true).
Proof.
  assert (Hsaid : said k0 k).
  { induction Hsteps as [|k0 k1 k [e He] _ IH]; [done|]. transitivity k1; [by eapply step_said|exact IH]. }
  destruct Hsaid as (s & Hp & Hs). exists s. split; [done|]. split; [done|].
  rewrite Hp. intros Hk0. by apply app_utf8.
Qed.
End Printed.

(** A keyboard that ignores what is no character, and a program that prints
    three letters. *)
Definition typed_keyboard : KeyboardDecoder unit := {|
  decode_scancode u c := (u, if decide (is_char c) then Some (Unicode c) else None);
|}.

Lemma typed_keyboard_laws : @KeyboardDecoderLaws unit typed_keyboard.
Proof. constructor. intros u c u' key Hk. cbn in Hk. case_decide; by simplify_eq. Qed.

Lemma printed_utf8_witness :
  let k0 := demo_kernel (Some (demo_thread 1 7 0)) [] in
  exists k : kernel Z, printed k = [0x41; 0x42; 0x43] /\ is_utf8 (printed k) = true.
Proof.
  intros k0.
  pose (write := Isf.of_fun (fun f => match f with
    | Isf.RAX => 2 | Isf.RDI => 0x41 | Isf.RSI => 3 | _ => 0 end)).
  pose (k := (done_or (Return, k0) (handle_syscall (H := arena) (gdt := flat_gdt) 0x3000 write k0)).2).
  exists k. split; [vm_compute; reflexivity|].
  destruct (printed_utf8 (H := arena) (gdt := flat_gdt) (H1 := typed_keyboard_laws) k0 k)
    as (s & _ & _ & Hk).
  - apply rtc_once. exists (Syscall 0x3000 write). eapply StepSyscall; vm_compute; reflexivity.
  - apply Hk. reflexivity.
Defined.
