(* ===== verification/Stacks.v ===== *)
(** * Kernel stacks and saved contexts

    Every thread owns a kernel stack, a block of the kernel heap, and its saved
    registers live on that stack.  With a memory manager that keeps the
    contract below, no step of the kernel makes two threads share a stack, so
    no thread's entry into the kernel overwrites the saved registers of
    another. *)
From S2P Require Import Prelude Heap Abi Sync Isf Thread Kernel Syscall Spawn Irq System.

(** The layout of the buffer of a [Vec<u8>]. *)
Definition u8_layout (size : Z) : Layout := mkLayout size 1.

(** What the kernel's memory promises: [owns m live] says that [live] are the
    heap blocks handed out as buffers of vectors; user stacks and page tables
    do not come from the heap. *)
Class MemoryManagerLaws (MM : Type) `{MemoryManager MM} (lo hi : Z) := {
  heap_bounds : 0 <= lo /\ hi < 2 ^ 64;
  owns : MM -> list block -> Prop;
  owns_proper m : Proper ((≡ₚ) ==> iff) (owns m);
  owns_placed m live : owns m live -> placed lo hi live;
  owns_alloc m live size p m' :
    owns m live -> 0 < size < 2 ^ 32 -> vec_with_capacity size m = Done (p, m') ->
    owns m' ((p, u8_layout size) :: live);
  owns_drop m live live' p size m' :
    owns m live -> live ≡ₚ (p, u8_layout size) :: live' -> vec_drop p size m = Done m' ->
    owns m' live';
  owns_user_stack m live table n r m' :
    owns m live -> allocate_user_stack table n m = Done (r, m') -> owns m' live;
  owns_free_stack m live table e r m' :
    owns m live -> free_user_stack table e m = Done (r, m') -> owns m' live;
  owns_free_tables m live table m' :
    owns m live -> free_user_pagetables table m = Done m' -> owns m' live;
  owns_remaps m live m' : owns m live -> remaps m m' -> owns m' live;
}.

#[export] Existing Instance owns_proper.

Section Stacks.
Context {MM K : Type} `{MemoryManagerLaws MM lo hi} {gdt : Selectors} `{KeyboardDecoder K}.
Implicit Types (k : kernel MM) (t : Thread).

(** Where the entry code saves the registers.  The CPU starts an interrupt on
    the stack of the TSS, aligned to 16 bytes; a system call starts 1024 bytes
    below it; both push 20 words. *)
Definition SYSCALL_KERNEL_STACK_OFFSET : Z := 1024.

Definition interrupt_context (top : Z) : Z := top - top mod 16 - Isf.INTERRUPT_CONTEXT_SIZE.
Definition syscall_context (top : Z) : Z :=
  top - SYSCALL_KERNEL_STACK_OFFSET - Isf.INTERRUPT_CONTEXT_SIZE.

Definition saved_at (entry : Z -> Z) (ctx : Z) k : Prop :=
  forall top, interrupt_stack_table k !! 1%nat = Some top -> ctx = entry top.

(** The events of the machine: the registers are where the entry code saves
    them. *)
Definition entered k (e : @event K) : Prop :=
  match e with
  | Syscall ctx _ => saved_at syscall_context ctx k
  | Timer ctx _ | Key ctx _ _ _ => saved_at interrupt_context ctx k
  | _ => True
  end.

(** The block of a thread's kernel stack, and what is always true of it. *)
Definition stack_block (v : Vec) : block := (vec_ptr v, u8_layout (vec_capacity v)).

Definition stack_ok t : Prop :=
  kernel_stack_end t = vec_ptr (kernel_stack t) + KERNEL_STACK_SIZE /\
  KERNEL_STACK_SIZE <= vec_capacity (kernel_stack t) /\
  kernel_stack_end t - 1200 <= context t /\
  context t + Isf.INTERRUPT_CONTEXT_SIZE <= kernel_stack_end t.

#[local] Instance stack_ok_dec t : Decision (stack_ok t).
Proof. unfold stack_ok. apply _. Defined.

(** What the invariant sees of a thread. *)
Definition stack_view t : Vec * bool := (kernel_stack t, bool_decide (stack_ok t)).

Record stacked k : Prop := {
  st_owns : owns (mm k) (stack_block ∘ fst <$> owned stack_view k);
  st_ok : Forall (fun v => v.2 = true) (owned stack_view k);
}.

Lemma stacked_memory m k : stacked k -> stacked (with_memory m k).
Proof. intros [? ?]. by constructor. Qed.

Lemma stacked_ok k t : stacked k -> t ∈ all_threads k -> stack_ok t.
Proof.
  intros [_ Hs] Ht. rewrite Forall_forall in Hs.
  specialize (Hs (stack_view t) (list_elem_of_fmap_2 _ _ _ Ht)). cbn in Hs.
  by apply bool_decide_eq_true in Hs.
Qed.

(** The running thread enters the kernel on its own stack. *)
Lemma saved_keeps entry ctx k :
  (forall top, top - 1200 <= entry top /\ entry top + Isf.INTERRUPT_CONTEXT_SIZE <= top) ->
  stacked k -> on_stack k -> saved_at entry ctx k -> keeps_running stack_view ctx k.
Proof.
  intros He Hs Ho Hctx t Ht. pose proof (Hctx _ (Ho t Ht)) as ->.
  pose proof (stacked_ok k t Hs (running_owned _ _ Ht)) as Hok. unfold stack_ok in Hok.
  specialize (He (kernel_stack_end t)).
  split; [|intros p]; unfold stack_view; f_equal; apply bool_decide_ext; unfold stack_ok; cbn; tauto.
Qed.

Lemma interrupt_context_in top :
  top - 1200 <= interrupt_context top /\ interrupt_context top + Isf.INTERRUPT_CONTEXT_SIZE <= top.
Proof.
  unfold interrupt_context, Isf.INTERRUPT_CONTEXT_SIZE.
  pose proof (Z.mod_pos_bound top 16 ltac:(lia)). lia.
Qed.

Lemma syscall_context_in top :
  top - 1200 <= syscall_context top /\ syscall_context top + Isf.INTERRUPT_CONTEXT_SIZE <= top.
Proof. unfold syscall_context, SYSCALL_KERNEL_STACK_OFFSET, Isf.INTERRUPT_CONTEXT_SIZE. lia. Qed.

(** Threads are dropped with their stacks. *)
Lemma drop_process_owns pid k k' live :
  owns (mm k) live -> drop_process pid k = Done k' -> owns (mm k') live.
Proof.
  unfold drop_process. intros Ho Hd. bind_Done Hd. apply Done_inj in Hd as <-.
  eapply owns_free_tables; [|exact Hr]. unfold kernel_mode. by destruct (decide _).
Qed.

Lemma drop_threads_owns ts k k' live :
  owns (mm k) ((stack_block ∘ kernel_stack <$> ts) ++ live) -> drop_threads ts k = Done k' ->
  owns (mm k') live.
Proof.
  revert k. induction ts as [|t ts IH]; intros k Ho Hd; cbn in Hd; [by simplify_eq|].
  bind_Done Hd. apply (IH r); [|done]. clear IH Hd.
  unfold drop_thread in Hr. bind_Done Hr. destruct r0 as [r0 mm1].
  eapply owns_free_stack in Hr0; [|exact Ho]. bind_Done Hr. bind_Done Hr. apply Done_inj in Hr as <-.
  eapply owns_drop; [|reflexivity|exact Hr2].
  destruct (decide _); [by apply Done_inj in Hr1 as <-|].
  eapply drop_process_owns; [|exact Hr1]. exact Hr0.
Qed.

(** A new thread on a new stack. *)
Lemma stacked_create k k' t p capacity :
  stacked k -> owned stack_view k' ≡ₚ stack_view t :: owned stack_view k ->
  owns (mm k') ((p, u8_layout capacity) :: (stack_block ∘ fst <$> owned stack_view k)) ->
  kernel_stack t = mkVec p capacity -> kernel_stack_end t = p +w KERNEL_STACK_SIZE ->
  context t = kernel_stack_end t -w Isf.INTERRUPT_CONTEXT_SIZE ->
  KERNEL_STACK_SIZE <= capacity < 2 ^ 32 -> stacked k'.
Proof.
  intros [_ Hok] Hp Hv Hks Hend Hctx Hc. unfold KERNEL_STACK_SIZE in *.
  assert (Hstack : stack_ok t).
  { pose proof Hv as Hv'. apply owns_placed, placed_cons in Hv' as ([Hlo Hhi] & _). pose proof heap_bounds.
    unfold block_end in Hhi. cbn in Hlo, Hhi. unfold stack_ok, KERNEL_STACK_SIZE.
    rewrite Hctx, Hend, Hks. unfold Isf.INTERRUPT_CONTEXT_SIZE. cbn [vec_ptr vec_capacity].
    rewrite (wrap64_small (p + _)) by (unfold is_u64; lia).
    rewrite wrap64_small by (unfold is_u64; lia). lia. }
  constructor; rewrite Hp.
  - rewrite fmap_cons. cbn. rewrite Hks. exact Hv.
  - constructor; [|done]. by apply bool_decide_eq_true_2.
Qed.

Lemma stacked_unmoved k k' : stacked k -> unmoved stack_view k k' -> stacked k'.
Proof. intros [Ho Hok] [Hp _ _ Hm]. constructor; rewrite Hp; by rewrite ?Hm. Qed.

Lemma stacked_syscall ctx regs k c k' :
  stacked k -> wf k -> saved_at syscall_context ctx k ->
  handle_syscall ctx regs k = Done (c, k') -> stacked k'.
Proof.
  intros Hs Hwf Hctx Hd. destruct (dispatch_cases _ _ _ _ _ Hwf Hd) as [m Hc]. cbn zeta in Hc.
  pose proof (stacked_memory m k Hs) as Hs0.
  assert (Hmove : (forall X (f : Thread -> X), keeps_running f ctx k -> unmoved f k k') /\
    on_stack k' -> stacked k').
  { intros [Hm _]. apply (stacked_unmoved k); [done|]. apply Hm.
    eapply saved_keeps; [apply syscall_context_in|done|apply Hwf|done]. }
  repeat case_match; auto.
  - apply (fork_cases stack_view) in Hc as (_ & _ & _ & [[Ht Hm]|Hc]).
    + destruct Hs as [Ho Hok]. constructor; rewrite Ht; [|done].
      destruct Hm as [[_ ->]|(_ & e & Ha)]; [done|]. by eapply owns_user_stack; [|exact Ha].
    + destruct Hc as (t & stack & mm1 & p & Ht & _ & _ & Hks & Hend & Hctx' & Ha & Hv).
      apply (stacked_create (with_memory m k) k' t p KERNEL_STACK_SIZE); try done.
      eapply owns_alloc; [|done|exact Hv]. eapply owns_user_stack; [apply Hs|exact Ha].
  - destruct (RUNNING_THREAD k) as [cur|] eqn:Hrun.
    + apply (exit_drops _ _ _ _ cur) in Hc as (_ & k1 & Hall & _ & Hm1 & Hd1); [|apply Hwf|done].
      apply drop_threads_same in Hd1 as Hsame. destruct Hsame as (Hq & Hr & Hsk & _).
      destruct Hs0 as [Ho Hok]. unfold owned in *.
      assert (Hk : all_threads k' = all_threads k1) by (unfold all_threads; congruence).
      rewrite Hall in Ho, Hok. constructor; unfold owned; rewrite Hk.
      * eapply (drop_threads_owns [cur]); [|exact Hd1]. rewrite Hm1. exact Ho.
      * by apply Forall_cons in Hok as [_ Hok].
    + unfold exit_current_thread in Hc. cbn in Hc. rewrite Hrun in Hc. by simplify_eq.
Qed.

Lemma stacked_notify pid k k' : stacked k -> notify_id pid k = Done k' -> stacked k'.
Proof.
  unfold notify_id. intros [Ho Hok]. destruct (kernel_send _ _ _) as [[t1 t2] k1] eqn:Hk.
  intros Hd. apply kernel_send_all in Hk as (Hall & _ & _ & Hm & _).
  apply drop_threads_same in Hd as Hsame. destruct Hsame as (Hq & Hr & Hsk & _).
  assert (Hk : all_threads k' = all_threads k1) by (unfold all_threads; congruence).
  unfold owned in *. rewrite <-Hall, fmap_app in Ho, Hok.
  constructor; unfold owned; rewrite Hk.
  - eapply drop_threads_owns; [|exact Hd]. rewrite Hm. rewrite fmap_app in Ho.
    by rewrite <-list_fmap_compose in Ho.
  - by apply Forall_app in Hok as [_ Hok].
Qed.

Lemma stacked_step (e : @event K) k k' :
  stacked k -> wf k -> entered k e -> step e k k' -> stacked k'.
Proof.
  intros Hs Hwf He Hstep. destruct Hstep as [ctx regs k c k' Hl Hd|ctx regs k a k' Hd
    |ctx regs kb sc k a kb' k' Hd|f hs k uid k' Hl Hd|e tb ps k r k' Hl Hd|pid k k' Hd|k k' Hd]; cbn in He.
  - by eapply stacked_syscall.
  - apply (stacked_unmoved (interrupted ctx regs k)); [by apply stacked_memory|].
    eapply schedule_unmoved; [|exact Hd].
    apply (saved_keeps _ ctx k interrupt_context_in Hs (wf_on_stack k Hwf) He).
  - apply (stacked_unmoved (interrupted ctx regs k)); [by apply stacked_memory|].
    eapply keyboard_unmoved; [|exact Hd].
    apply (saved_keeps _ ctx k interrupt_context_in Hs (wf_on_stack k Hwf) He).
  - apply (spawn_kernel_thread_cases stack_view) in Hd
      as (t & p & Ht & _ & _ & _ & Hks & Hend & Hctx & Hv & _).
    apply (stacked_create k k' t p (KERNEL_STACK_SIZE + USER_STACK_SIZE)); try done.
    eapply owns_alloc; [apply Hs|done|exact Hv].
  - apply (initialise_thread_cases stack_view) in Hd
      as (_ & _ & _ & p & mm1 & stack & mm2 & Hv & Ha & Hcase).
    eapply owns_alloc in Hv; [|apply Hs|done].
    eapply owns_user_stack in Ha; [|exact Hv].
    destruct r as [uid|e'].
    + destruct Hcase as (t & _ & Ht & _ & Hks & Hend & Hctx & Hm).
      apply (stacked_create k k' t p KERNEL_STACK_SIZE); try done. by rewrite Hm.
    + destruct Hcase as [Ht Hdrop]. constructor; rewrite Ht; [|apply Hs].
      by eapply owns_drop; [exact Ha|reflexivity|exact Hdrop].
  - by eapply stacked_notify.
  - pose proof (works_owned stack_view _ _ Hd) as Ht. destruct Hs as [Ho Hok].
    destruct (works_frame _ _ Hd) as (_ & _ & _ & _ & _ & _ & Hm).
    constructor; [|by rewrite Ht]. rewrite Ht. destruct Hm as [->|Hm]; [done|by eapply owns_remaps].
Qed.

(** ** Reachable states *)

Definition safely_reachable : kernel MM -> Prop :=
  reachable_by (fun mem => owns mem []) entered.

Lemma stacked_reachable k : safely_reachable k -> stacked k.
Proof.
  induction 1 as [shown table ist mem _ Ho|e k k' Hr IH He Hstep].
  - by constructor; [|constructor].
  - eapply stacked_step; [exact IH|by eapply wf_reachable|exact He|exact Hstep].
Qed.

(** A context inside a stack. *)
Lemma stack_disjoint_apart t u :
  stack_ok t -> stack_ok u ->
  disjoint_blocks (stack_block (kernel_stack t)) (stack_block (kernel_stack u)) ->
  Isf.apart (context t) (context u).
Proof.
  unfold stack_ok, disjoint_blocks, stack_block, block_end, Isf.apart, KERNEL_STACK_SIZE. cbn. lia.
Qed.

Lemma stacked_disjoint k i j t u :
  stacked k -> all_threads k !! i = Some t -> all_threads k !! j = Some u -> i ≠ j ->
  disjoint_blocks (stack_block (kernel_stack t)) (stack_block (kernel_stack u)).
Proof.
  intros [Ho _] Hi Hj Hij. apply owns_placed in Ho as [_ _ Hd].
  eapply apart_blocks_lookup; [exact Hd| | |exact Hij];
    unfold owned; rewrite !list_lookup_fmap, ?Hi, ?Hj; done.
Qed.

(** C3: kernel stacks.  Whatever the system calls, interrupts, forks, exits
    and creations, as long as the registers are saved where the entry code
    saves them, two threads of the kernel never share a byte of kernel stack,
    every saved context lies inside its own thread's stack, and so no two
    saved contexts overlap. *)
Theorem stacks_disjoint k i j t u
    (Hr : safely_reachable k) (Hi : all_threads k !! i = Some t) (Hj : all_threads k !! j = Some u)
    (Hij : i ≠ j) :
  disjoint_blocks (stack_block (kernel_stack t)) (stack_block (kernel_stack u)) /\
  stack_ok t /\ stack_ok u /\ Isf.apart (context t) (context u).
Proof.
  pose proof (stacked_reachable k Hr) as Hs.
  pose proof (stacked_disjoint _ _ _ _ _ Hs Hi Hj Hij) as Hd.
  assert (stack_ok t /\ stack_ok u) as [Ht Hu]
    by (split; by eapply stacked_ok; [|eapply list_elem_of_lookup_2]).
  split; [done|]. split; [done|]. split; [done|]. by apply stack_disjoint_apart.
Qed.
End Stacks.
