(* ===== verification/Registers.v ===== *)
(** * Isolation of saved registers

    Which saved contexts a step of the kernel writes: those of the thread that
    enters, of threads a message call replies to, and of a thread it creates.
    With the stacks of Stacks.v apart, a thread that waits in the queue is
    resumed with the registers it was interrupted with. *)
From S2P Require Import Prelude Heap Abi Sync Isf Thread Kernel Syscall Spawn Irq System Stacks.

Section Writes.
Context {MM K : Type} `{MemoryManager MM} {gdt : Selectors} `{KeyboardDecoder K}.
Implicit Types (k : kernel MM) (t : Thread).

(** Every context the kernel may reply to is away from [c]. *)
Definition parked_apart c k : Prop :=
  forall u, u ∈ parked (socket_heap k) -> Isf.apart (context u) c.

Lemma held_parked s k u : u ∈ Socket.held (socket_at s k) -> u ∈ parked (socket_heap k).
Proof. intros Hu. rewrite (parked_split (socket_heap k) s). set_solver. Qed.

Lemma switch_unless_memory b ctx k c k' :
  switch_unless b ctx k = Done (c, k') -> memory k' = memory k.
Proof.
  unfold switch_unless. destruct b; [intros; by simplify_eq|].
  intros Hs. bind_Done Hs. destruct r as [a k1]. simplify_eq/=. by apply schedule_frame in Hr as [? _].
Qed.

(** What the message-passing calls share. *)
Lemma rendezvous_load s call ctx0 c k thread tid socket' (t1 t2 : option Thread) memory' b k0 k1
    ctl k' :
  Socket.exec (socket_at s k) call (memory k) = (socket', (t1, t2), memory') ->
  Socket.caller call = Some (set_context ctx0 thread) -> Isf.apart ctx0 c -> parked_apart c k ->
  memory k0 = memory' -> place_threads tid [t2; t1] k0 = (b, k1) ->
  switch_unless b ctx0 k1 = Done (ctl, k') ->
  Isf.load (memory k') c = Isf.load (memory k) c.
Proof.
  intros He Hcall Ha Hp Hm Hpl Hsw. apply switch_unless_memory in Hsw as ->.
  apply place_threads_spec in Hpl as ((-> & _) & _). rewrite Hm.
  pose proof (load_exec (socket_at s k) call (memory k) c) as Hl. rewrite He in Hl. apply Hl.
  rewrite Hcall. intros u [->%list_elem_of_singleton|Hu]%elem_of_app; [done|].
  by eapply Hp, held_parked.
Qed.

Lemma sys_receive_load ctx handle c k ctl k' :
  Isf.apart ctx c -> parked_apart c k -> sys_receive ctx handle k = Done (ctl, k') ->
  Isf.load (memory k') c = Isf.load (memory k) c.
Proof.
  unfold sys_receive, take_current_thread. intros Ha Hp.
  destruct (RUNNING_THREAD k) as [thread|]; [|intros; by simplify_eq].
  destruct (thread_get_sockets _ _ _) as [s|].
  - destruct (Socket.receive _ _ _) as [[socket' [t1 t2]] memory'] eqn:He.
    destruct (place_threads _ _ _) as [b k1] eqn:Hpl. intros Hsw.
    eapply (rendezvous_load s (Socket.Receive _) ctx c k);
      [exact He|reflexivity|exact Ha|exact Hp| |exact Hpl|exact Hsw]; reflexivity.
  - intros Hd. apply Done_inj in Hd. injection Hd as <- <-. by apply load_return_error.
Qed.

Lemma sys_send_load ctx id d1 d2 d3 c k ctl k' :
  Isf.apart ctx c -> parked_apart c k -> sys_send ctx id d1 d2 d3 k = Done (ctl, k') ->
  Isf.load (memory k') c = Isf.load (memory k) c.
Proof.
  unfold sys_send, take_current_thread. intros Ha Hp.
  destruct (RUNNING_THREAD k) as [thread|]; [|intros; by simplify_eq].
  destruct (thread_get_sockets _ _ _) as [s|].
  - intros Hb. bind_Done Hb. destruct r as [[socket' [t1 t2]] memory'].
    destruct (place_threads _ _ _) as [b k1] eqn:Hpl.
    repeat case_decide; try done; injection Hr as He.
    + eapply (rendezvous_load s (Socket.Send (Some _) (Packet d1 d2 d3)) ctx c k);
        [exact He|reflexivity|exact Ha|exact Hp| |exact Hpl|exact Hb]; reflexivity.
    + eapply (rendezvous_load s (Socket.SendReceive _ (Packet d1 d2 d3)) ctx c k);
        [exact He|reflexivity|exact Ha|exact Hp| |exact Hpl|exact Hb]; reflexivity.
  - intros Hd. apply Done_inj in Hd. injection Hd as <- <-. by apply load_return_error.
Qed.

Lemma fork_load ctx c k ctl k' :
  Isf.apart ctx c ->
  (forall stack mm1 p mm2, allocate_user_stack (cr3 k) (COUNTER k +w 1) (mm k) = Done (stack, mm1) ->
    vec_with_capacity KERNEL_STACK_SIZE mm1 = Done (p, mm2) ->
    Isf.apart (p +w KERNEL_STACK_SIZE -w Isf.INTERRUPT_CONTEXT_SIZE) c) ->
  fork_current_thread ctx k = Done (ctl, k') -> Isf.load (memory k') c = Isf.load (memory k) c.
Proof.
  unfold fork_current_thread, unique_id. intros Ha Hn.
  destruct (RUNNING_THREAD k) as [cur|].
  2: { intros Hd. apply Done_inj in Hd. injection Hd as <- <-. by apply Isf.load_write_apart. }
  intros Hb. bind_Done Hb. destruct r as [[[u1 u2]|e] mm1].
  - bind_Done Hb. destruct r as [p mm2]. apply Done_inj in Hb. injection Hb as <- <-.
    pose proof (Hn _ _ _ _ Hr Hr0) as Hnew.
    cbn. rewrite !Isf.load_write_apart, Isf.load_store_apart by done. done.
  - apply Done_inj in Hb. injection Hb as <- <-. by apply Isf.load_write_apart.
Qed.

Lemma exit_memory ctx k ctl k' :
  exit_current_thread ctx k = Done (ctl, k') -> memory k' = memory k.
Proof.
  unfold exit_current_thread. destruct (RUNNING_THREAD k); [|intros; by simplify_eq].
  intros Hb. bind_Done Hb. simplify_eq. by apply drop_threads_same in Hr as (_ & _ & _ & _ & -> & _).
Qed.

Lemma handle_syscall_load ctx regs c k ctl k' :
  Isf.apart ctx c -> parked_apart c k ->
  (forall stack mm1 p mm2, allocate_user_stack (cr3 k) (COUNTER k +w 1) (mm k) = Done (stack, mm1) ->
    vec_with_capacity KERNEL_STACK_SIZE mm1 = Done (p, mm2) ->
    Isf.apart (p +w KERNEL_STACK_SIZE -w Isf.INTERRUPT_CONTEXT_SIZE) c) ->
  handle_syscall ctx regs k = Done (ctl, k') -> Isf.load (memory k') c = Isf.load (memory k) c.
Proof.
  intros Ha Hp Hn Hd. unfold handle_syscall, dispatch_syscall in Hd.
  destruct (if decide _ then _ else _) as [code data] in Hd.
  match type of Hd with context [Isf.write ?a ?b ?v ?m] =>
    set (m0 := Isf.write a b v m) in Hd end.
  assert (Hm0 : Isf.load m0 c = Isf.load (memory k) c).
  { unfold m0. cbn. by rewrite !Isf.load_write_apart, Isf.load_store_apart by done. }
  rewrite <-Hm0. change m0 with (memory (with_memory m0 k)).
  change (with_memory m0 _) with (with_memory m0 k) in Hd.
  clearbody m0. generalize dependent (Z.land (Isf.rax regs) 0xFF). intros op Hd.
  repeat case_match; subst;
    first [ by eapply fork_load | by apply exit_memory in Hd as ->
          | by eapply sys_receive_load | by eapply sys_send_load
          | by unfold sys_yield in Hd; bind_Done Hd; destruct r; simplify_eq;
            apply schedule_frame in Hr as [-> _]
          | by unfold sys_write in Hd; repeat case_match; simplify_eq
          | by apply Done_inj in Hd; injection Hd as <- <- ].
Qed.

Lemma kernel_send_load s message c k (t1 t2 : option Thread) k' :
  parked_apart c k -> kernel_send s message k = ((t1, t2), k') ->
  Isf.load (memory k') c = Isf.load (memory k) c.
Proof.
  unfold kernel_send. intros Hp.
  pose proof (load_exec (socket_at s k) (Socket.Send None message) (memory k) c) as Hl. cbn in Hl.
  destruct (Socket.send_message _ _ _ _) as [[socket' ts] memory']. intros. simplify_eq/=.
  apply Hl. intros u Hu. by eapply Hp, held_parked.
Qed.

Lemma keyboard_load ctx keyboard scancode c k a keyboard' k' :
  parked_apart c k -> keyboard_handler_inner ctx keyboard scancode k = Done (a, keyboard', k') ->
  Isf.load (memory k') c = Isf.load (memory k) c.
Proof.
  unfold keyboard_handler_inner. intros Hp.
  destruct (decode_scancode keyboard scancode) as [kb [[ch|key]|]].
  2,3: intros Hb; apply Done_inj in Hb; by injection Hb as <- <- <-.
  destruct (kernel_send _ _ _) as [[t1 t2] k1] eqn:Hk.
  apply (kernel_send_load _ _ c) in Hk; [|done]. change (memory (print _ k)) with (memory k) in Hk.
  rewrite <-Hk. intros Hb. destruct t1 as [t1|]; cbn in Hb.
  - bind_Done Hb. destruct r. simplify_eq. apply schedule_frame in Hr as [-> _]. by destruct t2.
  - simplify_eq. by destruct t2.
Qed.

(** A new thread's context is written on its own stack. *)
Lemma spawn_kernel_thread_load function handles c k uid k' :
  (forall p mm1, vec_with_capacity (KERNEL_STACK_SIZE + USER_STACK_SIZE) (mm k) = Done (p, mm1) ->
    Isf.apart (p +w KERNEL_STACK_SIZE -w Isf.INTERRUPT_CONTEXT_SIZE) c) ->
  spawn_kernel_thread function handles k = Done (uid, k') ->
  Isf.load (memory k') c = Isf.load (memory k) c.
Proof.
  unfold spawn_kernel_thread, new_process. intros Hn Hb. bind_Done Hb. destruct r as [p mm1].
  pose proof (Hn _ _ Hr) as Ha. apply Done_inj in Hb. injection Hb as <- <-.
  cbn. by rewrite !Isf.load_write_apart by exact Ha.
Qed.

Lemma initialise_thread_load entry pt params c k r k' :
  (forall p mm1, vec_with_capacity KERNEL_STACK_SIZE (mm k) = Done (p, mm1) ->
    Isf.apart (p +w KERNEL_STACK_SIZE -w Isf.INTERRUPT_CONTEXT_SIZE) c) ->
  initialise_thread entry pt params k = Done (r, k') ->
  Isf.load (memory k') c = Isf.load (memory k) c.
Proof.
  unfold initialise_thread, new_process. cbn [unique_id]. intros Hn Hb.
  bind_Done Hb. destruct r0 as [p mm1]. pose proof (Hn _ _ Hr) as Ha. cbn in Hb.
  bind_Done Hb. destruct r0 as [[[u1 u2]|e] mm2].
  - apply Done_inj in Hb. injection Hb as <- <-. cbn. by rewrite !Isf.load_write_apart by exact Ha.
  - bind_Done Hb. apply Done_inj in Hb. by injection Hb as <- <-.
Qed.

Lemma notify_load pid c k k' :
  parked_apart c k -> notify_id pid k = Done k' -> Isf.load (memory k') c = Isf.load (memory k) c.
Proof.
  unfold notify_id. intros Hp. destruct (kernel_send _ _ _) as [[t1 t2] k1] eqn:Hk.
  intros Hd. apply (kernel_send_load _ _ c) in Hk as <-; [|done].
  by apply drop_threads_same in Hd as (_ & _ & _ & _ & -> & _).
Qed.
End Writes.

(** ** The stack of the next interrupt

    A step that leaves the CPU without a thread leaves the TSS alone, so the
    next interrupt is taken on the stack of the thread that ran last. *)
Section Idle.
Context {MM K : Type} `{MemoryManager MM} {gdt : Selectors} `{KeyboardDecoder K}.
Implicit Types (k : kernel MM) (t : Thread).

Definition tss_kept k k' : Prop :=
  is_Some (RUNNING_THREAD k') \/ interrupt_stack_table k' = interrupt_stack_table k.

Lemma schedule_tss ctx k a k' : schedule ctx k = Done (a, k') -> tss_kept k k'.
Proof.
  unfold schedule. destruct (update_current_thread _ _ _ _) as [[|t q] ?].
  - intros. simplify_eq. by right.
  - intros Hs. bind_Done Hs. simplify_eq. left. by case_decide.
Qed.

Lemma switch_unless_tss b ctx k c k' : switch_unless b ctx k = Done (c, k') -> tss_kept k k'.
Proof.
  unfold switch_unless. destruct b; [intros; simplify_eq; by right|].
  intros Hs. bind_Done Hs. destruct r as [a k1]. simplify_eq/=. by eapply schedule_tss.
Qed.

Lemma rendezvous_tss tid (t1 t2 : option Thread) b ctx k k0 k1 c k' :
  interrupt_stack_table k0 = interrupt_stack_table k ->
  place_threads tid [t2; t1] k0 = (b, k1) -> switch_unless b ctx k1 = Done (c, k') -> tss_kept k k'.
Proof.
  intros H0' Hp Hsw. apply place_threads_spec in Hp as ((_ & _ & _ & _ & _ & Hi & _) & _).
  apply switch_unless_tss in Hsw as [Hr|Hr]; [by left|right]. congruence.
Qed.

Lemma sys_receive_tss ctx handle k c k' : sys_receive ctx handle k = Done (c, k') -> tss_kept k k'.
Proof.
  unfold sys_receive, take_current_thread.
  destruct (RUNNING_THREAD k) as [thread|]; [|intros; simplify_eq; by right].
  destruct (thread_get_sockets _ _ _) as [s|].
  - destruct (Socket.receive _ _ _) as [[socket' [t1 t2]] memory'].
    destruct (place_threads _ _ _) as [b k1] eqn:Hpl. intros Hsw.
    eapply rendezvous_tss; [|exact Hpl|exact Hsw]. done.
  - intros. simplify_eq. by right.
Qed.

Lemma sys_send_tss ctx id d1 d2 d3 k c k' :
  sys_send ctx id d1 d2 d3 k = Done (c, k') -> tss_kept k k'.
Proof.
  unfold sys_send, take_current_thread.
  destruct (RUNNING_THREAD k) as [thread|]; [|intros; simplify_eq; by right].
  destruct (thread_get_sockets _ _ _) as [s|].
  - intros Hb. bind_Done Hb. destruct r as [[socket' [t1 t2]] memory'].
    destruct (place_threads _ _ _) as [b k1] eqn:Hpl.
    eapply rendezvous_tss; [|exact Hpl|exact Hb]. done.
  - intros. simplify_eq. by right.
Qed.

Lemma handle_syscall_tss ctx regs k c k' : handle_syscall ctx regs k = Done (c, k') -> tss_kept k k'.
Proof.
  intros Hd. unfold handle_syscall, dispatch_syscall in Hd.
  destruct (if decide _ then _ else _) as [code data] in Hd.
  match type of Hd with context [Isf.write ?a ?b ?v ?m] => set (m0 := Isf.write a b v m) in Hd end.
  change (tss_kept (with_memory m0 k) k'). change (with_memory m0 _) with (with_memory m0 k) in Hd.
  clearbody m0. generalize dependent (Z.land (Isf.rax regs) 0xFF). intros op Hd.
  repeat case_match; subst;
    first [ by apply (fork_cases thread_id) in Hd as (_ & _ & Hi & _); right
          | by apply (exit_unmoved thread_id) in Hd as (_ & _ & _ & _ & Hi); right
          | by eapply sys_receive_tss | by eapply sys_send_tss
          | by unfold sys_yield in Hd; bind_Done Hd; destruct r; simplify_eq; eapply schedule_tss
          | by unfold sys_write in Hd; repeat case_match; simplify_eq; right
          | by apply Done_inj in Hd; injection Hd as <- <-; right ].
Qed.

Lemma step_tss (e : @event K) k k' : step e k k' -> tss_kept k k'.
Proof.
  intros Hs. destruct Hs as [ctx regs k c k' Hl Hd|ctx regs k a k' Hd|ctx regs kb sc k a kb' k' Hd
    |f hs k uid k' Hl Hd|e tb ps k r k' Hl Hd|pid k k' Hd|k k' Hd].
  - by eapply handle_syscall_tss.
  - by apply schedule_tss in Hd.
  - apply keyboard_wakes in Hd as (k1 & _ & _ & Hi & [->|Hs]); [by right|].
    apply schedule_tss in Hs as [|Hs]; [by left|right]. by rewrite Hs, Hi.
  - apply (spawn_kernel_thread_cases thread_id) in Hd
      as (t & p & _ & _ & _ & _ & _ & _ & _ & _ & _ & Hi). by right.
  - apply (initialise_thread_cases thread_id) in Hd as (_ & _ & Hi & _). by right.
  - apply (notify_submseteq thread_id) in Hd as (_ & _ & _ & Hi). by right.
  - apply works_frame in Hd as (_ & _ & _ & _ & _ & Hi & _). by right.
Qed.
End Idle.

(** ** Threads in the queue *)

Section Waiting.
Context {MM K : Type} `{MemoryManagerLaws MM lo hi} {gdt : Selectors} `{KeyboardDecoder K}.
Implicit Types (k : kernel MM) (t r : Thread).

Lemma waiting_position k t :
  t ∈ WAIT_QUEUE k -> exists i, all_threads k !! i = Some t /\ (i < length (WAIT_QUEUE k))%nat.
Proof.
  intros [i Hi]%list_elem_of_lookup. pose proof (lookup_lt_Some _ _ _ Hi). exists i.
  split; [|done]. unfold all_threads. by rewrite lookup_app_l.
Qed.

Lemma other_position k u :
  u ∈ option_list (RUNNING_THREAD k) ++ parked (socket_heap k) ->
  exists i, all_threads k !! i = Some u /\ (length (WAIT_QUEUE k) <= i)%nat.
Proof.
  intros [i Hi]%list_elem_of_lookup. exists (length (WAIT_QUEUE k) + i)%nat. split; [|lia].
  unfold all_threads. rewrite lookup_app_r by lia. by replace (_ + i - _)%nat with i by lia.
Qed.

(** A waiting thread's stack is apart from that of every thread that is not in the queue. *)
Lemma waiting_disjoint k t u :
  stacked k -> t ∈ WAIT_QUEUE k -> u ∈ option_list (RUNNING_THREAD k) ++ parked (socket_heap k) ->
  disjoint_blocks (stack_block (kernel_stack u)) (stack_block (kernel_stack t)).
Proof.
  intros Hs (i & Hi & Hl)%waiting_position (j & Hj & Hl')%other_position.
  eapply stacked_disjoint; [done..|lia].
Qed.

Lemma waiting_owned k t : t ∈ WAIT_QUEUE k -> t ∈ all_threads k.
Proof. unfold all_threads. set_solver. Qed.

Lemma waiting_parked k t : stacked k -> t ∈ WAIT_QUEUE k -> parked_apart (context t) k.
Proof.
  intros Hs Ht u Hu. apply stack_disjoint_apart.
  - apply (stacked_ok k); [done|]. unfold all_threads. set_solver.
  - by apply (stacked_ok k); [|apply waiting_owned].
  - apply (waiting_disjoint k t u); [done..|]. set_solver.
Qed.

(** The stack of the next interrupt is apart from a waiting context.  While a
    thread runs it is that thread's; afterwards it may be the stack of a thread
    that has exited, which is free but not yet used again. *)
Definition interrupts_apart t k : Prop :=
  forall top, interrupt_stack_table k !! 1%nat = Some top ->
    Isf.apart (interrupt_context top) (context t) /\ Isf.apart (syscall_context top) (context t).

Definition idle_apart t k : Prop := RUNNING_THREAD k = None -> interrupts_apart t k.

Lemma running_apart t k :
  stacked k -> on_stack k -> is_Some (RUNNING_THREAD k) -> t ∈ WAIT_QUEUE k -> interrupts_apart t k.
Proof.
  intros Hs Ho [r Hrun] Ht top Htop. rewrite (Ho r Hrun) in Htop. injection Htop as <-.
  assert (Hr : stack_ok r) by (apply (stacked_ok k); [done|by apply running_owned]).
  assert (Ht' : stack_ok t) by (apply (stacked_ok k); [done|by apply waiting_owned]).
  assert (Hap : forall entry, (forall top, top - 1200 <= entry top /\
      entry top + Isf.INTERRUPT_CONTEXT_SIZE <= top) ->
    Isf.apart (entry (kernel_stack_end r)) (context t)).
  { intros entry He. specialize (He (kernel_stack_end r)).
    apply (stack_disjoint_apart (set_context (entry (kernel_stack_end r)) r)); [|done|].
    - unfold stack_ok in *. cbn. tauto.
    - apply (waiting_disjoint k t r); [done..|]. rewrite Hrun. cbn. apply list_elem_of_here. }
  split; apply Hap; [apply interrupt_context_in|apply syscall_context_in].
Qed.

Lemma waiting_apart t k :
  stacked k -> wf k -> idle_apart t k -> t ∈ WAIT_QUEUE k -> interrupts_apart t k.
Proof.
  intros Hs Hwf Hi Ht. destruct (RUNNING_THREAD k) eqn:Hrun; [|by apply Hi].
  apply running_apart; [done|apply Hwf|by eexists|done].
Qed.

(** An entry of the kernel saves the registers away from it. *)
Lemma waiting_entry (entry : Z -> Z) ctx k t :
  length (interrupt_stack_table k) = 7%nat -> saved_at entry ctx k ->
  (forall top, interrupt_stack_table k !! 1%nat = Some top -> Isf.apart (entry top) (context t)) ->
  Isf.apart ctx (context t).
Proof.
  intros Hl Hc Ha. destruct (lookup_lt_is_Some_2 (interrupt_stack_table k) 1) as [top Htop]; [lia|].
  rewrite (Hc top Htop). by apply Ha.
Qed.

(** The context of a new thread is away from every context on a stack in use. *)
Lemma fresh_apart k t p capacity mem :
  stacked k -> t ∈ all_threads k -> KERNEL_STACK_SIZE <= capacity < 2 ^ 32 ->
  owns mem ((p, u8_layout capacity) :: (stack_block ∘ fst <$> owned stack_view k)) ->
  Isf.apart (p +w KERNEL_STACK_SIZE -w Isf.INTERRUPT_CONTEXT_SIZE) (context t).
Proof.
  intros Hs Ht Hc Ho. pose proof (stacked_ok _ _ Hs Ht) as Hok. pose proof heap_bounds.
  apply owns_placed, placed_cons in Ho as ([Hlo Hhi] & _ & Hd & _).
  rewrite Forall_forall in Hd. unfold block_end in Hhi. cbn in Hlo, Hhi.
  specialize (Hd (stack_block (kernel_stack t))).
  assert (Hin : stack_block (kernel_stack t) ∈ (stack_block ∘ fst <$> owned stack_view k)).
  { apply list_elem_of_fmap. exists (stack_view t). split; [done|]. by apply list_elem_of_fmap_2. }
  specialize (Hd Hin). unfold disjoint_blocks, stack_block, block_end, stack_ok, KERNEL_STACK_SIZE in *.
  cbn in Hd. unfold Isf.apart, Isf.INTERRUPT_CONTEXT_SIZE in *.
  rewrite (wrap64_small (p + _)) by (unfold is_u64; lia).
  rewrite wrap64_small by (unfold is_u64; lia). lia.
Qed.

(** One step leaves the registers of a waiting thread alone. *)
Lemma waiting_load (e : @event K) k k' t :
  stacked k -> wf k -> idle_apart t k -> entered k e -> t ∈ WAIT_QUEUE k ->
  step e k k' -> Isf.load (memory k') (context t) = Isf.load (memory k) (context t).
Proof.
  intros Hs Hwf Hidle He Ht Hstep.
  pose proof (waiting_apart t k Hs Hwf Hidle Ht) as Hap.
  pose proof (waiting_parked k t Hs Ht) as Hp. pose proof (waiting_owned k t Ht) as Hin.
  assert (Hirq : forall ctx regs, saved_at interrupt_context ctx k ->
    Isf.load (memory (interrupted ctx regs k)) (context t) = Isf.load (memory k) (context t)).
  { intros ctx regs Hc. apply Isf.load_store_apart.
    apply (waiting_entry _ _ k t (wf_ist k Hwf) Hc). intros top Htop. by apply Hap. }
  destruct Hstep as [ctx regs k c k' Hl Hd|ctx regs k a k' Hd
    |ctx regs kb sc k a kb' k' Hd|f hs k uid k' Hl Hd|e tb ps k r k' Hl Hd|pid k k' Hd|k k' Hd]; cbn in He.
  - eapply handle_syscall_load; [|exact Hp| |exact Hd].
    + apply (waiting_entry _ _ k t (wf_ist k Hwf) He). intros top Htop. by apply Hap.
    + intros stack mm1 p mm2 Ha Hv. apply (fresh_apart k t p KERNEL_STACK_SIZE mm2); [done..|].
      eapply owns_alloc; [|done|exact Hv]. eapply owns_user_stack; [apply Hs|exact Ha].
  - rewrite <-(Hirq ctx regs He). unfold timer_handler in Hd. by apply schedule_frame in Hd as [-> _].
  - rewrite <-(Hirq ctx regs He). eapply keyboard_load; [|exact Hd]. exact Hp.
  - eapply spawn_kernel_thread_load; [|exact Hd]. intros p mm1 Hv.
    apply (fresh_apart k t p (KERNEL_STACK_SIZE + USER_STACK_SIZE) mm1); [done..|].
    eapply owns_alloc; [apply Hs|done|exact Hv].
  - eapply initialise_thread_load; [|exact Hd]. intros p mm1 Hv.
    apply (fresh_apart k t p KERNEL_STACK_SIZE mm1); [done..|].
    eapply owns_alloc; [apply Hs|done|exact Hv].
  - by eapply notify_load.
  - by apply works_frame in Hd as (_ & _ & _ & _ & -> & _).
Qed.

(** The invariant stays when a thread exits and the CPU idles. *)
Lemma idle_apart_step (e : @event K) k k' t :
  stacked k -> wf k -> idle_apart t k -> t ∈ WAIT_QUEUE k -> step e k k' -> idle_apart t k'.
Proof.
  intros Hs Hwf Hidle Ht Hstep Hnone.
  apply step_tss in Hstep as [[r Hr]|Hi]; [congruence|].
  unfold interrupts_apart. rewrite Hi. by apply waiting_apart.
Qed.

(** A step taken while [t] waits: whatever thread runs, or none. *)
Definition waits t k k' : Prop :=
  t ∈ WAIT_QUEUE k /\ exists e : @event K, entered k e /\ step e k k'.

Lemma waits_load t k k' :
  safely_reachable k -> idle_apart t k -> rtc (waits t) k k' ->
  safely_reachable k' /\ idle_apart t k' /\
  Isf.load (memory k') (context t) = Isf.load (memory k) (context t).
Proof.
  intros Hr Hi Hsteps. revert Hr Hi.
  induction Hsteps as [|k k1 k' (Ht & e & He & Hstep) _ IH]; [done|]. intros Hr Hi.
  pose proof (stacked_reachable k Hr) as Hs. pose proof (wf_reachable _ _ k Hr) as Hwf.
  assert (Hr1 : safely_reachable k1) by by eapply ReachStep.
  destruct (IH Hr1) as (Hk' & Hi' & ->); [by eapply idle_apart_step|]. do 2 (split; [done|]).
  by eapply waiting_load.
Qed.
End Waiting.
