(* ===== verification/Asm.v ===== *)
(** * Entry and exit code (interrupts.rs, syscall.rs)

    The assembly that saves and restores the registers: [interrupt_wrap!],
    [launch_thread] and [handle_syscall], instruction by instruction, on a
    machine that has the 20 registers of an [ISF] and whose memory is that of
    the kernel.  The compiled Rust functions they call are the definitions of
    Syscall.v and Irq.v; the stack frames these use below the saved registers
    are not modelled. *)
From S2P Require Import Prelude Heap Abi Sync Isf Thread Kernel Syscall Spawn Irq System Stacks Registers.

#[local] Existing Instance Isf.field_eq_dec.

(** Changing one register. *)
Definition set_reg (f : Isf.field) (v : Z) (i : Isf.ISF) : Isf.ISF :=
  Isf.of_fun (fun g => if decide (g = f) then v else Isf.get g i).

(** The processor: its registers, whether GS points to the TSS (after
    [swapgs]), and the kernel, whose [memory] it pushes to and pops from. *)
Record machine (MM : Type) := mkMachine {
  regs : Isf.ISF;
  on_tss : bool;
  state : kernel MM;
}.
Arguments mkMachine {MM}.
Arguments regs {MM}.
Arguments on_tss {MM}.
Arguments state {MM}.

(** The instructions that occur, with the registers they name; [gs:n] is the
    entry [n] of the interrupt stack table, at [0x24 + n * 8] in the TSS. *)
Inductive instr :=
| Cli | Sti
| Push (f : Isf.field)
| Pop (f : Isf.field)
| Mov (dst src : Isf.field)
| AddRsp (n : Z)
| Swapgs
| StoreGs (n : nat) (src : Isf.field)
| LoadGs (dst : Isf.field) (n : nat)
| PushGs (n : nat)
| CmpJe (f : Isf.field) (v : Z) (skip : nat)
| CmpJl (f : Isf.field) (v : Z) (skip : nat)
| Call
| Popf
| JmpReg (f : Isf.field)
| Iretq
| Sysretq.

(** A 64-bit word as the signed number a comparison sees. *)
Definition signed (v : Z) : Z := if decide (v < 2 ^ 63) then v else v - 2 ^ 64.

(** The model specific registers [syscall::init] writes: the flags a system
    call masks, and the segments [syscall] and [sysretq] load. *)
Definition FMASK : Z := 0x300.
Definition STAR : Z := Z.shiftl 0x230008 32.
Definition SYSCALL_CS : Z := Z.land (Z.shiftr STAR 32) 0xFFFF.
Definition SYSCALL_SS : Z := SYSCALL_CS + 8.
Definition SYSRET_CS : Z := Z.lor (Z.land (Z.shiftr STAR 48) 0xFFFF + 16) 3.
Definition SYSRET_SS : Z := Z.lor (Z.land (Z.shiftr STAR 48) 0xFFFF + 8) 3.

(** Bit 9 of RFLAGS: interrupts enabled. *)
Definition IF_BIT : Z := 9.

Section Machine.
Context {MM : Type}.
Implicit Types (m : machine MM).

Definition with_regs (r : Isf.ISF) m : machine MM := mkMachine r (on_tss m) (state m).
Definition with_state (k : kernel MM) m : machine MM := mkMachine (regs m) (on_tss m) k.

Definition rsp m : Z := Isf.stack_pointer (regs m).
Definition reg (f : Isf.field) m : Z := Isf.get f (regs m).
Definition assign (f : Isf.field) (v : Z) m : machine MM := with_regs (set_reg f v (regs m)) m.
Definition word (a : Z) m : Z := memory (state m) !!! a.

(** Pushing a word, and popping one into a register. *)
Definition push (v : Z) m : machine MM :=
  let sp := rsp m - 8 in
  assign Isf.StackPointer sp (with_state (with_memory (<[sp := v]> (memory (state m))) (state m)) m).
Definition pop (f : Isf.field) m : machine MM :=
  let sp := rsp m in
  assign f (word sp m) (assign Isf.StackPointer (sp + 8) m).

(** Where an instruction leads: on, skipping some instructions; to the end of
    the code; into a function that launches another context; into [hlt]. *)
Inductive flow := Next (skip : nat) | Stop | Leave (context_addr : Z) | Sleep.

Definition gs (n : nat) m : outcome Z :=
  if on_tss m then vindex (interrupt_stack_table (state m)) (Z.of_nat n) else Panic.

(** [handler] is what the called function does with the machine. *)
Definition exec (handler : machine MM -> outcome (control * machine MM)) (i : instr) m :
    outcome (flow * machine MM) :=
  match i with
  | Cli => Done (Next 0, assign Isf.Flags (Z.clearbit (reg Isf.Flags m) IF_BIT) m)
  | Sti => Done (Next 0, assign Isf.Flags (Z.setbit (reg Isf.Flags m) IF_BIT) m)
  | Push f => Done (Next 0, push (reg f m) m)
  | Pop f => Done (Next 0, pop f m)
  | Mov dst src => Done (Next 0, assign dst (reg src m) m)
  | AddRsp n => Done (Next 0, assign Isf.StackPointer (rsp m + n) m)
  | Swapgs => Done (Next 0, mkMachine (regs m) (negb (on_tss m)) (state m))
  | StoreGs n src =>
      _ ← gs n m;
      ist ← vset (interrupt_stack_table (state m)) (Z.of_nat n) (reg src m);
      Done (Next 0, with_state (with_ist ist (state m)) m)
  | LoadGs dst n => v ← gs n m; Done (Next 0, assign dst v m)
  | PushGs n => v ← gs n m; Done (Next 0, push v m)
  | CmpJe f v skip => Done (Next (if decide (reg f m = v) then skip else 0%nat), m)
  | CmpJl f v skip => Done (Next (if decide (signed (reg f m) < v) then skip else 0%nat), m)
  | Call =>
      '(c, m) ← handler m;
      match c with
      | Return => Done (Next 0, m)
      | Launch a => Done (Leave a, m)
      | Halt => Done (Sleep, m)
      end
  | Popf => Done (Next 0, pop Isf.Flags m)
  | JmpReg f => Done (Stop, assign Isf.InstructionPointer (reg f m) m)
  | Iretq =>
      let sp := rsp m in
      Done (Stop, with_regs (Isf.of_fun (fun f =>
        match f with
        | Isf.InstructionPointer => word sp m
        | Isf.CodeSegment => word (sp + 8) m
        | Isf.Flags => word (sp + 16) m
        | Isf.StackPointer => word (sp + 24) m
        | Isf.StackSegment => word (sp + 32) m
        | _ => reg f m
        end)) m)
  | Sysretq =>
      Done (Stop, assign Isf.InstructionPointer (reg Isf.RCX m)
        (assign Isf.Flags (reg Isf.R11 m)
          (assign Isf.CodeSegment SYSRET_CS (assign Isf.StackSegment SYSRET_SS m))))
  end.

(** A piece of code. *)
Fixpoint run (handler : machine MM -> outcome (control * machine MM)) (code : list instr)
    (skip : nat) m : outcome (flow * machine MM) :=
  match code, skip with
  | [], _ => Done (Stop, m)
  | _ :: code, S skip => run handler code skip m
  | i :: code, O =>
      '(f, m) ← exec handler i m;
      match f with
      | Next skip => run handler code skip m
      | _ => Done (f, m)
      end
  end.
End Machine.

(** The general registers, in the order they are pushed. *)
Definition pushed : list Isf.field :=
  [Isf.RAX; Isf.RBX; Isf.RCX; Isf.RDX; Isf.RDI; Isf.RSI; Isf.RBP; Isf.R8;
   Isf.R9; Isf.R10; Isf.R11; Isf.R12; Isf.R13; Isf.R14; Isf.R15].

Definition popped : list Isf.field :=
  [Isf.R15; Isf.R14; Isf.R13; Isf.R12; Isf.R11; Isf.R10; Isf.R9; Isf.R8;
   Isf.RBP; Isf.RSI; Isf.RDI; Isf.RDX; Isf.RCX; Isf.RBX; Isf.RAX].

(** [interrupt_wrap!] *)
Definition interrupt_wrap : list instr :=
  Cli :: (Push <$> pushed) ++
  [Mov Isf.RDI Isf.StackPointer; Call; CmpJe Isf.RAX 0 1; Mov Isf.StackPointer Isf.RAX] ++
  (Pop <$> popped) ++ [Sti; Iretq].

(** [launch_thread] *)
Definition launch_thread : list instr :=
  Mov Isf.StackPointer Isf.RDI :: (Pop <$> popped) ++ [Sti; Iretq].

(** [handle_syscall] *)
Definition tss_timer : nat := 1.
Definition tss_temp : nat := 2.

Definition handle_syscall_asm : list instr :=
  [Swapgs; StoreGs tss_temp Isf.StackPointer; LoadGs Isf.StackPointer tss_timer;
   AddRsp (- SYSCALL_KERNEL_STACK_OFFSET); AddRsp (-8); PushGs tss_temp; Swapgs;
   Push Isf.R11; AddRsp (-8); Push Isf.RCX] ++ (Push <$> pushed) ++
  [Mov Isf.R8 Isf.RDX; Mov Isf.RCX Isf.RSI; Mov Isf.RDX Isf.RDI; Mov Isf.RSI Isf.RAX;
   Mov Isf.RDI Isf.StackPointer; Call] ++ (Pop <$> popped) ++
  [AddRsp 24; Pop Isf.StackPointer; CmpJl Isf.RCX USER_CODE_START 1; Sysretq;
   Push Isf.R11; Popf; JmpReg Isf.RCX].

(** Compiled functions may change the registers, but by the System V calling
    convention they return with the stack pointer they were called with, and
    they do not touch the segments. *)
Class CallingConvention := {
  clobber : Isf.ISF -> Isf.ISF;
}.

Class CallingConventionLaws `{CallingConvention} := {
  clobber_kept f i : f ∈ [Isf.StackPointer; Isf.CodeSegment; Isf.StackSegment] ->
    Isf.get f (clobber i) = Isf.get f i;
}.

Section Entries.
Context {MM : Type} `{MemoryManager MM} {gdt : Selectors} `{CallingConvention}.
Implicit Types (m : machine MM).

(** A handler of interrupts is called with the address of the context in RDI
    and returns an address in RAX. *)
Definition call_handler (handler : Z -> kernel MM -> outcome (Z * kernel MM)) m :
    outcome (control * machine MM) :=
  '(a, k) ← handler (reg Isf.RDI m) (state m);
  Done (Return, mkMachine (set_reg Isf.RAX a (clobber (regs m))) (on_tss m) k).

(** [dispatch_syscall] takes its arguments in RDI, RSI, RDX, RCX and R8. *)
Definition call_dispatch m : outcome (control * machine MM) :=
  '(c, k) ← dispatch_syscall (reg Isf.RDI m) (reg Isf.RSI m) (reg Isf.RDX m) (reg Isf.RCX m)
              (reg Isf.R8 m) (state m);
  Done (c, mkMachine (clobber (regs m)) (on_tss m) k).

(** What the processor does on an interrupt whose gate names the entry [slot] of
    the interrupt stack table. *)
Definition interrupt (slot : nat) m : outcome (machine MM) :=
  top ← vindex (interrupt_stack_table (state m)) (Z.of_nat slot);
  let r := regs m in
  let m := assign Isf.StackPointer (top - top mod 16) m in
  let m := push (Isf.stack_segment r) m in
  let m := push (Isf.stack_pointer r) m in
  let m := push (Isf.flags r) m in
  let m := push (Isf.code_segment r) m in
  let m := push (Isf.instruction_pointer r) m in
  let m := assign Isf.Flags (Z.clearbit (Isf.flags r) IF_BIT) m in
  Done (assign Isf.CodeSegment (code_selector gdt) m).

(** The [syscall] instruction, with the FMASK and STAR that [syscall::init]
    sets. *)
Definition syscall_instr m : machine MM :=
  let r := regs m in
  let m := assign Isf.RCX (Isf.instruction_pointer r) m in
  let m := assign Isf.R11 (Isf.flags r) m in
  let m := assign Isf.Flags (Z.ldiff (Isf.flags r) FMASK) m in
  assign Isf.CodeSegment SYSCALL_CS (assign Isf.StackSegment SYSCALL_SS m).

(** From an interrupt to the instruction that runs next. *)
Definition on_interrupt (handler : Z -> kernel MM -> outcome (Z * kernel MM)) m :
    outcome (flow * machine MM) :=
  m ← interrupt tss_timer m;
  run (call_handler handler) interrupt_wrap 0 m.

(** [launch_thread(a)], called in the state [k]. *)
Definition launch (a : Z) m : outcome (flow * machine MM) :=
  run (fun _ => Panic) launch_thread 0 (assign Isf.RDI a m).

(** From a [syscall] instruction to the instruction that runs next. *)
Definition on_syscall m : outcome (flow * machine MM) :=
  '(f, m) ← run call_dispatch handle_syscall_asm 0 (syscall_instr m);
  match f with
  | Leave a => launch a m
  | _ => Done (f, m)
  end.
End Entries.

(** ** Lemmas *)

Arguments set_reg : simpl never.

Lemma get_set_reg f g v i : Isf.get g (set_reg f v i) = if decide (g = f) then v else Isf.get g i.
Proof. unfold set_reg. by rewrite Isf.get_of_fun. Qed.

Lemma set_reg_set f v w i : set_reg f v (set_reg f w i) = set_reg f v i.
Proof. apply Isf.ISF_ext. intros g. rewrite !get_set_reg. by case_decide. Qed.

Lemma set_reg_id f i : set_reg f (Isf.get f i) i = i.
Proof. apply Isf.ISF_ext. intros g. rewrite get_set_reg. by case_decide; subst. Qed.

Section Runs.
Context {MM : Type}.
Implicit Types (m : machine MM) (k : kernel MM).

Lemma run_step handler i code m m' :
  exec handler i m = Done (Next 0, m') -> run handler (i :: code) 0 m = run handler code 0 m'.
Proof. intros He. cbn [run]. by rewrite He. Qed.

Lemma assign_at f v r t k : assign f v (mkMachine r t k) = mkMachine (set_reg f v r) t k.
Proof. done. Qed.

Lemma reg_at f g v r t k :
  reg f (mkMachine (set_reg g v r) t k) = if decide (f = g) then v else Isf.get f r.
Proof. apply get_set_reg. Qed.

Lemma add_at x n r t k :
  assign Isf.StackPointer (rsp (mkMachine (set_reg Isf.StackPointer x r) t k) + n)
    (mkMachine (set_reg Isf.StackPointer x r) t k) =
  mkMachine (set_reg Isf.StackPointer (x + n) r) t k.
Proof.
  rewrite assign_at, set_reg_set. change (rsp ?m) with (reg Isf.StackPointer m).
  by rewrite reg_at, decide_True.
Qed.

Lemma push_at v x r t k :
  push v (mkMachine (set_reg Isf.StackPointer x r) t k) =
    mkMachine (set_reg Isf.StackPointer (x - 8) r) t (with_memory (<[x - 8 := v]> (memory k)) k).
Proof.
  unfold push, assign, with_regs, with_state. cbn [regs on_tss state].
  rewrite set_reg_set. change (rsp _) with (Isf.get Isf.StackPointer (set_reg Isf.StackPointer x r)).
  by rewrite get_set_reg, decide_True.
Qed.

Lemma pop_push f v m :
  f ≠ Isf.StackPointer ->
  pop f (push v m) = mkMachine (set_reg f v (regs m)) (on_tss m)
    (with_memory (<[rsp m - 8 := v]> (memory (state m))) (state m)).
Proof.
  intros Hf. destruct m as [r t k]. unfold push, with_state. cbn [regs on_tss state]. rewrite !assign_at.
  unfold pop. change (rsp (mkMachine (set_reg ?f ?v ?r) ?t ?k))
    with (reg Isf.StackPointer (mkMachine (set_reg f v r) t k)).
  rewrite reg_at, decide_True, !assign_at, set_reg_set by done. unfold word. cbn [state memory with_memory].
  rewrite lookup_total_insert_eq. f_equal. apply Isf.ISF_ext. intros g. rewrite !get_set_reg.
  destruct (decide (g = f)); [done|]. destruct (decide (g = Isf.StackPointer)) as [->|]; [|done].
  cbn. unfold rsp. cbn. lia.
Qed.

Definition push_all (fs : list Isf.field) m : machine MM := foldl (fun m f => push (reg f m) m) m fs.
Definition pop_all (fs : list Isf.field) m : machine MM := foldl (fun m f => pop f m) m fs.

Lemma run_pushes handler fs rest m :
  run handler ((Push <$> fs) ++ rest) 0 m = run handler rest 0 (push_all fs m).
Proof. revert m. induction fs as [|f fs IH]; intros m; [done|]. apply IH. Qed.

Lemma run_pops handler fs rest m :
  run handler ((Pop <$> fs) ++ rest) 0 m = run handler rest 0 (pop_all fs m).
Proof. revert m. induction fs as [|f fs IH]; intros m; [done|]. apply IH. Qed.

Lemma reg_assign f g v m : reg g (assign f v m) = if decide (g = f) then v else reg g m.
Proof. apply get_set_reg. Qed.

Lemma rsp_assign v m : rsp (assign Isf.StackPointer v m) = v.
Proof. done. Qed.

Lemma with_memory_id k : with_memory (memory k) k = k.
Proof. by destruct k. Qed.

Lemma memory_with x k : memory (with_memory x k) = x.
Proof. done. Qed.

Lemma with_memory_twice x y k : with_memory x (with_memory y k) = with_memory x k.
Proof. done. Qed.

(** Pushes in the reverse of the order of the structure write its fields. *)
Lemma push_all_store l m a :
  Isf.StackPointer ∉ l ->
  (forall i f, l !! i = Some f ->
    a + 8 * Isf.index f = rsp m - 8 * Z.of_nat (length l) + 8 * Z.of_nat i) ->
  push_all (reverse l) m =
    mkMachine (set_reg Isf.StackPointer (rsp m - 8 * Z.of_nat (length l)) (regs m)) (on_tss m)
      (with_memory (Isf.store_fields a (regs m) l (memory (state m))) (state m)).
Proof.
  induction l as [|f l IH]; intros Hsp Ha.
  - cbn. rewrite with_memory_id. destruct m as [r t k]. f_equal. unfold rsp. cbn.
    rewrite Z.sub_0_r. symmetry. apply (set_reg_id Isf.StackPointer).
  - rewrite reverse_cons. unfold push_all. rewrite foldl_app. cbn [foldl].
    fold (push_all (reverse l) m). rewrite IH; [|set_solver|].
    2: { intros i g Hi. specialize (Ha (S i) g Hi). cbn [length] in Ha. lia. }
    clear IH. pose proof (Ha 0%nat f eq_refl) as Hf. cbn [length] in Hf |- *.
    unfold push, assign, with_regs, with_state, reg, rsp. cbn [regs state on_tss].
    unfold with_memory. cbn. unfold Isf.write. f_equal.
    + apply Isf.ISF_ext. intros g. rewrite !get_set_reg. unfold set_reg. cbn.
      destruct (decide (g = _)); [|done]. rewrite decide_True by done. lia.
    + f_equal. rewrite get_set_reg. rewrite decide_False by set_solver. f_equal.
      unfold set_reg, rsp in *. cbn. rewrite decide_True by done. lia.
Qed.

(** Pops read the fields back. *)
Lemma pop_all_load l m a :
  Isf.StackPointer ∉ l -> NoDup l ->
  (forall i f, l !! i = Some f -> a + 8 * Isf.index f = rsp m + 8 * Z.of_nat i) ->
  pop_all l m = with_regs (Isf.of_fun (fun f =>
    if decide (f ∈ l) then Isf.read (memory (state m)) a f
    else if decide (f = Isf.StackPointer) then rsp m + 8 * Z.of_nat (length l)
    else reg f m)) m.
Proof.
  revert m. induction l as [|f l IH]; intros m Hsp Hnd Ha.
  - cbn. destruct m as [r t k]. unfold with_regs. cbn. f_equal. apply Isf.ISF_ext. intros g.
    rewrite Isf.get_of_fun, (decide_False (P := g ∈ [])) by set_solver.
    destruct (decide (g = _)) as [->|]; [|done]. unfold rsp. cbn. lia.
  - apply NoDup_cons in Hnd as [Hf Hnd]. change (pop_all (f :: l) m) with (pop_all l (pop f m)).
    assert (Hne : f ≠ Isf.StackPointer) by set_solver.
    assert (Hrsp : rsp (pop f m) = rsp m + 8).
    { change (reg Isf.StackPointer (pop f m) = rsp m + 8). unfold pop.
      rewrite reg_assign, decide_False by done. by rewrite reg_assign, decide_True. }
    rewrite IH; [|set_solver|done|].
    2: { intros i g Hi. specialize (Ha (S i) g Hi). rewrite Hrsp. lia. }
    rewrite Hrsp. unfold with_regs. cbn [state on_tss pop assign with_regs]. f_equal.
    apply Isf.ISF_ext. intros g. rewrite !Isf.get_of_fun.
    pose proof (Ha 0%nat f eq_refl) as Hfa. cbn [length].
    destruct (decide (g ∈ l)) as [Hg|Hg].
    { by rewrite decide_True by (by apply list_elem_of_further). }
    destruct (decide (g = Isf.StackPointer)) as [->|Hgs].
    { rewrite decide_False by done. lia. }
    unfold pop. rewrite !reg_assign. destruct (decide (g = f)) as [->|Hgf].
    { rewrite decide_True by apply list_elem_of_here. unfold Isf.read, word. f_equal. lia. }
    rewrite !decide_False by (done || set_solver). done.
Qed.

Lemma popped_sp : Isf.StackPointer ∉ popped.
Proof. apply (bool_decide_unpack _). vm_compute. exact I. Qed.

Lemma popped_nodup : NoDup popped.
Proof. apply (bool_decide_unpack _). vm_compute. exact I. Qed.

Lemma popped_index i f : popped !! i = Some f -> Isf.index f = Z.of_nat i.
Proof. intros Hi. do 15 (destruct i as [|i]; [by injection Hi as <-|]). done. Qed.

(** Popping the registers of the context at the stack pointer. *)
Lemma run_restore handler rest m :
  run handler ((Pop <$> popped) ++ rest) 0 m =
    run handler rest 0 (with_regs (Isf.of_fun (fun f =>
      if decide (f ∈ popped) then Isf.read (memory (state m)) (rsp m) f
      else if decide (f = Isf.StackPointer) then rsp m + 120 else reg f m)) m).
Proof.
  rewrite run_pops, (pop_all_load _ _ (rsp m)); [done|apply popped_sp|apply popped_nodup|].
  intros i f Hi%popped_index. lia.
Qed.

(** The end of both ways into a thread loads its context. *)
Lemma run_exit handler m :
  run handler ((Pop <$> popped) ++ [Sti; Iretq]) 0 m =
    Done (Stop, with_regs (Isf.load (memory (state m)) (rsp m)) m).
Proof.
  rewrite run_restore. destruct m as [r t k]. cbn -[Z.add popped].
  unfold with_regs, assign, with_regs. cbn [regs on_tss state]. do 3 f_equal.
  apply Isf.ISF_ext. intros f. unfold Isf.load. rewrite !Isf.get_of_fun.
  unfold word, reg, Isf.read. cbn [regs on_tss state].
  destruct f; rewrite ?get_set_reg, ?Isf.get_of_fun; cbn -[Z.add]; f_equal; unfold rsp; cbn -[Z.add];
    unfold set_reg; cbn -[Z.add popped]; rewrite !(decide_False (P := _ ∈ popped)) by (apply (bool_decide_unpack _); vm_compute; exact I);
    rewrite (decide_False (P := _ = Isf.Flags)), decide_True by done; lia.
Qed.

(** The pushes store the general registers of the context that ends where the
    exception frame is. *)
Lemma run_save handler rest m :
  run handler ((Push <$> pushed) ++ rest) 0 m =
    run handler rest 0 (mkMachine (set_reg Isf.StackPointer (rsp m - 120) (regs m)) (on_tss m)
      (with_memory (Isf.store_fields (rsp m - 120) (regs m) popped (memory (state m))) (state m))).
Proof.
  rewrite run_pushes. change pushed with (reverse popped).
  rewrite (push_all_store _ _ (rsp m - 120)); [done|apply popped_sp|].
  intros i f Hi%popped_index. change (length popped) with 15%nat. lia.
Qed.

Lemma store_fields_ext a i j l mem :
  (forall f, f ∈ l -> Isf.get f i = Isf.get f j) ->
  Isf.store_fields a i l mem = Isf.store_fields a j l mem.
Proof.
  induction l as [|f l IH]; [done|]. intros Heq. cbn.
  rewrite Heq by apply list_elem_of_here. f_equal. apply IH. intros g Hg. by apply Heq, list_elem_of_further.
Qed.

Lemma store_split a i mem :
  Isf.store a i mem = Isf.store_fields a i popped (Isf.store_fields a i
    [Isf.InstructionPointer; Isf.CodeSegment; Isf.Flags; Isf.StackPointer; Isf.StackSegment] mem).
Proof. done. Qed.
End Runs.

Section Refinement.
Context {MM K : Type} `{MemoryManager MM} {gdt : Selectors} `{CallingConventionLaws}
  `{KeyboardDecoder K}.
Implicit Types (m : machine MM) (k : kernel MM).

(** [launch_thread] starts the thread whose context it is given. *)
Lemma launch_load a m :
  launch a m = Done (Stop, with_regs (Isf.load (memory (state m)) a) m).
Proof.
  unfold launch, launch_thread. cbn [run exec mbind outcome_bind]. rewrite run_exit.
  by destruct m.
Qed.

(** The processor and the wrapper save the registers where Stacks.v says. *)
Lemma interrupt_frame m top :
  interrupt_stack_table (state m) !! 1%nat = Some top ->
  exists m1, interrupt tss_timer m = Done m1 /\ on_tss m1 = on_tss m /\
    rsp m1 = interrupt_context top + 120 /\
    (forall f, f ∈ popped -> reg f m1 = reg f m) /\
    state m1 = with_memory (Isf.store_fields (interrupt_context top) (regs m)
      [Isf.InstructionPointer; Isf.CodeSegment; Isf.Flags; Isf.StackPointer; Isf.StackSegment]
      (memory (state m))) (state m).
Proof.
  intros Htop%(vindex_lookup _ 1). unfold interrupt, tss_timer. rewrite Htop.
  destruct m as [r t k]. cbn [mbind outcome_bind regs on_tss state].
  rewrite (assign_at Isf.StackPointer), !push_at, !assign_at.
  eexists. split; [reflexivity|]. cbn [on_tss state assign with_regs]. split; [done|].
  split; [|split].
  - change (rsp _) with (reg Isf.StackPointer (mkMachine (set_reg Isf.CodeSegment (code_selector gdt)
      (set_reg Isf.Flags (Z.clearbit (Isf.flags r) IF_BIT) (set_reg Isf.StackPointer
        (top - top mod 16 - 8 - 8 - 8 - 8 - 8) r))) t k)).
    unfold reg. cbn [regs]. rewrite !get_set_reg, !decide_False, decide_True by done.
    unfold interrupt_context, Isf.INTERRUPT_CONTEXT_SIZE. lia.
  - intros f Hf. unfold reg. cbn [regs]. rewrite !get_set_reg.
    rewrite !decide_False; [done|..]; intros ->; revert Hf; apply (bool_decide_unpack _); vm_compute; exact I.
  - unfold with_memory. cbn. unfold Isf.write. f_equal. cbn.
    unfold interrupt_context, Isf.INTERRUPT_CONTEXT_SIZE. repeat f_equal; lia.
Qed.

(** The whole of an interrupt. *)
Lemma on_interrupt_spec handler m top :
  interrupt_stack_table (state m) !! 1%nat = Some top ->
  on_interrupt handler m =
    ('(a, k) ← handler (interrupt_context top) (interrupted (interrupt_context top) (regs m) (state m));
     Done (Stop, mkMachine (Isf.load (memory k) (if decide (a = 0) then interrupt_context top else a))
       (on_tss m) k)).
Proof.
  intros Htop. destruct (interrupt_frame m top Htop) as (m1 & Hm1 & Hgs & Hsp & Hregs & Hst).
  unfold on_interrupt. rewrite Hm1. cbn [mbind outcome_bind].
  set (ctx := interrupt_context top) in *. unfold interrupt_wrap. cbn [run exec mbind outcome_bind].
  set (m2 := assign Isf.Flags _ m1).
  assert (Hsp2 : rsp m2 = ctx + 120).
  { rewrite <-Hsp. change (reg Isf.StackPointer m2 = reg Isf.StackPointer m1). unfold m2.
    by rewrite reg_assign, decide_False. }
  rewrite run_save, Hsp2. replace (ctx + 120 - 120) with ctx by lia.
  assert (Hmem : Isf.store_fields ctx (regs m2) popped (memory (state m2)) =
    Isf.store ctx (regs m) (memory (state m))).
  { rewrite store_split. change (state m2) with (state m1). rewrite Hst. cbn [memory with_memory].
    apply store_fields_ext. intros f Hf. change (reg f m2 = reg f m). rewrite <-Hregs by done.
    unfold m2. rewrite reg_assign, decide_False; [done|]. intros ->. revert Hf.
    apply (bool_decide_unpack _). vm_compute. exact I. }
  rewrite Hmem. change (on_tss m2) with (on_tss m1). change (state m2) with (state m1).
  rewrite Hgs, Hst. change (with_memory ?x (with_memory ?y (state m))) with (with_memory x (state m)).
  cbn [run exec mbind outcome_bind app]. rewrite assign_at. unfold call_handler.
  rewrite !reg_at, !decide_True by done. cbn [regs on_tss state].
  change (with_memory (Isf.store ctx (regs m) (memory (state m))) (state m))
    with (interrupted ctx (regs m) (state m)).
  destruct (handler ctx _) as [[a k]| |]; [|done..]. cbn [mbind outcome_bind].
  rewrite !reg_at, (decide_True (P := Isf.RAX = _)) by done.
  assert (Hctx : rsp (mkMachine (set_reg Isf.RAX a (clobber (set_reg Isf.RDI ctx
    (set_reg Isf.StackPointer ctx (regs m2))))) (on_tss m) k) = ctx).
  { change (rsp _) with (Isf.get Isf.StackPointer (set_reg Isf.RAX a (clobber (set_reg Isf.RDI ctx
      (set_reg Isf.StackPointer ctx (regs m2)))))).
    rewrite get_set_reg, decide_False, clobber_kept by (done || apply list_elem_of_here).
    by rewrite !get_set_reg, decide_False, decide_True. }
  destruct (decide (a = 0)) as [->|Ha]; rewrite run_exit.
  - by rewrite Hctx.
  - rewrite assign_at. change (rsp ?x) with (reg Isf.StackPointer x).
    by rewrite reg_at, decide_True.
Qed.

(** *** System calls *)

(** What [dispatch_syscall] reads of the context besides the segments. *)
Definition same_but_segments (ctx : Z) (w1 w2 : gmap Z Z) : Prop :=
  forall a, a ≠ ctx + 8 * 16 -> a ≠ ctx + 8 * 19 -> w1 !! a = w2 !! a.

Lemma same_write ctx f v w1 w2 :
  same_but_segments ctx w1 w2 -> same_but_segments ctx (Isf.write ctx f v w1) (Isf.write ctx f v w2).
Proof.
  intros Hs a Ha16 Ha19. unfold Isf.write. destruct (decide (a = ctx + 8 * Isf.index f)) as [->|Hne].
  - by rewrite !lookup_insert_eq.
  - rewrite !lookup_insert_ne by done. by apply Hs.
Qed.

Lemma same_store_fields ctx i l w1 w2 :
  same_but_segments ctx w1 w2 ->
  same_but_segments ctx (Isf.store_fields ctx i l w1) (Isf.store_fields ctx i l w2).
Proof. intros Hs. induction l as [|f l IH]; [done|]. by apply same_write. Qed.

Lemma same_segment ctx f v w1 w2 :
  f = Isf.CodeSegment \/ f = Isf.StackSegment ->
  same_but_segments ctx w1 w2 -> same_but_segments ctx w1 (Isf.write ctx f v w2).
Proof.
  intros Hf Hs a Ha16 Ha19. unfold Isf.write. rewrite lookup_insert_ne; [by apply Hs|].
  destruct Hf as [-> | ->]; cbn; lia.
Qed.

Lemma dispatch_same ctx id a1 a2 a3 w1 w2 k :
  same_but_segments ctx w1 w2 ->
  dispatch_syscall ctx id a1 a2 a3 (with_memory w1 k) = dispatch_syscall ctx id a1 a2 a3 (with_memory w2 k).
Proof.
  intros Hs. unfold dispatch_syscall. cbn [memory with_memory].
  assert (Hrip : Isf.read w1 ctx Isf.InstructionPointer = Isf.read w2 ctx Isf.InstructionPointer).
  { unfold Isf.read. rewrite !lookup_total_alt, Hs; [done|..]; cbn; lia. }
  rewrite Hrip. destruct (if decide _ then _ else _) as [code data].
  assert (Hseg : Isf.write ctx Isf.StackSegment data (Isf.write ctx Isf.CodeSegment code w1) =
    Isf.write ctx Isf.StackSegment data (Isf.write ctx Isf.CodeSegment code w2)).
  { apply map_eq. intros a. unfold Isf.write. cbn [Isf.index].
    destruct (decide (a = ctx + 8 * 19)) as [->|H19]; [by rewrite !lookup_insert_eq|].
    rewrite !(lookup_insert_ne _ (ctx + 8 * 19)) by done.
    destruct (decide (a = ctx + 8 * 16)) as [->|H16]; [by rewrite !lookup_insert_eq|].
    rewrite !lookup_insert_ne by done. by apply Hs. }
  rewrite Hseg. done.
Qed.

(** The registers a system call saves as its context, RCX and R11 as [syscall]
    sets them. *)
Definition saved_regs (r : Isf.ISF) : Isf.ISF :=
  set_reg Isf.R11 (Isf.flags r) (set_reg Isf.RCX (Isf.instruction_pointer r) r).

(** The kernel after the entry code used the spare entry of the TSS. *)
Definition after_entry m : kernel MM :=
  with_ist (<[tss_temp := rsp m]> (interrupt_stack_table (state m))) (state m).

(** The entry code up to the general registers: three words of the frame. *)
Lemma syscall_prologue handler r k top rest :
  interrupt_stack_table k !! 1%nat = Some top -> (2 < length (interrupt_stack_table k))%nat ->
  let a := syscall_context top + 120 in
  run handler ([Swapgs; StoreGs tss_temp Isf.StackPointer; LoadGs Isf.StackPointer tss_timer;
      AddRsp (- SYSCALL_KERNEL_STACK_OFFSET); AddRsp (-8); PushGs tss_temp; Swapgs;
      Push Isf.R11; AddRsp (-8); Push Isf.RCX] ++ rest) 0 (mkMachine r false k) =
  run handler rest 0 (mkMachine (set_reg Isf.StackPointer a r) false
    (with_memory (<[a := Isf.get Isf.RCX r]> (<[a + 16 := Isf.get Isf.R11 r]>
      (<[a + 24 := Isf.get Isf.StackPointer r]> (memory k)))) (after_entry (mkMachine r false k)))).
Proof.
  intros Htop Hlen a. set (k0 := after_entry (mkMachine r false k)).
  assert (Htemp : vindex (interrupt_stack_table k0) (Z.of_nat tss_temp) = Done (Isf.get Isf.StackPointer r)).
  { apply vindex_lookup. by apply list_lookup_insert_eq. }
  assert (Htimer : vindex (interrupt_stack_table k0) (Z.of_nat tss_timer) = Done top).
  { apply vindex_lookup. unfold k0, after_entry. cbn [interrupt_stack_table with_ist].
    by rewrite list_lookup_insert_ne. }
  cbn [app]. rewrite (run_step _ _ _ _ (mkMachine r true k)) by done.
  rewrite (run_step _ _ _ _ (mkMachine r true k0)).
  2: { cbn [exec gs on_tss state regs]. destruct (lookup_lt_is_Some_2 _ _ Hlen) as [x Hx].
       apply (vindex_lookup _ 2) in Hx. unfold tss_temp. rewrite Hx. cbn [mbind outcome_bind].
       by rewrite vset_in by lia. }
  rewrite (run_step _ _ _ _ (mkMachine (set_reg Isf.StackPointer top r) true k0))
    by (cbn [exec gs on_tss state]; by rewrite Htimer).
  erewrite run_step by (cbn [exec]; rewrite add_at; reflexivity).
  erewrite run_step by (cbn [exec]; rewrite add_at; reflexivity).
  erewrite run_step by (cbn [exec gs on_tss state]; rewrite Htemp; cbn [mbind outcome_bind];
    rewrite push_at; reflexivity).
  erewrite run_step by (cbn [exec on_tss regs state negb]; reflexivity).
  erewrite run_step by (cbn [exec]; rewrite push_at, reg_at, decide_False by done; reflexivity).
  erewrite run_step by (cbn [exec]; rewrite add_at; reflexivity).
  erewrite run_step by (cbn [exec]; rewrite push_at, reg_at, decide_False by done; reflexivity).
  rewrite !memory_with, !with_memory_twice. unfold a, syscall_context, Isf.INTERRUPT_CONTEXT_SIZE.
  change (memory k0) with (memory k). f_equal. f_equal; [f_equal; lia|].
  f_equal. f_equal; [lia|]. f_equal; [lia|]. f_equal; lia.
Qed.

Lemma syscall_save m top rest :
  on_tss m = false -> interrupt_stack_table (state m) !! 1%nat = Some top ->
  (2 < length (interrupt_stack_table (state m)))%nat ->
  exists r, run call_dispatch ([Swapgs; StoreGs tss_temp Isf.StackPointer;
      LoadGs Isf.StackPointer tss_timer; AddRsp (- SYSCALL_KERNEL_STACK_OFFSET); AddRsp (-8);
      PushGs tss_temp; Swapgs; Push Isf.R11; AddRsp (-8); Push Isf.RCX] ++ (Push <$> pushed) ++ rest) 0
      (syscall_instr m) =
    run call_dispatch rest 0 (mkMachine (set_reg Isf.StackPointer (syscall_context top) r) false
      (with_memory (Isf.store_fields (syscall_context top) (saved_regs (regs m)) popped
        (Isf.write (syscall_context top) Isf.InstructionPointer (Isf.instruction_pointer (regs m))
          (Isf.write (syscall_context top) Isf.Flags (Isf.flags (regs m))
            (Isf.write (syscall_context top) Isf.StackPointer (rsp m) (memory (state m))))))
        (after_entry m))) /\
    (forall f, f ∈ popped -> Isf.get f r = Isf.get f (saved_regs (regs m))) /\
    Isf.get Isf.CodeSegment r = SYSCALL_CS /\ Isf.get Isf.StackSegment r = SYSCALL_SS.
Proof.
  intros Hgs Htop Hlen. destruct m as [r t k]. cbn [on_tss state regs] in *. subst t.
  unfold syscall_instr. rewrite !assign_at. cbn [regs].
  set (r0 := set_reg Isf.CodeSegment _ _).
  exists r0.
  assert (Hr0 : Isf.get Isf.StackPointer r0 = Isf.stack_pointer r).
  { unfold r0. by rewrite !get_set_reg, !decide_False by done. }
  assert (Hpop : forall f, f ∈ popped -> Isf.get f r0 = Isf.get f (saved_regs r)).
  { intros f Hf. unfold r0, saved_regs. rewrite !get_set_reg.
    rewrite !(decide_False (P := f = Isf.CodeSegment)), !(decide_False (P := f = Isf.StackSegment)),
      !(decide_False (P := f = Isf.Flags)); [done|..]; intros ->; revert Hf;
      apply (bool_decide_unpack _); vm_compute; exact I. }
  split; [|split; [exact Hpop|]].
  2: { unfold r0. rewrite !get_set_reg, (decide_True (P := Isf.CodeSegment = _)) by done.
       by rewrite decide_False, decide_True by done. }
  rewrite (syscall_prologue _ _ _ top) by done. rewrite run_save.
  match goal with |- run _ _ _ ?x = run _ _ _ ?y => replace x with y; [done|] end.
  change (rsp ?m) with (reg Isf.StackPointer m). rewrite reg_at, decide_True by done.
  cbn [regs on_tss state]. rewrite set_reg_set. set (a := syscall_context top).
  replace (a + 120 - 120) with a by lia.
  rewrite (store_fields_ext _ (saved_regs r) (set_reg Isf.StackPointer (a + 120) r0)).
  2: { intros f Hf. rewrite get_set_reg, decide_False, Hpop by (done || intros ->; by apply popped_sp).
       done. }
  rewrite !memory_with, !with_memory_twice.
  assert (Hrcx : Isf.get Isf.RCX r0 = Isf.instruction_pointer r)
    by (unfold r0; by rewrite !get_set_reg, !decide_False, decide_True by done).
  assert (Hr11 : Isf.get Isf.R11 r0 = Isf.flags r)
    by (unfold r0; by rewrite !get_set_reg, !decide_False, decide_True by done).
  unfold after_entry, rsp, reg. cbn [regs state].
  cbn [Isf.get] in Hr0, Hrcx, Hr11 |- *. rewrite Hrcx, Hr11, Hr0. unfold Isf.write. cbn [Isf.index].
  replace (a + 120 + 16) with (a + 8 * 17) by lia. by replace (a + 120 + 24) with (a + 8 * 18) by lia.
Qed.

(** The registers a system call returns with: RIP and RFLAGS come from RCX and
    R11. *)
Definition returned (cs ss : Z) (c : Isf.field -> Z) : Isf.ISF :=
  Isf.of_fun (fun f =>
    match f with
    | Isf.InstructionPointer => c Isf.RCX
    | Isf.Flags => c Isf.R11
    | Isf.CodeSegment => cs
    | Isf.StackSegment => ss
    | _ => c f
    end).

Definition syscall_exit (ctx : Z) k : machine MM :=
  let c := Isf.read (memory k) ctx in
  if decide (signed (c Isf.RCX) < USER_CODE_START)
  then mkMachine (returned SYSCALL_CS SYSCALL_SS c) false
         (with_memory (<[c Isf.StackPointer - 8 := c Isf.R11]> (memory k)) k)
  else mkMachine (returned SYSRET_CS SYSRET_SS c) false k.

Lemma run_syscall_exit handler r k :
  Isf.get Isf.CodeSegment r = SYSCALL_CS -> Isf.get Isf.StackSegment r = SYSCALL_SS ->
  run handler ((Pop <$> popped) ++ [AddRsp 24; Pop Isf.StackPointer; CmpJl Isf.RCX USER_CODE_START 1;
    Sysretq; Push Isf.R11; Popf; JmpReg Isf.RCX]) 0 (mkMachine r false k) =
  Done (Stop, syscall_exit (Isf.get Isf.StackPointer r) k).
Proof.
  intros Hcs Hss. rewrite run_restore.
  change (rsp (mkMachine r false k)) with (Isf.get Isf.StackPointer r).
  set (ctx := Isf.get Isf.StackPointer r). unfold with_regs. cbn [on_tss state].
  set (r1 := Isf.of_fun _).
  assert (Hr1 : forall f, f ∈ popped -> Isf.get f r1 = Isf.read (memory k) ctx f).
  { intros f Hf. unfold r1. by rewrite Isf.get_of_fun, decide_True. }
  assert (Hrest : Isf.get Isf.CodeSegment r1 = SYSCALL_CS /\ Isf.get Isf.StackSegment r1 = SYSCALL_SS /\
    rsp (mkMachine r1 false k) = ctx + 120).
  { change (rsp ?m) with (Isf.get Isf.StackPointer (regs m)). cbn [regs]. unfold r1. rewrite !Isf.get_of_fun.
    rewrite !(decide_False (P := _ ∈ popped)) by (apply (bool_decide_unpack _); vm_compute; exact I).
    by rewrite !decide_False, decide_True by done. }
  destruct Hrest as (Hcs1 & Hss1 & Hsp1). clearbody r1.
  set (c := Isf.read (memory k) ctx) in *.
  assert (Hc : forall f, f ∈ popped -> Isf.get f (set_reg Isf.StackPointer (c Isf.StackPointer) r1) = c f).
  { intros f Hf. rewrite get_set_reg, decide_False by (intros ->; by apply popped_sp). by apply Hr1. }
  erewrite run_step by (cbn [exec]; rewrite assign_at, Hsp1; reflexivity).
  rewrite (run_step _ _ _ _ (mkMachine (set_reg Isf.StackPointer (c Isf.StackPointer) r1) false k)).
  2: { cbn [exec]. unfold pop. change (rsp ?m) with (reg Isf.StackPointer m).
       rewrite reg_at, decide_True, !assign_at, !set_reg_set by done.
       unfold word. cbn [state]. do 4 f_equal. unfold c, Isf.read. cbn [Isf.index]. f_equal. lia. }
  set (r3 := set_reg _ _ r1) in *.
  assert (Hrcx : Isf.get Isf.RCX r3 = c Isf.RCX) by (apply Hc; apply (bool_decide_unpack _); vm_compute; exact I).
  assert (Hr11 : Isf.get Isf.R11 r3 = c Isf.R11) by (apply Hc; apply (bool_decide_unpack _); vm_compute; exact I).
  assert (Hr3 : forall f, f ∉ [Isf.InstructionPointer; Isf.Flags; Isf.CodeSegment; Isf.StackSegment] ->
    Isf.get f r3 = c f).
  { intros f Hf. destruct (decide (f = Isf.StackPointer)) as [->|Hne].
    - unfold r3. by rewrite get_set_reg, decide_True.
    - apply Hc. destruct f; try (apply (bool_decide_unpack _); vm_compute; exact I);
        exfalso; revert Hf Hne; clear; set_solver. }
  unfold syscall_exit. fold c. cbn [run]. cbn [exec mbind outcome_bind]. rewrite <-Hrcx.
  unfold reg. cbn [regs].
  destruct (decide (signed (Isf.get Isf.RCX r3) < USER_CODE_START)) as [Hk|Hk]; do 2 f_equal.
  - assert (Hsp3 : rsp (mkMachine r3 false k) = c Isf.StackPointer) by (by rewrite <-Hr3 by set_solver).
    rewrite pop_push by done. cbn [regs on_tss state]. rewrite assign_at, get_set_reg, decide_False by done.
    rewrite Hsp3, Hr11. f_equal. apply Isf.ISF_ext. intros f.
    unfold returned. rewrite Isf.get_of_fun, !get_set_reg.
    destruct f; rewrite ?decide_True, ?decide_False by done; try (apply Hr3; set_solver);
      unfold r3; rewrite ?get_set_reg, ?decide_False by done; done.
  - unfold assign, with_regs. cbn [regs on_tss state]. f_equal. apply Isf.ISF_ext. intros f.
    unfold returned. rewrite Isf.get_of_fun, !get_set_reg.
    destruct f; rewrite ?decide_True, ?decide_False by done; try (apply Hr3; set_solver); done.
Qed.

(** The arguments of [dispatch_syscall]. *)
Lemma run_arguments ctx r k rest :
  exists r', run call_dispatch ([Mov Isf.R8 Isf.RDX; Mov Isf.RCX Isf.RSI; Mov Isf.RDX Isf.RDI;
      Mov Isf.RSI Isf.RAX; Mov Isf.RDI Isf.StackPointer; Call] ++ rest) 0
      (mkMachine (set_reg Isf.StackPointer ctx r) false k) =
    ('(f, m) ← ('(c, k) ← dispatch_syscall ctx (Isf.get Isf.RAX r) (Isf.get Isf.RDI r)
         (Isf.get Isf.RSI r) (Isf.get Isf.RDX r) k;
       Done (match c with Return => Next 0 | Launch a => Leave a | Halt => Sleep end,
         mkMachine r' false k));
     match f with Next skip => run call_dispatch rest skip m | _ => Done (f, m) end) /\
    forall f, f ∈ [Isf.StackPointer; Isf.CodeSegment; Isf.StackSegment] ->
      Isf.get f r' = Isf.get f (set_reg Isf.StackPointer ctx r).
Proof.
  set (r0 := set_reg Isf.StackPointer ctx r).
  set (r1 := set_reg Isf.RDI ctx (set_reg Isf.RSI (Isf.get Isf.RAX r) (set_reg Isf.RDX (Isf.get Isf.RDI r)
    (set_reg Isf.RCX (Isf.get Isf.RSI r) (set_reg Isf.R8 (Isf.get Isf.RDX r) r0))))).
  exists (clobber r1). split.
  - cbn [app].
    assert (Hmov : forall dst src code m,
      run call_dispatch (Mov dst src :: code) 0 m = run call_dispatch code 0 (assign dst (reg src m) m))
      by done.
    rewrite !Hmov, !assign_at. unfold reg. cbn [regs]. rewrite !get_set_reg.
    rewrite ?decide_True, ?decide_False by done. rewrite ?get_set_reg.
    rewrite ?decide_True, ?decide_False by done.
    match goal with |- run _ _ _ (mkMachine ?x _ _) = _ => change x with r1 end.
    assert (Hcall : call_dispatch (mkMachine r1 false k) =
      ('(c, k) ← dispatch_syscall ctx (Isf.get Isf.RAX r) (Isf.get Isf.RDI r) (Isf.get Isf.RSI r)
         (Isf.get Isf.RDX r) k; Done (c, mkMachine (clobber r1) false k))) by reflexivity.
    cbn [run exec]. rewrite Hcall.
    destruct (dispatch_syscall ctx _ _ _ _ k) as [[[|a|] k']| |]; done.
  - intros f Hf. rewrite clobber_kept by done. unfold r1. rewrite !get_set_reg.
    rewrite !(decide_False (P := f = Isf.RDI)), !(decide_False (P := f = Isf.RSI)),
      !(decide_False (P := f = Isf.RDX)), !(decide_False (P := f = Isf.RCX)),
      !(decide_False (P := f = Isf.R8)); [done|..]; intros ->; revert Hf;
      apply (bool_decide_unpack _); vm_compute; exact I.
Qed.

(** The whole of a system call. *)
Lemma on_syscall_spec m top :
  on_tss m = false -> interrupt_stack_table (state m) !! 1%nat = Some top ->
  (2 < length (interrupt_stack_table (state m)))%nat ->
  let ctx := syscall_context top in
  match handle_syscall ctx (saved_regs (regs m)) (after_entry m) with
  | Done (Return, k) => on_syscall m = Done (Stop, syscall_exit ctx k)
  | Done (Launch a, k) =>
      on_syscall m = Done (Stop, mkMachine (Isf.load (memory k) a) false k)
  | Done (Halt, k) => exists r, on_syscall m = Done (Sleep, mkMachine r false k)
  | Panic => on_syscall m = Panic
  | Hang => on_syscall m = Hang
  end.
Proof.
  intros Hgs Htop Hlen ctx. unfold on_syscall, handle_syscall_asm.
  destruct (syscall_save m top ([Mov Isf.R8 Isf.RDX; Mov Isf.RCX Isf.RSI; Mov Isf.RDX Isf.RDI;
    Mov Isf.RSI Isf.RAX; Mov Isf.RDI Isf.StackPointer; Call] ++ (Pop <$> popped) ++
    [AddRsp 24; Pop Isf.StackPointer; CmpJl Isf.RCX USER_CODE_START 1; Sysretq; Push Isf.R11; Popf;
     JmpReg Isf.RCX])) as (r & Hrun & Hpop & Hcs & Hss); [done..|].
  rewrite Hrun. clear Hrun. fold ctx.
  match goal with |- context [mkMachine _ false ?k] => set (k1 := k) end.
  destruct (run_arguments ctx r k1 ((Pop <$> popped) ++ [AddRsp 24; Pop Isf.StackPointer;
    CmpJl Isf.RCX USER_CODE_START 1; Sysretq; Push Isf.R11; Popf; JmpReg Isf.RCX])) as (r' & Hrun & Hr').
  rewrite Hrun. clear Hrun.
  assert (Hd : dispatch_syscall ctx (Isf.get Isf.RAX r) (Isf.get Isf.RDI r) (Isf.get Isf.RSI r)
      (Isf.get Isf.RDX r) k1 = handle_syscall ctx (saved_regs (regs m)) (after_entry m)).
  { rewrite !Hpop by (apply (bool_decide_unpack _); vm_compute; exact I).
    unfold handle_syscall, k1. apply dispatch_same. rewrite store_split.
    apply same_store_fields. cbn [Isf.store_fields foldr].
    apply same_write, same_segment; [by left|]. apply same_write, same_write, same_segment; [by right|].
    done. }
  rewrite Hd. destruct (handle_syscall ctx _ _) as [[[|a|] k]| |]; [| | |done..];
    cbn [mbind outcome_bind].
  - rewrite run_syscall_exit.
    + rewrite Hr' by apply list_elem_of_here. by rewrite get_set_reg, decide_True.
    + rewrite Hr' by set_solver. by rewrite get_set_reg, decide_False.
    + rewrite Hr' by set_solver. by rewrite get_set_reg, decide_False.
  - by rewrite launch_load.
  - by exists r'.
Qed.
End Refinement.

(** ** Properties *)

Section Properties.
Context {MM K : Type} `{MemoryManagerLaws MM lo hi} {gdt : Selectors} `{CallingConventionLaws}
  `{KeyboardDecoder K}.
Implicit Types (m : machine MM) (k : kernel MM) (r t : Thread).

(** A timer interrupt of the machine is a step of the kernel. *)
Lemma timer_step m top f m' :
  interrupt_stack_table (state m) !! 1%nat = Some top ->
  on_interrupt timer_handler m = Done (f, m') ->
  f = Stop /\ step (K := K) (Timer (interrupt_context top) (regs m)) (state m) (state m') /\
  let a := from_option context 0 (RUNNING_THREAD (state m')) in
  regs m' = Isf.load (memory (state m')) (if decide (a = 0) then interrupt_context top else a) /\
  on_tss m' = on_tss m.
Proof.
  intros Htop Hrun. rewrite (on_interrupt_spec _ m top Htop) in Hrun. bind_Done Hrun.
  destruct r as [a k]. apply Done_inj in Hrun. injection Hrun as <- <-. cbn [regs state on_tss].
  split; [done|]. split; [by eapply StepTimer|].
  pose proof (schedule_ready _ _ _ _ Hr) as (_ & _ & ->). done.
Qed.

(** C18: the entry code implements the interrupt events.  The assembly of
    [interrupt_wrap!] around [timer_handler] returns from the interrupt,
    whatever the compiled handler leaves in the registers; it takes the
    kernel through the step [Timer] with all 20 registers saved where
    [entered] says, and it resumes with the 20 registers of the context of
    the thread that runs next, or of the interrupted code when there is
    none. *)
Theorem timer_refines m top
    (Htop : interrupt_stack_table (state m) !! 1%nat = Some top)
    (Hist : length (interrupt_stack_table (state m)) = 7%nat) :
  let ctx := interrupt_context top in
  exists m', on_interrupt timer_handler m = Done (Stop, m') /\
    entered (K := K) (state m) (Timer ctx (regs m)) /\
    step (K := K) (Timer ctx (regs m)) (state m) (state m') /\
    let a := from_option context 0 (RUNNING_THREAD (state m')) in
    regs m' = Isf.load (memory (state m')) (if decide (a = 0) then ctx else a).
Proof.
  intros ctx.
  destruct (schedule_total ctx (interrupted ctx (regs m) (state m)) Hist) as (a & k & Hs).
  pose proof (on_interrupt_spec timer_handler m top Htop) as Hrun. fold ctx in Hrun.
  unfold timer_handler at 2 in Hrun. rewrite Hs in Hrun. cbn [mbind outcome_bind] in Hrun.
  eexists. split; [exact Hrun|]. apply (timer_step _ top) in Hrun as (_ & Hstep & Hregs & _); [|done].
  split; [|done]. intros top' Htop'. rewrite Htop in Htop'. by injection Htop' as <-.
Qed.

(** C17: the entry code implements system calls.  Started with the registers of
    a program, the assembly of [handle_syscall] runs [dispatch_syscall] on a
    context that holds all of them, with the four argument registers in their
    places.  If the call returns, the program goes on at the address in RCX
    with RFLAGS from R11 and every other register as its context has it, in
    the segments of its side; if the call launches another thread, that
    thread's 20 registers are loaded; a call that ends its thread halts. *)
Theorem syscall_refines m top
    (Hgs : on_tss m = false)
    (Htop : interrupt_stack_table (state m) !! 1%nat = Some top)
    (Hist : length (interrupt_stack_table (state m)) = 7%nat) :
  let ctx := syscall_context top in
  match handle_syscall ctx (saved_regs (regs m)) (after_entry m) with
  | Done (Return, k) => on_syscall m = Done (Stop, syscall_exit ctx k)
  | Done (Launch a, k) =>
      on_syscall m = Done (Stop, mkMachine (Isf.load (memory k) a) false k)
  | Done (Halt, k) => exists i, on_syscall m = Done (Sleep, mkMachine i false k)
  | Panic => on_syscall m = Panic
  | Hang => on_syscall m = Hang
  end.
Proof. apply on_syscall_spec; [done|done|lia]. Qed.

Lemma running_context ctx k r :
  stacked k -> RUNNING_THREAD k = Some r -> ctx = interrupt_context (kernel_stack_end r) -> 0 < ctx.
Proof.
  intros Hs Hrun ->. pose proof (stacked_ok _ _ Hs (running_owned _ _ Hrun)) as Hok.
  destruct Hs as [Ho _]. apply owns_placed in Ho as [Hrange _ _]. rewrite Forall_forall in Hrange.
  destruct (Hrange (stack_block (kernel_stack r))) as [Hlo _].
  { apply list_elem_of_fmap. exists (stack_view r). split; [done|].
    by apply list_elem_of_fmap_2, running_owned. }
  pose proof heap_bounds. pose proof (interrupt_context_in (kernel_stack_end r)).
  unfold stack_ok, KERNEL_STACK_SIZE in *. cbn in Hlo. lia.
Qed.

(** The timer saves the registers, and with a thread to put in the queue some
    thread runs afterwards. *)
Lemma timer_resumes ctx regs k k' r :
  RUNNING_THREAD k = Some r -> step (K := K) (Timer ctx regs) k k' ->
  Isf.load (memory k') ctx = regs /\ is_Some (RUNNING_THREAD k').
Proof.
  intros Hrun Hstep. inversion Hstep as [|ctx' regs' k0 a k1 Hd| | | | |]; subst.
  unfold timer_handler in Hd. split.
  - apply schedule_frame in Hd as [-> _]. apply Isf.load_store.
  - apply schedule_ready in Hd as (Hq & -> & _). rewrite Hq. cbn. rewrite Hrun.
    destruct (WAIT_QUEUE k); by eexists.
Qed.

(** C2: preemption is transparent.  A program is interrupted by the timer.
    Then the kernel takes any number of steps during which the interrupted
    thread waits in the queue: other threads run, call the kernel, exchange
    messages, fork, are created or exit, the CPU idles with no thread after an
    exit, and interrupts arrive, on the stack of the exited thread too (its
    kernel stack is freed but still in the TSS).  When a later timer interrupt
    resumes it, the processor has exactly the 20 registers it was interrupted
    with. *)
Theorem preemption_transparent m m1 m2 m3 r
    (Hr : safely_reachable (K := K) (state m)) (Hrun : RUNNING_THREAD (state m) = Some r)
    (Hfirst : on_interrupt timer_handler m = Done (Stop, m1)) :
  let ctx := interrupt_context (kernel_stack_end r) in
  let t := set_context_and_table ctx (cr3 (state m)) r in
  forall (Hwait : rtc (waits (K := K) t) (state m1) (state m2))
    (Hstill : t ∈ WAIT_QUEUE (state m2))
    (Hlater : on_interrupt timer_handler m2 = Done (Stop, m3))
    (Hresumed : RUNNING_THREAD (state m3) = Some t),
  regs m3 = regs m.
Proof.
  intros ctx t Hwait Hstill Hlater Hresumed.
  pose proof (wf_reachable _ _ _ Hr) as Hwf.
  apply (timer_step _ (kernel_stack_end r)) in Hfirst as (_ & Hstep & _); [|by apply Hwf].
  fold ctx in Hstep.
  assert (He : entered (K := K) (state m) (Timer ctx (regs m))).
  { intros top Htop. pose proof (wf_on_stack _ Hwf _ Hrun) as Hon. rewrite Hon in Htop. by injection Htop as <-. }
  assert (Hr1 : safely_reachable (K := K) (state m1)) by by eapply ReachStep.
  destruct (timer_resumes _ _ _ _ _ Hrun Hstep) as [Hl1 Hsome].
  apply waits_load in Hwait as (Hr2 & Hidle & Hl2); [|done|intros Hnone; rewrite Hnone in Hsome; by destruct Hsome].
  change (context t) with ctx in Hl2.
  pose proof (wf_reachable _ _ _ Hr2) as Hwf2.
  destruct (lookup_lt_is_Some_2 (interrupt_stack_table (state m2)) 1) as [top Htop2];
    [by rewrite (wf_ist _ Hwf2); lia|].
  apply (timer_step _ _ _ _ Htop2) in Hlater as (_ & Hstep2 & Hregs & _).
  rewrite Hregs, Hresumed. cbn [from_option]. change (context t) with ctx.
  rewrite decide_False by (pose proof (running_context ctx _ _ (stacked_reachable _ Hr) Hrun eq_refl); lia).
  rewrite <-Hl1, <-Hl2. change ctx with (context t).
  eapply waiting_load; [by apply stacked_reachable|done|exact Hidle| |done|exact Hstep2].
  intros top' Htop. rewrite Htop2 in Htop. by injection Htop as <-.
Qed.
End Properties.
