(* ===== verification/Memory.v ===== *)
(** * The memory of the kernel

    The interface of Kernel.v implemented by the components of kernel/src/mem:
    user stacks and page tables from memory.rs on the frame allocator, the
    buffers of vectors from the global heap allocator.  The contract of
    Stacks.v follows from that of the heap allocator alone, because stacks and
    tables of user programs are made of frames and not of heap blocks. *)
From S2P Require Import Prelude Logger Heap Bump FixedBlock Frames Paging UserStack Vga Abi Sync Isf Thread Kernel Syscall Spawn Irq Arena System Stacks Registers Asm.

(** [MEMORY_INFO], the global [ALLOCATOR], and the bytes of physical memory. *)
Record KernelMemory (A E H : Type) := mkKernelMemory {
  memory_info : MemoryInfo A E;
  ALLOCATOR : H;
  bytes : Z -> Z;
}.
Arguments mkKernelMemory {A E H}.
Arguments memory_info {A E H}.
Arguments ALLOCATOR {A E H}.
Arguments bytes {A E H}.

Section Memory.
Context {A E H : Type} `{FrameAllocator A} `{PageTableEntry E} `{FrameOf} `{VirtAddr} `{HeapAllocator H}.
Implicit Types (m : KernelMemory A E H).

Definition with_info (i : MemoryInfo A E) m : KernelMemory A E H :=
  mkKernelMemory i (ALLOCATOR m) (bytes m).
Definition with_heap (h : H) m : KernelMemory A E H :=
  mkKernelMemory (memory_info m) h (bytes m).

(** [Vec::<u8>::with_capacity]; out of memory ends in [handle_alloc_error]. *)
Definition vec_u8_with_capacity (size : Z) m : outcome (Z * KernelMemory A E H) :=
  '(p, h) ← heap_alloc (u8_layout size) (ALLOCATOR m);
  match p with
  | Some p => Done (p, with_heap h m)
  | None => Panic
  end.

(** [Drop for Vec<u8>] *)
Definition vec_u8_drop (p size : Z) m : outcome (KernelMemory A E H) :=
  h ← heap_dealloc p (u8_layout size) (ALLOCATOR m);
  Done (with_heap h m).

(** A byte through a 4 KiB mapping of the tables at [table]. *)
Definition virtual_byte (table address : Z) m : Z :=
  let level_1 := UserStack.active_level_1_table_containing table address (memory_info m) in
  let entry := tables (memory_info m) level_1 (p1_index address) in
  bytes m (pte_addr entry + address mod 4096).

#[export] Instance kernel_memory : MemoryManager (KernelMemory A E H) := {|
  allocate_user_stack table n_start m :=
    '(r, i) ← UserStack.allocate_user_stack table n_start (memory_info m);
    Done (r, with_info i m);
  free_user_stack table stack_end m :=
    '(r, i) ← UserStack.free_user_stack table stack_end (memory_info m);
    Done (r, with_info i m);
  free_user_pagetables table m :=
    i ← Paging.free_user_pagetables table (memory_info m);
    Done (with_info i m);
  kernel_page_tables m := kernel_table (memory_info m);
  vec_with_capacity := vec_u8_with_capacity;
  vec_drop := vec_u8_drop;
  read_byte := virtual_byte;
  remaps m m' := ALLOCATOR m' = ALLOCATOR m;
|}.
End Memory.

Lemma u8_layout_ok size : 0 < size < 2 ^ 32 -> layout_ok (u8_layout size).
Proof. intros Hs. split; [by exists 0%nat|]. cbn. lia. Qed.

(** The blocks in use are among those the heap has handed out; the others
    belong to the rest of the kernel. *)
#[export] Program Instance kernel_memory_laws {A E H} `{FrameAllocator A} `{PageTableEntry E}
    `{FrameOf} `{VirtAddr} `{HeapAllocatorLaws H lo hi} (Hb : 0 <= lo /\ hi < 2 ^ 64) :
  MemoryManagerLaws (KernelMemory A E H) lo hi := {|
  owns m live := exists all, heap_inv (ALLOCATOR m) all /\ live ⊆+ all;
|}.
Next Obligation. done. Qed.
Next Obligation.
  intros. intros l1 l2 Hp. by setoid_rewrite Hp.
Qed.
Next Obligation.
  intros A E H ? ? ? ? ? lo hi ? _ m live (all & Hi & Hs).
  eapply placed_submseteq; [exact Hs|by eapply heap_inv_placed].
Qed.
Next Obligation.
  intros A E H ? ? ? ? ? lo hi ? _ m live size p m' (all & Hi & Hs) Hsize Hv.
  unfold vec_with_capacity in Hv. cbn in Hv. unfold vec_u8_with_capacity in Hv.
  bind_Done Hv. destruct r as [[q|] h]; simplify_eq. exists ((p, u8_layout size) :: all).
  split; [|by apply submseteq_skip].
  by eapply heap_inv_alloc in Hr; [|apply u8_layout_ok|].
Qed.
Next Obligation.
  intros A E H ? ? ? ? ? lo hi ? _ m live live' p size m' (all & Hi & Hs) Hp Hd.
  unfold vec_drop in Hd. cbn in Hd. unfold vec_u8_drop in Hd. bind_Done Hd. simplify_eq.
  rewrite Hp in Hs. apply submseteq_Permutation in Hs as [rest Hall].
  exists (live' ++ rest). split; [|by apply submseteq_inserts_r].
  by eapply heap_inv_dealloc.
Qed.
Next Obligation.
  intros A E H ? ? ? ? ? lo hi ? _ m live table n r m' Ho Ha. cbn in Ha. bind_Done Ha.
  destruct r0. by simplify_eq.
Qed.
Next Obligation.
  intros A E H ? ? ? ? ? lo hi ? _ m live table e r m' Ho Ha. cbn in Ha. bind_Done Ha.
  destruct r0. by simplify_eq.
Qed.
Next Obligation.
  intros A E H ? ? ? ? ? lo hi ? _ m live table m' Ho Ha. cbn in Ha. bind_Done Ha. by simplify_eq.
Qed.
Next Obligation. intros A E H ? ? ? ? ? lo hi ? _ m live m' Ho Ha. cbn in *. by rewrite Ha. Qed.

(** ** At concrete inputs

    The machine with the kernel's own heap and frames: two kernel threads are
    created, the timer starts the second and interrupts it with registers that
    are all 7. *)
#[local] Existing Instances word_entry align_down_frames bit_indices bump_fallback
  bump_fallback_laws flat_gdt plain_keyboard.


Abbreviation KM := (KernelMemory (PageFrameAllocator * MemoryLogger) Z
  (FixedBlock.FixedSizeBlockAllocator Bump.BumpAllocator)).

Lemma heap_range : 0 <= HEAP_START /\ HEAP_START + HEAP_SIZE < 2 ^ 64.
Proof. by vm_compute. Qed.

Definition heap_laws : MemoryManagerLaws KM HEAP_START (HEAP_START + HEAP_SIZE) :=
  kernel_memory_laws heap_range.
#[local] Existing Instance heap_laws.

Definition machine0 : kernel KM :=
  initial [] 0x9000 (replicate 7 0x7000) (mkKernelMemory stack_memory kernel_heap (fun _ => 0)).
Definition machine1 : kernel KM :=
  (done_or (0, machine0) (spawn_kernel_thread 0x5000 [] machine0)).2.
Definition machine2 : kernel KM :=
  (done_or (0, machine1) (spawn_kernel_thread 0x6000 [] machine1)).2.
Definition sevens : Isf.ISF := Isf.of_fun (fun _ => 7).
Definition machine3 : kernel KM :=
  (done_or (0, machine2) (timer_handler 0x6f60 (interrupted 0x6f60 boot_regs machine2))).2.

(** Compiled code that changes RAX and RCX. *)
#[local] Instance demo_convention : CallingConvention := {|
  clobber i := set_reg Isf.RAX 1 (set_reg Isf.RCX 2 i);
|}.

#[local] Instance demo_convention_laws : CallingConventionLaws.
Proof.
  constructor. intros f i Hf. cbn. rewrite !get_set_reg.
  rewrite !elem_of_cons, elem_of_nil in Hf. by destruct Hf as [->|[->|[->|[]]]].
Qed.

(** The processor as the timer interrupts thread 2, and after that. *)
Definition cpu3 : machine KM := mkMachine sevens false machine3.
Definition interrupted_by_timer (m : machine KM) : machine KM :=
  (done_or (Stop, m) (on_interrupt timer_handler m)).2.
Definition cpu4 : machine KM := interrupted_by_timer cpu3.
Abbreviation machine4 := (state cpu4).

Definition context1 : Z := syscall_context 75059993784320.
(** A message on a handle that thread 1 does not have. *)
Definition send_regs : Isf.ISF :=
  Isf.of_fun (fun f => match f with Isf.RAX => 4 | _ => 0 end).
Definition exit_regs : Isf.ISF :=
  Isf.of_fun (fun f => match f with Isf.RAX => 1 | _ => 0 end).
Definition machine5 : kernel KM :=
  (done_or (Return, machine4) (handle_syscall context1 exit_regs machine4)).2.

Definition cpu5 : machine KM := mkMachine boot_regs false machine5.
Definition cpu6 : machine KM := interrupted_by_timer cpu5.

Lemma boot_owns : owns (mm machine0) [].
Proof.
  exists []. split; [|done]. apply fixed_inv_fresh. constructor; done || apply placed_nil.
Qed.

(** An entry is where the TSS says. *)
Lemma saved_here entry top (k : kernel KM) :
  interrupt_stack_table k !! 1%nat = Some top -> saved_at entry (entry top) k.
Proof. intros Ht t Ht'. congruence. Qed.

Lemma reach3 : safely_reachable (K := unit) machine3.
Proof.
  apply (ReachStep _ _ (Timer 0x6f60 boot_regs) machine2).
  - apply (ReachStep _ _ (SpawnKernel 0x6000 []) machine1); [|done|].
    + apply (ReachStep _ _ (SpawnKernel 0x5000 []) machine0); [|done|].
      * apply (ReachInitial _ _ [] 0x9000 (replicate 7 0x7000)); [done|exact boot_owns].
      * apply (StepSpawnKernel 0x5000 [] machine0 1 machine1); vm_compute; reflexivity.
    + apply (StepSpawnKernel 0x6000 [] machine1 2 machine2); vm_compute; reflexivity.
  - apply (saved_here interrupt_context 0x7000). vm_compute. reflexivity.
  - apply (StepTimer 0x6f60 boot_regs machine2 (interrupt_context 75059993837568) machine3). vm_compute. reflexivity.
Qed.

(** The two kernel threads of [machine3] have stacks of their own. *)
Lemma stacks_disjoint_witness :
  exists t u, thread_id <$> all_threads machine3 = [1; 2] /\
    all_threads machine3 !! 0%nat = Some t /\ all_threads machine3 !! 1%nat = Some u /\
    disjoint_blocks (stack_block (kernel_stack t)) (stack_block (kernel_stack u)) /\
    stack_ok t /\ stack_ok u /\ Isf.apart (context t) (context u).
Proof.
  eexists _, _. split; [vm_compute; reflexivity|].
  split; [vm_compute; reflexivity|]. split; [vm_compute; reflexivity|].
  apply (stacks_disjoint machine3 0 1); [exact reach3|vm_compute; reflexivity..|done].
Defined.

(** Thread 2 is interrupted, thread 1 exits and its stack is freed, the CPU
    idles, the next interrupt is taken on that stack, and thread 2 runs again
    with its registers. *)
Lemma preemption_transparent_witness :
  thread_id <$> RUNNING_THREAD (state cpu4) = Some 1 /\
  RUNNING_THREAD (state cpu5) = None /\
  thread_id <$> RUNNING_THREAD (state cpu6) = Some 2 /\
  regs cpu6 = sevens.
Proof.
  split; [vm_compute; reflexivity|]. split; [vm_compute; reflexivity|].
  split; [vm_compute; reflexivity|].
  pose (r := default (demo_thread 0 0 0) (RUNNING_THREAD machine3)).
  apply (preemption_transparent (K := unit) cpu3 cpu4 cpu5 cpu6 r).
  - exact reach3.
  - vm_compute. reflexivity.
  - vm_compute. reflexivity.
  - apply rtc_once. split.
    + apply (bool_decide_unpack _). vm_compute. exact I.
    + exists (Syscall context1 exit_regs). split.
      * apply (saved_here syscall_context). vm_compute. reflexivity.
      * unfold cpu5. cbn [state]. eapply StepSyscall; [vm_compute; reflexivity|].
        unfold machine5.
        apply (done_or_snd (Return, machine4) (handle_syscall context1 exit_regs machine4) Halt).
        vm_compute. reflexivity.
  - apply (bool_decide_unpack _). vm_compute. exact I.
  - vm_compute. reflexivity.
  - vm_compute. reflexivity.
Defined.

Lemma timer_refines_witness :
  let ctx := interrupt_context 75059993837568 in
  exists m', on_interrupt timer_handler cpu3 = Done (Stop, m') /\
    entered (K := unit) (state cpu3) (Timer ctx (regs cpu3)) /\
    step (K := unit) (Timer ctx (regs cpu3)) (state cpu3) (state m') /\
    let a := from_option context 0 (RUNNING_THREAD (state m')) in
    regs m' = Isf.load (memory (state m')) (if decide (a = 0) then ctx else a).
Proof.
  exact (timer_refines (K := unit) cpu3 75059993837568 ltac:(vm_compute; reflexivity)
    ltac:(vm_compute; reflexivity)).
Defined.

Lemma syscall_refines_witness :
  let m := mkMachine send_regs false machine4 in
  exists k, handle_syscall context1 (saved_regs send_regs) (after_entry m) = Done (Return, k) /\
    on_syscall m = Done (Stop, syscall_exit context1 k).
Proof.
  intros m. pose (k := (done_or (Return, machine4)
    (handle_syscall context1 (saved_regs send_regs) (after_entry m))).2).
  assert (Hk : handle_syscall context1 (saved_regs send_regs) (after_entry m) = Done (Return, k))
    by (vm_compute; reflexivity).
  exists k. split; [exact Hk|].
  pose proof (syscall_refines m 75059993784320 eq_refl ltac:(vm_compute; reflexivity)
    ltac:(vm_compute; reflexivity)) as Hs.
  cbv zeta in Hs. fold context1 in Hs. change (regs m) with send_regs in Hs. rewrite Hk in Hs. exact Hs.
Defined.
