(* ===== verification/TableMapper.v ===== *)
(** * Mappers on the tables of the kernel

    Mapping.v takes the crate's [Mapper] as a parameter.  What is proved of
    whole address spaces needs to know what it does to the tables in memory:
    this file states that as the contract of a [TableMapper], in terms of the
    trees of Hierarchy.v, and shows that such a mapper meets the laws Mapping.v
    and Loader.v ask for.  The crate's code itself is not modelled. *)
From S2P Require Import Prelude Logger Heap Frames Paging UserStack Hierarchy Vga Abi Sync Isf Thread Mapping Kernel Syscall Spawn Irq Arena System Loader Memory.
Import Paging.

(** A [Page]: aligned and canonical. *)
Definition valid_page (page : Z) : Prop :=
  page mod 4096 = 0 /\ (0 <= page < 2 ^ 47 \/ 2 ^ 64 - 2 ^ 47 <= page < 2 ^ 64).

#[export] Instance valid_page_dec page : Decision (valid_page page).
Proof. unfold valid_page. apply _. Defined.

(** ** Pages in a tree of tables *)
Module PageTree.
Section Pages.
Context {A E : Type} `{PageTableEntry E} `{VirtAddr}.
Implicit Types (m : MemoryInfo A E).

Definition table_path (page : Z) : list Z := [p4_index page; p3_index page; p2_index page].
Definition page_path (page : Z) : list Z := table_path page ++ [p1_index page].

(** The frame and the flags of a 4 KiB page, as the processor finds them. *)
Definition translate_page m (root page : Z) : option (Z * Z) :=
  if decide (valid_page page) then
    match leaf (tables m) 3 root (page_path page) with
    | Some (frame, flags, []) => Some (frame, flags)
    | _ => None
    end
  else None.
End Pages.

Section Facts.
Context {A E : Type} `{FrameAllocatorLaws A} `{PageTableEntryLaws E} `{VirtAddrLaws}.
Implicit Types (m : MemoryInfo A E) (T : Z -> Z -> E).

Lemma page_path_ok page : full (page_path page).
Proof.
  split; [|done]. unfold page_path, table_path, path_ok. cbn.
  rewrite p4_index_spec, p3_index_spec, p2_index_spec, p1_index_spec.
  repeat constructor; try apply Z.mod_pos_bound; done.
Qed.

Lemma table_path_ok page : path_ok (table_path page).
Proof. destruct (page_path_ok page) as [Hp _]. by apply Forall_app in Hp as [? _]. Qed.

(** The leaf of a page is the entry of its level 1 table. *)
Lemma leaf_page T root page p :
  table_at T 3 root (table_path page) = Some p ->
  leaf T 3 root (page_path page) =
    if pte_is_unused (T p (p1_index page)) then None
    else Some (pte_addr (T p (p1_index page)), pte_flags (T p (p1_index page)), []).
Proof. intros Ht. unfold page_path. by rewrite (leaf_app _ _ _ _ p). Qed.

(** A page that translates has its table. *)
Lemma leaf_table_at T : forall path below root i f flags,
  length path = below -> leaf T below root (path ++ [i]) = Some (f, flags, []) ->
  exists p, table_at T below root path = Some p.
Proof.
  induction path as [|x path IH]; intros below root i f flags Hlen Hl; cbn in Hlen; [by eexists|].
  subst below. cbn [app leaf table_at] in *. unfold points.
  destruct (pte_is_unused (T root x)); [done|]. destruct (is_leaf _ _).
  - destruct path; done.
  - by eapply IH.
Qed.

(** Different pages have different paths. *)
Lemma page_path_inj p q : valid_page p -> valid_page q -> page_path p = page_path q -> p = q.
Proof.
  intros [Hp Hp'] [Hq Hq']. unfold page_path, table_path. cbn.
  rewrite !p4_index_spec, !p3_index_spec, !p2_index_spec, !p1_index_spec. intros [= Hi4 Hi3 Hi2 Hi1].
  assert (Hdiv : forall a, a mod 4096 = 0 -> a = 4096 * (a / 4096))
    by (intros; Z.div_mod_to_equations; lia).
  change (2 ^ 39) with (4096 * 512 * 512 * 512) in *. change (2 ^ 30) with (4096 * 512 * 512) in *.
  change (2 ^ 21) with (4096 * 512) in *. change (2 ^ 12) with 4096 in *.
  rewrite <-!Z.div_div in * by lia.
  rewrite (Hdiv p), (Hdiv q) by done.
  assert (Hr : 0 <= p / 4096 < 2 ^ 35 \/ 2 ^ 52 - 2 ^ 35 <= p / 4096 < 2 ^ 52) by (Z.div_mod_to_equations; lia).
  assert (Hs : 0 <= q / 4096 < 2 ^ 35 \/ 2 ^ 52 - 2 ^ 35 <= q / 4096 < 2 ^ 52) by (Z.div_mod_to_equations; lia).
  clear Hp Hp' Hq Hq' Hdiv. generalize dependent (p / 4096). generalize dependent (q / 4096). clear.
  intros x Hx y. f_equal. Z.div_mod_to_equations. lia.
Qed.

Lemma translate_steps root page m m' lf x :
  steps_to root lf m m' -> valid_page page ->
  (forall path, full path ->
    lf path = if decide (path = page_path page) then (fun '(f, flags) => (f, flags, [])) <$> x
              else leaf (tables m) 3 root path) ->
  remapped page x (translate_page m root) (translate_page m' root).
Proof.
  intros Hs Hv Hlf q. unfold translate_page. destruct (decide (valid_page q)) as [Hq|Hq].
  - rewrite (st_leaf _ _ _ _ Hs), Hlf by apply page_path_ok. destruct (decide (q = page)) as [->|Hne].
    + rewrite decide_True by done. by destruct x as [[f flags]|].
    + rewrite decide_False; [done|]. intros Heq. by apply Hne, page_path_inj.
  - by rewrite decide_False by (by intros ->).
Qed.
End Facts.
End PageTree.

(** ** The contract

    [map_to_with_table_flags], [update_flags] and [unmap] of the crate's
    [Mapper], made for the level 4 table that comes first. *)
Class TableMapper (A E : Type) := {
  map_page : Z -> Z -> Z -> Z -> Z -> MemoryInfo A E ->
    outcome (result unit MapToError * MemoryInfo A E);
  update_page : Z -> Z -> Z -> MemoryInfo A E -> result unit string * MemoryInfo A E;
  unmap_page : Z -> Z -> MemoryInfo A E -> result Z string * MemoryInfo A E;
}.

(** After an error: tables may have been made and flags added to entries, of
    huge pages too, but nothing else is mapped than before. *)
Record unharmed {A E} `{FrameAllocatorLaws A} `{PageTableEntryLaws E} (root : Z) (m m' : MemoryInfo A E) : Prop := {
  un_hierarchy : hierarchy m' root;
  un_confined : confined root m m';
  un_leaf path : full path ->
    (fun '(f, _, rest) => (f, rest)) <$> leaf (tables m') 3 root path =
    (fun '(f, _, rest) => (f, rest)) <$> leaf (tables m) 3 root path;
}.

Section Unharmed.
Context {A E : Type} `{FrameAllocatorLaws A} `{PageTableEntryLaws E}.
Implicit Types (m : MemoryInfo A E).

Lemma steps_unharmed root m m' : steps_to root (leaf (tables m) 3 root) m m' -> unharmed root m m'.
Proof. intros Hs. constructor; [apply Hs..|]. intros path Hf. by rewrite (st_leaf _ _ _ _ Hs). Qed.

Lemma unharmed_trans root m1 m2 m3 : unharmed root m1 m2 -> unharmed root m2 m3 -> unharmed root m1 m3.
Proof.
  intros [_ Hc12 Hl12] [Hh Hc23 Hl23]. constructor; [done|by etransitivity|].
  intros path Hf. by rewrite Hl23, Hl12.
Qed.
End Unharmed.

(** A mapper works on a well-formed tree, with flags of pages that are present
    and of 4 KiB.  A success of [map_page] maps that page, which was not
    mapped, takes frames for new tables only and leaves all other leaves; there
    are results for pages and frames only, by the types of the arguments.
    [update_page] changes the flags of a mapped page, [unmap_page] removes it
    and returns its frame. *)
Class TableMapperLaws (A E : Type) `{FrameAllocatorLaws A} `{PageTableEntryLaws E} `{VirtAddr}
    `{TableMapper A E} := {
  map_page_Ok root page frame flags parent (m m' : MemoryInfo A E) :
    hierarchy m root -> page_flags flags -> page_flags parent ->
    map_page root page frame flags parent m = Done (Ok tt, m') ->
    valid_page page /\ is_frame frame /\ leaf (tables m) 3 root (PageTree.page_path page) = None /\
    steps_to root (fun path => if decide (path = PageTree.page_path page) then Some (frame, flags, [])
      else leaf (tables m) 3 root path) m m';
  map_page_Err root page frame flags parent (m m' : MemoryInfo A E) e :
    hierarchy m root -> page_flags flags -> page_flags parent ->
    map_page root page frame flags parent m = Done (Err e, m') -> unharmed root m m';
  update_page_Ok root page flags (m m' : MemoryInfo A E) :
    hierarchy m root -> page_flags flags -> update_page root page flags m = (Ok tt, m') ->
    exists f old, PageTree.translate_page m root page = Some (f, old) /\
      steps_to root (fun path => if decide (path = PageTree.page_path page) then Some (f, flags, [])
        else leaf (tables m) 3 root path) m m' /\ frame_allocator m' = frame_allocator m;
  update_page_Err root page flags (m m' : MemoryInfo A E) e :
    hierarchy m root -> page_flags flags -> update_page root page flags m = (Err e, m') ->
    unharmed root m m';
  unmap_page_mapped root page f flags (m : MemoryInfo A E) :
    hierarchy m root -> page_flags flags -> PageTree.translate_page m root page = Some (f, flags) ->
    exists m', unmap_page root page m = (Ok f, m') /\
      steps_to root (fun path => if decide (path = PageTree.page_path page) then None
        else leaf (tables m) 3 root path) m m' /\ frame_allocator m' = frame_allocator m;
}.

(** ** The kernel's memory as the interfaces want it *)
Section Instances.
Context {A E H : Type} `{FrameAllocator A} `{PageTableEntry E} `{FrameOf} `{VirtAddr} `{HeapAllocator H}
  `{TableMapper A E}.
Implicit Types (m : KernelMemory A E H) (i : MemoryInfo A E).

(** An operation on [MEMORY_INFO]. *)
Definition on_info {R} (f : MemoryInfo A E -> outcome (R * MemoryInfo A E)) m :
    outcome (R * KernelMemory A E H) :=
  '(r, i) ← f (memory_info m); Done (r, with_info i m).

Definition tree_mapper : Mapper (KernelMemory A E H) := {|
  allocate_frame := on_info (fun i =>
    '(frame, a) ← fa_allocate (frame_allocator i); Done (frame, with_allocator a i));
  translate m := PageTree.translate_page (memory_info m);
  map_to t page frame flags :=
    on_info (map_page t page frame flags (Z.land flags USER_FLAGS));
  map_to_with_table_flags t page frame flags parent :=
    on_info (map_page t page frame flags parent);
  update_flags t page flags m :=
    let '(r, i) := update_page t page flags (memory_info m) in (r, with_info i m);
  unmap t page m :=
    let '(r, i) := unmap_page t page (memory_info m) in (r, with_info i m);
|}.

(** Physical memory byte by byte, and the copy of the kernel's tables. *)
Definition table_memory : PhysicalMemory (KernelMemory A E H) := {|
  physical_byte p m := bytes m p;
  write_physical p v m :=
    mkKernelMemory (memory_info m) (ALLOCATOR m) (fun q => if decide (q = p) then v else bytes m q);
  Loader.create_kernel_only_pagetable := on_info Paging.create_kernel_only_pagetable;
|}.

Lemma on_info_Done {R} (f : MemoryInfo A E -> outcome (R * MemoryInfo A E)) m r m' :
  on_info f m = Done (r, m') -> exists i, f (memory_info m) = Done (r, i) /\ m' = with_info i m.
Proof. unfold on_info. intros Hf. bind_Done Hf. destruct r0 as [r0 i]. simplify_eq. by exists i. Qed.
End Instances.
Arguments on_info : simpl never.

Section Laws.
Context {A E H : Type} `{FrameAllocatorLaws A} `{PageTableEntryLaws E} `{FrameOf} `{VirtAddrLaws}
  `{HeapAllocator H} `{VirtPagesLaws} `{!TableMapper A E} `{!TableMapperLaws A E}.
Implicit Types (m : KernelMemory A E H) (i : MemoryInfo A E).
#[local] Existing Instances tree_mapper table_memory.

Definition frame_in_use m (f : Z) : Prop := is_frame f /\ mused (memory_info m) f.

(** Taking a frame leaves the tables alone. *)
Lemma frame_allocated i f a :
  fa_allocate (frame_allocator i) = Done (Some f, a) ->
  is_frame f /\ ~ mtaken i f /\ mused (with_allocator a i) f /\
  (forall root, confined root i (with_allocator a i)) /\
  (forall root, hierarchy i root -> hierarchy (with_allocator a i) root) /\
  forall g, is_frame g -> mused (with_allocator a i) g <-> g = f \/ mused i g.
Proof.
  intros Ha. apply fa_allocate_Some in Ha as (Hf & Hus & Hn & Hus' & Hu).
  assert (Hc : forall root, confined root i (with_allocator a i)).
  { intros root. constructor; try done; [|by left]. intros g Hg Hm. apply Hu; [done|]. by right. }
  split; [done|]. split; [by intros [?|?]|]. split; [by apply Hu; [|left]|]. split; [done|].
  split; [|done]. intros root [Ht Hr Htk]. constructor; [done..|]. intros p Hp.
  eapply (confined_taken root); [apply Hc|by eapply in_tree_frame|by apply Htk].
Qed.

Lemma steps_in_use root lf m i f :
  steps_to root lf (memory_info m) i -> frame_in_use m f -> frame_in_use (with_info i m) f.
Proof. intros Hs [Hf Hu]. split; [done|]. by apply (cf_used _ _ _ (st_confined _ _ _ _ Hs)). Qed.

(** What mapping a page does, on the level of the interface. *)
Lemma mapped_Ok t page f flags parent m i :
  hierarchy (memory_info m) t -> page_flags flags -> page_flags parent ->
  map_page t page f flags parent (memory_info m) = Done (Ok tt, i) ->
  PageTree.translate_page (memory_info m) t page = None /\ hierarchy i t /\
  remapped page (Some (f, flags)) (PageTree.translate_page (memory_info m) t)
    (PageTree.translate_page i t) /\
  forall g, frame_in_use m g -> frame_in_use (with_info i m) g.
Proof.
  intros Hh Hf Hp Hm. apply map_page_Ok in Hm as (Hv & _ & Hleaf & Hs); [|done..].
  split; [unfold PageTree.translate_page; by rewrite decide_True, Hleaf|]. split; [apply Hs|].
  split; [|intros g; by eapply steps_in_use]. by eapply PageTree.translate_steps.
Qed.

#[export] Program Instance tree_mapper_laws : MapperLaws (KernelMemory A E H) := {|
  in_use := frame_in_use;
  valid_table m := hierarchy (memory_info m);
  valid_flags := page_flags;
|}.
Next Obligation. apply page_flags_user. Qed.
Next Obligation. constructor; [apply flags_ok_kernel|done..]. Qed.
Next Obligation.
  intros m f m' Ha. cbn in Ha. apply on_info_Done in Ha as (i & Ha & ->). bind_Done Ha. destruct r as [[f'|] a]; [|done].
  injection Ha as -> <-. apply frame_allocated in Hr as (Hf & Hn & Hu & Hc & Hh & _).
  split; [intros [_ Hm]; by apply Hn; left|]. split; [done|]. split; [|intros t; by split; [apply Hh|]].
  intros g [Hg Hm]. split; [done|]. by apply (cf_used _ _ _ (Hc 0)).
Qed.
Next Obligation.
  intros t page f flags m m' Hh Hf Hm. cbn in Hm. apply on_info_Done in Hm as (i & Hm & ->).
  by eapply mapped_Ok in Hm; [|..|apply page_flags_parent].
Qed.
Next Obligation.
  intros t page f flags parent m m' Hh Hf Hp Hm. cbn in Hm. apply on_info_Done in Hm as (i & Hm & ->).
  by eapply mapped_Ok in Hm.
Qed.
Next Obligation.
  intros t page flags m m' Hh Hf Hu. cbn in Hu.
  destruct (update_page t page flags (memory_info m)) as [r i] eqn:Hup.
  injection Hu as -> <-. apply update_page_Ok in Hup as (f & old & Ht & Hs & Ha); [|done..].
  exists f, old. split; [exact Ht|]. split; [apply Hs|]. split.
  - eapply PageTree.translate_steps; [exact Hs| |done].
    unfold translate, tree_mapper, PageTree.translate_page in Ht. by case_decide.
  - intros g. unfold frame_in_use, mused. cbn. by rewrite Ha.
Qed.
Next Obligation.
  intros t page f flags m Hh Hf Ht. pose proof Ht as Hv.
  apply unmap_page_mapped in Ht as (i & Hu & Hs & Ha); [|done..].
  exists (with_info i m). split; [cbn; by rewrite Hu|]. split; [apply Hs|]. split.
  - eapply PageTree.translate_steps; [exact Hs| |done].
    cbn in Hv. unfold PageTree.translate_page in Hv. by case_decide.
  - intros g. unfold frame_in_use, mused. cbn. by rewrite Ha.
Qed.

(** The path of an address is that of its page, and the walk of the kernel
    ends at the same entry. *)
Lemma page_containing_path a :
  lower a -> PageTree.page_path (page_containing a) = PageTree.page_path a.
Proof.
  intros Ha. rewrite page_containing_lower by done. unfold PageTree.page_path, PageTree.table_path.
  rewrite !p4_index_spec, !p3_index_spec, !p2_index_spec, !p1_index_spec.
  change (2 ^ 39) with (4096 * 2 ^ 27). change (2 ^ 30) with (4096 * 2 ^ 18).
  change (2 ^ 21) with (4096 * 2 ^ 9). change (2 ^ 12) with 4096.
  rewrite <-!Z.div_div by lia.
  assert (Hdiv : (a - a mod 4096) / 4096 = a / 4096) by (Z.div_mod_to_equations; lia). by rewrite Hdiv.
Qed.

Lemma table_at_foldl {T : Z -> Z -> E} : forall path below root p,
  table_at T below root path = Some p ->
  foldl (fun table index => pte_addr (T table index)) root path = p.
Proof.
  induction path as [|i path IH]; intros below root p Ht; cbn in Ht; [by simplify_eq|].
  destruct below as [|b]; [done|]. destruct (points _ _); [|done]. cbn [foldl]. by eapply IH.
Qed.

Lemma virtual_byte_mapped t a m f flags :
  lower a -> PageTree.translate_page (memory_info m) t (page_containing a) = Some (f, flags) ->
  virtual_byte t a m = bytes m (f + a mod 4096).
Proof.
  intros Ha. unfold PageTree.translate_page. case_decide; [|done]. rewrite page_containing_path by done.
  destruct (leaf _ _ _ _) as [[[f' flags'] [|]]|] eqn:Hl; [|done..]. intros [= <- <-].
  destruct (PageTree.leaf_table_at _ (PageTree.table_path a) 3 t _ _ _ eq_refl Hl) as [p Hp].
  rewrite (PageTree.leaf_page _ _ a _ Hp) in Hl. destruct (pte_is_unused _); [done|].
  injection Hl as Hf _. unfold virtual_byte, UserStack.active_level_1_table_containing.
  pose proof (table_at_foldl _ _ _ _ Hp) as Hfold. unfold PageTree.table_path in Hfold.
  by rewrite Hfold, Hf.
Qed.

#[export] Instance table_memory_laws : PhysicalMemoryLaws (KernelMemory A E H).
Proof.
  constructor.
  - done.
  - done.
  - done.
  - intros m f m' Ha. cbn in Ha. apply on_info_Done in Ha as (i & Ha & _). bind_Done Ha.
    destruct r as [[f'|] a]; [|done]. injection Ha as -> _.
    apply frame_allocated in Hr as ([Hf _] & _). exact Hf.
  - intros m r m' p Ha. cbn in Ha. by apply on_info_Done in Ha as (i & _ & ->).
  - intros t page f flags m m' p Hm _. cbn in Hm. by apply on_info_Done in Hm as (i & _ & ->).
  - intros t a m f flags Ha Ht. by eapply virtual_byte_mapped.
Qed.
End Laws.

(** Nothing of this touches the heap of the kernel. *)
#[export] Instance table_memory_remaps {A E H} `{FrameAllocator A} `{PageTableEntry E} `{FrameOf}
    `{VirtAddr} `{HeapAllocator H} `{TableMapper A E} :
  @LoaderRemaps (KernelMemory A E H) kernel_memory tree_mapper table_memory.
Proof.
  constructor; [constructor|done|].
  - constructor; [done|]. intros m1 m2 m3. cbn. congruence.
  - intros m r m' Ha. cbn in Ha. by apply on_info_Done in Ha as (i & _ & ->).
  - intros t page f flags m r m' _ Hm. cbn in Hm. by apply on_info_Done in Hm as (i & _ & ->).
  - intros t page f flags parent m r m' _ _ Hm. cbn in Hm. by apply on_info_Done in Hm as (i & _ & ->).
  - intros t page flags m r m' _ Hu. cbn in Hu. destruct (update_page _ _ _ _). by simplify_eq.
  - intros m t m' Hc. cbn in Hc. by apply on_info_Done in Hc as (i & _ & ->).
Qed.
