(* ===== verification/Walker.v ===== *)
(** * A mapper to run

    The properties of address spaces hold for every mapper that meets the
    contract of TableMapper.v.  This file has one, so that they can be evaluated
    on concrete tables: it walks the tables, makes those that are missing and
    adds the flags for parents to the entries on the way.  It shows that the
    contract can be met; it is no model of the crate's code. *)
From S2P Require Import Prelude Logger Heap Frames Paging UserStack Hierarchy Vga Abi Sync Isf Thread Mapping Kernel Syscall Spawn Irq Arena System Loader Memory TableMapper.
Import Paging.

Module Walker.
Section Operations.
Context {A E : Type} `{FrameAllocator A} `{PageTableEntry E} `{VirtAddr}.
Implicit Types (m : MemoryInfo A E) (T : Z -> Z -> E).

(** The table behind an entry, made if the entry is not in use. *)
Definition next_table (parent table i : Z) m : outcome (result Z MapToError * MemoryInfo A E) :=
  let e := tables m table i in
  if pte_is_unused e then
    '(frame, a) ← fa_allocate (frame_allocator m);
    match frame with
    | None => Done (Err FrameAllocationFailed, with_allocator a m)
    | Some t =>
        Done (Ok t, UserStack.put table i (pte_set_addr t parent e)
          (with_tables (zero t (tables m)) (with_allocator a m)))
    end
  else
    let m := UserStack.put table i (pte_set_flags (Z.lor (pte_flags e) parent) e) m in
    Done (if contains (pte_flags e) HUGE_PAGE then Err ParentEntryHugePage else Ok (pte_addr e), m).

Fixpoint ensure_tables (parent : Z) (path : list Z) (table : Z) m :
    outcome (result Z MapToError * MemoryInfo A E) :=
  match path with
  | [] => Done (Ok table, m)
  | i :: path =>
      '(r, m) ← next_table parent table i m;
      match r with
      | Err e => Done (Err e, m)
      | Ok next => ensure_tables parent path next m
      end
  end.

(** A page and a frame by the types of the arguments. *)
Definition map_page (root page frame flags parent : Z) m :
    outcome (result unit MapToError * MemoryInfo A E) :=
  if decide (valid_page page /\ is_frame frame) then
    '(r, m) ← ensure_tables parent (PageTree.table_path page) root m;
    match r with
    | Err e => Done (Err e, m)
    | Ok table =>
        let e := tables m table (p1_index page) in
        if pte_is_unused e
        then Done (Ok tt, UserStack.put table (p1_index page) (pte_set_addr frame flags e) m)
        else Done (Err (PageAlreadyMapped (pte_addr e)), m)
    end
  else Panic.

Fixpoint find_table T (root : Z) (path : list Z) : option Z :=
  match path with
  | [] => Some root
  | i :: path => next ← pte_frame (T root i); find_table T next path
  end.

(** The entry of a page, if all tables down to it exist. *)
Definition page_table (root page : Z) m : option Z :=
  if decide (valid_page page) then find_table (tables m) root (PageTree.table_path page) else None.

Definition update_page (root page flags : Z) m : result unit string * MemoryInfo A E :=
  match page_table root page m with
  | None => (Err "PageNotMapped"%string, m)
  | Some table =>
      let e := tables m table (p1_index page) in
      if pte_is_unused e then (Err "PageNotMapped"%string, m)
      else (Ok tt, UserStack.put table (p1_index page) (pte_set_flags flags e) m)
  end.

Definition unmap_page (root page : Z) m : result Z string * MemoryInfo A E :=
  match page_table root page m with
  | None => (Err "PageNotMapped"%string, m)
  | Some table =>
      match pte_frame (tables m table (p1_index page)) with
      | None => (Err "PageNotMapped"%string, m)
      | Some frame => (Ok frame, UserStack.put table (p1_index page) pte_new m)
      end
  end.

End Operations.

Section Facts.
Context {A E : Type} `{FrameAllocatorLaws A} `{PageTableEntryLaws E} `{VirtAddrLaws}.
Implicit Types (m : MemoryInfo A E) (T : Z -> Z -> E).

(** Flags added to the entry of a huge page. *)
Lemma touch_huge root path p i parent m b :
  hierarchy m root -> table_at (tables m) 3 root path = Some p -> path_ok (path ++ [i]) ->
  (3 - length path)%nat = S b -> contains (pte_flags (tables m p i)) HUGE_PAGE = true ->
  page_flags parent ->
  unharmed root m (UserStack.put p i (pte_set_flags (Z.lor (pte_flags (tables m p i)) parent) (tables m p i)) m).
Proof.
  intros Hh Htab Hpath Hb Hhuge [Hok _ _].
  apply Forall_app in Hpath as [Hpath Hi]. apply Forall_cons in Hi as [Hi _].
  set (e := pte_set_flags _ _). set (flags := Z.lor _ _) in e.
  assert (Hflags : flags_ok flags) by (apply flags_ok_or; [apply flags_ok_entry|done]).
  assert (Hfe : pte_flags e = flags) by by apply pte_flags_set_flags.
  assert (Ha : pte_addr e = pte_addr (tables m p i)) by by apply pte_addr_set_flags.
  assert (Hhe : contains (pte_flags e) HUGE_PAGE = true).
  { rewrite Hfe. change HUGE_PAGE with (2 ^ 7) in *. unfold flags. by rewrite contains_or, Hhuge. }
  assert (Hused : forall e', contains (pte_flags e') HUGE_PAGE = true ->
    pte_is_unused e' = false /\ is_leaf (S (S b)) e' = true).
  { intros e' He. split; [|exact He]. destruct (pte_is_unused e') eqn:Hu; [|done].
    apply pte_unused in Hu as [_ Hf]. by rewrite Hf in He. }
  destruct (Hused _ Hhuge) as [Hu Hl]. destruct (Hused _ Hhe) as [Hu' Hl'].
  assert (Hp : points (S b) (tables m p i) = false) by (unfold points; by rewrite Hl, andb_false_r).
  assert (Hp' : points (S b) e = false) by (unfold points; by rewrite Hl', andb_false_r).
  assert (Hch : forall q, ~ child (tables m) (S b) p i q) by (intros; by apply child_not_points).
  assert (Hch' : forall q, ~ child (tables (UserStack.put p i e m)) (S b) p i q)
    by (intros; apply child_not_points; by rewrite put_at).
  assert (Hrw : rewired root path p i m (UserStack.put p i e m)).
  { constructor; rewrite ?Hb; [done|done| | | |by intros g ?%Hch'].
    - constructor; [|by intros q ?%Hch|by intros q ?%Hch'|].
      + intros q j _ Hne. rewrite put_tables. by rewrite decide_False.
      + intros c [= <-]. by rewrite put_at, Hp'.
    - intros q j _ _ Hne. rewrite put_tables. by rewrite decide_False.
    - constructor; [done| |done]. intros g _. pose proof (Hch' g). unfold mused.
      cbn [UserStack.put with_tables frame_allocator]. tauto. }
  assert (Hst : steps_to root (fun path' => if decide ((path ++ [i]) `prefix_of` path')
    then (fun '(f, _, rest) => (f, flags, rest)) <$> leaf (tables m) 3 root path'
    else leaf (tables m) 3 root path') m (UserStack.put p i e m)).
  { apply (rewired_steps root path p i); [done..| |].
    - intros rest _. rewrite decide_True by (exists rest; by rewrite <-app_assoc).
      rewrite (leaf_app _ _ _ _ p), Hb by done. cbn [leaf]. by rewrite put_at, Hu, Hu', Hl, Hl', Ha, Hfe.
    - intros path' _ Hn. by rewrite decide_False. }
  constructor; [apply Hst..|]. intros path' Hfull. rewrite (st_leaf _ _ _ _ Hst) by done.
  case_decide; [|done]. by destruct (leaf _ _ _ _) as [[[? ?] ?]|].
Qed.

Lemma next_table_spec root path parent p i b m r m' :
  hierarchy m root -> table_at (tables m) 3 root path = Some p -> path_ok (path ++ [i]) ->
  (3 - length path)%nat = S b -> page_flags parent -> next_table parent p i m = Done (r, m') ->
  match r with
  | Ok next => steps_to root (leaf (tables m) 3 root) m m' /\
      table_at (tables m') 3 root (path ++ [i]) = Some next
  | Err _ => unharmed root m m'
  end.
Proof.
  intros Hh Htab Hpath Hb Hparent Hrun. unfold next_table in Hrun.
  destruct (pte_is_unused (tables m p i)) eqn:Hu.
  - bind_Done Hrun. destruct r0 as [[t|] a]; injection Hrun as <- <-.
    + assert (Hc : create_pagetable m = Done (t, with_tables (zero t (tables m)) (with_allocator a m)))
        by (unfold create_pagetable; by rewrite Hr).
      apply fa_allocate_Some in Hr as (Ht & _).
      apply (link_table root path p i (pte_set_addr t parent (tables m p i)) t m _ b Hh Htab Hpath Hb Hu Hc).
      * apply pte_addr_set; [done|]. apply Hparent.
      * rewrite pte_flags_set; [done..|]. apply Hparent.
    + apply fa_allocate_None in Hr. simplify_eq. destruct m. by apply steps_unharmed, steps_to_refl.
  - destruct (contains (pte_flags (tables m p i)) HUGE_PAGE) eqn:Hhuge; simplify_eq;
      [by eapply touch_huge|].
    assert (Hpt : points (S b) (tables m p i) = true).
    { apply points_spec. split; [done|]. unfold is_leaf. by rewrite Hhuge. }
    pose proof (page_flags_or _ _ (flags_ok_entry (tables m p i)) Hhuge Hparent) as Hf.
    destruct (touch_entry root path p i
      (pte_set_flags (Z.lor (pte_flags (tables m p i)) parent) (tables m p i)) m b Hh Htab Hpath Hb Hpt)
      as [Hs Htn].
    + apply pte_addr_set_flags, Hf.
    + rewrite pte_flags_set_flags; [done|apply Hf].
    + split; [exact Hs|]. rewrite Htn. f_equal. apply pte_addr_set_flags, Hf.
Qed.

Lemma ensure_tables_spec root parent : page_flags parent -> forall path pre p m r m',
  hierarchy m root -> table_at (tables m) 3 root pre = Some p -> path_ok (pre ++ path) ->
  (length pre + length path <= 3)%nat -> ensure_tables parent path p m = Done (r, m') ->
  match r with
  | Ok table => steps_to root (leaf (tables m) 3 root) m m' /\
      table_at (tables m') 3 root (pre ++ path) = Some table
  | Err _ => unharmed root m m'
  end.
Proof.
  intros Hparent. induction path as [|i path IH]; intros pre p m r m' Hh Htab Hpath Hlen Hrun; cbn in Hrun.
  - simplify_eq. split; [by apply steps_to_refl|]. by rewrite app_nil_r.
  - cbn [length] in Hlen. replace (pre ++ i :: path) with ((pre ++ [i]) ++ path) in * by by rewrite <-app_assoc.
    bind_Done Hrun. destruct r0 as [r0 m1].
    eapply (next_table_spec root pre parent p i (2 - length pre)) in Hr;
      [|done|done|by apply Forall_app in Hpath as [? _]|lia|done].
    destruct r0 as [next|e]; [|by simplify_eq]. destruct Hr as [Hs Htn].
    eapply IH in Hrun; [|apply Hs|exact Htn|done|rewrite length_app; cbn; lia].
    destruct r as [table|e]; [|eapply unharmed_trans; [by apply steps_unharmed|done]].
    destruct Hrun as [Hs' Ht']. split; [|exact Ht'].
    eapply steps_to_ext; [eapply steps_to_trans; [exact Hs|exact Hs']|].
    intros path' Hfull. by rewrite (st_leaf _ _ _ _ Hs).
Qed.

Lemma map_page_spec root page frame flags parent m r m' :
  hierarchy m root -> page_flags flags -> page_flags parent ->
  map_page root page frame flags parent m = Done (r, m') ->
  valid_page page /\ is_frame frame /\
  match r with
  | Ok _ => leaf (tables m) 3 root (PageTree.page_path page) = None /\
      steps_to root (fun path => if decide (path = PageTree.page_path page) then Some (frame, flags, [])
        else leaf (tables m) 3 root path) m m'
  | Err _ => unharmed root m m'
  end.
Proof.
  intros Hh Hflags Hparent Hrun. unfold map_page in Hrun. case_decide as Hok; [|done].
  destruct Hok as [Hpage Hframe]. split; [done|]. split; [done|]. bind_Done Hrun. destruct r0 as [r0 m1].
  eapply (ensure_tables_spec root parent Hparent _ []) in Hr ;
    [|done|done|apply PageTree.table_path_ok|done]. cbn [app] in Hr.
  destruct r0 as [p|e]; [|by simplify_eq]. destruct Hr as [Hs Ht].
  pose proof (PageTree.leaf_page _ _ page _ Ht) as Hleaf. rewrite (st_leaf _ _ _ _ Hs) in Hleaf by apply PageTree.page_path_ok.
  destruct (pte_is_unused (tables m1 p (p1_index page))) eqn:Hu; [|simplify_eq; by apply steps_unharmed].
  simplify_eq. split; [exact Hleaf|].
  eapply steps_to_ext; [eapply steps_to_trans; [exact Hs|]|].
  - apply (put_page root (PageTree.table_path page) p (p1_index page)); [apply Hs|done|apply PageTree.page_path_ok].
  - intros path Hfull. cbn beta. fold (PageTree.page_path page). case_decide; [|by rewrite (st_leaf _ _ _ _ Hs)].
    rewrite pte_addr_set, pte_flags_set by (done || apply Hflags).
    rewrite page_flags_used; [done|]. by rewrite pte_flags_set by (done || apply Hflags).
Qed.

(** In a hierarchy the walk of the processor and that of the code agree. *)
Lemma pte_frame_points b e next :
  pte_frame e = Some next -> points (S b) e = true /\ pte_addr e = next.
Proof.
  rewrite pte_frame_spec. destruct (contains (pte_flags e) PRESENT) eqn:Hp; [|done].
  destruct (contains (pte_flags e) HUGE_PAGE) eqn:Hh; [done|]. intros [= <-]. split; [|done].
  by apply page_flags_points; constructor; [apply flags_ok_entry|..].
Qed.

Lemma find_table_at T : forall path below root p,
  (length path <= below)%nat -> find_table T root path = Some p -> table_at T below root path = Some p.
Proof.
  induction path as [|i path IH]; intros below root p Hlen Hf; cbn in Hf; [done|].
  destruct below as [|b]; [cbn in Hlen; lia|].
  destruct (pte_frame (T root i)) as [next|] eqn:He; [|done]. cbn in Hf.
  apply (pte_frame_points b) in He as [Hp Ha]. cbn [table_at]. rewrite Hp, Ha.
  apply IH; [cbn in Hlen; lia|done].
Qed.

Lemma table_at_find T : forall path below root p,
  is_tree T below root -> path_ok path -> table_at T below root path = Some p ->
  find_table T root path = Some p.
Proof.
  induction path as [|i path IH]; intros below root p Htree Hpath Ht; cbn in Ht; [done|].
  apply Forall_cons in Hpath as [Hi Hpath]. destruct below as [|b]; [done|].
  destruct (points (S b) (T root i)) eqn:Hp; [|done]. destruct Htree as [Hsub _].
  destruct (Hsub i Hi Hp) as [Hpres Htree]. apply points_spec in Hp as [_ Hl].
  unfold is_leaf in Hl. cbn in Hl. cbn [find_table]. rewrite pte_frame_spec, Hpres, Hl. cbn.
  by eapply IH.
Qed.

Lemma page_table_at root page p m :
  page_table root page m = Some p ->
  valid_page page /\ table_at (tables m) 3 root (PageTree.table_path page) = Some p.
Proof.
  unfold page_table. case_decide; [|done]. intros Hf. split; [done|]. by apply find_table_at.
Qed.

Lemma translate_page_at m root page f flags :
  hierarchy m root -> PageTree.translate_page m root page = Some (f, flags) ->
  exists p, page_table root page m = Some p /\
    pte_is_unused (tables m p (p1_index page)) = false /\
    pte_addr (tables m p (p1_index page)) = f /\ pte_flags (tables m p (p1_index page)) = flags.
Proof.
  intros Hh. unfold PageTree.translate_page, page_table. case_decide as Hp; [|done].
  destruct (leaf _ _ _ _) as [[[f' flags'] [|]]|] eqn:Hl; [|done..]. intros [= <- <-].
  destruct (PageTree.leaf_table_at (tables m) (PageTree.table_path page) 3 root _ _ _ eq_refl Hl) as [p Ht]. exists p.
  rewrite (PageTree.leaf_page _ _ page _ Ht) in Hl. destruct (pte_is_unused _); [done|]. simplify_eq.
  split; [|done]. apply (table_at_find _ _ 3); [apply Hh|apply PageTree.table_path_ok|done].
Qed.

(** A write to the entry of a page. *)
Lemma put_page_entry root page p e m :
  hierarchy m root -> page_table root page m = Some p ->
  steps_to root (fun path => if decide (path = PageTree.page_path page)
    then if pte_is_unused e then None else Some (pte_addr e, pte_flags e, [])
    else leaf (tables m) 3 root path) m (UserStack.put p (p1_index page) e m).
Proof.
  intros Hh [_ Ht]%page_table_at.
  apply (put_page root (PageTree.table_path page) p (p1_index page) e m Hh Ht). apply PageTree.page_path_ok.
Qed.

Lemma update_page_spec root page flags m r m' :
  hierarchy m root -> page_flags flags -> update_page root page flags m = (r, m') ->
  match r with
  | Ok _ => exists f old, PageTree.translate_page m root page = Some (f, old) /\
      steps_to root (fun path => if decide (path = PageTree.page_path page) then Some (f, flags, [])
        else leaf (tables m) 3 root path) m m' /\ frame_allocator m' = frame_allocator m
  | Err _ => m' = m
  end.
Proof.
  intros Hh Hflags Hu. unfold update_page in Hu.
  destruct (page_table root page m) as [p|] eqn:Hp; [|by simplify_eq].
  destruct (pte_is_unused (tables m p (p1_index page))) eqn:Hun; simplify_eq; [done|].
  eexists _, _. split.
  - apply page_table_at in Hp as [Hv Ht]. unfold PageTree.translate_page. rewrite decide_True by done.
    rewrite (PageTree.leaf_page _ _ page _ Ht), Hun. done.
  - split; [|done].
    eapply steps_to_ext; [by apply put_page_entry|]. intros path _. cbn beta. case_decide; [|done].
    rewrite pte_addr_set_flags, pte_flags_set_flags by apply Hflags.
    rewrite page_flags_used; [done|]. by rewrite pte_flags_set_flags by apply Hflags.
Qed.

Lemma unmap_page_spec root page m f flags :
  hierarchy m root -> page_flags flags -> PageTree.translate_page m root page = Some (f, flags) ->
  exists m', unmap_page root page m = (Ok f, m') /\
    steps_to root (fun path => if decide (path = PageTree.page_path page) then None
      else leaf (tables m) 3 root path) m m' /\ frame_allocator m' = frame_allocator m.
Proof.
  intros Hh [_ Hpres Hhuge] Ht. destruct (translate_page_at _ _ _ _ _ Hh Ht) as (p & Hp & _ & Ha & Hf).
  unfold unmap_page. rewrite Hp, pte_frame_spec, Hf, Hpres, Hhuge, Ha. eexists. split; [done|]. split; [|done].
  eapply steps_to_ext; [by apply put_page_entry|]. intros path _. cbn beta. case_decide; [|done].
  by rewrite pte_new_unused.
Qed.

End Facts.

(** The contract is met. *)
Section Instances.
Context {A E : Type} `{FrameAllocatorLaws A} `{PageTableEntryLaws E} `{VirtAddrLaws}.

#[export] Instance walker : TableMapper A E := {|
  TableMapper.map_page := map_page;
  TableMapper.update_page := update_page;
  TableMapper.unmap_page := unmap_page;
|}.

#[export] Instance walker_laws : TableMapperLaws A E.
Proof.
  constructor.
  - intros root page frame flags parent m m' Hh Hf Hp Hm.
    by apply map_page_spec in Hm as (? & ? & ? & ?).
  - intros root page frame flags parent m m' e Hh Hf Hp Hm. by apply map_page_spec in Hm as (_ & _ & ?).
  - intros root page flags m m' Hh Hf Hm. by apply update_page_spec in Hm.
  - intros root page flags m m' e Hh Hf Hm. apply update_page_spec in Hm; [|done..].
    subst. by apply steps_unharmed, steps_to_refl.
  - intros root page f flags m. apply unmap_page_spec.
Qed.
End Instances.
End Walker.
