(* ===== verification/AddressSpace.v ===== *)
(** * Address spaces

    The components of kernel/src/mem and the loader together, on one memory:
    Paging.v copies the kernel's tables, the mapper of TableMapper.v maps pages in the copy,
    UserStack.v adds stacks to it, Paging.v gives it back.  Creating a program
    touches no other address space, and dropping one gives back all it took. *)
From S2P Require Import Prelude Logger Heap Bump FixedBlock Frames Paging UserStack Hierarchy Vga Abi Sync Isf Thread Mapping Kernel Syscall Spawn Irq Arena System Loader Memory TableMapper Walker.
Import Paging.

Section Spaces.
Context {A E : Type} `{FrameAllocatorLaws A} `{PageTableEntryLaws E} `{VirtAddrLaws}
  `{!TableMapper A E} `{!TableMapperLaws A E}.
Implicit Types (m : MemoryInfo A E) (T : Z -> Z -> E) (path : list Z).

(** What [allocate_user_stack] relies on: no huge page where the stacks go. *)
Definition stacks_clear T (root : Z) : Prop :=
  forall x f flags rest, index_ok x ->
    leaf T 3 root (USER_STACK_PAGE_INDEX ++ [x]) = Some (f, flags, rest) -> rest = [].

Record space m (root : Z) : Prop := {
  sp_hierarchy : hierarchy m root;
  sp_clear : stacks_clear (tables m) root;
}.

(** From [m] to [m'] the space at [root] stays one and nothing else changes. *)
Definition within (root : Z) m m' : Prop :=
  space m root -> space m' root /\ confined root m m'.

#[export] Instance within_preorder root : PreOrder (within root).
Proof.
  split; [by intros m Hs; split|]. intros m1 m2 m3 H12 H23 Hs.
  destruct (H12 Hs) as [Hs2 Hc12]. destruct (H23 Hs2) as [Hs3 Hc23].
  split; [done|]. by etransitivity.
Qed.

Lemma stack_path_ok : path_ok USER_STACK_PAGE_INDEX.
Proof. by repeat (apply Forall_cons; split). Qed.

Lemma stack_path_full x : index_ok x -> full (USER_STACK_PAGE_INDEX ++ [x]).
Proof.
  intros Hx. split; [|done]. apply Forall_app. split; [apply stack_path_ok|]. by apply Forall_singleton.
Qed.

(** Steps that change leaves to 4 KiB pages only. *)
Lemma steps_within root lf m m' :
  steps_to root lf m m' ->
  (forall path, full path -> lf path = leaf (tables m) 3 root path \/
    forall f flags rest, lf path = Some (f, flags, rest) -> rest = []) ->
  space m root -> space m' root /\ confined root m m'.
Proof.
  intros Hs Hlf [Hh Hc]. split; [|apply Hs]. split; [apply Hs|]. intros x f flags rest Hx.
  rewrite (st_leaf _ _ _ _ Hs) by by apply stack_path_full.
  destruct (Hlf _ (stack_path_full x Hx)) as [->|Hr]; [by apply Hc|by apply Hr].
Qed.

Lemma same_within root m m' :
  steps_to root (leaf (tables m) 3 root) m m' -> space m root -> space m' root /\ confined root m m'.
Proof. intros Hs. eapply steps_within; [exact Hs|]. by left. Qed.

Lemma allocated_within root m f a :
  fa_allocate (frame_allocator m) = Done (f, a) -> within root m (with_allocator a m).
Proof.
  intros Ha. destruct f as [f|].
  - apply frame_allocated in Ha as (_ & _ & _ & Hc & Hh & _). intros [Hs Hcl].
    split; [|apply Hc]. split; [by apply Hh|done].
  - apply fa_allocate_None in Ha as ->. by destruct m.
Qed.

Lemma unharmed_within root m m' : unharmed root m m' -> space m root -> space m' root /\ confined root m m'.
Proof.
  intros [Hh Hc Hl] [_ Hcl]. split; [|exact Hc]. split; [exact Hh|]. intros x f flags rest Hx Hx'.
  pose proof (Hl _ (stack_path_full x Hx)) as He. rewrite Hx' in He. symmetry in He.
  apply fmap_Some in He as ([[f0 flags0] rest0] & Hl0 & [= _ ->]). by eapply Hcl.
Qed.

Lemma map_page_within root page frame flags parent m r m' :
  page_flags flags -> page_flags parent ->
  map_page root page frame flags parent m = Done (r, m') -> within root m m'.
Proof.
  intros Hf Hp Hrun Hs. destruct r as [[]|e].
  - apply map_page_Ok in Hrun as (_ & _ & _ & Hst); [|apply Hs|done..].
    eapply steps_within; [exact Hst| |done]. intros path _. cbn beta.
    case_decide; [right; naive_solver|by left].
  - apply map_page_Err in Hrun; [|apply Hs|done..]. by apply unharmed_within.
Qed.

Lemma update_page_within root page flags m r m' :
  page_flags flags -> update_page root page flags m = (r, m') -> within root m m'.
Proof.
  intros Hf Hrun Hs. destruct r as [[]|e].
  - apply update_page_Ok in Hrun as (f & old & _ & Hst & _); [|apply Hs|done].
    eapply steps_within; [exact Hst| |done].
    intros path _. cbn beta. case_decide; [right; naive_solver|by left].
  - apply update_page_Err in Hrun; [|apply Hs|done]. by apply unharmed_within.
Qed.

(** ** Steps of a space *)

(** Pages that were not mapped get one frame, present, writable and for users;
    the page of a stack shares its frame with no other. *)
Record mapped_to (t : Z) (pages : list (list Z)) m m' : Prop := {
  mt_pages : pages ≠ [];
  mt_alone x : USER_STACK_PAGE_INDEX ++ [x] ∈ pages -> pages = [USER_STACK_PAGE_INDEX ++ [x]];
  mt_before path : path ∈ pages -> full path /\ leaf (tables m) 3 t path = None;
  mt_frame : exists f a, fa_allocate (frame_allocator m) = Done (Some f, a) /\
    steps_to t (fun path => if decide (path ∈ pages) then Some (f, USER_FLAGS, [])
      else leaf (tables m) 3 t path) (with_allocator a m) m';
}.

(** What the code does to a space it succeeds on. *)
Inductive space_step (t : Z) : MemoryInfo A E -> MemoryInfo A E -> Prop :=
| SpaceTables m m' : steps_to t (leaf (tables m) 3 t) m m' -> space_step t m m'
| SpacePages pages m m' : mapped_to t pages m m' -> space_step t m m'.

Lemma leaf_or_page (pages : list (list Z)) (f : Z) (lf : list Z -> option (Z * Z * list Z)) path :
  let lf' path := if decide (path ∈ pages) then Some (f, USER_FLAGS, []) else lf path in
  lf' path = lf path \/ forall f' flags rest, lf' path = Some (f', flags, rest) -> rest = [].
Proof. cbn. case_decide; [right; naive_solver|by left]. Qed.

Lemma space_step_within t m m' : space_step t m m' -> within t m m'.
Proof.
  intros [m0 m1 Hst|pages m0 m1 [_ _ _ (f & a & Ha & Hst)]] Hs; [by eapply same_within|].
  destruct (allocated_within t _ _ _ Ha Hs) as [Hs1 Hc1].
  destruct (steps_within _ _ _ _ Hst) as [Hs2 Hc2]; [|done|split; [done|by etransitivity]].
  intros path _. apply leaf_or_page.
Qed.

Lemma space_run_within t m m' : rtc (space_step t) m m' -> within t m m'.
Proof. induction 1 as [|m m1 m' Hs _ IH]; [done|]. etransitivity; [by apply space_step_within|done]. Qed.

(** What was mapped stays mapped. *)
Lemma space_run_leaf t m m' path x :
  rtc (space_step t) m m' -> full path -> leaf (tables m) 3 t path = Some x ->
  leaf (tables m') 3 t path = Some x.
Proof.
  intros Hr Hf. induction Hr as [|m m1 m' Hs _ IH]; [done|]. intros Hl. apply IH. revert Hl.
  destruct Hs as [m0 m1 Hst|pages m0 m1 [_ _ Hb (f & a & Ha & Hst)]]; rewrite (st_leaf _ _ _ _ Hst) by done; [done|].
  case_decide as Hin; [|done]. destruct (Hb path Hin) as [_ Hnone]. by rewrite Hnone.
Qed.

(** ** User stacks *)

(** The walk down to the level 1 table of the stacks. *)
Lemma stack_table_spec root : forall path pre p m table m',
  space m root -> table_at (tables m) 3 root pre = Some p -> pre ++ path = USER_STACK_PAGE_INDEX ->
  UserStack.stack_table path p m = Done (table, m') ->
  steps_to root (leaf (tables m) 3 root) m m' /\
  table_at (tables m') 3 root USER_STACK_PAGE_INDEX = Some table.
Proof.
  induction path as [|i path IH]; intros pre p m table m' Hs Htab Hpre Hrun; cbn [UserStack.stack_table] in Hrun.
  { simplify_eq. rewrite app_nil_r in Hpre. subst pre. split; [by apply steps_to_refl, Hs|done]. }
  replace (pre ++ i :: path) with ((pre ++ [i]) ++ path) in Hpre by by rewrite <-app_assoc.
  assert (Hlen : (3 - length pre)%nat = S (length path)).
  { apply (f_equal length) in Hpre. rewrite !length_app in Hpre. cbn in Hpre. lia. }
  assert (Hpath : path_ok ((pre ++ [i]) ++ path)) by (rewrite Hpre; apply stack_path_ok).
  apply Forall_app in Hpath as [Hpath Hrest].
  assert (Hi : index_ok i) by (apply Forall_app in Hpath as [_ Hi]; by apply (Forall_singleton index_ok)).
  bind_Done Hrun. rewrite UserStack.entry_at_in in Hr by apply Hi. apply Done_inj in Hr as <-.
  bind_Done Hrun. destruct r as [e m1].
  assert (Hstep : steps_to root (leaf (tables m) 3 root) m m1 /\
    table_at (tables m1) 3 root (pre ++ [i]) = Some (pte_addr e)).
  { destruct (pte_is_unused (tables m p i)) eqn:Hu.
    - bind_Done Hr. destruct r as [t m2]. simplify_eq.
      pose proof (create_pagetable_spec _ _ _ Hr0) as (Ht & _).
      rewrite pte_addr_set by (done || apply flags_ok_user).
      eapply (link_table root pre p i); [apply Hs|done..| |].
      + by apply pte_addr_set, flags_ok_user.
      + rewrite pte_flags_set by (done || apply flags_ok_user). apply page_flags_user.
    - simplify_eq. split; [by apply steps_to_refl, Hs|].
      rewrite (table_at_snoc _ _ (length path) _ _ p) by done.
      destruct (points (S (length path)) (tables m1 p i)) eqn:Hpt; [done|].
      destruct Hs as [_ Hclear].
      assert (Hleaf : leaf (tables m1) 3 root (USER_STACK_PAGE_INDEX ++ [0]) =
        Some (pte_addr (tables m1 p i), pte_flags (tables m1 p i), path ++ [0])).
      { rewrite <-Hpre, <-!app_assoc. cbn [app]. rewrite (leaf_app _ _ _ _ p), Hlen by done. cbn [leaf].
        unfold points in Hpt. rewrite Hu in Hpt |- *. by destruct (is_leaf _ _). }
      apply Hclear in Hleaf; [|done]. by destruct path. }
  destruct Hstep as [Hst Htab1].
  destruct (same_within _ _ _ Hst Hs) as [Hs1 _].
  destruct (IH (pre ++ [i]) (pte_addr e) m1 table m' Hs1 Htab1 Hpre Hrun) as [Hst' Htab'].
  split; [|done]. eapply steps_to_ext; [eapply steps_to_trans; [exact Hst|exact Hst']|].
  intros path' Hfull. by rewrite (st_leaf _ _ _ _ Hst).
Qed.

(** The pages of a stack, whatever the result. *)
Lemma map_pages_run root table first : forall js m r m',
  space m root -> table_at (tables m) 3 root USER_STACK_PAGE_INDEX = Some table -> NoDup js ->
  (forall j, j ∈ js -> pte_is_unused (tables m table (first + j)) = true) ->
  UserStack.map_pages table first js m = Done (r, m') -> rtc (space_step root) m m'.
Proof.
  induction js as [|j js IH]; intros m r m' Hs Htab Hnd Hun Hrun; cbn [UserStack.map_pages] in Hrun;
    [by simplify_eq|]. apply NoDup_cons in Hnd as [Hj Hnd].
  bind_Done Hrun. unfold UserStack.entry_at in Hr. case_decide as Hb; [|done]. apply Done_inj in Hr as <-.
  bind_Done Hrun. destruct r0 as [f a]. destruct (allocated_within root _ _ _ Hr Hs) as [Hs1 _].
  destruct f as [f|]; [|apply fa_allocate_None in Hr as ->; simplify_eq; by destruct m].
  apply frame_allocated in Hr as Hf. destruct Hf as (Hf & _).
  set (e := pte_set_addr f USER_FLAGS _) in *.
  pose proof (stack_path_full (first + j) Hb) as Hfull.
  assert (Hflags : pte_flags e = USER_FLAGS) by (apply pte_flags_set; [done|apply flags_ok_user]).
  assert (Haddr : pte_addr e = f) by (apply pte_addr_set; [done|apply flags_ok_user]).
  assert (Hstep : space_step root m (UserStack.put table (first + j) e (with_allocator a m))).
  { apply (SpacePages _ [USER_STACK_PAGE_INDEX ++ [first + j]]).
    constructor; [done|by intros x ->%list_elem_of_singleton|..].
    - intros path ->%list_elem_of_singleton. split; [done|].
      rewrite (leaf_app _ _ _ _ table) by done. cbn. by rewrite Hun by set_solver.
    - exists f, a. split; [done|].
      eapply steps_to_ext; [apply (put_page root USER_STACK_PAGE_INDEX table (first + j) e);
        [apply Hs1|done|done]|].
      intros path _. cbn beta. rewrite page_flags_used by (rewrite Hflags; apply page_flags_user).
      rewrite Haddr, Hflags. by repeat case_decide; set_solver. }
  eapply rtc_l; [exact Hstep|]. eapply IH; [by apply (space_step_within _ _ _ Hstep)| |done| |exact Hrun].
  - by apply put_page_table; [apply Hs1|..].
  - intros i Hi. rewrite put_tables, decide_False; [apply Hun; set_solver|].
    intros [_ Heq]. apply Hj. by replace j with i by lia.
Qed.

Lemma find_slot_run root table n_start : forall slots m r m',
  space m root -> table_at (tables m) 3 root USER_STACK_PAGE_INDEX = Some table ->
  UserStack.find_slot table n_start slots m = Done (r, m') -> rtc (space_step root) m m'.
Proof.
  induction slots as [|i slots IH]; intros m r m' Hs Htab Hrun; cbn [UserStack.find_slot] in Hrun;
    [by simplify_eq|].
  bind_Done Hrun. destruct r0 as []; [|by eapply IH]. bind_Done Hrun. destruct r0 as [r0 m1].
  eapply (map_pages_run root) in Hr0; [by destruct r0; simplify_eq|done|done|apply NoDup_seqZ|].
  intros j Hj%elem_of_seqZ. apply (UserStack.all_unused_true _ _ _ Hr), UserStack.slot_range_elem.
  unfold UserStack.N in *. lia.
Qed.

Lemma allocate_user_stack_run root n_start m r m' :
  space m root -> UserStack.allocate_user_stack root n_start m = Done (r, m') ->
  rtc (space_step root) m m'.
Proof.
  intros Hs Hrun. unfold UserStack.allocate_user_stack in Hrun. bind_Done Hrun. destruct r0 as [table m1].
  eapply (stack_table_spec root _ []) in Hr as [Hst Htab]; [|done..].
  eapply rtc_l; [by apply SpaceTables|].
  eapply find_slot_run; [|exact Htab|exact Hrun]. by apply (same_within _ _ _ Hst).
Qed.

(** ** A new space *)

(** The copy of the kernel's tables. *)
Record created m t m' : Prop := {
  cr_space : space m' t;
  cr_extends : extends (fun g => in_tree (tables m') 3 t g) m m';
  cr_new g : in_tree (tables m') 3 t g -> ~ mtaken m g;
  cr_same p j : is_frame p -> mtaken m p -> tables m' p j = tables m p j;
  cr_leaf path : path_ok path ->
    leaf (tables m') 3 t path = leaf (tables m) 3 (kernel_table m) path;
}.

Lemma create_space m t m' :
  space m (kernel_table m) -> mtaken m 0 -> create_kernel_only_pagetable m = Done (t, m') ->
  created m t m'.
Proof.
  intros [[Htree Hroot Htk] Hclear] Hzero Hc.
  destruct (copy_pagetables_spec (kernel_table m) m t m') as (Ht & _ & Hext & Hnew & Hsame & Hwalk & Hcopy);
    [by constructor|done|].
  assert (Hleaf : forall path, path_ok path ->
    leaf (tables m') 3 t path = leaf (tables m) 3 (kernel_table m) path).
  { intros path Hp. by rewrite !leaf_walk, Hwalk. }
  constructor; [|done..]. constructor.
  - constructor; [by apply Hcopy|done|]. intros p Hp. left.
    apply (ext_used _ _ _ Hext); [by eapply in_tree_frame|]. by left.
  - intros x f flags rest Hx. rewrite Hleaf by by apply stack_path_full. by apply Hclear.
Qed.

(** The tables at [other] are as they were, on frames the allocator does not own. *)
Record kept (other : Z) m m' : Prop := {
  kp_same q j : in_tree (tables m) 3 other q -> tables m' q j = tables m q j;
  kp_hierarchy : hierarchy m' other;
}.

Lemma kept_same other m m' :
  hierarchy m other ->
  (forall q j, is_frame q -> in_tree (tables m) 3 other q -> tables m' q j = tables m q j) ->
  (forall q, is_frame q -> mtaken m q -> mtaken m' q) -> kept other m m'.
Proof.
  intros [Htree Hf Htk] Hs Ht.
  assert (Hsame : forall q j, in_tree (tables m) 3 other q -> tables m' q j = tables m q j).
  { intros q j Hq. apply Hs; [by eapply in_tree_frame|done]. }
  constructor; [done|]. constructor; [by eapply is_tree_ext|done|].
  intros p. rewrite (in_tree_ext 3 _ _ _ _ Hsame). intros Hp. apply Ht; [by eapply in_tree_frame|by apply Htk].
Qed.

Lemma kept_walk other m m' path :
  kept other m m' -> path_ok path -> walk (tables m') 3 other path = walk (tables m) 3 other path.
Proof. intros [Hs _] Hp. by apply walk_ext. Qed.

Lemma kept_leaf other m m' path :
  kept other m m' -> path_ok path -> leaf (tables m') 3 other path = leaf (tables m) 3 other path.
Proof. intros Hk Hp. by rewrite !leaf_walk, (kept_walk _ _ _ _ Hk). Qed.

Lemma kept_trans other m1 m2 m3 : kept other m1 m2 -> kept other m2 m3 -> kept other m1 m3.
Proof.
  intros [H12 _] [H23 Hh]. constructor; [|done]. intros q j Hq.
  rewrite H23; [by apply H12|]. by rewrite (in_tree_ext 3 _ _ _ _ H12).
Qed.

(** Another address space after the creation, and apart from the new one. *)
Lemma created_apart m t m' other :
  created m t m' -> hierarchy m other -> kept other m m' /\ apart m' t other.
Proof.
  intros [_ Hext Hnew Hsame _] [Htree Hf Ht].
  assert (Hkept : kept other m m').
  { apply kept_same; [done| |intros q Hq; by eapply extends_taken]. intros q j Hq Hin. apply Hsame; auto. }
  split; [done|]. constructor; [done|]. intros p. rewrite (in_tree_ext 3 _ _ _ _ (kp_same _ _ _ Hkept)).
  intros Hp. split; [|intros Hin; by apply Hnew in Hin; apply Hin, Ht].
  eapply extends_taken; [done|by eapply in_tree_frame|by apply Ht].
Qed.

Lemma apart_kept root m m' other :
  confined root m m' -> apart m root other -> hierarchy m other -> kept other m m'.
Proof.
  intros Hc Ha Hh. apply kept_same; [done| |intros q; by apply (confined_taken root)].
  intros q j _ Hq. by eapply apart_same.
Qed.

(** ** What a space holds *)

(** The frames that the leaves [lf] map for users. *)
Definition user_frame (lf : list Z -> option (Z * Z * list Z)) (g : Z) : Prop :=
  exists path flags rest, full path /\ lf path = Some (g, flags, rest) /\
    contains flags USER_FLAGS = true.

(** The frames a space would give back. *)
Definition held m (t g : Z) : Prop :=
  in_tree (tables m) 3 t g \/ user_frame (leaf (tables m) 3 t) g.

Definition users_small (lf : list Z -> option (Z * Z * list Z)) : Prop :=
  forall path f flags rest, full path -> lf path = Some (f, flags, rest) ->
    contains flags USER_FLAGS = true -> contains flags HUGE_PAGE = false.

(** The space holds what is in use besides the frames [others]. *)
Record accounts (t : Z) (others : Z -> Prop) m : Prop := {
  ac_space : space m t;
  ac_used g : is_frame g -> mused m g <-> others g \/ held m t g;
  ac_new g : held m t g -> ~ others g;
  ac_small : users_small (leaf (tables m) 3 t);
}.

Lemma held_frame m t g : hierarchy m t -> held m t g -> is_frame g.
Proof.
  intros Hh [Hin|(path & flags & rest & _ & Hl & _)]; [by eapply in_tree_frame, Hin; apply Hh|].
  by eapply leaf_frame.
Qed.

Lemma user_frame_ext lf lf' g :
  (forall path, full path -> lf' path = lf path) -> user_frame lf' g <-> user_frame lf g.
Proof.
  intros He. split; intros (path & flags & rest & Hf & Hl & Hu); exists path, flags, rest;
    [rewrite He in Hl by done|rewrite He by done]; done.
Qed.

(** The space takes the frames [into] over from the others. *)
Lemma accounts_steps t (others others' into : Z -> Prop) lf m m' :
  accounts t others m -> steps_to t lf m m' -> space m' t -> users_small lf ->
  (forall g, user_frame lf g <-> user_frame (leaf (tables m) 3 t) g \/ into g) ->
  (forall g, is_frame g -> others g <-> others' g \/ into g) ->
  (forall g, into g -> ~ others' g) ->
  accounts t others' m'.
Proof.
  intros [[Hh _] Hu Hn _] Hst Hs' Hsmall Hlf Ho Hi.
  assert (Huser : forall g, user_frame (leaf (tables m') 3 t) g <-> user_frame lf g)
    by (intros; apply user_frame_ext, Hst).
  assert (Htree : forall g, is_frame g -> in_tree (tables m') 3 t g ->
    in_tree (tables m) 3 t g \/ ~ in_tree (tables m) 3 t g /\ ~ others g).
  { intros g Hg Hin. destruct (cf_new _ _ _ (st_confined _ _ _ _ Hst) g Hin) as [|Hnt]; [by left|right].
    split; [intros Hin'; by apply Hnt, (hi_taken m t)|]. intros Hog. apply Hnt. left. apply Hu; auto. }
  constructor; [done|..].
  - intros g Hg. pose proof (Htree g Hg). pose proof (st_tree _ _ _ _ Hst g).
    pose proof (Huser g). pose proof (Hlf g). pose proof (Ho g Hg). pose proof (Hu g Hg).
    rewrite (st_used _ _ _ _ Hst g Hg). unfold held in *. tauto.
  - intros g Hheld. assert (Hg : is_frame g) by (by eapply held_frame; [apply Hs'|]).
    pose proof (Htree g Hg). pose proof (Huser g). pose proof (Hlf g). pose proof (Ho g Hg).
    pose proof (Hn g). pose proof (Hi g). unfold held in *. tauto.
  - intros path f flags rest Hf. rewrite (st_leaf _ _ _ _ Hst) by done. by apply Hsmall.
Qed.

(** A frame that is taken is one of the others. *)
Lemma accounts_allocate t others m f a :
  accounts t others m -> fa_allocate (frame_allocator m) = Done (Some f, a) ->
  accounts t (fun g => g = f \/ others g) (with_allocator a m).
Proof.
  intros [Hs Hu Hn Hsm] Ha. destruct (allocated_within t _ _ _ Ha Hs) as [Hs' _].
  apply frame_allocated in Ha as (Hf & Hnt & _ & _ & _ & Hu').
  constructor; [done| | |done].
  - intros g Hg. rewrite (Hu' g Hg), (Hu g Hg). change (held (with_allocator a m)) with (held m). tauto.
  - change (held (with_allocator a m)) with (held m). intros g Hheld [->|Ho]; [|by apply (Hn g)].
    apply Hnt. left. apply Hu; auto.
Qed.

Lemma accounts_step t others m m' : accounts t others m -> space_step t m m' -> accounts t others m'.
Proof.
  intros Hacc Hstep. destruct Hstep as [m m' Hst|pages m m' [Hne _ Hb (f & a & Ha & Hst)]].
  - destruct (same_within _ _ _ Hst (ac_space _ _ _ Hacc)) as [Hs' _].
    eapply (accounts_steps t others others (fun _ => False)); [done..|apply Hacc| | |]; naive_solver.
  - apply accounts_allocate with (a := a) (f := f) in Hacc as Hacc1; [|done].
    assert (Hf : is_frame f /\ ~ mtaken m f) by (by apply frame_allocated in Ha as (? & ? & _)).
    destruct (steps_within _ _ _ _ Hst (fun path _ => leaf_or_page pages f _ path) (ac_space _ _ _ Hacc1))
      as [Hs' _].
    eapply (accounts_steps t _ others (fun g => g = f)); [exact Hacc1|exact Hst|done|..].
    + intros path f' flags rest Hfull. case_decide; [naive_solver|]. by apply Hacc.
    + intros g. change (leaf (tables (with_allocator a m))) with (leaf (tables m)). split.
      * intros (path & flags & rest & Hfull & Hl & Hu). case_decide; [right; by simplify_eq|].
        left. by exists path, flags, rest.
      * intros [(path & flags & rest & Hfull & Hl & Hu)| ->].
        -- exists path, flags, rest. rewrite decide_False; [done|]. intros Hin.
           apply Hb in Hin as [_ Hnone]. by rewrite Hnone in Hl.
        -- destruct pages as [|path pages]; [done|]. exists path, USER_FLAGS, [].
           rewrite decide_True by set_solver. split; [|done]. apply Hb. set_solver.
    + intros g _. tauto.
    + intros g -> Ho. apply (proj2 Hf). left. apply (ac_used _ _ _ Hacc); [apply Hf|by left].
Qed.

Lemma accounts_run t others m m' :
  accounts t others m -> rtc (space_step t) m m' -> accounts t others m'.
Proof. intros Ha Hr. induction Hr; [done|]. by eapply IHHr, accounts_step. Qed.

(** ** Beginning and end of a space *)

(** Nothing of the kernel's is mapped for users. *)
Definition kernel_only T (root : Z) : Prop :=
  forall path f flags rest, full path -> leaf T 3 root path = Some (f, flags, rest) ->
    contains flags USER_FLAGS = false.

Lemma created_accounts m t m' :
  created m t m' -> kernel_only (tables m) (kernel_table m) -> accounts t (mused m) m'.
Proof.
  intros [Hs Hext Hnew _ Hleaf] Hno.
  assert (Hkernel : forall path f flags rest, full path ->
    leaf (tables m') 3 t path = Some (f, flags, rest) -> contains flags USER_FLAGS = false).
  { intros path f flags rest Hp. rewrite Hleaf by apply Hp. by apply Hno. }
  assert (Hnone : forall g, ~ user_frame (leaf (tables m') 3 t) g).
  { intros g (path & flags & rest & Hf & Hl & Hu). by rewrite (Hkernel path g flags rest) in Hu. }
  constructor; [done|..].
  - intros g Hg. rewrite (ext_used _ _ _ Hext g Hg). unfold held. pose proof (Hnone g). tauto.
  - intros g [Hin|Huf] Hm; [|by apply (Hnone g)]. apply (Hnew g Hin). by left.
  - intros path f flags rest Hf Hl. by rewrite (Hkernel path f flags rest).
Qed.

(** What the release of a tree gives back, in terms of its leaves. *)
Lemma released_leaf T below : forall root g,
  released T below root g <-> in_tree T below root g \/
    exists path flags rest, path_ok path /\ length path = S below /\
      leaf T below root path = Some (g, flags, rest) /\ contains flags USER_FLAGS = true.
Proof.
  induction below as [|b IH]; intros root g; cbn [released in_tree]; unfold released_at.
  - split.
    + intros [|(i & Hi & Hu & Hr)]; [by left; left|right]. cbn in Hr. destruct Hr as [Hus ->].
      exists [i], (pte_flags (T root i)), []. split; [by apply Forall_singleton|]. split; [done|].
      cbn. by rewrite Hu.
    + intros [[|[]]|(path & flags & rest & Hp & Hlen & Hl & Hus)]; [by left|right].
      destruct path as [|i [|]]; [done| |done]. apply Forall_cons in Hp as [Hi _]. exists i.
      split; [done|]. cbn in Hl |- *. destruct (pte_is_unused (T root i)); [done|]. naive_solver.
  - split.
    + intros [|(i & Hi & Hu & Hr)]; [by left; left|].
      destruct (is_leaf (S (S b)) (T root i)) eqn:Hlf.
      * destruct Hr as [Hus ->]. right. exists (i :: replicate (S b) 0), (pte_flags (T root i)), (replicate (S b) 0).
        split; [apply Forall_cons; split; [done|by apply Forall_replicate]|].
        split; [cbn; by rewrite length_replicate|]. cbn [leaf]. by rewrite Hu, Hlf.
      * assert (Hpt : points (S b) (T root i) = true) by by apply points_spec.
        apply IH in Hr as [Hin|(path & flags & rest & Hp & Hlen & Hl & Hus)].
        -- left. right. by exists i.
        -- right. exists (i :: path), flags, rest. split; [by apply Forall_cons|].
           split; [cbn; by rewrite Hlen|]. by rewrite leaf_points.
    + intros [[|(i & Hi & Hp & Hin)]|(path & flags & rest & Hp & Hlen & Hl & Hus)]; [by left|right..].
      * exists i. split; [done|]. apply points_spec in Hp as [Hu Hlf]. rewrite Hlf. split; [done|].
        apply IH. by left.
      * destruct path as [|i path]; [done|]. apply Forall_cons in Hp as [Hi Hp]. exists i. split; [done|].
        cbn [leaf] in Hl. destruct (pte_is_unused (T root i)); [done|]. split; [done|].
        destruct (is_leaf _ _); [naive_solver|]. apply IH. right. exists path, flags, rest.
        split; [done|]. split; [cbn in Hlen; lia|done].
Qed.

Lemma released_held m t g : released (tables m) 3 t g <-> held m t g.
Proof.
  rewrite released_leaf. apply or_iff_compat_l.
  split; intros (path & flags & rest & Hp); exists path, flags, rest; unfold full in *; tauto.
Qed.

Lemma releasable_leaf T below : forall root,
  (forall path f flags rest, path_ok path -> length path = S below ->
    leaf T below root path = Some (f, flags, rest) -> contains flags USER_FLAGS = true ->
    contains flags HUGE_PAGE = false) -> releasable T below root.
Proof.
  induction below as [|b IH]; intros root Hs i Hi Hu.
  - cbn. intros Hus. apply (Hs [i] (pte_addr (T root i)) _ []); [by apply Forall_singleton|done| |done].
    cbn. by rewrite Hu.
  - destruct (is_leaf (S (S b)) (T root i)) eqn:Hlf.
    + intros Hus. apply (Hs (i :: replicate (S b) 0) (pte_addr (T root i)) _ (replicate (S b) 0)); [| | |done].
      * apply Forall_cons; split; [done|by apply Forall_replicate].
      * cbn. by rewrite length_replicate.
      * cbn [leaf]. by rewrite Hu, Hlf.
    + apply IH. intros path f flags rest Hp Hlen Hl. apply (Hs (i :: path) f flags rest).
      * by apply Forall_cons.
      * cbn. by rewrite Hlen.
      * rewrite leaf_points; [done|]. by apply points_spec.
Qed.

End Spaces.

Section Drop.
Context {A E : Type} `{FrameAllocatorLaws A} `{PageTableEntryLaws E} `{VirtAddrLaws} `{FrameOfLaws}.
Implicit Types (m : MemoryInfo A E).

(** Dropping the space leaves the others. *)
Lemma accounts_free t others m :
  accounts t others m -> exists m', free_user_pagetables t m = Done m' /\
    forall g, is_frame g -> mused m' g <-> others g.
Proof.
  intros [[Hh _] Hu Hn Hsm].
  destruct (free_pages_rec_spec (tables m) 3 t (frame_allocator m)) as (a & Hf & _ & Hback).
  { apply Hh. }
  { apply releasable_leaf. intros path f flags rest Hp Hlen. by apply Hsm. }
  exists (with_allocator a m). split; [unfold free_user_pagetables; by rewrite Hf|].
  intros g Hg. unfold mused. cbn [frame_allocator with_allocator]. rewrite (Hback g Hg), released_held.
  pose proof (Hu g Hg) as Hug. pose proof (Hn g) as Hng. unfold mused in Hug. tauto.
Qed.
End Drop.

(** ** The program on its space *)
Section Programs.
Context {A E H : Type} `{FrameAllocatorLaws A} `{PageTableEntryLaws E} `{FrameOf} `{VirtAddrLaws}
  `{HeapAllocator H} `{VirtPagesLaws} `{!TableMapper A E} `{!TableMapperLaws A E}
  {gdt : Selectors} `{ElfParser}.
Implicit Types (m : KernelMemory A E H) (k : kernel (KernelMemory A E H)).
#[local] Existing Instances tree_mapper table_memory.

(** Runs of a space, and no byte of memory written. *)
Definition runs (t : Z) m m' : Prop :=
  rtc (space_step t) (memory_info m) (memory_info m') /\ bytes m' = bytes m.

#[export] Instance runs_preorder t : PreOrder (runs t).
Proof.
  split; [by intros m; split|]. intros m1 m2 m3 [H12 Hb12] [H23 Hb23]. split; [by etransitivity|].
  by rewrite Hb23.
Qed.

Lemma runs_space t m m' : runs t m m' -> space (memory_info m) t -> space (memory_info m') t.
Proof. intros [Hr _] Hs. by apply (space_run_within _ _ _ Hr). Qed.

Lemma map_new_page_runs t page m m' :
  space (memory_info m) t -> Mapping.map_new_page t USER_FLAGS page m = Done (Ok tt, m') -> runs t m m'.
Proof.
  intros Hs Hrun. unfold Mapping.map_new_page in Hrun. bind_Done Hrun. destruct r as [[f|] m1]; [|done].
  cbn in Hr, Hrun. apply on_info_Done in Hr as (i1 & Ha & ->), Hrun as (i2 & Hm & ->).
  bind_Done Ha. destruct r as [f' a]. simplify_eq. cbn in Hm.
  apply frame_allocated in Hr as Hf. destruct Hf as (_ & _ & _ & _ & Hh & _).
  apply map_page_Ok in Hm as (_ & _ & Hnone & Hst);
    [|apply Hh, Hs|apply page_flags_user|apply page_flags_parent, page_flags_user].
  split; [|done]. apply rtc_once, (SpacePages _ [PageTree.page_path page]).
  constructor; [done|by intros x ->%list_elem_of_singleton|..].
  - intros path ->%list_elem_of_singleton. split; [apply PageTree.page_path_ok|exact Hnone].
  - exists f, a. split; [done|]. eapply steps_to_ext; [exact Hst|]. intros path _. cbn beta.
    repeat case_decide; set_solver.
Qed.

Lemma allocate_pages_runs t start size m m' :
  space (memory_info m) t -> Mapping.allocate_pages t start size USER_FLAGS m = Done (Ok tt, m') ->
  runs t m m'.
Proof.
  intros Hs Hrun. unfold Mapping.allocate_pages, Mapping.allocate_pages_mapper in Hrun.
  bind_Done Hrun. destruct r as [first pages].
  eapply (Mapping.try_each_Ok (fun _ m' => runs t m m')); [done| |exact Hrun].
  intros dn page m1 m2 _ Hr1 Hm. etransitivity; [exact Hr1|].
  apply (map_new_page_runs t page); [by eapply runs_space|done].
Qed.

(** The pages [dn] of the heap are on the frame [f]. *)
Definition heap_leaf (f : Z) (dn : list Z) m (t : Z) (path : list Z) : option (Z * Z * list Z) :=
  if decide (path ∈ PageTree.page_path <$> dn) then Some (f, USER_FLAGS, [])
  else leaf (tables (memory_info m)) 3 t path.

Record heap_mapped_on (f : Z) (a : A) (t : Z) m (dn : list Z) m' : Prop := {
  hm_steps : steps_to t (heap_leaf f dn m t) (with_allocator a (memory_info m)) (memory_info m');
  hm_before page : page ∈ dn ->
    leaf (tables (memory_info m)) 3 t (PageTree.page_path page) = None;
  hm_bytes : bytes m' = bytes m;
}.

Lemma heap_page f a t m dn page m1 m2 :
  heap_mapped_on f a t m dn m1 ->
  map_to_with_table_flags t page f USER_FLAGS USER_FLAGS m1 = Done (Ok tt, m2) ->
  heap_mapped_on f a t m (dn ++ [page]) m2.
Proof.
  intros [Hst Hb Hby] Hm. cbn in Hm. apply on_info_Done in Hm as (i & Hm & ->).
  apply map_page_Ok in Hm as (_ & _ & Hnone & Hst');
    [|apply Hst|apply page_flags_user..]. pose proof (PageTree.page_path_ok page) as Hfull.
  rewrite (st_leaf _ _ _ _ Hst) in Hnone by done. unfold heap_leaf in Hnone.
  constructor; [|intros q [Hq| ->%list_elem_of_singleton]%elem_of_app; [by apply Hb|by case_decide]|done].
  eapply steps_to_ext; [eapply steps_to_trans; [exact Hst|exact Hst']|].
  intros path Hp. cbn beta. unfold heap_leaf at 1. rewrite (st_leaf _ _ _ _ Hst) by done. unfold heap_leaf.
  rewrite fmap_app. cbn. repeat case_decide; set_solver.
Qed.

(** The heap lies under another entry of the level 4 table than the stacks. *)
Lemma heap_page_path page x :
  page ∈ Mapping.pages_of USER_HEAP_START USER_HEAP_SIZE ->
  USER_STACK_PAGE_INDEX ++ [x] ≠ PageTree.page_path page.
Proof.
  intros Hp Heq. unfold PageTree.page_path, PageTree.table_path in Heq. cbn in Heq.
  rewrite p4_index_spec in Heq. injection Heq as Heq _ _ _. revert Heq.
  apply Mapping.pages_of_bounds in Hp; [|done]. unfold USER_HEAP_START, USER_HEAP_SIZE in Hp.
  change (2 ^ 39) with 549755813888. Z.div_mod_to_equations. lia.
Qed.

Lemma allocate_user_heap_runs t m m' :
  space (memory_info m) t -> Mapping.allocate_user_heap t m = Done (Ok tt, m') -> runs t m m'.
Proof.
  intros Hs Hrun. unfold Mapping.allocate_user_heap in Hrun. bind_Done Hrun.
  destruct r as [[[]|e] m0]; [|done]. apply Done_inj in Hrun. injection Hrun as <-.
  unfold Mapping.create_user_ondemand_pages in Hr. rewrite Mapping.page_range_ok in Hr by done.
  cbn [mbind outcome_bind] in Hr. bind_Done Hr. destruct r as [[f|] m1]; [|done].
  cbn in Hr0. apply on_info_Done in Hr0 as (i1 & Ha & ->). bind_Done Ha. destruct r as [f' a].
  injection Ha as -> <-. apply frame_allocated in Hr0 as Hf. destruct Hf as (_ & _ & _ & _ & Hh & _).
  bind_Done Hr. destruct r as [[[]|e] m2]; [|done].
  apply (Mapping.try_each_Ok (heap_mapped_on f a t m)) in Hr1 as [Hst Hb Hby].
  - destruct (update_flags t _ _ m2) as [[[]|e] m3] eqn:Hu; [|done]. apply Done_inj in Hr. injection Hr as <-.
    cbn in Hu. destruct (update_page _ _ _ _) as [r i] eqn:Hup. injection Hu as -> <-.
    assert (Hin : page_containing USER_HEAP_START ∈ Mapping.pages_of USER_HEAP_START USER_HEAP_SIZE)
      by by apply Mapping.page_in_range.
    apply update_page_Ok in Hup as (g & old & Ht & Hst' & _); [|apply Hst|apply page_flags_user].
    assert (Hg : g = f).
    { unfold PageTree.translate_page in Ht. case_decide; [|done].
      rewrite (st_leaf _ _ _ _ Hst) in Ht by apply PageTree.page_path_ok. unfold heap_leaf in Ht.
      rewrite decide_True in Ht by by apply list_elem_of_fmap_2. by simplify_eq. }
    subst g. split; [|exact Hby]. apply rtc_once.
    apply (SpacePages _ (PageTree.page_path <$> Mapping.pages_of USER_HEAP_START USER_HEAP_SIZE)).
    constructor.
    + intros Hnil%fmap_nil_inv. rewrite Hnil in Hin. by apply elem_of_nil in Hin.
    + intros x (page & Hpath & Hp)%list_elem_of_fmap. by destruct (heap_page_path page x Hp).
    + intros path (page & -> & Hp)%list_elem_of_fmap. split; [apply PageTree.page_path_ok|by apply Hb].
    + exists f, a. split; [done|]. eapply steps_to_ext; [eapply steps_to_trans; [exact Hst|exact Hst']|].
      intros path Hfull. cbn beta. rewrite (st_leaf _ _ _ _ Hst) by done. unfold heap_leaf.
      destruct (decide (path = PageTree.page_path (page_containing USER_HEAP_START))) as [->|]; [|done].
      by rewrite decide_True by by apply list_elem_of_fmap_2.
  - constructor; [|by intros page ?%elem_of_nil|done].
    eapply steps_to_ext; [apply steps_to_refl, Hh, Hs|]. intros path _. unfold heap_leaf.
    by rewrite decide_False by (by intros ?%elem_of_nil).
  - intros dn page ma mb _ Hdn Hm. by eapply heap_page.
Qed.

(** Loading, when it succeeds; the bytes go where pages are mapped. *)
Lemma copy_data_info a bs k k' :
  copy_data a bs k = Done k' -> memory_info (mm k') = memory_info (mm k) /\ cr3 k' = cr3 k.
Proof.
  unfold copy_data. apply (for_each_inv (fun _ k2 => memory_info (mm k2) = memory_info (mm k) /\ cr3 k2 = cr3 k));
    [done|]. intros _ [i v] _ k1 k2 _ [Hi Hc] Hw. bind_Done Hw. simplify_eq. unfold write_byte in Hr.
  repeat case_match; by simplify_eq.
Qed.

Definition space_runs (t : Z) k k' : Prop :=
  rtc (space_step t) (memory_info (mm k)) (memory_info (mm k')).

Lemma load_segment_runs t seg k k' :
  space (memory_info (mm k)) t -> load_segment t seg k = Done (Ok tt, k') -> space_runs t k k'.
Proof.
  unfold load_segment. intros Hs Hrun. bind_Done Hrun. bind_Done Hrun.
  destruct (_ || _); [done|]. bind_Done Hrun. destruct r1 as [[[]|e] m]; [|done].
  apply allocate_pages_runs in Hr1 as [Hr1 _]; [|done].
  destruct (Elf.data seg) as [d|]; [|done]. case_decide; [done|]. bind_Done Hrun.
  apply copy_data_info in Hr2 as [Hi _]. injection Hrun as <-. unfold space_runs. rewrite Hi. exact Hr1.
Qed.

Lemma load_binary_runs obj t k k' :
  space (memory_info (mm k)) t -> load_binary_into_memory obj t k = Done (Ok tt, k') -> space_runs t k k'.
Proof.
  intros Hs. unfold load_binary_into_memory.
  apply (Mapping.try_each_Ok (fun _ k' => space_runs t k k')); [by apply rtc_refl|].
  intros dn seg k1 k2 _ Hr Hl. unfold space_runs in *. etransitivity; [exact Hr|].
  eapply load_segment_runs; [|exact Hl]. by apply (space_run_within _ _ _ Hr).
Qed.

Lemma vec_info size m p m' :
  vec_u8_with_capacity size m = Done (p, m') -> memory_info m' = memory_info m /\ bytes m' = bytes m.
Proof.
  unfold vec_u8_with_capacity. intros Hv. bind_Done Hv. destruct r as [[q|] h]; [|done]. by simplify_eq.
Qed.

(** A new thread: only its stack changes the space. *)
Lemma initialise_thread_runs entry t params k r k' :
  space (memory_info (mm k)) t -> initialise_thread entry t params k = Done (r, k') ->
  runs t (mm k) (mm k').
Proof.
  intros Hs Hrun. unfold initialise_thread, new_process in Hrun. cbn in Hrun.
  bind_Done Hrun. destruct r0 as [p m1]. apply vec_info in Hr as [Hi1 Hb1]. bind_Done Hrun.
  destruct r0 as [stack m2]. bind_Done Hr. destruct r0 as [stack' i2]. injection Hr as -> <-. cbn in Hr0.
  rewrite Hi1 in Hr0. apply allocate_user_stack_run in Hr0; [|done].
  assert (Hm : runs t (mm k) (with_info i2 m1)) by (split; [exact Hr0|exact Hb1]).
  destruct stack as [[bottom top]|e].
  - cbn in Hrun. destruct get_user_segments. injection Hrun as _ <-. exact Hm.
  - bind_Done Hrun. injection Hrun as _ <-. unfold vec_drop, kernel_memory, vec_u8_drop in Hr. cbn in Hr.
    bind_Done Hr. injection Hr as <-. exact Hm.
Qed.

(** ** What stays as it was, whatever the result *)

(** Nothing but the space at [t] and bytes of frames that were free changed. *)
Definition confines (t : Z) m m' : Prop :=
  space (memory_info m) t ->
  space (memory_info m') t /\ confined t (memory_info m) (memory_info m') /\
  forall p, frame_in_use m (p - p mod 4096) -> bytes m' p = bytes m p.

Lemma confined_in_use t m m' f :
  confined t (memory_info m) (memory_info m') -> frame_in_use m f -> frame_in_use m' f.
Proof. intros Hc [Hf Hu]. split; [done|]. by apply (cf_used _ _ _ Hc). Qed.

#[export] Instance confines_preorder t : PreOrder (confines t).
Proof.
  split; [by intros m Hs; split; [|split]|]. intros m1 m2 m3 H12 H23 Hs.
  destruct (H12 Hs) as (Hs2 & Hc12 & Hb12). destruct (H23 Hs2) as (Hs3 & Hc23 & Hb23).
  split; [done|]. split; [by etransitivity|]. intros p Hp.
  rewrite Hb23 by (by eapply confined_in_use). by apply Hb12.
Qed.

Lemma within_confines t m m' :
  within t (memory_info m) (memory_info m') -> bytes m' = bytes m -> confines t m m'.
Proof. intros Hw Hb Hs. destruct (Hw Hs). split; [done|]. split; [done|]. intros p _. by rewrite Hb. Qed.

Lemma runs_confines t m m' : runs t m m' -> confines t m m'.
Proof. intros [Hr Hb]. apply within_confines; [by apply space_run_within|done]. Qed.

#[export] Instance mapper_confines t :
  Mapping.MapperKeeps (KernelMemory A E H) (fun t' flags => t' = t /\ page_flags flags) (confines t).
Proof.
  constructor; [apply _|..].
  - intros m r m' Ha. cbn in Ha. apply on_info_Done in Ha as (i & Ha & ->). bind_Done Ha.
    destruct r0 as [f a]. simplify_eq. apply within_confines; [by eapply allocated_within|done].
  - intros t' page f flags m r m' [-> Hf] Hm. cbn in Hm. apply on_info_Done in Hm as (i & Hm & ->).
    apply within_confines; [|done]. eapply map_page_within; [exact Hf| |exact Hm]. by apply page_flags_parent.
  - intros t' page f flags parent m r m' [-> Hf] [_ Hp] Hm. cbn in Hm.
    apply on_info_Done in Hm as (i & Hm & ->). apply within_confines; [|done].
    by eapply map_page_within in Hm.
  - intros t' page flags m r m' [-> Hf] Hu. cbn in Hu.
    destruct (update_page _ _ _ _) as [r' i] eqn:Hup. simplify_eq.
    apply within_confines; [|done]. by eapply update_page_within in Hup.
Qed.

Lemma load_segment_confines t seg k r k' :
  segment_ok seg -> load_segment t seg k = Done (r, k') -> confines t (mm k) (mm k').
Proof.
  intros Hok Hrun Hs. pose proof Hrun as Hload. unfold load_segment in Hrun. bind_Done Hrun. bind_Done Hrun.
  destruct (_ || _); [simplify_eq; by split; [|split]|]. bind_Done Hrun. destruct r2 as [r2 m].
  apply (Mapping.allocate_pages_keeps (R := confines t)) in Hr1; [|by split; [|apply page_flags_user]].
  destruct (Hr1 Hs) as (Hs1 & Hc1 & Hb1). destruct r2 as [u|e]; [|by simplify_eq].
  destruct (Elf.data seg) as [d|]; [|by simplify_eq]. case_decide; [by simplify_eq|].
  bind_Done Hrun. apply copy_data_info in Hr2 as [Hi _]. injection Hrun as <- <-. rewrite Hi.
  split; [done|]. split; [done|]. intros p Hp.
  apply load_segment_Ok in Hload as (Hlater & _); [|apply Hs|done]. by apply (lt_bytes _ _ _ Hlater).
Qed.

Lemma load_binary_confines obj t k r k' :
  Forall segment_ok (Elf.segments obj) -> load_binary_into_memory obj t k = Done (r, k') ->
  confines t (mm k) (mm k').
Proof.
  unfold load_binary_into_memory. revert k. induction (Elf.segments obj) as [|seg segs IH]; intros k Hok Hrun;
    cbn [try_each] in Hrun; [by simplify_eq|].
  apply Forall_cons in Hok as [Hseg Hok]. bind_Done Hrun. destruct r0 as [[u|e] k1];
    apply load_segment_confines in Hr; [|done| |done].
  - etransitivity; [exact Hr|by apply IH].
  - by simplify_eq.
Qed.
End Programs.

(** ** Properties *)
Section Properties.
Context {A E H : Type} `{FrameAllocatorLaws A} `{PageTableEntryLaws E} `{FrameOfLaws} `{VirtAddrLaws}
  `{HeapAllocator H} `{VirtPagesLaws} `{!TableMapper A E} `{!TableMapperLaws A E}
  {gdt : Selectors} `{ElfParser}.
Implicit Types (m : KernelMemory A E H) (k : kernel (KernelMemory A E H)).
#[local] Existing Instances tree_mapper table_memory.

(** The kernel's own table, which every program starts from. *)
Record kernel_space m : Prop := {
  ks_space : space (memory_info m) (kernel_table (memory_info m));
  ks_zero : mtaken (memory_info m) 0;
}.

(** The stages of [spawn_user_thread]. *)
Lemma spawn_stages bin params k r k' :
  spawn_user_thread bin params k = Done (r, k') ->
  mm k' = mm k /\ (forall uid, r <> Ok uid) \/
  exists obj t m1 rh mh, parse bin = Some obj /\
    Loader.create_kernel_only_pagetable (mm k) = Done (t, m1) /\
    Mapping.allocate_user_heap t m1 = Done (rh, mh) /\
    match rh with
    | Err _ => mm k' = mh /\ forall uid, r <> Ok uid
    | Ok _ => exists rl k1,
        load_binary_into_memory obj t (with_cr3 t (with_mm mh k)) = Done (rl, k1) /\
        match rl with
        | Err _ => mm k' = mm k1 /\ forall uid, r <> Ok uid
        | Ok _ => exists ri k2, initialise_thread (Elf.entry obj) t params k1 = Done (ri, k2) /\
            mm k' = mm k2
        end
    end.
Proof.
  intros Hspawn. unfold spawn_user_thread in Hspawn. bind_Done Hspawn.
  destruct (negb r0); [simplify_eq; by left|]. unfold parse_elf_binary in Hspawn.
  destruct (parse bin) as [obj|]; [|simplify_eq; by left]. right.
  bind_Done Hspawn. destruct r1 as [t m1]. bind_Done Hspawn. destruct r1 as [rh mh].
  exists obj, t, m1, rh, mh. do 3 (split; [done|]). destruct rh as [u|e]; [|by simplify_eq].
  bind_Done Hspawn. destruct r1 as [r1 k1]. unfold switch_pagetable_and_execute in Hr2.
  bind_Done Hr2. destruct r2 as [r2 k2]. injection Hr2 as <- <-.
  unfold load_and_initialise in Hr3. bind_Done Hr3. destruct r1 as [rl k3]. exists rl, k3.
  split; [done|]. destruct rl as [u'|e]; [|by simplify_eq].
  exists r2, k2. split; [done|]. by injection Hspawn as _ <-.
Qed.

Lemma create_info m t m1 :
  Loader.create_kernel_only_pagetable m = Done (t, m1) ->
  kernel_space m -> created (memory_info m) t (memory_info m1) /\ bytes m1 = bytes m.
Proof.
  intros Hc [Hs Hz]. cbn in Hc. apply on_info_Done in Hc as (i & Hc & ->). split; [|done].
  by apply create_space.
Qed.

(** A spawned thread has the space that was built for it. *)
Lemma spawn_space bin params k uid k' :
  kernel_space (mm k) -> spawn_user_thread bin params k = Done (Ok uid, k') ->
  exists th i, WAIT_QUEUE k' = th :: WAIT_QUEUE k /\
    created (memory_info (mm k)) (page_table_phys th) i /\
    rtc (space_step (page_table_phys th)) i (memory_info (mm k')).
Proof.
  intros Hk Hspawn. pose proof (spawn_user_thread_spec _ _ _ _ _ Hspawn) as (_ & _ & _ & _ & Hq).
  destruct Hq as (obj' & t' & m0 & mh' & k0 & th & _ & _ & Hcreate & _ & _ & Hq & _ & Hpt & _).
  apply spawn_stages in Hspawn as [[_ Hno]|(obj & t & m1 & rh & mh & _ & Hc & Hheap & Hrest)];
    [by destruct (Hno uid)|].
  rewrite Hc in Hcreate. injection Hcreate as <- <-.
  destruct (create_info _ _ _ Hc Hk) as [Hcr _]. exists th, (memory_info m1).
  split; [done|]. rewrite Hpt. split; [done|].
  destruct rh as [[]|e]; [|by destruct Hrest as [_ Hno]; destruct (Hno uid)].
  apply allocate_user_heap_runs in Hheap as [Hr1 _]; [|apply Hcr].
  destruct Hrest as (rl & k1 & Hload & Hrest).
  destruct rl as [[]|e]; [|by destruct Hrest as [_ Hno]; destruct (Hno uid)].
  assert (Hs1 : space (memory_info mh) t) by (apply (space_run_within _ _ _ Hr1), Hcr).
  apply load_binary_runs in Hload as Hr2; [|exact Hs1]. unfold space_runs in Hr2. cbn in Hr2.
  destruct Hrest as (ri & k2 & Hinit & ->).
  apply initialise_thread_runs in Hinit as [Hr3 _]; [|by apply (space_run_within _ _ _ Hr2)].
  etransitivity; [exact Hr1|]. by etransitivity.
Qed.

(** Whatever its result, it touches its own space only. *)
Lemma spawn_confines bin params k r k' :
  kernel_space (mm k) -> (forall obj, parse bin = Some obj -> Forall segment_ok (Elf.segments obj)) ->
  spawn_user_thread bin params k = Done (r, k') ->
  mm k' = mm k \/ exists t m, created (memory_info (mm k)) t (memory_info m) /\ bytes m = bytes (mm k) /\
    confines t m (mm k').
Proof.
  intros Hk Hok Hspawn. apply spawn_stages in Hspawn as [[? _]|(obj & t & m1 & rh & mh & Hp & Hc & Hheap & Hrest)];
    [by left|right]. destruct (create_info _ _ _ Hc Hk) as [Hcr Hb]. exists t, m1. do 2 (split; [done|]).
  apply (Mapping.allocate_user_heap_keeps (R := confines t)) in Hheap; [|by split; [|apply page_flags_user]].
  destruct rh as [u|e]; [|by destruct Hrest as [-> _]]. destruct Hrest as (rl & k1 & Hload & Hrest).
  apply load_binary_confines in Hload; [|by apply Hok]. cbn in Hload.
  etransitivity; [exact Hheap|]. destruct rl as [u'|e]; [|by destruct Hrest as [-> _]].
  destruct Hrest as (ri & k2 & Hinit & ->). etransitivity; [exact Hload|].
  intros Hs. pose proof Hinit as Hruns. apply initialise_thread_runs in Hruns; [|done].
  by exact (runs_confines _ _ _ Hruns Hs).
Qed.

(** The other spaces, and what it leaves of the kernel's. *)
Lemma spawn_keeps bin params k r k' other :
  kernel_space (mm k) -> (forall obj, parse bin = Some obj -> Forall segment_ok (Elf.segments obj)) ->
  spawn_user_thread bin params k = Done (r, k') -> hierarchy (memory_info (mm k)) other ->
  kept other (memory_info (mm k)) (memory_info (mm k')) /\
  kernel_table (memory_info (mm k')) = kernel_table (memory_info (mm k)) /\
  (forall p, is_frame p -> mtaken (memory_info (mm k)) p -> mtaken (memory_info (mm k')) p).
Proof.
  intros Hk Hok Hspawn Hh. destruct (spawn_confines _ _ _ _ _ Hk Hok Hspawn) as [->|(t & m & Hcr & _ & Hc)].
  { by split; [apply kept_same|]. }
  destruct (created_apart _ _ _ other Hcr Hh) as [Hkept Hap].
  destruct (Hc (cr_space _ _ _ Hcr)) as (_ & Hconf & _). split; [|split].
  - eapply kept_trans; [exact Hkept|]. by eapply apart_kept; [|exact Hap|apply Hkept].
  - rewrite (cf_kernel _ _ _ Hconf). apply Hcr.
  - intros p Hp Ht. eapply confined_taken; [done..|]. by eapply extends_taken; [apply Hcr|..].
Qed.

Lemma spawn_kernel_space bin params k r k' :
  kernel_space (mm k) -> (forall obj, parse bin = Some obj -> Forall segment_ok (Elf.segments obj)) ->
  spawn_user_thread bin params k = Done (r, k') -> kernel_space (mm k').
Proof.
  intros Hk Hok Hspawn. pose proof Hk as [[Hh Hclear] Hz].
  destruct (spawn_keeps _ _ _ _ _ _ Hk Hok Hspawn Hh) as (Hkept & Hkt & Ht).
  constructor; [|by apply Ht]. rewrite Hkt. constructor; [apply Hkept|]. intros x f flags rest Hx.
  rewrite (kept_leaf _ _ _ _ Hkept) by (by apply stack_path_full). by apply Hclear.
Qed.

(** C4: address spaces are isolated, for every mapper that meets the contract of
    TableMapper.v.  Let [other] be any address space when [spawn_user_thread]
    runs: a tree of tables on frames the allocator does not own, such as the
    kernel's or that of another program; and let the file, if it parses, have
    no segment whose start and size wrap in 64 bits (a segment that does
    bypasses the range check, [guard_bypassed] of Loader.v, and its data is
    written wherever its address is mapped).  Whatever the result, the new
    program's tables, heap, segments and stack are made elsewhere: every walk
    of [other] ends where it did, every byte of every frame in use is as it
    was, and the kernel's own space is still one, so the next program may be
    spawned.  After a success the new thread is first in the queue, its tables
    share none with [other], and everything the kernel had mapped is mapped
    for it in the same place. *)
Theorem address_spaces_isolated bin params k r k' other
    (Hkernel : kernel_space (mm k))
    (Hfile : forall obj, parse bin = Some obj -> Forall segment_ok (Elf.segments obj))
    (Hother : hierarchy (memory_info (mm k)) other)
    (Hspawn : spawn_user_thread bin params k = Done (r, k')) :
  let before := tables (memory_info (mm k)) in
  let after := tables (memory_info (mm k')) in
  kernel_space (mm k') /\ hierarchy (memory_info (mm k')) other /\
  (forall path, path_ok path -> walk after 3 other path = walk before 3 other path) /\
  (forall p, frame_in_use (mm k) (p - p mod 4096) -> bytes (mm k') p = bytes (mm k) p) /\
  (forall uid, r = Ok uid -> exists th, WAIT_QUEUE k' = th :: WAIT_QUEUE k /\
    hierarchy (memory_info (mm k')) (page_table_phys th) /\
    (forall p, in_tree after 3 (page_table_phys th) p -> ~ in_tree after 3 other p) /\
    (forall path x, full path -> leaf before 3 (kernel_table (memory_info (mm k))) path = Some x ->
      leaf after 3 (page_table_phys th) path = Some x)).
Proof.
  intros before after. destruct (spawn_keeps _ _ _ _ _ _ Hkernel Hfile Hspawn Hother) as (Hkept & _).
  split; [by eapply spawn_kernel_space|]. split; [apply Hkept|]. split; [intros; by apply kept_walk|]. split.
  - intros p Hp. destruct (spawn_confines _ _ _ _ _ Hkernel Hfile Hspawn) as [->|(t & m & Hcr & Hb & Hc)]; [done|].
    rewrite <-Hb. apply Hc; [apply Hcr|]. destruct Hp as [Hf Hu]. split; [done|].
    apply (ext_used _ _ _ (cr_extends _ _ _ Hcr)); [done|by right].
  - intros uid ->. destruct (spawn_space _ _ _ _ _ Hkernel Hspawn) as (th & i & Hq & Hcr & Hruns).
    exists th. split; [done|]. destruct (created_apart _ _ _ other Hcr Hother) as [_ Hap].
    destruct (space_run_within _ _ _ Hruns (cr_space _ _ _ Hcr)) as [Hs Hc].
    destruct (apart_confined _ _ _ _ Hc Hap) as [Hap' _]. split; [apply Hs|]. split.
    + intros p Hp Ho. by destruct (ap_tree _ _ _ Hap' p Ho).
    + intros path x Hfull Hl. eapply space_run_leaf; [exact Hruns|done|].
      rewrite (cr_leaf _ _ _ Hcr); [exact Hl|apply Hfull].
Qed.
End Properties.

(** ** At concrete inputs

    One page of the kernel is mapped, its table is not in memory the allocator
    owns, and the file of Loader.v is spawned twice. *)
#[local] Existing Instances plain_pages plain_pages_laws word_entry word_entry_laws align_down_frames
  align_down_laws bit_indices bit_indices_laws bump_fallback bump_fallback_laws flat_gdt demo_parser
  Walker.walker Walker.walker_laws tree_mapper table_memory.

Abbreviation DemoInfo := (MemoryInfo (PageFrameAllocator * MemoryLogger) Z).
Abbreviation DemoMemory := (KernelMemory (PageFrameAllocator * MemoryLogger) Z
  (FixedBlock.FixedSizeBlockAllocator Bump.BumpAllocator)).

Definition KERNEL_FLAGS : Z := Z.lor PRESENT WRITABLE.
Definition empty_info : DemoInfo :=
  mkMemoryInfo (Frames.init [mkBootRegion 0x100000 0x200000 Usable], Logger.new) (fun _ _ => 0) 0x9000.
Definition kernel_info : DemoInfo :=
  (done_or (Ok tt, empty_info)
    (Walker.map_page 0x9000 0x200000 0x8000 KERNEL_FLAGS KERNEL_FLAGS empty_info)).2.
Definition kernel_page_leaf (path : list Z) : option (Z * Z * list Z) :=
  if decide (path = PageTree.page_path 0x200000) then Some (0x8000, KERNEL_FLAGS, []) else None.

Lemma not_usable_taken p : (p ∉ Frames.usable_frames (frame_allocator empty_info).1) -> mtaken empty_info p.
Proof. intros Hp. by right. Qed.

Lemma kernel_info_steps : steps_to 0x9000 kernel_page_leaf empty_info kernel_info.
Proof.
  assert (He : empty_table (E := Z) (fun _ _ => 0) 0x9000) by done.
  assert (Hrun : exists r, Walker.map_page 0x9000 0x200000 0x8000 KERNEL_FLAGS KERNEL_FLAGS empty_info =
    Done (r, kernel_info) /\ r = Ok tt).
  { eexists. split; [|reflexivity]. apply done_or_snd. vm_compute. reflexivity. }
  destruct Hrun as (r & Hrun & ->). apply Walker.map_page_spec in Hrun as (_ & _ & _ & Hst).
  - eapply steps_to_ext; [exact Hst|]. intros path [Hp _]. unfold kernel_page_leaf. cbn beta.
    destruct (decide _); [reflexivity|].
    symmetry. exact (empty_leaf (tables empty_info) 3 0x9000 path He Hp).
  - constructor; [exact (empty_is_tree (tables empty_info) 3 0x9000 He)|split; [reflexivity|lia]|].
    intros p Hp%(empty_in_tree (tables empty_info)); [|exact He]. subst p.
    apply not_usable_taken. apply (bool_decide_unpack _). vm_compute. exact I.
  - constructor; [apply flags_ok_kernel|done|done].
  - constructor; [apply flags_ok_kernel|done|done].
Qed.

Definition before_spawn : kernel DemoMemory :=
  initial [] 0x9000 (replicate 7 0x7000) (mkKernelMemory kernel_info kernel_heap (fun _ => 0)).

Lemma kernel_info_leaf path : full path -> leaf (tables kernel_info) 3 0x9000 path = kernel_page_leaf path.
Proof. apply kernel_info_steps. Qed.

Lemma before_spawn_space : kernel_space (mm before_spawn).
Proof.
  constructor.
  - change (kernel_table _) with 0x9000. constructor; [apply kernel_info_steps|].
    intros x f flags rest Hx. rewrite kernel_info_leaf by by apply stack_path_full.
    unfold kernel_page_leaf. case_decide; [by intros [= _ _ <-]|done].
  - eapply (confined_taken 0x9000 empty_info); [apply kernel_info_steps|done|].
    apply not_usable_taken. apply (bool_decide_unpack _). vm_compute. exact I.
Qed.

Lemma demo_file_ok obj : parse demo_file = Some obj -> Forall segment_ok (Elf.segments obj).
Proof. intros [= <-]. exact demo_segments_ok. Qed.

Abbreviation first_spawn := (spawn_user_thread demo_file [3; 5] before_spawn).
Abbreviation both_spawns := ('(r1, k1) ← first_spawn; '(r2, k2) ← spawn_user_thread demo_file [3; 5] k1;
  Done (r1, r2)).

(** The second program leaves the pages of the first alone. *)
Lemma address_spaces_isolated_witness :
  exists k1 k2 t1 t2,
    first_spawn = Done (Ok 1, k1) /\ WAIT_QUEUE k1 = [t1] /\
    spawn_user_thread demo_file [3; 5] k1 = Done (Ok 3, k2) /\ WAIT_QUEUE k2 = [t2; t1] /\
    walk (tables (memory_info (mm k2))) 3 (page_table_phys t1) (PageTree.page_path 0x5000000) =
      walk (tables (memory_info (mm k1))) 3 (page_table_phys t1) (PageTree.page_path 0x5000000) /\
    (forall p, in_tree (tables (memory_info (mm k2))) 3 (page_table_phys t2) p ->
      ~ in_tree (tables (memory_info (mm k2))) 3 (page_table_phys t1) p).
Proof.
  assert (Hrun : match both_spawns with Done (Ok 1, Ok 3) => true | _ => false end = true)
    by (vm_compute; reflexivity).
  assert (Hruns : exists k1 k2, first_spawn = Done (Ok 1, k1) /\
    spawn_user_thread demo_file [3; 5] k1 = Done (Ok 3, k2)).
  { destruct first_spawn as [[r1 k1]| |]; [|discriminate|discriminate]. cbn [mbind outcome_bind] in Hrun.
    exists k1. destruct (spawn_user_thread demo_file [3; 5] k1) as [[r2 k2]| |]; [|discriminate|discriminate].
    exists k2. cbn [mbind outcome_bind] in Hrun. clear -Hrun.
    repeat (case_match; try discriminate). split; reflexivity. }
  clear Hrun. destruct Hruns as (k1 & k2 & H1 & H2).
  destruct (address_spaces_isolated demo_file [3; 5] before_spawn (Ok 1) k1 0x9000 before_spawn_space
    demo_file_ok (sp_hierarchy _ _ (ks_space _ before_spawn_space)) H1) as (Hk1 & _ & _ & _ & Hnew1).
  destruct (Hnew1 1 eq_refl) as (t1 & Hq1 & Hh1 & _ & _).
  destruct (address_spaces_isolated demo_file [3; 5] k1 (Ok 3) k2 (page_table_phys t1) Hk1
    demo_file_ok Hh1 H2) as (_ & _ & Hwalk & _ & Hnew2).
  destruct (Hnew2 3 eq_refl) as (t2 & Hq2 & _ & Happ & _).
  exists k1, k2, t1, t2. split; [exact H1|]. split; [exact Hq1|]. split; [exact H2|].
  split; [rewrite Hq2, Hq1; reflexivity|]. split; [apply Hwalk, PageTree.page_path_ok|exact Happ].
Defined.
