(* ===== verification/Release.v ===== *)
(** * Giving an address space back (Drop in kernel/src/proc/process.rs)

    What the threads of a program do to its address space from the spawn to
    the drop of the process: they get stacks and give them back, and
    [free_user_pagetables] returns the rest.  Every page of a stack has a
    frame of its own, so a frame given back with a stack is mapped nowhere
    else. *)
From S2P Require Import Prelude Logger Heap Bump FixedBlock Frames Paging UserStack Hierarchy Vga Abi Sync Isf Thread Mapping Kernel Syscall Spawn Irq Arena System Loader Memory TableMapper Walker AddressSpace.
Import Paging.

Section Stacks.
Context {A E : Type} `{FrameAllocatorLaws A} `{PageTableEntryLaws E} `{VirtAddrLaws}
  `{!TableMapper A E} `{!TableMapperLaws A E}.
Implicit Types (m : MemoryInfo A E) (T : Z -> Z -> E) (path : list Z).

Definition stack_page (x : Z) : list Z := USER_STACK_PAGE_INDEX ++ [x].

(** The frame behind a writable page of the stacks is used for it only. *)
Definition stacks_own m (t : Z) : Prop :=
  forall x f flags rest, index_ok x ->
    leaf (tables m) 3 t (stack_page x) = Some (f, flags, rest) -> contains flags WRITABLE = true ->
    flags = USER_FLAGS /\ ~ in_tree (tables m) 3 t f /\
    forall path flags' rest', full path -> leaf (tables m) 3 t path = Some (f, flags', rest') ->
      contains flags' USER_FLAGS = true -> path = stack_page x.

Record owns (t : Z) (others : Z -> Prop) m : Prop := {
  ow_accounts : accounts t others m;
  ow_stacks : stacks_own m t;
}.

Lemma user_used t others m path f flags rest :
  accounts t others m -> full path -> leaf (tables m) 3 t path = Some (f, flags, rest) ->
  contains flags USER_FLAGS = true -> mused m f.
Proof.
  intros Ha Hp Hl Hu. apply (ac_used _ _ _ Ha f); [by eapply leaf_frame|]. right. right.
  by exists path, flags, rest.
Qed.

(** A frame in use does not become a table. *)
Lemma confined_tree t m m' g :
  confined t m m' -> mused m g -> in_tree (tables m') 3 t g -> in_tree (tables m) 3 t g.
Proof. intros Hc Hu Hin. apply (cf_new _ _ _ Hc) in Hin as [|Hn]; [done|]. destruct Hn. by left. Qed.

Lemma owns_step t others m m' : owns t others m -> space_step t m m' -> owns t others m'.
Proof.
  intros [Ha Hown] Hstep. split; [by eapply accounts_step|].
  destruct Hstep as [m m' Hst|pages m m' [_ Halone Hb (f & a & Hal & Hst)]]; intros x g flags rest Hx;
    pose proof (stack_path_full x Hx) as Hfull; fold (stack_page x) in Hfull;
    rewrite (st_leaf _ _ _ _ Hst) by done.
  - intros Hl Hw. destruct (Hown x g flags rest Hx Hl Hw) as (-> & Hn & Hu). split; [done|]. split.
    + intros Hin. apply Hn. eapply confined_tree; [apply Hst| |done]. by eapply user_used.
    + intros path flags' rest' Hp. rewrite (st_leaf _ _ _ _ Hst) by done. by apply Hu.
  - apply frame_allocated in Hal as (_ & Hnt & Hused & _ & Hh & Hu').
    assert (Hfresh : ~ mused m f) by (intros ?; apply Hnt; by left).
    assert (Htree : forall h, mused (with_allocator a m) h -> in_tree (tables m') 3 t h ->
      in_tree (tables m) 3 t h).
    { intros h Hm. by apply (confined_tree _ _ _ _ (st_confined _ _ _ _ Hst)). }
    case_decide as Hin; intros Hl Hw.
    + injection Hl as <- <- <-. split; [done|]. split.
      * intros Ht. apply Hnt, (hi_taken m t); [apply Ha|by apply Htree].
      * intros path flags' rest' Hp. rewrite (st_leaf _ _ _ _ Hst) by done. case_decide as Hpin.
        -- rewrite (Halone x Hin) in Hpin. by apply list_elem_of_singleton in Hpin.
        -- intros Hl Hus. destruct Hfresh. by eapply user_used.
    + destruct (Hown x g flags rest Hx Hl Hw) as (-> & Hn & Hu).
      assert (Hg : mused m g) by by eapply user_used.
      split; [done|]. split.
      * intros Ht. apply Hn, Htree; [|done]. apply Hu'; [by eapply leaf_frame|by right].
      * intros path flags' rest' Hp. rewrite (st_leaf _ _ _ _ Hst) by done.
        case_decide; [intros [= -> _ _]; done|by apply Hu].
Qed.

Lemma owns_run t others m m' : owns t others m -> rtc (space_step t) m m' -> owns t others m'.
Proof. intros Ho Hr. induction Hr; [done|]. by eapply IHHr, owns_step. Qed.

(** The kernel maps nothing where the stacks of programs go. *)
Definition stacks_unmapped T (root : Z) : Prop :=
  forall x, index_ok x -> leaf T 3 root (stack_page x) = None.

Lemma created_owns m t m' :
  created m t m' -> kernel_only (tables m) (kernel_table m) ->
  stacks_unmapped (tables m) (kernel_table m) -> owns t (mused m) m'.
Proof.
  intros Hc Hno Hs. split; [by apply created_accounts|]. intros x f flags rest Hx.
  rewrite (cr_leaf _ _ _ Hc) by by apply stack_path_full. by rewrite Hs.
Qed.

(** ** Giving a stack back *)

Lemma accounts_ext t (others others' : Z -> Prop) m :
  accounts t others m -> (forall g, others g <-> others' g) -> accounts t others' m.
Proof.
  intros [Hs Hu Hn Hsm] He. constructor; [done| | |done].
  - intros g Hg. by rewrite (Hu g Hg), He.
  - intros g Hg. rewrite <-He. by apply Hn.
Qed.

(** Leaves that go away leave their frames to the others. *)
Lemma accounts_unmap t others (out : Z -> Prop) lf m m' :
  accounts t others m -> steps_to t lf m m' -> space m' t -> users_small lf ->
  (forall g, user_frame (leaf (tables m) 3 t) g <-> user_frame lf g \/ out g) ->
  (forall g, out g -> ~ in_tree (tables m) 3 t g /\ ~ user_frame lf g) ->
  accounts t (fun g => out g \/ others g) m'.
Proof.
  intros [[Hh _] Hu Hn _] Hst Hs' Hsmall Hlf Hout.
  assert (Huser : forall g, user_frame (leaf (tables m') 3 t) g <-> user_frame lf g)
    by (intros; apply user_frame_ext, Hst).
  assert (Htree : forall g, is_frame g -> in_tree (tables m') 3 t g ->
    in_tree (tables m) 3 t g \/ ~ in_tree (tables m) 3 t g /\ ~ mused m g).
  { intros g Hg Hin. destruct (cf_new _ _ _ (st_confined _ _ _ _ Hst) g Hin) as [|Hnt]; [by left|right].
    split; [intros Hin'; by apply Hnt, (hi_taken m t)|]. intros Hm. apply Hnt. by left. }
  constructor; [done|..].
  - intros g Hg. pose proof (Htree g Hg). pose proof (st_tree _ _ _ _ Hst g).
    pose proof (Huser g). pose proof (Hlf g). pose proof (Hu g Hg).
    rewrite (st_used _ _ _ _ Hst g Hg). unfold held in *. tauto.
  - intros g Hheld. assert (Hg : is_frame g) by (by eapply held_frame; [apply Hs'|]).
    pose proof (Htree g Hg). pose proof (Huser g). pose proof (Hlf g). pose proof (Hout g).
    pose proof (Hn g). pose proof (Hu g Hg). unfold held in *. tauto.
  - intros path f flags rest Hf. rewrite (st_leaf _ _ _ _ Hst) by done. by apply Hsmall.
Qed.

Lemma accounts_deallocate t (others : Z -> Prop) f m :
  is_frame f -> ~ others f -> accounts t (fun g => g = f \/ others g) m ->
  accounts t others (with_allocator (fa_deallocate f (frame_allocator m)) m).
Proof.
  intros Hf Hno [[[Htree Hroot Htk] Hcl] Hu Hn Hsm].
  assert (Hused : forall g, is_frame g ->
    mused (with_allocator (fa_deallocate f (frame_allocator m)) m) g <-> mused m g /\ g ≠ f).
  { intros g Hg. by apply fa_deallocate_used. }
  constructor; [| | |exact Hsm].
  - constructor; [|exact Hcl]. constructor; [exact Htree|exact Hroot|]. intros p Hp.
    assert (Hpf : is_frame p) by by eapply in_tree_frame.
    destruct (Htk p Hp) as [Hm|Hm]; [left|right; cbn; by rewrite fa_deallocate_usable].
    apply Hused; [done|]. split; [done|]. intros ->. apply (Hn f); [by left|by left].
  - change (held (with_allocator _ m)) with (held m). intros g Hg. rewrite (Hused g Hg), (Hu g Hg).
    pose proof (Hn g). split; [tauto|]. intros [Ho|Hh].
    + split; [by left; right|]. by intros ->.
    + split; [by right|]. intros ->. by destruct (Hn f); [|left].
  - change (held (with_allocator _ m)) with (held m). intros g Hh Ho. apply (Hn g Hh). by right.
Qed.

(** One entry of the loop: the page is unmapped and its frame given back. *)
Section Entry.
Context (t : Z) (others : Z -> Prop) (table i : Z) (m : MemoryInfo A E).
Hypothesis Howns : owns t others m.
Hypothesis Htable : table_at (tables m) 3 t USER_STACK_PAGE_INDEX = Some table.
Hypothesis Hindex : index_ok i.

#[local] Abbreviation e := (tables m table i).
#[local] Abbreviation m1 := (UserStack.put table i (pte_set_flags 0 e) m).

Definition cleared (path : list Z) : option (Z * Z * list Z) :=
  if decide (path = stack_page i) then
    if pte_is_unused (pte_set_flags 0 e) then None else Some (pte_addr e, 0, [])
  else leaf (tables m) 3 t path.

Lemma entry_leaf :
  leaf (tables m) 3 t (stack_page i) =
    if pte_is_unused e then None else Some (pte_addr e, pte_flags e, []).
Proof. unfold stack_page. by rewrite (leaf_app _ _ _ _ table). Qed.

Lemma cleared_steps : steps_to t cleared m m1.
Proof.
  eapply steps_to_ext; [apply (put_page t USER_STACK_PAGE_INDEX table i); [apply Howns|done|]|].
  - by apply stack_path_full.
  - intros path _. unfold cleared. cbn beta.
    by rewrite pte_addr_set_flags, pte_flags_set_flags by apply flags_ok_empty.
Qed.

Lemma cleared_user path f flags rest :
  cleared path = Some (f, flags, rest) -> contains flags USER_FLAGS = true ->
  path ≠ stack_page i /\ leaf (tables m) 3 t path = Some (f, flags, rest).
Proof. unfold cleared. case_decide; [|done]. case_match; [done|]. by intros [= <- <- <-]. Qed.

Lemma user_writable f : contains f USER_FLAGS = true -> contains f WRITABLE = true.
Proof.
  unfold contains. rewrite !bool_decide_eq_true. intros Hu.
  replace WRITABLE with (Z.land USER_FLAGS WRITABLE) at 1 by done. by rewrite Z.land_assoc, Hu.
Qed.

(** The frame of the page, if it is writable. *)
Lemma writable_entry :
  contains (pte_flags e) WRITABLE = true ->
  leaf (tables m) 3 t (stack_page i) = Some (pte_addr e, USER_FLAGS, []) /\
  pte_frame e = Some (pte_addr e).
Proof.
  intros Hw. assert (Hun : pte_is_unused e = false).
  { destruct (pte_is_unused e) eqn:Hu; [|done]. apply pte_unused in Hu as [_ Hf]. by rewrite Hf in Hw. }
  pose proof entry_leaf as Hl. rewrite Hun in Hl.
  destruct (ow_stacks _ _ _ Howns i _ _ _ Hindex Hl Hw) as [Hf _]. rewrite Hf in Hl.
  split; [done|]. by rewrite pte_frame_spec, Hf.
Qed.

Definition given_back (g : Z) : Prop := contains (pte_flags e) WRITABLE = true /\ g = pte_addr e.

Lemma cleared_frames g :
  user_frame (leaf (tables m) 3 t) g <-> user_frame cleared g \/ given_back g.
Proof.
  split.
  - intros (path & flags & rest & Hp & Hl & Hu). destruct (decide (path = stack_page i)) as [->|Hne].
    + right. rewrite entry_leaf in Hl. destruct (pte_is_unused e); [done|]. injection Hl as <- <- <-.
      split; [by apply user_writable|done].
    + left. exists path, flags, rest. unfold cleared. by rewrite decide_False.
  - intros [(path & flags & rest & Hp & Hl & Hu)|[Hw ->]].
    + apply cleared_user in Hl as [_ Hl]; [|done]. by exists path, flags, rest.
    + destruct (writable_entry Hw) as [Hl _]. exists (stack_page i), USER_FLAGS, [].
      split; [by apply stack_path_full|]. by rewrite Hl.
Qed.

Lemma given_back_own g : given_back g -> ~ in_tree (tables m) 3 t g /\ ~ user_frame cleared g.
Proof.
  intros [Hw ->]. destruct (writable_entry Hw) as [Hl _].
  destruct (ow_stacks _ _ _ Howns i _ _ _ Hindex Hl) as (_ & Hn & Hu); [done|]. split; [done|].
  intros (path & flags & rest & Hp & Hc & Hus). apply cleared_user in Hc as [Hne Hc]; [|done].
  apply Hne. by eapply Hu.
Qed.

Lemma cleared_accounts : accounts t (fun g => given_back g \/ others g) m1.
Proof.
  pose proof cleared_steps as Hst. eapply (accounts_unmap t others _ cleared m); [apply Howns|done| | | |].
  - apply (steps_within _ _ _ _ Hst); [|apply Howns]. intros path _. unfold cleared.
    case_decide; [right|by left]. intros f flags rest. case_match; [done|]. by intros [= _ _ <-].
  - intros path f flags rest Hp Hc Hu. apply cleared_user in Hc as [_ Hc]; [|done].
    by eapply (ac_small _ _ _ (ow_accounts _ _ _ Howns)).
  - apply cleared_frames.
  - apply given_back_own.
Qed.

Lemma cleared_own : stacks_own m1 t.
Proof.
  pose proof cleared_steps as Hst. intros x f flags rest Hx.
  rewrite (st_leaf _ _ _ _ Hst) by by apply stack_path_full. unfold cleared at 1.
  case_decide as Hd; [case_match; [done|]; by intros [= <- <- <-]|]. intros Hl Hw.
  destruct (ow_stacks _ _ _ Howns x _ _ _ Hx Hl Hw) as (-> & Hn & Hu). split; [done|]. split.
  - intros Hin. apply Hn. eapply confined_tree; [apply Hst| |done].
    eapply user_used; [apply Howns| |done|done]. by apply stack_path_full.
  - intros path flags' rest' Hp. rewrite (st_leaf _ _ _ _ Hst) by done. intros Hc Hus.
    apply cleared_user in Hc as [_ Hc]; [|done]. by eapply Hu.
Qed.

Lemma free_stack_entry_owns :
  exists m', UserStack.free_stack_entry table i m = Done m' /\ owns t others m' /\
    table_at (tables m') 3 t USER_STACK_PAGE_INDEX = Some table.
Proof.
  assert (Htab : table_at (tables m1) 3 t USER_STACK_PAGE_INDEX = Some table).
  { apply put_page_table; [apply Howns|done|by apply stack_path_full]. }
  pose proof cleared_accounts as Hacc. pose proof cleared_own as Hown.
  destruct (contains (pte_flags e) WRITABLE) eqn:Hw.
  - destruct (writable_entry Hw) as [Hl Hfr]. unfold UserStack.free_stack_entry.
    rewrite UserStack.entry_at_in by apply Hindex. cbn [mbind outcome_bind]. rewrite Hw, Hfr.
    eexists. split; [reflexivity|]. split; [|exact Htab]. split; [|exact Hown].
    apply (accounts_deallocate t others (pte_addr e) m1); [apply pte_addr_frame| |].
    + apply (ac_new _ _ _ (ow_accounts _ _ _ Howns)). right. exists (stack_page i), USER_FLAGS, [].
      split; [by apply stack_path_full|done].
    + eapply accounts_ext; [exact Hacc|]. unfold given_back. tauto.
  - rewrite UserStack.free_stack_entry_other by (done || apply Hindex). eexists. split; [reflexivity|].
    split; [|exact Htab]. split; [|exact Hown]. eapply accounts_ext; [exact Hacc|].
    unfold given_back. intros g. rewrite Hw. naive_solver.
Qed.
End Entry.

(** A page that is mapped has a level 1 table. *)
Lemma leaf_table T x : forall path below root f flags,
  leaf T below root (path ++ [x]) = Some (f, flags, []) -> exists p, table_at T below root path = Some p.
Proof.
  induction path as [|i path IH]; intros below root f flags Hl; [by exists root|].
  cbn [app leaf table_at] in *. destruct (pte_is_unused (T root i)) eqn:Hu; [done|].
  destruct (is_leaf (S below) (T root i)) eqn:Hlf; [by destruct path; simplify_eq|].
  destruct below as [|b]; [done|]. replace (points (S b) (T root i)) with true; [by eapply IH|].
  symmetry. by apply points_spec.
Qed.

(** A thread's stack in slot [n], known by its last page. *)
Definition stack_live T (t n : Z) : Prop :=
  0 <= n < 63 /\ exists f, leaf T 3 t (stack_page (n * 8 + 10)) = Some (f, USER_FLAGS, []).

Definition stack_end (n : Z) : Z := UserStack.slot_address n + (UserStack.N + 1) * 4096.

Lemma stack_end_path n :
  0 <= n < 63 -> let addr := stack_end n -w 1 in
  [p4_index addr; p3_index addr; p2_index addr] = USER_STACK_PAGE_INDEX.
Proof. apply UserStack.slot_end_path. Qed.

Lemma free_user_stack_owns t others n m :
  owns t others m -> stack_live (tables m) t n ->
  exists m', UserStack.free_user_stack t (stack_end n) m = Done (Ok tt, m') /\ owns t others m'.
Proof.
  intros Howns [Hn [f Hl]]. destruct (leaf_table _ _ _ _ _ _ _ Hl) as [table Htab].
  destruct (UserStack.stack_end_index n Hn) as [_ Hrange].
  unfold UserStack.free_user_stack, UserStack.active_level_1_table_containing. fold (stack_end n) in Hrange.
  rewrite stack_end_path, (table_at_foldl _ 3 t table), Hrange by done.
  destruct (for_each_total (fun _ m => owns t others m /\
    table_at (tables m) 3 t USER_STACK_PAGE_INDEX = Some table) (UserStack.free_stack_entry table)
    (reverse (seqZ (n * 8) 11)) m) as (m' & Hf & Ho & _).
  - by split.
  - intros dn i rest m1 Hsplit [Ho Ht]. apply free_stack_entry_owns; [done..|].
    assert (Hin : i ∈ reverse (seqZ (n * 8) 11)) by (rewrite Hsplit; set_solver).
    apply elem_of_reverse, elem_of_seqZ in Hin. unfold index_ok. lia.
  - exists m'. by rewrite Hf.
Qed.

(** What threads do to the space: they come with a stack and give it back. *)
Inductive stack_step (t : Z) : MemoryInfo A E -> MemoryInfo A E -> Prop :=
| ThreadStack n r m m' : UserStack.allocate_user_stack t n m = Done (r, m') -> stack_step t m m'
| ThreadDrop n r m m' : stack_live (tables m) t n ->
    UserStack.free_user_stack t (stack_end n) m = Done (r, m') -> stack_step t m m'.

Lemma stack_steps_own t others m m' :
  owns t others m -> rtc (stack_step t) m m' -> owns t others m'.
Proof.
  intros Ho Hr. induction Hr as [|m m1 m' Hs _ IH]; [done|]. apply IH.
  destruct Hs as [n r m m1 Hs|n r m m1 Hl Hs].
  - eapply owns_run; [exact Ho|]. eapply allocate_user_stack_run; [apply Ho|exact Hs].
  - destruct (free_user_stack_owns t others n m Ho Hl) as (m2 & Hf & Ho2).
    rewrite Hs in Hf. by simplify_eq.
Qed.
End Stacks.

(** ** Properties *)
Section Properties.
Context {A E H : Type} `{FrameAllocatorLaws A} `{PageTableEntryLaws E} `{FrameOfLaws} `{VirtAddrLaws}
  `{HeapAllocator H} `{VirtPagesLaws} `{!TableMapper A E} `{!TableMapperLaws A E}
  {gdt : Selectors} `{ElfParser}.
Implicit Types (m : KernelMemory A E H) (k : kernel (KernelMemory A E H)).
#[local] Existing Instances tree_mapper table_memory.

(** C5: a program gives back what it took, for every mapper that meets the
    contract of TableMapper.v.  Let the kernel map no page for users
    ([kernel_only]) and none where the stacks of programs go
    ([stacks_unmapped]), let no segment of the file wrap in 64 bits, and let
    [spawn_user_thread] succeed.  From then on the threads of the program may
    get stacks and give them back with [free_user_stack], in any order and
    whatever the results.  Then [free_user_stack] succeeds for every stack
    that is mapped, and at every moment [free_user_pagetables] succeeds and
    leaves exactly the frames in use that were in use before the spawn: the
    tables, the one frame behind all the pages of the heap, the segments and
    the stacks are all given back, none of them twice in place of another, and
    no frame of the kernel or of another program is. *)
Theorem program_memory_returned bin params k uid k'
    (Hkernel : kernel_space (mm k))
    (Hleaves : kernel_only (tables (memory_info (mm k))) (kernel_table (memory_info (mm k))))
    (Hstacks : stacks_unmapped (tables (memory_info (mm k))) (kernel_table (memory_info (mm k))))
    (Hfile : forall obj, parse bin = Some obj -> Forall segment_ok (Elf.segments obj))
    (Hspawn : spawn_user_thread bin params k = Done (Ok uid, k')) :
  exists th, WAIT_QUEUE k' = th :: WAIT_QUEUE k /\
    forall i, rtc (stack_step (page_table_phys th)) (memory_info (mm k')) i ->
      (forall n, stack_live (tables i) (page_table_phys th) n ->
        exists i', UserStack.free_user_stack (page_table_phys th) (stack_end n) i = Done (Ok tt, i')) /\
      exists i', Paging.free_user_pagetables (page_table_phys th) i = Done i' /\
        forall g, is_frame g -> mused i' g <-> mused (memory_info (mm k)) g.
Proof.
  destruct (spawn_space _ _ _ _ _ Hkernel Hspawn) as (th & i0 & Hq & Hcr & Hruns).
  exists th. split; [done|]. intros i Hsteps.
  assert (Ho : owns (page_table_phys th) (mused (memory_info (mm k))) i).
  { eapply stack_steps_own, Hsteps. eapply owns_run, Hruns. by apply created_owns. }
  split; [|by apply accounts_free, Ho]. intros n Hl.
  destruct (free_user_stack_owns _ _ _ _ Ho Hl) as (i' & Hf & _). by exists i'.
Qed.
End Properties.

(** ** At a concrete input

    The program of AddressSpace.v; its only thread gives its stack back before
    the space is dropped. *)
#[local] Existing Instances plain_pages plain_pages_laws word_entry word_entry_laws align_down_frames
  align_down_laws bit_indices bit_indices_laws bump_fallback bump_fallback_laws flat_gdt demo_parser
  Walker.walker Walker.walker_laws tree_mapper table_memory.

Lemma before_spawn_leaf path :
  full path -> leaf (tables (memory_info (mm before_spawn))) 3
    (kernel_table (memory_info (mm before_spawn))) path = kernel_page_leaf path.
Proof.
  assert (Ht : kernel_table (memory_info (mm before_spawn)) = 0x9000) by (vm_compute; reflexivity).
  rewrite Ht. exact (kernel_info_leaf path).
Qed.

Lemma before_spawn_kernel_only :
  kernel_only (tables (memory_info (mm before_spawn))) (kernel_table (memory_info (mm before_spawn))).
Proof.
  intros path f flags rest Hp Hl. rewrite before_spawn_leaf in Hl by exact Hp.
  unfold kernel_page_leaf in Hl. destruct (decide _); [|discriminate Hl].
  injection Hl as _ <- _. reflexivity.
Qed.

Lemma before_spawn_unmapped :
  stacks_unmapped (tables (memory_info (mm before_spawn))) (kernel_table (memory_info (mm before_spawn))).
Proof.
  intros x Hx. rewrite before_spawn_leaf by (apply stack_path_full; exact Hx).
  apply decide_False. intros Heq. vm_compute in Heq. discriminate Heq.
Qed.

(** The run, with what is left of it for the check below. *)
Definition thread_dropped (t : Thread) (k : kernel DemoMemory) : bool :=
  bool_decide (user_stack_end t = stack_end 2) &&
  match leaf (tables (memory_info (mm k))) 3 (page_table_phys t) (stack_page 26) with
  | Some (_, flags, rest) => bool_decide (flags = USER_FLAGS /\ rest = [])
  | None => false
  end.

Lemma thread_dropped_live t k :
  thread_dropped t k = true ->
  user_stack_end t = stack_end 2 /\ stack_live (tables (memory_info (mm k))) (page_table_phys t) 2.
Proof.
  unfold thread_dropped. rewrite andb_true_iff, bool_decide_eq_true. intros [Hend Hl]. split; [exact Hend|].
  split; [lia|]. destruct (leaf _ _ _ _) as [[[f flags] rest]|] eqn:He; [|discriminate].
  apply bool_decide_eq_true in Hl as [-> ->]. exists f. reflexivity.
Qed.

Lemma program_memory_returned_witness :
  exists k1 t i1 i2, first_spawn = Done (Ok 1, k1) /\ WAIT_QUEUE k1 = [t] /\
    UserStack.free_user_stack (page_table_phys t) (user_stack_end t) (memory_info (mm k1)) =
      Done (Ok tt, i1) /\
    Paging.free_user_pagetables (page_table_phys t) i1 = Done i2 /\
    forall g, is_frame g -> mused i2 g <-> mused (memory_info (mm before_spawn)) g.
Proof.
  assert (Hrun : match first_spawn with
    | Done (Ok 1, k1) => match WAIT_QUEUE k1 with [t] => thread_dropped t k1 | _ => false end
    | _ => false end = true) by (vm_compute; reflexivity).
  assert (Hruns : exists k1 t, first_spawn = Done (Ok 1, k1) /\ WAIT_QUEUE k1 = [t] /\
    thread_dropped t k1 = true).
  { destruct first_spawn as [[r1 k1]| |]; [|discriminate|discriminate]. exists k1.
    destruct r1 as [uid|]; [|discriminate]. destruct (decide (uid = 1)) as [->|Hne].
    - destruct (WAIT_QUEUE k1) as [|t [|]]; [discriminate| |discriminate]. exists t. by split.
    - exfalso. repeat (case_match; try discriminate); by apply Hne. }
  clear Hrun. destruct Hruns as (k1 & t & Hspawn & Hq & Hlive).
  apply thread_dropped_live in Hlive as [Hend Hlive].
  destruct (program_memory_returned demo_file [3; 5] before_spawn 1 k1 before_spawn_space
    before_spawn_kernel_only before_spawn_unmapped demo_file_ok Hspawn) as (th & Hq' & Hback).
  rewrite Hq in Hq'. injection Hq' as <-.
  destruct (Hback _ (rtc_refl _ _)) as [Hfree _]. destruct (Hfree 2 Hlive) as [i1 Hi1].
  destruct (Hback i1) as [_ (i2 & Hi2 & Hused)].
  { apply rtc_once. exact (ThreadDrop _ 2 _ _ _ Hlive Hi1). }
  exists k1, t, i1, i2. rewrite Hend. split; [exact Hspawn|]. split; [exact Hq|].
  split; [exact Hi1|]. split; [exact Hi2|exact Hused].
Defined.

(** The logger counts a release for every page a frame is mapped at: two pages
    on one frame and their table are two allocations but three releases, and
    the used memory falls below zero and wraps.  The user heap is 1024 pages on
    one frame. *)
Definition shared_table (p i : Z) : Z :=
  if decide (p = 0x101000 /\ (i = 1 \/ i = 2)) then 0x100000 + USER_FLAGS else 0.

Example used_memory_wraps :
  match Frames.allocate_n 2 (frame_allocator empty_info) with
  | Done ([Some 0x100000; Some 0x101000], a) =>
      match Paging.free_pages_rec shared_table 1 0x101000 a with
      | Done (_, log) => (used_memory a.2, used_memory log)
      | _ => (0, 0)
      end
  | _ => (0, 0)
  end = (8192, 2 ^ 64 - 4096).
Proof. vm_compute. reflexivity. Qed.
