(* ===== verification/PageFault.v ===== *)
(** * Page faults (page_fault_handler of kernel/src/boot/interrupts.rs)

    The handler tells a write to an on-demand page from every other fault.  The
    second kind is the one place in the kernel where a lock is taken while it
    is held: the [if let] keeps the read guard of RUNNING_THREAD for its whole
    body. *)
From S2P Require Import Prelude Text Logger Heap Bump FixedBlock Frames Paging UserStack Abi Sync Isf Thread Kernel Syscall Arena Memory.

(** [PageFaultErrorCode] *)
Definition PROTECTION_VIOLATION : Z := 1.
Definition CAUSED_BY_WRITE : Z := 2.
Definition USER_MODE : Z := 4.

(** What the handler asks of memory.rs: the page, with the text the function
    prints. *)
Class OnDemandMemory (MM : Type) := {
  allocate_missing_ondemand_frame : Z -> Z -> MM -> outcome (result unit string * list Z * MM);
}.

(** The [Debug] texts of the crate's types; [F] is [InterruptStackFrame]. *)
Class DebugTexts (F : Type) := {
  debug_error_code : Z -> list Z;
  debug_stack_frame : F -> list Z;
}.

#[export] Instance kernel_ondemand {A E H} `{FrameAllocator A} `{PageTableEntry E} `{VirtAddr} `{DebugPages} :
  OnDemandMemory (KernelMemory A E H) := {|
  allocate_missing_ondemand_frame active addr m :=
    '(r, s, i) ← UserStack.allocate_missing_ondemand_frame active addr (memory_info m);
    Done (r, s, with_info i m);
|}.

Section PageFaults.
Context {MM F : Type} `{MemoryManager MM} `{OnDemandMemory MM} `{DebugPages} `{DebugTexts F}.
Implicit Types (k : kernel MM).

(** [RUNNING_THREAD.write()] spins while there are readers; the only CPU is the
    one that would release them. *)
Definition write_guard (readers : nat) : outcome unit :=
  match readers with
  | O => Done tt
  | S _ => Hang
  end.

(** [exit_current_thread], called with [readers] guards of RUNNING_THREAD
    alive. *)
Definition exit_with_readers (readers : nat) (context_ptr : Z) k : outcome (control * kernel MM) :=
  _ ← write_guard readers;
  exit_current_thread context_ptr k.

(** [page_fault_handler]; CR2 is [accessed_virtaddr].  The gate masks
    interrupts, so [hlt_loop] never ends. *)
Definition page_fault_handler (accessed_virtaddr error_code : Z) (stack_frame : F) k :
    outcome (control * kernel MM) :=
  if decide (error_code = Z.lor (Z.lor PROTECTION_VIOLATION CAUSED_BY_WRITE) USER_MODE) then
    '(r, s, mm') ← allocate_missing_ondemand_frame (cr3 k) accessed_virtaddr (mm k);
    let k := print s (with_mm mm' k) in
    match r with
    | Ok _ => Done (Return, k)
    | Err msg => Done (Return, println (text "Page fault error: " ++ text msg) k)
    end
  else
    let k := println (text "EXCEPTION: PAGE FAULT") k in
    let k := println (text "Accessed Address: " ++ debug_virt_addr accessed_virtaddr) k in
    let k := println (text "Error Code: " ++ debug_error_code error_code) k in
    let k := println (debug_stack_frame stack_frame) k in
    match RUNNING_THREAD k with
    | Some thread => exit_with_readers 1 (context thread) k
    | None => Hang
    end.

(** The other exceptions: [breakpoint_handler] returns, the two others panic,
    the one for general protection after [monitor], which writes to the serial
    port. *)
Definition breakpoint_handler (stack_frame : F) k : outcome (control * kernel MM) :=
  Done (Return, println (text "EXCEPTION: BREAKPOINT" ++ [0x0A] ++ debug_stack_frame stack_frame) k).

Definition double_fault_handler (_stack_frame : F) k : outcome (control * kernel MM) := Panic.

Definition general_protection_fault_handler (_stack_frame : F) k : outcome (control * kernel MM) := Panic.
End PageFaults.

(** ** Properties *)

Section Properties.
Context {A E H F : Type} `{FrameAllocatorLaws A} `{PageTableEntryLaws E} `{VirtAddrLaws}
  `{HeapAllocator H} `{FrameOf} `{DebugPages} `{DebugTexts F}.
Implicit Types (k : kernel (KernelMemory A E H)).

(** The entry of the level 1 table that maps an address. *)
Definition fault_table k (addr : Z) : Z :=
  UserStack.active_level_1_table_containing (cr3 k) addr (memory_info (mm k)).
Definition fault_entry k (addr : Z) : E :=
  tables (memory_info (mm k)) (fault_table k addr) (p1_index addr).

(** C29: on-demand pages.  A user's write to a present page whose entry is not
    writable gets a frame of its own: when the allocator has one, the entry of
    that page maps a frame that was free, for reading and writing, and the
    instruction is executed again.  Nothing else changes: no other entry of any
    table, no use of another frame (the one that was shared stays in use), no
    byte of memory, not the kernel's heap and root table, and no other part of
    the kernel; nothing is printed. *)
Theorem page_fault_ondemand k addr (frame : F) f a
    (Hentry : pte_flags (fault_entry k addr) = Z.lor PRESENT USER_ACCESSIBLE)
    (Hframe : fa_allocate (frame_allocator (memory_info (mm k))) = Done (Some f, a)) :
  exists m, page_fault_handler addr 7 frame k = Done (Return, with_mm m k) /\
    ~ fa_used (frame_allocator (memory_info (mm k))) f /\
    fa_used (frame_allocator (memory_info m)) f /\
    (forall g, is_frame g -> g ≠ f ->
      fa_used (frame_allocator (memory_info m)) g <-> fa_used (frame_allocator (memory_info (mm k))) g) /\
    (forall t i, tables (memory_info m) t i =
      if decide (t = fault_table k addr /\ i = p1_index addr)
      then pte_set_addr f USER_FLAGS (fault_entry k addr)
      else tables (memory_info (mm k)) t i) /\
    pte_addr (tables (memory_info m) (fault_table k addr) (p1_index addr)) = f /\
    pte_flags (tables (memory_info m) (fault_table k addr) (p1_index addr)) = USER_FLAGS /\
    kernel_table (memory_info m) = kernel_table (memory_info (mm k)) /\
    ALLOCATOR m = ALLOCATOR (mm k) /\ bytes m = bytes (mm k).
Proof.
  apply fa_allocate_Some in Hframe as Hf. destruct Hf as (Hf & _ & Hfree & _ & Hused).
  assert (Hnew : forall e, pte_addr (pte_set_addr f USER_FLAGS e) = f /\
    pte_flags (pte_set_addr f USER_FLAGS e) = USER_FLAGS)
    by (intros e; split; [apply pte_addr_set|apply pte_flags_set]; auto using flags_ok_user).
  unfold fault_entry, fault_table in *. unfold page_fault_handler. rewrite decide_True by done.
  cbn [allocate_missing_ondemand_frame kernel_ondemand].
  unfold UserStack.allocate_missing_ondemand_frame.
  rewrite decide_False by auto. rewrite Hframe. cbn [mbind outcome_bind]. rewrite print_nil.
  eexists. split; [reflexivity|]. cbn. split; [done|]. split; [apply Hused; auto|].
  split; [intros g Hg Hne; rewrite (Hused g Hg); tauto|].
  split; [done|]. unfold Paging.set_entry. rewrite decide_True by done.
  split; [apply Hnew|]. split; [apply Hnew|done].
Qed.

(** What is printed when the page is not an on-demand page. *)
Definition fault_text k (addr : Z) : list Z :=
  text "Unexpected flags: " ++ debug_flags (pte_flags (fault_entry k addr)) ++ text " addr: " ++
  debug_virt_addr addr ++ [0x0A] ++ text "Page fault error: " ++
  text "Error: Unexpected table flags" ++ [0x0A].

(** An instruction that writes to [addr] and is executed again after every
    fault, [n] times. *)
Fixpoint refault (n : nat) (addr : Z) (frame : F) k : outcome (control * kernel (KernelMemory A E H)) :=
  match n with
  | O => Done (Return, k)
  | S n =>
      '(c, k) ← page_fault_handler addr 7 frame k;
      match c with
      | Return => refault n addr frame k
      | _ => Done (c, k)
      end
  end.

Lemma refault_once addr (frame : F) k :
  pte_flags (fault_entry k addr) ≠ Z.lor PRESENT USER_ACCESSIBLE ->
  page_fault_handler addr 7 frame k = Done (Return, print (fault_text k addr) k).
Proof.
  intros Hfault. unfold fault_text, fault_entry, fault_table in *. unfold page_fault_handler.
  rewrite decide_True by done. cbn [allocate_missing_ondemand_frame kernel_ondemand].
  unfold UserStack.allocate_missing_ondemand_frame. rewrite decide_True by done.
  cbn [mbind outcome_bind]. unfold println. rewrite print_print, <-!app_assoc.
  by destruct k as [? ? ? ? ? ? ? ? ? [? ? ?]].
Qed.

(** C30: other page faults.  While a thread runs, no page fault ends it.  If the
    entry of the page a user wrote to does not have the flags of an on-demand
    page (the kernel heap, for one), the handler prints two lines and returns
    to the instruction, which faults again: however often that happens, nothing
    but the console has changed.  On every other kind of fault the kernel
    spins for ever on the lock whose guard it holds. *)
Theorem page_fault_never_exits k addr (frame : F) (Hrun : is_Some (RUNNING_THREAD k)) :
  (forall n, pte_flags (fault_entry k addr) ≠ Z.lor PRESENT USER_ACCESSIBLE ->
    refault n addr frame k = Done (Return, print (mjoin (replicate n (fault_text k addr))) k)) /\
  (forall error_code, error_code ≠ 7 -> page_fault_handler addr error_code frame k = Hang).
Proof.
  split.
  - intros n. clear Hrun. revert k. induction n as [|n IH]; intros k Hfault.
    + cbn. by rewrite print_nil.
    + cbn [refault]. rewrite refault_once by done. cbn [mbind outcome_bind].
      rewrite IH by done. rewrite print_print. done.
  - intros error_code Hcode. unfold page_fault_handler. rewrite decide_False by done.
    destruct Hrun as [t Ht]. cbn. by rewrite Ht.
Qed.
End Properties.

(** ** At concrete inputs

    The address 0x1000 is an on-demand page of the active tables, 0x2000 is
    not. *)
#[local] Existing Instances word_entry word_entry_laws align_down_frames align_down_laws
  bit_indices bit_indices_laws bump_fallback.

#[local] Instance plain_pages_texts : DebugPages := {|
  debug_virt_addr := hexadecimal;
  debug_flags := hexadecimal;
|}.

#[local] Instance plain_texts : DebugTexts unit := {|
  debug_error_code := decimal;
  debug_stack_frame _ := [];
|}.

Definition fault_tables (t i : Z) : Z :=
  if decide (t = 0x9000) then 0x8007 else if decide (t = 0x8000) then 0x7007
  else if decide (t = 0x7000) then 0x6007
  else if decide (t = 0x6000 /\ i = 1) then 0xA005 else 0.

Definition faulting : kernel (KernelMemory (PageFrameAllocator * MemoryLogger) Z
    (FixedBlock.FixedSizeBlockAllocator Bump.BumpAllocator)) :=
  mkKernel ∅ [] (Some (demo_thread 1 7 0)) 10 ∅ ∅ 0x9000 (replicate 7 0) []
    (mkKernelMemory (mkMemoryInfo small_state fault_tables 0x9000) kernel_heap (fun _ => 0)).

Definition after_fault : PageFrameAllocator * MemoryLogger :=
  (done_or (None, small_state) (fa_allocate small_state)).2.

Lemma page_fault_ondemand_witness :
  exists m, page_fault_handler 0x1abc 7 tt faulting = Done (Return, with_mm m faulting) /\
    ~ fa_used (frame_allocator (memory_info (mm faulting))) 0x2000 /\
    fa_used (frame_allocator (memory_info m)) 0x2000 /\
    (forall g, is_frame g -> g ≠ 0x2000 ->
      fa_used (frame_allocator (memory_info m)) g <->
      fa_used (frame_allocator (memory_info (mm faulting))) g) /\
    (forall t i, tables (memory_info m) t i =
      if decide (t = fault_table faulting 0x1abc /\ i = p1_index 0x1abc)
      then pte_set_addr 0x2000 USER_FLAGS (fault_entry faulting 0x1abc)
      else fault_tables t i) /\
    pte_addr (tables (memory_info m) (fault_table faulting 0x1abc) (p1_index 0x1abc)) = 0x2000 /\
    pte_flags (tables (memory_info m) (fault_table faulting 0x1abc) (p1_index 0x1abc)) = USER_FLAGS /\
    kernel_table (memory_info m) = kernel_table (memory_info (mm faulting)) /\
    ALLOCATOR m = ALLOCATOR (mm faulting) /\ bytes m = bytes (mm faulting).
Proof.
  apply (page_fault_ondemand faulting 0x1abc tt 0x2000 after_fault); vm_compute; reflexivity.
Defined.

Lemma page_fault_never_exits_witness :
  refault 3 0x2abc tt faulting =
    Done (Return, print (mjoin (replicate 3 (fault_text faulting 0x2abc))) faulting) /\
  page_fault_handler 0x2abc 4 tt faulting = Hang.
Proof.
  destruct (page_fault_never_exits faulting 0x2abc tt) as [Hagain Hother]; [by eexists|].
  split; [apply Hagain; by vm_compute|by apply Hother].
Defined.
