(* ===== verification/Api.v ===== *)
(** * The user-side stubs (api/src/syscall.rs)

    A stub is the registers it enters the kernel with and what it makes of the
    registers it is resumed with.  The stubs are inline assembly around
    [syscall]: [in] operands are the request, [lateout] operands the answer. *)
From S2P Require Import Prelude Abi Isf.

Module Api.

(** [Message::to_values] and [Message::from_values] *)
Definition to_values (message : Message) : Z * Z * Z * Z :=
  match message with
  | Packet data1 data2 data3 => (0, data1, data2, data3)
  end.

Definition from_values (_ctrl data1 data2 data3 : Z) : Message :=
  Packet data1 data2 data3.

(** The registers of the caller with the four operands of a request set. *)
Definition request (rax rdi rsi rdx : Z) (regs : Isf.ISF) : Isf.ISF :=
  Isf.of_fun (fun f =>
    match f with
    | Isf.RAX => rax
    | Isf.RDI => rdi
    | Isf.RSI => rsi
    | Isf.RDX => rdx
    | _ => Isf.get f regs
    end).

(** [receive] *)
Definition receive_request (socket : Z) (regs : Isf.ISF) : Isf.ISF :=
  request 3 socket (Isf.rsi regs) (Isf.rdx regs) regs.

Definition receive_result (regs : Isf.ISF) : result Message Z :=
  if decide (Isf.rax regs = 0)
  then Ok (Packet (Isf.rdi regs) (Isf.rsi regs) (Isf.rdx regs))
  else Err (Isf.rax regs).

(** [send]; [socket] is a u32. *)
Definition send_request (socket : Z) (message : Message) (regs : Isf.ISF) : Isf.ISF :=
  match message with
  | Packet data1 data2 data3 =>
      request (4 +w Z.shiftl socket 32) data1 data2 data3 regs
  end.

Definition send_result (regs : Isf.ISF) : result unit Z :=
  if decide (Isf.rax regs = 0) then Ok tt else Err (Isf.rax regs).

(** [send_receive] *)
Definition send_receive_request (file_descriptor : Z) (message : Message)
    (regs : Isf.ISF) : Isf.ISF :=
  let '(control_value, data1, data2, data3) := to_values message in
  request (Z.lor (Z.lor 5 control_value) (Z.shiftl file_descriptor 32))
    data1 data2 data3 regs.

Definition send_receive_result (regs : Isf.ISF) : result Message Z :=
  let error_code := Z.land (Isf.rax regs) 0xFF in
  if decide (error_code = 0)
  then Ok (from_values (Isf.rax regs) (Isf.rdi regs) (Isf.rsi regs) (Isf.rdx regs))
  else Err error_code.

(** [thread_spawn]: fork, then the child (RAX and RDI both 0) calls the
    function and exits, the parent returns. *)
Definition thread_spawn_request (regs : Isf.ISF) : Isf.ISF :=
  request 0 (Isf.rdi regs) (Isf.rsi regs) (Isf.rdx regs) regs.

Inductive spawned := RunsFunction | Returns (r : result Z Z).

Definition thread_spawn_result (regs : Isf.ISF) : spawned :=
  if decide (Isf.rax regs = 0) then
    if decide (Isf.rdi regs = 0) then RunsFunction else Returns (Ok (Isf.rdi regs))
  else Returns (Err (Isf.rax regs)).

(** [thread_exit] and [thread_yield] *)
Definition thread_exit_request (regs : Isf.ISF) : Isf.ISF :=
  request 1 (Isf.rdi regs) (Isf.rsi regs) (Isf.rdx regs) regs.
Definition thread_yield_request (regs : Isf.ISF) : Isf.ISF :=
  request 9 (Isf.rdi regs) (Isf.rsi regs) (Isf.rdx regs) regs.

(** [open]: the address and the length of the path. *)
Definition open_request (path len : Z) (regs : Isf.ISF) : Isf.ISF :=
  request 6 path len (Isf.rdx regs) regs.

Definition open_result (regs : Isf.ISF) : result Z Z :=
  let error_code := Isf.rax regs in
  let file_descriptor := Isf.rdi regs mod 2 ^ 32 in
  if decide (error_code = 0) then Ok file_descriptor else Err error_code.

(** [Writer::write_str] of api/src/print.rs: the address and the length of the
    text. *)
Definition print_request (ptr len : Z) (regs : Isf.ISF) : Isf.ISF :=
  request 2 ptr len (Isf.rdx regs) regs.

(** ** [send_and_wait_for_receive]

    [attempt i] is what the [i]-th [send_receive] returns.  The loop is written
    with fuel; [None] is fuel that ran out. *)
Definition MAX_RETRIES : Z := 100.

Section Retry.
Context (attempt : nat -> result Message Z) (expected_data1 : option Z).

Fixpoint wait_loop (fuel i : nat) (retry_count : Z) : option (result (Z * Z * Z) Z) :=
  match fuel with
  | O => None
  | S fuel =>
      match attempt i with
      | Err 1 | Err 2 =>
          let retry_count := retry_count +w 1 in
          if decide (retry_count > MAX_RETRIES) then Some (Err 2)
          else wait_loop fuel (S i) retry_count
      | Ok (Packet received_data1 received_data2 received_data3) =>
          match expected_data1 with
          | Some expected_rd1 =>
              if decide (received_data1 ≠ expected_rd1) then Some (Err received_data1)
              else Some (Ok (received_data1, received_data2, received_data3))
          | None => Some (Ok (received_data1, received_data2, received_data3))
          end
      | _ => Some (Err 0)
      end
  end.

Definition send_and_wait_for_receive (fuel : nat) : option (result (Z * Z * Z) Z) :=
  wait_loop fuel 0 0.

(** What an attempt that is not a blocked rendezvous makes the loop return. *)
Definition answer (r : result Message Z) : result (Z * Z * Z) Z :=
  match r with
  | Ok (Packet d1 d2 d3) =>
      match expected_data1 with
      | Some e => if decide (d1 ≠ e) then Err d1 else Ok (d1, d2, d3)
      | None => Ok (d1, d2, d3)
      end
  | Err _ => Err 0
  end.

Definition blocked (r : result Message Z) : bool :=
  match r with
  | Err e => bool_decide (e = 1 \/ e = 2)
  | Ok _ => false
  end.

Lemma wait_loop_step fuel i rc :
  wait_loop (S fuel) i rc =
    if blocked (attempt i)
    then if decide (rc +w 1 > MAX_RETRIES) then Some (Err 2) else wait_loop fuel (S i) (rc +w 1)
    else Some (answer (attempt i)).
Proof.
  simpl. unfold answer, blocked.
  destruct (attempt i) as [[d1 d2 d3]|e].
  - destruct expected_data1 as [x|]; [|done]. by case_decide.
  - case_bool_decide as Hb.
    + by destruct Hb as [-> | ->].
    + destruct e as [|[[]|[]|]|]; try done; naive_solver.
Qed.

(** [i] is the next attempt and [n] retries are left. *)
Lemma wait_loop_spec (n i fuel : nat) :
  (n <= 100)%nat -> (n < fuel)%nat ->
  exists r, wait_loop fuel i (100 - Z.of_nat n) = Some r /\
    ((exists j, (i <= j <= i + n)%nat /\ blocked (attempt j) = false /\
        (forall l, (i <= l < j)%nat -> blocked (attempt l) = true) /\
        r = answer (attempt j)) \/
     ((forall l, (i <= l <= i + n)%nat -> blocked (attempt l) = true) /\ r = Err 2)).
Proof.
  revert i fuel. induction n as [|n IH]; intros i fuel Hn Hf.
  all: destruct fuel as [|fuel]; [lia|]; rewrite wait_loop_step.
  all: destruct (blocked (attempt i)) eqn:Hb;
    [|eexists; split; [done|left; exists i; repeat split; [lia..|done|intros; lia]]].
  all: rewrite wrap64_small by (unfold is_u64; lia).
  - rewrite decide_True by (unfold MAX_RETRIES; lia). eexists. split; [done|].
    right. split; [|done]. intros l Hl. by replace l with i by lia.
  - rewrite decide_False by (unfold MAX_RETRIES; lia).
    replace (100 - Z.of_nat (S n) + 1) with (100 - Z.of_nat n) by lia.
    destruct (IH (S i) fuel) as (r & Hr & Hcases); [lia..|].
    exists r. split; [done|].
    destruct Hcases as [(j & Hj & Hjb & Hl & ->)|[Hl ->]]; [left; exists j|right].
    + repeat split; [lia..|done|]. intros l ?.
      destruct (decide (l = i)) as [->|]; [done|apply Hl; lia].
    + split; [|done]. intros l ?.
      destruct (decide (l = i)) as [->|]; [done|apply Hl; lia].
Qed.
End Retry.

(** ** The request word *)

Lemma shiftl_bounds socket : 0 <= socket < 2 ^ 32 -> 0 <= Z.shiftl socket 32 <= 2 ^ 64 - 2 ^ 32.
Proof. intros. rewrite Z.shiftl_mul_pow2 by lia. lia. Qed.

Lemma request_word_fields op socket :
  0 <= op < 256 -> 0 <= socket < 2 ^ 32 ->
  Z.land (op + Z.shiftl socket 32) 0xFF = op /\ Z.shiftr (op + Z.shiftl socket 32) 32 = socket.
Proof.
  intros Hop Hs. rewrite Z.shiftl_mul_pow2 by lia. split.
  - change 0xFF with (Z.ones 8). rewrite Z.land_ones by lia. Z.div_mod_to_equations. lia.
  - rewrite Z.shiftr_div_pow2 by lia. Z.div_mod_to_equations. lia.
Qed.

Lemma send_word socket : 0 <= socket < 2 ^ 32 ->
  4 +w Z.shiftl socket 32 = 4 + Z.shiftl socket 32.
Proof. intros Hs. apply shiftl_bounds in Hs. apply wrap64_small. unfold is_u64. lia. Qed.

Lemma lor_shiftl op socket : 0 <= op < 2 ^ 32 ->
  Z.lor op (Z.shiftl socket 32) = op + Z.shiftl socket 32.
Proof.
  intros Hop. rewrite <-(Z.add_lor_land op).
  replace (Z.land op (Z.shiftl socket 32)) with 0; [lia|].
  apply Z.bits_inj'. intros n Hn. rewrite Z.bits_0, Z.land_spec.
  destruct (decide (n < 32)).
  - rewrite Z.shiftl_spec_low by done. by rewrite andb_false_r.
  - destruct (decide (op = 0)) as [->|]; [by rewrite Z.bits_0|].
    rewrite (Z.bits_above_log2 op n); [done|lia|].
    apply Z.log2_lt_pow2; [lia|]. apply Z.lt_le_trans with (2 ^ 32); [lia|].
    apply Z.pow_le_mono_r; lia.
Qed.

End Api.

(** ** Properties *)

(** C40: [send_and_wait_for_receive] terminates after at most 101 attempts,
    whatever the kernel answers: it returns the verdict on the first attempt
    that was not refused with code 1 or 2 (the data when it is the expected
    one, an error otherwise), and [Err(2)] exactly when the first 101 were. *)
Theorem retry_terminates (attempt : nat -> result Message Z) (expected : option Z) :
  exists r, Api.send_and_wait_for_receive attempt expected 101 = Some r /\
    ((exists j : nat, (j <= 100)%nat /\ Api.blocked (attempt j) = false /\
        (forall l, (l < j)%nat -> Api.blocked (attempt l) = true) /\
        r = Api.answer expected (attempt j)) \/
     ((forall l, (l <= 100)%nat -> Api.blocked (attempt l) = true) /\ r = Err 2)).
Proof.
  destruct (Api.wait_loop_spec attempt expected 100 0 101) as (r & Hr & Hc); [lia..|].
  exists r. split; [exact Hr|].
  destruct Hc as [(j & Hj & Hb & Hl & ->)|[Hl ->]]; [left; exists j|right]; split_and!;
    try done; try lia; intros; apply Hl; lia.
Qed.
