(* ===== verification/Ipc.v ===== *)
(** * Message passing from stub to stub

    The user-side stubs of Api.v composed with the system calls of Syscall.v:
    what a thread that calls [send] or [receive] gets back, through the saved
    contexts, the handle table, the socket and the scheduler. *)
From S2P Require Import Prelude Abi Sync Isf Thread Kernel Syscall Api Arena.

Section Ipc.
Context {MM : Type} `{MemoryManager MM} {gdt : Selectors}.
Implicit Types (k : kernel MM) (t : Thread).

(** The memory a handler starts from: the caller's registers saved at [ctx]
    with the segments [dispatch_syscall] sets. *)
Definition trap_memory (ctx : Z) (regs : Isf.ISF) (m : gmap Z Z) : gmap Z Z :=
  let m := Isf.store ctx regs m in
  let '(code, data) :=
    if decide (Isf.read m ctx Isf.InstructionPointer < USER_CODE_START)
    then get_kernel_segments else get_user_segments in
  Isf.write ctx Isf.StackSegment data (Isf.write ctx Isf.CodeSegment code m).

Lemma trap_memory_apart ctx ctx' regs m :
  Isf.apart ctx ctx' -> Isf.load (trap_memory ctx regs m) ctx' = Isf.load m ctx'.
Proof.
  intros Ha. unfold trap_memory. destruct (if decide _ then _ else _) as [code data].
  rewrite !Isf.load_write_apart, Isf.load_store_apart by done. done.
Qed.

Lemma handle_receive ctx socket regs k :
  handle_syscall ctx (Api.receive_request socket regs) k =
    sys_receive ctx socket
      (with_memory (trap_memory ctx (Api.receive_request socket regs) (memory k)) k).
Proof.
  unfold handle_syscall, dispatch_syscall, trap_memory.
  by destruct (if decide _ then _ else _) as [code data].
Qed.

Lemma handle_send ctx socket d1 d2 d3 regs k :
  0 <= socket < 2 ^ 32 ->
  let regs' := Api.send_request socket (Packet d1 d2 d3) regs in
  handle_syscall ctx regs' k =
    sys_send ctx (4 + Z.shiftl socket 32) d1 d2 d3
      (with_memory (trap_memory ctx regs' (memory k)) k).
Proof.
  intros Hs regs'. unfold handle_syscall, dispatch_syscall, trap_memory.
  destruct (if decide _ then _ else _) as [code data].
  destruct (Api.request_word_fields 4 socket) as [Hop _]; [lia|done|].
  subst regs'. cbn [Api.send_request Api.request Isf.rax Isf.of_fun Isf.rdi Isf.rsi Isf.rdx].
  rewrite Api.send_word, Hop by done. done.
Qed.

Lemma handle_send_receive ctx socket d1 d2 d3 regs k :
  0 <= socket < 2 ^ 32 ->
  let regs' := Api.send_receive_request socket (Packet d1 d2 d3) regs in
  handle_syscall ctx regs' k =
    sys_send ctx (5 + Z.shiftl socket 32) d1 d2 d3
      (with_memory (trap_memory ctx regs' (memory k)) k).
Proof.
  intros Hs regs'. unfold handle_syscall, dispatch_syscall, trap_memory.
  destruct (if decide _ then _ else _) as [code data].
  destruct (Api.request_word_fields 5 socket) as [Hop _]; [lia|done|].
  subst regs'.
  cbn [Api.send_receive_request Api.to_values Api.request Isf.rax Isf.of_fun Isf.rdi Isf.rsi Isf.rdx].
  change (Z.lor 5 0) with 5. rewrite Api.lor_shiftl by lia. rewrite Hop. done.
Qed.

(** What the stubs decode from a reply the socket wrote. *)
Lemma receive_result_reply t m :
  reply_code t m = 0 ->
  Api.receive_result (Isf.load m (context t)) = Ok (reply_payload t m).
Proof. intros Hc. unfold Api.receive_result, Isf.load. cbn in *. by rewrite Hc. Qed.

Lemma send_result_reply t m :
  reply_code t m = 0 -> Api.send_result (Isf.load m (context t)) = Ok tt.
Proof. intros Hc. unfold Api.send_result, Isf.load. cbn in *. by rewrite Hc. Qed.

(** With nobody running, the next thread is the head of the queue. *)
Lemma schedule_idle c k t q :
  RUNNING_THREAD k = None -> WAIT_QUEUE k = t :: q ->
  length (interrupt_stack_table k) = 7%nat ->
  exists k', schedule c k = Done (context t, k') /\ RUNNING_THREAD k' = Some t /\
    WAIT_QUEUE k' = q.
Proof.
  intros Hr Hq Hl. destruct (schedule_total c k Hl) as (a & k' & Hs).
  pose proof (schedule_ready _ _ _ _ Hs) as (Hready & Hrun & ->).
  rewrite Hr, Hq in Hready. cbn in Hready. rewrite app_nil_r in Hready.
  rewrite Hready in Hrun. cbn in Hrun. unfold ready in Hready. rewrite Hrun in *.
  injection Hready as Hready. eauto.
Qed.

(** [sys_receive] on an empty socket parks the caller and runs the next
    thread. *)
Lemma sys_receive_empty ctx handle k rcv s t q :
  RUNNING_THREAD k = Some rcv -> thread_get_sockets rcv handle k = Some s ->
  socket_at s k = Socket.Empty -> WAIT_QUEUE k = t :: q ->
  length (interrupt_stack_table k) = 7%nat ->
  exists k', sys_receive ctx handle k = Done (Launch (context t), k') /\
    RUNNING_THREAD k' = Some t /\ WAIT_QUEUE k' = q /\
    socket_heap k' = <[s := Socket.Receiving (set_context ctx rcv) None]> (socket_heap k) /\
    process_heap k' = process_heap k /\ memory k' = memory k.
Proof.
  intros Hr Hh Hs Hq Hl. unfold sys_receive, take_current_thread. rewrite Hr.
  unfold thread_get_sockets, socket_at in *. cbn -[schedule]. rewrite Hh, Hs. cbn -[schedule].
  match goal with |- context [schedule ctx ?x] =>
    destruct (schedule_idle ctx x t q) as (k' & Hsch & Hrun & Hwq); [done..|] end.
  rewrite Hsch. simpl. exists k'. split; [done|].
  pose proof (schedule_frame _ _ _ _ Hsch) as (Hm & _ & Hp & Hsk & _).
  rewrite Hm, Hp, Hsk. done.
Qed.

(** [sys_send] on an empty socket parks the caller with its message. *)
Lemma sys_send_empty ctx handle d1 d2 d3 k snd s t q :
  0 <= handle < 2 ^ 32 ->
  RUNNING_THREAD k = Some snd -> thread_get_sockets snd handle k = Some s ->
  socket_at s k = Socket.Empty -> WAIT_QUEUE k = t :: q ->
  length (interrupt_stack_table k) = 7%nat ->
  exists k', sys_send ctx (4 + Z.shiftl handle 32) d1 d2 d3 k = Done (Launch (context t), k') /\
    RUNNING_THREAD k' = Some t /\ WAIT_QUEUE k' = q /\
    socket_heap k' =
      <[s := Socket.Sending (Some (set_context ctx snd)) (Packet d1 d2 d3)]> (socket_heap k) /\
    process_heap k' = process_heap k /\ memory k' = memory k.
Proof.
  intros Hb Hr Hh Hs Hq Hl. unfold sys_send, take_current_thread. rewrite Hr.
  destruct (Api.request_word_fields 4 handle) as [-> ->]; [lia|done|].
  unfold thread_get_sockets, socket_at in *. cbn -[schedule]. rewrite Hh, Hs. cbn -[schedule].
  destruct (decide (4 = 4)); [|done]. cbn -[schedule].
  match goal with |- context [schedule ctx ?x] =>
    destruct (schedule_idle ctx x t q) as (k' & Hsch & Hrun & Hwq); [done..|] end.
  rewrite Hsch. simpl. exists k'. split; [done|].
  pose proof (schedule_frame _ _ _ _ Hsch) as (Hm & _ & Hp & Hsk & _).
  rewrite Hm, Hp, Hsk. done.
Qed.

(** Settle, innermost first, which of the returned threads is the caller. *)
Ltac place_decides :=
  repeat match goal with
  | |- context [decide (?a = ?a)] => destruct (decide (a = a)); [|done]; cbn
  | H : ?a ≠ ?b |- context [decide (?a = ?b)] => destruct (decide (a = b)); [done|]; cbn
  | H : ?b ≠ ?a |- context [decide (?a = ?b)] => destruct (decide (a = b)); [by destruct H|]; cbn
  end.

(** [sys_send] to a waiting receiver returns at once and puts the receiver
    at the front of the queue. *)
Lemma sys_send_receiving ctx handle d1 d2 d3 k snd rcv s :
  0 <= handle < 2 ^ 32 ->
  RUNNING_THREAD k = Some snd -> thread_get_sockets snd handle k = Some s ->
  socket_at s k = Socket.Receiving rcv None -> thread_id rcv ≠ thread_id snd ->
  exists k', sys_send ctx (4 + Z.shiftl handle 32) d1 d2 d3 k = Done (Return, k') /\
    RUNNING_THREAD k' = Some (set_context ctx snd) /\ WAIT_QUEUE k' = rcv :: WAIT_QUEUE k /\
    socket_heap k' = <[s := Socket.Empty]> (socket_heap k) /\
    memory k' = return_error (set_context ctx snd) 0
                  (return_message rcv (Packet d1 d2 d3) (memory k)).
Proof.
  intros Hb Hr Hh Hs Hne. unfold sys_send, take_current_thread. rewrite Hr.
  destruct (Api.request_word_fields 4 handle) as [-> ->]; [lia|done|].
  unfold thread_get_sockets, socket_at in *. cbn. rewrite Hh, Hs. cbn.
  destruct (decide (4 = 4)); [|done]. cbn. place_decides.
  eexists. split; [done|]. done.
Qed.

(** [sys_receive] on a socket with a parked sender returns at once and puts
    the sender at the front of the queue. *)
Lemma sys_receive_sending ctx handle message k rcv snd s :
  RUNNING_THREAD k = Some rcv -> thread_get_sockets rcv handle k = Some s ->
  socket_at s k = Socket.Sending (Some snd) message -> thread_id rcv ≠ thread_id snd ->
  exists k', sys_receive ctx handle k = Done (Return, k') /\
    RUNNING_THREAD k' = Some (set_context ctx rcv) /\ WAIT_QUEUE k' = snd :: WAIT_QUEUE k /\
    socket_heap k' = <[s := Socket.Empty]> (socket_heap k) /\
    memory k' = return_error snd 0 (return_message (set_context ctx rcv) message (memory k)).
Proof.
  intros Hr Hh Hs Hne. unfold sys_receive, take_current_thread. rewrite Hr.
  unfold thread_get_sockets, socket_at in *. cbn. rewrite Hh, Hs. cbn.
  unfold place_threads, place_thread. cbn. place_decides.
  eexists. split; [done|]. done.
Qed.

(** ** Properties *)

(** C13: a receiver that arrives first.  The stub [receive] on an idle
    socket blocks its thread and the next ready thread runs; when that
    thread calls the stub [send] on its handle of the same socket, [send]
    returns [Ok(())] to it without a switch, the socket is idle again, the
    blocked thread is the next to run, and its [receive] returns the very
    message that was sent. *)
Theorem receive_then_send (k : kernel MM) (rcv snd : Thread) (q : list Thread)
    (h_rcv h_snd s ctx_rcv ctx_snd d1 d2 d3 : Z) (regs_rcv regs_snd : Isf.ISF)
    (Hrun : RUNNING_THREAD k = Some rcv) (Hqueue : WAIT_QUEUE k = snd :: q)
    (Hne : thread_id rcv ≠ thread_id snd)
    (Hrcv : thread_get_sockets rcv h_rcv k = Some s)
    (Hsnd : thread_get_sockets snd h_snd k = Some s) (Hbound : 0 <= h_snd < 2 ^ 32)
    (Hidle : socket_at s k = Socket.Empty) (Hapart : Isf.apart ctx_rcv ctx_snd)
    (Hist : length (interrupt_stack_table k) = 7%nat) :
  exists k1 k2,
    handle_syscall ctx_rcv (Api.receive_request h_rcv regs_rcv) k =
      Done (Launch (context snd), k1) /\ RUNNING_THREAD k1 = Some snd /\
    handle_syscall ctx_snd (Api.send_request h_snd (Packet d1 d2 d3) regs_snd) k1 =
      Done (Return, k2) /\
    RUNNING_THREAD k2 = Some (set_context ctx_snd snd) /\
    WAIT_QUEUE k2 = set_context ctx_rcv rcv :: q /\ socket_at s k2 = Socket.Empty /\
    Api.send_result (Isf.load (memory k2) ctx_snd) = Ok tt /\
    Api.receive_result (Isf.load (memory k2) ctx_rcv) = Ok (Packet d1 d2 d3).
Proof.
  rewrite handle_receive.
  match goal with |- context [sys_receive _ _ ?x] =>
    destruct (sys_receive_empty ctx_rcv h_rcv x rcv s snd q)
      as (k1 & Hk1 & Hr1 & Hq1 & Hs1 & Hp1 & Hm1); [done..|] end.
  exists k1. rewrite handle_send by done.
  match goal with |- context [sys_send _ _ _ _ _ ?x] =>
    destruct (sys_send_receiving ctx_snd h_snd d1 d2 d3 x snd (set_context ctx_rcv rcv) s)
      as (k2 & Hk2 & Hr2 & Hq2 & Hs2 & Hm2); [done|done|..|done|] end.
  { unfold thread_get_sockets. simpl. by rewrite Hp1. }
  { unfold socket_at. simpl. by rewrite Hs1, lookup_total_insert_eq. }
  exists k2. split; [done|]. split; [done|]. split; [done|]. split; [done|].
  split; [by rewrite Hq2; simpl; rewrite Hq1|].
  split; [by unfold socket_at; rewrite Hs2, lookup_total_insert_eq|]. rewrite Hm2. split.
  - apply (send_result_reply (set_context ctx_snd snd)). apply code_error.
  - rewrite load_return_error by (simpl; auto with zephyr).
    rewrite (receive_result_reply (set_context ctx_rcv rcv)) by apply code_message.
    by rewrite payload_message.
Qed.

(** C14: a sender that arrives first.  The stub [send] on an idle socket
    blocks its thread with the message and the next ready thread runs; when
    that thread calls the stub [receive] on its handle of the same socket it
    gets the message at once, and the sender, whose [send] returns
    [Ok(())], is the next to run. *)
Theorem send_then_receive (k : kernel MM) (rcv snd : Thread) (q : list Thread)
    (h_rcv h_snd s ctx_rcv ctx_snd d1 d2 d3 : Z) (regs_rcv regs_snd : Isf.ISF)
    (Hrun : RUNNING_THREAD k = Some snd) (Hqueue : WAIT_QUEUE k = rcv :: q)
    (Hne : thread_id rcv ≠ thread_id snd)
    (Hrcv : thread_get_sockets rcv h_rcv k = Some s)
    (Hsnd : thread_get_sockets snd h_snd k = Some s) (Hbound : 0 <= h_snd < 2 ^ 32)
    (Hidle : socket_at s k = Socket.Empty) (Hapart : Isf.apart ctx_rcv ctx_snd)
    (Hist : length (interrupt_stack_table k) = 7%nat) :
  exists k1 k2,
    handle_syscall ctx_snd (Api.send_request h_snd (Packet d1 d2 d3) regs_snd) k =
      Done (Launch (context rcv), k1) /\ RUNNING_THREAD k1 = Some rcv /\
    handle_syscall ctx_rcv (Api.receive_request h_rcv regs_rcv) k1 = Done (Return, k2) /\
    RUNNING_THREAD k2 = Some (set_context ctx_rcv rcv) /\
    WAIT_QUEUE k2 = set_context ctx_snd snd :: q /\ socket_at s k2 = Socket.Empty /\
    Api.send_result (Isf.load (memory k2) ctx_snd) = Ok tt /\
    Api.receive_result (Isf.load (memory k2) ctx_rcv) = Ok (Packet d1 d2 d3).
Proof.
  rewrite handle_send by done.
  match goal with |- context [sys_send _ _ _ _ _ ?x] =>
    destruct (sys_send_empty ctx_snd h_snd d1 d2 d3 x snd s rcv q)
      as (k1 & Hk1 & Hr1 & Hq1 & Hs1 & Hp1 & Hm1); [done..|] end.
  exists k1. rewrite handle_receive.
  match goal with |- context [sys_receive _ _ ?x] =>
    destruct (sys_receive_sending ctx_rcv h_rcv (Packet d1 d2 d3) x rcv
      (set_context ctx_snd snd) s) as (k2 & Hk2 & Hr2 & Hq2 & Hs2 & Hm2); [done|..|done|] end.
  { unfold thread_get_sockets. simpl. by rewrite Hp1. }
  { unfold socket_at. simpl. by rewrite Hs1, lookup_total_insert_eq. }
  exists k2. split; [done|]. split; [done|]. split; [done|]. split; [done|].
  split; [by rewrite Hq2; simpl; rewrite Hq1|].
  split; [by unfold socket_at; rewrite Hs2, lookup_total_insert_eq|]. rewrite Hm2. split.
  - apply (send_result_reply (set_context ctx_snd snd)). apply code_error.
  - rewrite load_return_error by (simpl; auto with zephyr).
    rewrite (receive_result_reply (set_context ctx_rcv rcv)) by apply code_message.
    by rewrite payload_message.
Qed.
End Ipc.

(** Two threads of one process: handle 2 names socket 3, which is idle. *)
Definition demo_regs : Isf.ISF := Isf.of_fun (fun _ => 77).

Lemma receive_then_send_witness :
  let rcv := demo_thread 1 7 0x3000 in let snd := demo_thread 2 7 0x4000 in
  let k := demo_kernel (Some rcv) [snd] in
  exists k1 k2,
    handle_syscall (H := arena) (gdt := flat_gdt) 0x3100 (Api.receive_request 2 demo_regs) k =
      Done (Launch 0x4000, k1) /\ RUNNING_THREAD k1 = Some snd /\
    handle_syscall (H := arena) (gdt := flat_gdt) 0x4100
      (Api.send_request 2 (Packet 5 6 7) demo_regs) k1 = Done (Return, k2) /\
    RUNNING_THREAD k2 = Some (set_context 0x4100 snd) /\
    WAIT_QUEUE k2 = [set_context 0x3100 rcv] /\ socket_at 3 k2 = Socket.Empty /\
    Api.send_result (Isf.load (memory k2) 0x4100) = Ok tt /\
    Api.receive_result (Isf.load (memory k2) 0x3100) = Ok (Packet 5 6 7).
Proof.
  intros rcv snd k.
  apply (receive_then_send (H := arena) (gdt := flat_gdt) k rcv snd [] 2 2 3 0x3100 0x4100
    5 6 7 demo_regs demo_regs); try reflexivity; try done.
  left. vm_compute. discriminate.
Defined.

Lemma send_then_receive_witness :
  let rcv := demo_thread 1 7 0x3000 in let snd := demo_thread 2 7 0x4000 in
  let k := demo_kernel (Some snd) [rcv] in
  exists k1 k2,
    handle_syscall (H := arena) (gdt := flat_gdt) 0x4100
      (Api.send_request 2 (Packet 5 6 7) demo_regs) k = Done (Launch 0x3000, k1) /\
    RUNNING_THREAD k1 = Some rcv /\
    handle_syscall (H := arena) (gdt := flat_gdt) 0x3100
      (Api.receive_request 2 demo_regs) k1 = Done (Return, k2) /\
    RUNNING_THREAD k2 = Some (set_context 0x3100 rcv) /\
    WAIT_QUEUE k2 = [set_context 0x4100 snd] /\ socket_at 3 k2 = Socket.Empty /\
    Api.send_result (Isf.load (memory k2) 0x4100) = Ok tt /\
    Api.receive_result (Isf.load (memory k2) 0x3100) = Ok (Packet 5 6 7).
Proof.
  intros rcv snd k.
  apply (send_then_receive (H := arena) (gdt := flat_gdt) k rcv snd [] 2 2 3 0x3100 0x4100
    5 6 7 demo_regs demo_regs); try reflexivity; try done.
  left. vm_compute. discriminate.
Defined.
