(* ===== verification/Lifecycle.v ===== *)
(** * The life of a thread

    Creation, fork and exit from the threads' point of view: the context a new
    thread starts from, what the two sides of a fork see through the stubs of
    Api.v, and what each system call does to the set of threads. *)
From S2P Require Import Prelude Vga Keyboard Abi Sync Isf Thread Kernel Syscall Spawn Irq System Api Ipc Arena.

Section Lifecycle.
Context {MM : Type} `{MemoryManager MM} {gdt : Selectors}.
Implicit Types (k : kernel MM) (t : Thread).

Lemma handle_spawn ctx regs k :
  handle_syscall ctx (Api.thread_spawn_request regs) k =
    fork_current_thread ctx
      (with_memory (trap_memory ctx (Api.thread_spawn_request regs) (memory k)) k).
Proof.
  unfold handle_syscall, dispatch_syscall, trap_memory.
  by destruct (if decide _ then _ else _) as [code data].
Qed.

(** The registers of a caller in the memory its system call starts from. *)
Lemma read_trap_memory ctx regs (m : gmap Z Z) f :
  f ≠ Isf.CodeSegment -> f ≠ Isf.StackSegment ->
  Isf.read (trap_memory ctx regs m) ctx f = Isf.get f regs.
Proof.
  intros Hc Hs. unfold trap_memory. destruct (if decide _ then _ else _) as [code data].
  by rewrite !Isf.read_write_ne, Isf.read_store.
Qed.

Lemma spawn_result_child m ctx :
  Isf.read m ctx Isf.RAX = 0 -> Isf.read m ctx Isf.RDI = 0 ->
  Api.thread_spawn_result (Isf.load m ctx) = Api.RunsFunction.
Proof. intros Ha Hd. unfold Api.thread_spawn_result, Isf.load. cbn. by rewrite Ha, Hd. Qed.

Lemma spawn_result_parent m ctx tid :
  Isf.read m ctx Isf.RAX = 0 -> Isf.read m ctx Isf.RDI = tid -> tid ≠ 0 ->
  Api.thread_spawn_result (Isf.load m ctx) = Api.Returns (Ok tid).
Proof.
  intros Ha Hd Ht. unfold Api.thread_spawn_result, Isf.load. cbn. rewrite Ha, Hd.
  destruct (decide (0 = 0)); [|done]. by destruct (decide (tid = 0)).
Qed.

Lemma spawn_result_error m ctx e :
  Isf.read m ctx Isf.RAX = e -> e ≠ 0 ->
  Api.thread_spawn_result (Isf.load m ctx) = Api.Returns (Err e).
Proof.
  intros Ha He. unfold Api.thread_spawn_result, Isf.load. cbn. rewrite Ha.
  by destruct (decide (e = 0)).
Qed.

(** C16: fork returns twice.  A thread that calls [thread_spawn] goes on
    running.  Either the stub returns the error 9 and no thread was created,
    or there is one more thread, at the end of the queue, of the same
    process: in the caller the stub returns the child's identifier, in the
    child it runs the function, on the child's own stack, with every other
    register of the caller. *)
Theorem fork_returns_twice k ctx regs c k' cur
    (Hrun : RUNNING_THREAD k = Some cur) (Hcounter : 0 <= COUNTER k) (Hleft : ids_left k)
    (Hheap : forall stack mm1 p mm2,
      allocate_user_stack (cr3 k) (COUNTER k + 1) (mm k) = Done (stack, mm1) ->
      vec_with_capacity KERNEL_STACK_SIZE mm1 = Done (p, mm2) ->
      Isf.apart ctx (p +w KERNEL_STACK_SIZE -w Isf.INTERRUPT_CONTEXT_SIZE))
    (Hcall : handle_syscall ctx (Api.thread_spawn_request regs) k = Done (c, k')) :
  c = Return /\ RUNNING_THREAD k' = Some cur /\
  ((Api.thread_spawn_result (Isf.load (memory k') ctx) = Api.Returns (Err 9) /\
    WAIT_QUEUE k' = WAIT_QUEUE k) \/
   exists child, WAIT_QUEUE k' = WAIT_QUEUE k ++ [child] /\ process child = process cur /\
    Api.thread_spawn_result (Isf.load (memory k') ctx) = Api.Returns (Ok (thread_id child)) /\
    Api.thread_spawn_result (Isf.load (memory k') (context child)) = Api.RunsFunction /\
    Isf.read (memory k') (context child) Isf.StackPointer = user_stack_end child /\
    forall f, f ∉ [Isf.RAX; Isf.RDI; Isf.StackPointer; Isf.CodeSegment; Isf.StackSegment] ->
      Isf.read (memory k') (context child) f = Isf.get f regs /\
      Isf.read (memory k') ctx f = Isf.get f regs).
Proof.
  rewrite handle_spawn in Hcall. set (m0 := trap_memory _ _ _) in Hcall.
  assert (Hm0 : forall f, f ≠ Isf.CodeSegment -> f ≠ Isf.StackSegment -> f ≠ Isf.RAX ->
    Isf.read m0 ctx f = Isf.get f regs).
  { intros f Hc Hs Ha. unfold m0. rewrite read_trap_memory by done. by destruct f. }
  clearbody m0. unfold fork_current_thread in Hcall. cbn in Hcall. rewrite Hrun in Hcall.
  unfold ids_left in Hleft.
  rewrite (wrap64_small (COUNTER k + 1)) in * by (unfold is_u64; lia).
  bind_Done Hcall. destruct r as [[[u1 stack_end]|e] mm1].
  2: { simplify_eq. split; [done|]. split; [done|]. left. split; [|done].
       apply spawn_result_error; [|done]. cbn. by isf_simpl. }
  bind_Done Hcall. destruct r as [p mm2]. cbn in Hcall. simplify_eq.
  pose proof (Hheap _ _ _ _ Hr Hr0) as Hap. clear Hr0 Hheap.
  set (child_ctx := p +w _ -w _) in *.
  rewrite (wrap64_small (COUNTER k + 1 + 1)) in * by (unfold is_u64; lia).
  split; [done|]. split; [done|]. right. eexists. split; [cbn; reflexivity|].
  cbn [process thread_id context user_stack_end memory with_memory with_queue].
  fold child_ctx. split; [done|]. split; [|split; [|split]].
  - apply spawn_result_parent; [by isf_simpl|by isf_simpl|lia].
  - apply spawn_result_child; by isf_simpl.
  - by isf_simpl.
  - intros f Hf. rewrite !not_elem_of_cons in Hf. destruct Hf as (H1 & H2 & H3 & H4 & H5 & _).
    split.
    + rewrite !(Isf.read_write_apart _ ctx) by done.
      rewrite !Isf.read_write_ne by done. rewrite Isf.read_store.
      unfold Isf.load. rewrite Isf.get_of_fun. by apply Hm0.
    + rewrite !Isf.read_write_ne by done.
      rewrite !(Isf.read_write_apart _ child_ctx) by auto with zephyr.
      rewrite Isf.read_store_apart by auto with zephyr. by apply Hm0.
Qed.

(** C20: what system calls do to the threads.  A fork adds at most one thread,
    with the identifier issued last; an exit removes the running thread and
    no other; every other call, valid or not, successful or not, keeps
    exactly the same threads. *)
Theorem syscall_accounting k ctx regs c k'
    (Hwf : wf k) (Hleft : ids_left k) (Hcall : handle_syscall ctx regs k = Done (c, k')) :
  match Z.land (Isf.rax regs) 0xFF with
  | 0 => tids k' ≡ₚ tids k \/ tids k' ≡ₚ COUNTER k' :: tids k
  | 1 => c = Halt /\ RUNNING_THREAD k' = None /\
         tids k ≡ₚ option_list (thread_id <$> RUNNING_THREAD k) ++ tids k'
  | _ => tids k' ≡ₚ tids k
  end.
Proof.
  destruct (dispatch_cases _ _ _ _ _ Hwf Hcall) as [m Hc]. cbn zeta in Hc.
  assert (Hmove : (forall X (f : Thread -> X), keeps_running f ctx k -> unmoved f k k') /\
    on_stack k' -> tids k' ≡ₚ tids k).
  { intros [Hm _]. apply Hm. auto with zephyr. }
  repeat case_match; auto.
  - apply (fork_cases thread_id) in Hc as (_ & _ & _ & [[Ht _]|(t & _ & _ & _ & Ht & Hid & _)]);
      [by left|right]. by rewrite <-Hid.
  - destruct (RUNNING_THREAD k) as [cur|] eqn:Hrun.
    + apply (exit_drops _ _ _ _ cur) in Hc as (-> & k1 & Hall & Hr1 & _ & Hd); [|apply Hwf|done].
      apply drop_threads_same in Hd as (Hq & Hr & Hs & _).
      split; [done|]. split; [congruence|].
      assert (Hk : all_threads k' = all_threads k1) by (unfold all_threads; congruence).
      unfold tids, owned. rewrite Hk. change (all_threads k) with (all_threads (with_memory m k)).
      by rewrite Hall.
    + unfold exit_current_thread in Hc. cbn in Hc. rewrite Hrun in Hc. by simplify_eq.
Qed.

(** The message about the first process may cost a thread.  If a thread
    already waits to receive on ID_SOCKET when [kernel_thread_main] sends
    the identifier there, the call hands that thread back, the statement
    drops it, and it is gone: it is neither queued, running nor parked, and
    will never see the message. *)
Lemma notify_drops_waiter k proc_id r k'
    (Hwf : wf k) (Hwait : socket_at ID_SOCKET k = Socket.Receiving r None)
    (Hnotify : notify_id proc_id k = Done k') :
  thread_id r ∈ tids k /\ thread_id r ∉ tids k'.
Proof.
  unfold notify_id in Hnotify.
  destruct (kernel_send ID_SOCKET (Packet proc_id 0 0) k) as [[t1 t2] k1] eqn:Hk.
  assert (Ht : t1 = Some r /\ t2 = None).
  { unfold kernel_send in Hk. rewrite Hwait in Hk. cbn in Hk. by simplify_eq. }
  destruct Ht as [-> ->]. apply kernel_send_all in Hk as (Ht & _). cbn in Ht, Hnotify.
  assert (Hsame : all_threads k' = all_threads k1).
  { bind_Done Hnotify. apply drop_thread_same in Hr. cbn in Hnotify. simplify_eq.
    unfold same_threads in Hr. destruct Hr as (Hq & Hrun & Hs & _).
    unfold all_threads. by rewrite Hq, Hrun, Hs. }
  pose proof (wf_nodup _ Hwf) as Hnd. unfold tids, owned in *. rewrite Hsame. rewrite <-Ht in Hnd |- *.
  apply NoDup_cons in Hnd as [Hnd _]. split; [by left|done].
Qed.
End Lifecycle.

(** ** Examples

    On the machine of Arena.v: a fork and an exit by the only thread, the
    first user thread, and a waiter on ID_SOCKET. *)
Definition fork_kernel : kernel Z := demo_kernel (Some (demo_thread 1 7 0)) [].

Lemma fork_returns_twice_witness :
  exists child c k',
    handle_syscall (H := arena) (gdt := flat_gdt) 0x3000 (Api.thread_spawn_request demo_regs)
      fork_kernel = Done (c, k') /\ c = Return /\ WAIT_QUEUE k' = [child] /\
    Api.thread_spawn_result (Isf.load (memory k') 0x3000) = Api.Returns (Ok 12) /\
    Api.thread_spawn_result (Isf.load (memory k') (context child)) = Api.RunsFunction.
Proof.
  destruct (handle_syscall (H := arena) (gdt := flat_gdt) 0x3000
    (Api.thread_spawn_request demo_regs) fork_kernel) as [[c k']| |] eqn:Hcall;
    [|vm_compute in Hcall; discriminate..].
  destruct (fork_returns_twice (H := arena) (gdt := flat_gdt) fork_kernel 0x3000 demo_regs c k'
    (demo_thread 1 7 0)) as (Hc & _ & [[_ Hq]|(child & Hq & _ & Hp & Hf & _)]);
    [done|by vm_compute|by vm_compute| |done| |].
  - intros stack mm1 p mm2 Hs Hv. injection Hs as <- <-. injection Hv as <- <-.
    left. vm_compute. discriminate.
  - exfalso. vm_compute in Hcall. injection Hcall as <- <-. discriminate.
  - exists child, c, k'. split; [done|]. split; [done|]. split; [done|]. split; [|done].
    rewrite Hp. do 2 f_equal. vm_compute in Hcall. injection Hcall as <- <-.
    injection Hq as <-. done.
Defined.

Lemma wf_fork_kernel : wf fork_kernel.
Proof.
  constructor; [|vm_compute; repeat constructor; discriminate|done|done|].
  - vm_compute. apply NoDup_singleton.
  - intros t Ht. by injection Ht as <-.
Qed.

Lemma syscall_accounting_witness :
  exists c k', handle_syscall (H := arena) (gdt := flat_gdt) 0x3000
      (Api.thread_exit_request demo_regs) fork_kernel = Done (c, k') /\
    c = Halt /\ tids k' = [].
Proof.
  destruct (handle_syscall (H := arena) (gdt := flat_gdt) 0x3000
    (Api.thread_exit_request demo_regs) fork_kernel) as [[c k']| |] eqn:Hcall;
    [|vm_compute in Hcall; discriminate..].
  destruct (syscall_accounting (H := arena) (gdt := flat_gdt) fork_kernel 0x3000
    (Api.thread_exit_request demo_regs) c k' wf_fork_kernel ltac:(by vm_compute) Hcall)
    as (-> & _ & Hp).
  exists Halt, k'. split; [done|]. split; [done|].
  change ([1] ≡ₚ [1] ++ tids k') in Hp. apply Permutation_cons_inv in Hp.
  by apply Permutation_nil in Hp.
Defined.

(** A thread waits on ID_SOCKET. *)
Definition waiter_kernel : kernel Z :=
  with_sockets {[ID_SOCKET := Socket.Receiving (demo_thread 3 7 0x5000) None]} fork_kernel.

Lemma notify_drops_waiter_witness :
  exists k', notify_id (H := arena) 2 waiter_kernel = Done k' /\
    (3 ∈ tids waiter_kernel) /\ 3 ∉ tids k'.
Proof.
  destruct (notify_id (H := arena) 2 waiter_kernel) as [k'| |] eqn:Hn;
    [|vm_compute in Hn; discriminate..].
  exists k'. split; [done|].
  apply (notify_drops_waiter (H := arena) waiter_kernel 2 (demo_thread 3 7 0x5000));
    [|by vm_compute|done].
  constructor; [|vm_compute; repeat constructor; discriminate|done|done|].
  - vm_compute. repeat constructor; set_solver.
  - intros t Ht. by injection Ht as <-.
Defined.
