(* ===== verification/Console.v ===== *)
(** * The console of user programs

    What a user program prints, from the [write_str] of api/src/print.rs
    through sys_write to the screen of Vga.v.  Everything the kernel prints
    goes through [print!], which writes under the lock of [WRITER] with
    interrupts masked, so the screen is a function of the text printed so
    far. *)
From S2P Require Import Prelude Text Vga Abi Sync Isf Thread Kernel Syscall Api Arena Ipc.

Section Console.
Context {MM : Type} `{MemoryManager MM} {gdt : Selectors}.
Implicit Types (k : kernel MM).

(** [WRITER] after what was printed; [b] is the text buffer at boot. *)
Definition screen (b : Buffer) k : outcome Writer :=
  Vga.write_string (printed k) (Vga.initial_writer b).

Lemma handle_print ctx ptr len regs k :
  handle_syscall ctx (Api.print_request ptr len regs) k =
    sys_write ptr len
      (with_memory (trap_memory ctx (Api.print_request ptr len regs) (memory k)) k).
Proof.
  unfold handle_syscall, dispatch_syscall, trap_memory.
  by destruct (if decide _ then _ else _) as [code data].
Qed.

Lemma sys_write_prints ptr k s :
  from_raw_parts ptr (Z.of_nat (length s)) k = s ->
  sys_write ptr (Z.of_nat (length s)) k =
    Done (Return, print (if is_utf8 s then s else []) k).
Proof.
  intros Hs. unfold sys_write. case_decide as Hl.
  - destruct s; [|done]. by rewrite print_nil.
  - rewrite Hs. destruct (is_utf8 s); [done|]. by rewrite print_nil.
Qed.

(** C38: printing from a user program.  When a program calls [write_str] on a
    text, the call returns to it and no thread is affected; if the bytes at
    the address it passes are UTF-8, and only then, they are appended to what
    was printed, and the screen, whatever text it showed, shows it continued
    by them. *)
Theorem user_print_shows (b : Buffer) k ctx ptr regs (s : list Z) w above st
    (Hread : from_raw_parts ptr (Z.of_nat (length s)) k = s)
    (Hscreen : screen b k = Done w) (Hok : Vga.buffer_ok (buffer w))
    (Hshows : Vga.shows w above st) :
  exists k' w',
    handle_syscall ctx (Api.print_request ptr (Z.of_nat (length s)) regs) k = Done (Return, k') /\
    all_threads k' = all_threads k /\ screen b k' = Done w' /\ Vga.buffer_ok (buffer w') /\
    Vga.shows w' above (if is_utf8 s then foldl Vga.put st s else st).
Proof.
  rewrite handle_print, sys_write_prints by exact Hread.
  destruct (Vga.write_string_shows (if is_utf8 s then s else []) w above st Hok Hshows)
    as (w' & Hw & Hb & _ & Hs).
  do 2 eexists. split; [done|]. split; [done|]. split; [|split; [done|by destruct (is_utf8 s)]].
  unfold screen, Vga.write_string in *. cbn [printed print with_printed].
  rewrite for_each_app. change (printed (with_memory _ k)) with (printed k).
  by rewrite Hscreen.
Qed.

(** [open] of the user API asks for a service the kernel does not have: it
    prints a line and leaves the registers, so the call returns the number of
    the request as its error, whatever the path. *)
Lemma open_unsupported ctx path len regs k :
  exists k', handle_syscall ctx (Api.open_request path len regs) k = Done (Return, k') /\
    Api.open_result (Isf.load (memory k') ctx) = Err 6 /\ all_threads k' = all_threads k /\
    printed k' = printed k ++ text "Unknown syscall " ++ hexadecimal ctx ++ text " " ++ decimal 6 ++
      text " " ++ decimal path ++ text " " ++ decimal len ++ [0x0A].
Proof.
  unfold handle_syscall, dispatch_syscall. destruct (if decide _ then _ else _) as [code data].
  eexists. split; [reflexivity|]. split; [|split; [done|cbn; by rewrite <-!app_assoc]].
  unfold Api.open_result, Isf.load. cbn. isf_simpl. done.
Qed.

(** The kernel's own stub [send] of syscall.rs: the request of the user stub,
    and a line with the error. *)
Definition kernel_stub_request (socket : Z) (value : Message) (regs : Isf.ISF) : Isf.ISF :=
  match value with
  | Packet data1 data2 data3 => Api.request (4 +w Z.shiftl socket 32) data1 data2 data3 regs
  end.

Definition kernel_stub_result (regs : Isf.ISF) k : result unit Z * kernel MM :=
  let err := Isf.rax regs in
  let k := println (text "err: " ++ decimal err) k in
  if decide (err = 0) then (Ok tt, k) else (Err err, k).

Lemma kernel_stub_agrees socket value regs k :
  kernel_stub_request socket value regs = Api.send_request socket value regs /\
  (kernel_stub_result regs k).1 = Api.send_result regs.
Proof.
  split; [done|]. unfold kernel_stub_result, Api.send_result. by case_decide.
Qed.
End Console.

(** The arena's memory holds the letters of the alphabet at 0x41 on. *)
Lemma user_print_shows_witness :
  let k := demo_kernel (Some (demo_thread 1 7 0)) [] in
  exists k' w',
    handle_syscall (H := arena) (gdt := flat_gdt) 0x3000 (Api.print_request 0x41 3 demo_regs) k =
      Done (Return, k') /\
    all_threads k' = all_threads k /\ screen blank_screen k' = Done w' /\
    Vga.buffer_ok (buffer w') /\
    Vga.shows w' (replicate 24 (Vga.render 2 [])) ([], [0x41; 0x42; 0x43]).
Proof.
  intros k.
  apply (user_print_shows (H := arena) (gdt := flat_gdt) blank_screen k 0x3000 0x41 demo_regs
    [0x41; 0x42; 0x43] blank_writer (replicate 24 (Vga.render 2 [])) ([], []));
    [done|done|apply blank_ok|].
  split; [vm_compute; reflexivity|]. split; [done|simpl; lia].
Defined.
