(* ===== verification/Runtime.v ===== *)
(** * User programs (api/src/lib.rs, api/src/mem.rs, api/src/print.rs)

    A user program is an interaction tree: its events are the calls of the API
    and what it does to memory through raw pointers and its heap; the kernel
    answers them.  A [println!] is one event with the whole text; the program
    may make it in several [write_str] calls, one after the other.

    [obeys] is the program logic for such trees: whatever the answers, every
    event of the tree is one a protocol allows in the state it has reached. *)
From S2P Require Import Prelude Text Abi.
From ITree Require Import ITree ITreeFacts.
From Paco Require Import paco.

#[export] Instance itree_ret {E} : MRet (itree E) := fun _ x => Ret x.
#[export] Instance itree_bind {E} : MBind (itree E) := fun _ _ f t => ITree.bind t f.

(** [F] are the functions threads are spawned on. *)
Variant userE (F : Type) : Type -> Type :=
| Receive (handle : Z) : userE F (result Message Z)
| Send (handle : Z) (message : Message) : userE F (result unit Z)
| ThreadSpawn (func : F) : userE F (result Z Z)
| ThreadYield : userE F unit
| ThreadExit : userE F Empty_set
| Print (s : list Z) : userE F unit
| WriteByte (address value : Z) : userE F unit
| ReadByte (address : Z) : userE F Z
| HeapInit (heap_start heap_size : Z) : userE F unit
| HeapAlloc (size align : Z) : userE F Z
| HeapDealloc (p size align : Z) : userE F unit.
Arguments Receive {F}.
Arguments Send {F}.
Arguments ThreadSpawn {F}.
Arguments ThreadYield {F}.
Arguments ThreadExit {F}.
Arguments Print {F}.
Arguments WriteByte {F}.
Arguments ReadByte {F}.
Arguments HeapInit {F}.
Arguments HeapAlloc {F}.
Arguments HeapDealloc {F}.

(** Texts of core::fmt: a [PanicInfo] with the message, a [Layout]. *)
Class PanicTexts := {
  panic_info : list Z -> list Z;
  debug_layout : Z -> Z -> list Z;
}.

Section Runtime.
Context {F : Type} {E : Type -> Type} `{userE F -< E} `{PanicTexts}.

Definition receive (handle : Z) : itree E (result Message Z) := trigger (Receive handle).
Definition send (handle : Z) (message : Message) : itree E (result unit Z) :=
  trigger (Send handle message).
Definition thread_spawn (func : F) : itree E (result Z Z) := trigger (ThreadSpawn func).
Definition thread_yield : itree E unit := trigger ThreadYield.
Definition println (s : list Z) : itree E unit := trigger (Print (s ++ [0x0A])).

(** [thread_exit], which does not return. *)
Definition thread_exit {R} : itree E R :=
  v ← trigger ThreadExit; match v : Empty_set with end.

(** The panic handler of api/src/lib.rs, called by [panic!] with a message. *)
Definition panic {R} (message : list Z) : itree E R :=
  println (text "User space panic: " ++ panic_info message);; thread_exit.

(** [Result::unwrap] and [Option::unwrap]. *)
Definition unwrap {A} (r : result A Z) : itree E A :=
  match r with
  | Ok a => mret a
  | Err e => panic (text "called `Result::unwrap()` on an `Err` value: " ++ decimal e)
  end.

Definition unwrap_option {A} (r : option A) : itree E A :=
  match r with
  | Some a => mret a
  | None => panic (text "called `Option::unwrap()` on a `None` value")
  end.

(** [alloc_error_handler] of api/src/mem.rs. *)
Definition alloc_error_handler {R} (size align : Z) : itree E R :=
  panic (text "Could not allocate memory to user thread: " ++ debug_layout size align).

(** [Box::new] and the drop of the box. *)
Definition box_new (size align : Z) : itree E Z :=
  p ← trigger (HeapAlloc size align);
  if decide (p = 0) then alloc_error_handler size align else mret p.

Definition box_drop (p size align : Z) : itree E unit := trigger (HeapDealloc p size align).

(** [init] of api/src/mem.rs. *)
Definition init (heap_start heap_size : Z) : itree E unit :=
  println (text "Heap start " ++ hexadecimal_016 heap_start ++ text ", size: " ++
    decimal heap_size ++ text " bytes (" ++ decimal (heap_size / (1024 * 1024)) ++ text " Mb)");;
  trigger (HeapInit heap_start heap_size).

(** [_start], entered with the bounds of the heap in RAX and RCX. *)
Definition _start (main : itree E unit) (rax rcx : Z) : itree E Empty_set :=
  init rax rcx;; main;; thread_exit.

(** [for x in xs]; and a loop whose body can [return] from the function, which
    is [false]. *)
Fixpoint for_in {X} (xs : list X) (f : X -> itree E unit) : itree E unit :=
  match xs with
  | [] => mret tt
  | x :: xs => f x;; for_in xs f
  end.

Fixpoint for_return {X} (xs : list X) (f : X -> itree E bool) : itree E bool :=
  match xs with
  | [] => mret true
  | x :: xs => goes_on ← f x; if goes_on : bool then for_return xs f else mret false
  end.
End Runtime.

(** ** Programs that follow a protocol *)

Section Obeys.
Context {E : Type -> Type} {S : Type}.
Context (allowed : forall X, E X -> S -> Prop) (after : forall X, E X -> X -> S -> S).

Definition obeys_node {R} (Q : S -> R -> Prop) (r : S -> itree E R -> Prop) (s : S)
    (t : itree' E R) : Prop :=
  match t with
  | RetF x => Q s x
  | TauF t => r s t
  | VisF e k => allowed _ e s /\ forall x, r (after _ e x s) (k x)
  end.

Definition obeys_step {R} (Q : S -> R -> Prop) (r : S -> itree E R -> Prop) (s : S) (t : itree E R) : Prop :=
  obeys_node Q r s (observe t).

(** From the state [s], [t] makes allowed events only, for ever or until it
    returns [x] in a state where [Q] holds. *)
Definition obeys {R} (Q : S -> R -> Prop) (s : S) (t : itree E R) : Prop :=
  paco2 (obeys_step Q) bot2 s t.

Lemma obeys_step_mono {R} (Q : S -> R -> Prop) : monotone2 (obeys_step Q).
Proof.
  intros s t r r' Hs Hr. unfold obeys_step, obeys_node in *. destruct (observe t); [done|by apply Hr|].
  destruct Hs as [Ha Hk]. split; [done|]. intros x. apply Hr, Hk.
Qed.
#[local] Hint Resolve obeys_step_mono : paco.

Lemma obeys_ret {R} (Q : S -> R -> Prop) s x : Q s x -> obeys Q s (Ret x).
Proof. intros. by pfold. Qed.

Lemma obeys_vis {R X} (Q : S -> R -> Prop) s (e : E X) k :
  allowed _ e s -> (forall x, obeys Q (after _ e x s) (k x)) -> obeys Q s (Vis e k).
Proof. intros Ha Hk. pfold. split; [done|]. intros x. left. apply Hk. Qed.

Lemma observe_of_bind {R R'} (t : itree E R) (k : R -> itree E R') :
  observe (ITree.bind t k) =
    match observe t with
    | RetF x => observe (k x)
    | TauF t => TauF (ITree.bind t k)
    | VisF e c => VisF e (fun x => ITree.bind (c x) k)
    end.
Proof.
  change (observe (ITree.bind t k)) with (observe (match observe t with
    | RetF x => k x
    | TauF t => Tau (ITree.bind t k)
    | VisF e c => Vis e (fun x => ITree.bind (c x) k)
    end)).
  by destruct (observe t).
Qed.

Lemma obeys_bind {R R'} (Q : S -> R -> Prop) (Q' : S -> R' -> Prop) s t k :
  obeys Q s t -> (forall s' x, Q s' x -> obeys Q' s' (k x)) -> obeys Q' s (ITree.bind t k).
Proof.
  intros Ht Hk. revert s t Ht. pcofix CIH. intros s t Ht. punfold Ht. unfold obeys_step, obeys_node in Ht.
  destruct (observe t) as [x|u|X e c] eqn:Ho.
  - specialize (Hk s x Ht). punfold Hk. pfold. unfold obeys_step, obeys_node in *. rewrite observe_of_bind, Ho.
    destruct (observe (k x)); [done| |].
    + pclearbot. left. eapply paco2_mon_bot; [exact Hk|done].
    + destruct Hk as [Ha Hc]. split; [done|]. intros y. destruct (Hc y) as [Hy|[]].
      left. eapply paco2_mon_bot; [exact Hy|done].
  - pclearbot. pfold. unfold obeys_step, obeys_node. rewrite observe_of_bind, Ho. right. by apply CIH.
  - destruct Ht as [Ha Hc]. pfold. unfold obeys_step, obeys_node. rewrite observe_of_bind, Ho.
    split; [done|]. intros y. right. apply CIH. destruct (Hc y) as [Hy|[]]. exact Hy.
Qed.

(** A loop with an invariant. *)
Lemma obeys_iter {A B} (I : S -> A -> Prop) (Q : S -> B -> Prop) (body : A -> itree E (A + B)) :
  (forall s a, I s a ->
    obeys (fun s' lr => match lr with inl a' => I s' a' | inr b => Q s' b end) s (body a)) ->
  forall s a, I s a -> obeys Q s (ITree.iter body a).
Proof.
  intros Hbody s a HI.
  set (k := fun lr : A + B => match lr with inl a' => Tau (ITree.iter body a') | inr b => Ret b end).
  assert (Hgen : forall s t u,
    obeys (fun s' lr => match lr with inl a' => I s' a' | inr b => Q s' b end) s t ->
    observe u = observe (ITree.bind t k) -> obeys Q s u).
  { clear s a HI. pcofix CIH. intros s t u Ht Hu. punfold Ht. unfold obeys_step, obeys_node in Ht.
    pfold. unfold obeys_step, obeys_node. rewrite Hu, observe_of_bind.
    destruct (observe t) as [[a'|b]|t'|X e c]; cbn.
    - right. eapply CIH; [by apply Hbody|done].
    - exact Ht.
    - pclearbot. right. by eapply CIH.
    - destruct Ht as [Ha Hc]. split; [done|]. intros y. right.
      eapply CIH; [|done]. destruct (Hc y) as [Hy|[]]. exact Hy. }
  eapply Hgen; [by apply Hbody|done].
Qed.

(** Trees that differ in silent steps follow the same protocols. *)
Lemma obeys_eutt {R} (Q : S -> R -> Prop) s (t u : itree E R) :
  obeys Q s t -> t ≈ u -> obeys Q s u.
Proof.
  revert s t u. pcofix CIH. intros s t u Ht Hu. punfold Ht. punfold Hu. pfold.
  unfold obeys_step in *. red in Hu. revert Ht.
  induction Hu as [x y Hxy|t1 u1 Htu|X e c d Hcd|t1 ou Hc Hu IH|ot u1 Hc Hu IH]; intros Ht; cbn in *.
  - by subst.
  - pclearbot. right. by eapply CIH.
  - destruct Ht as [Ha Hk]. split; [done|]. intros v. right.
    destruct (Hk v) as [Hv|[]]. eapply CIH; [exact Hv|]. destruct (Hcd v) as [Hd|[]]. exact Hd.
  - pclearbot. punfold Ht.
  - left. pfold. by apply IH.
Qed.

(** Consequence. *)
Lemma obeys_mono {R} (Q Q' : S -> R -> Prop) s t :
  (forall s x, Q s x -> Q' s x) -> obeys Q s t -> obeys Q' s t.
Proof.
  intros HQ Ht. eapply (obeys_eutt _ _ (ITree.bind t (fun x => Ret x))).
  - eapply obeys_bind; [exact Ht|]. intros s' x Hx. by apply obeys_ret, HQ.
  - by rewrite bind_ret_r.
Qed.

Lemma obeys_then {R R'} (Q : S -> R -> Prop) (Q' : S -> R' -> Prop) s (t : itree E R) k :
  obeys Q s t -> (forall s' x, Q s' x -> obeys Q' s' (k x)) -> obeys Q' s (x ← t; k x).
Proof. apply obeys_bind. Qed.

Lemma obeys_event {X} (Q : S -> X -> Prop) s (e : E X) :
  allowed _ e s -> (forall x, Q (after _ e x s) x) -> obeys Q s (trigger e).
Proof. intros Ha HQ. apply obeys_vis; [done|]. intros x. apply obeys_ret, HQ. Qed.
End Obeys.

(** Rules for the events of user programs. *)
Section Programs.
Context {F S : Type} `{PanicTexts} (allowed : forall X, userE F X -> S -> Prop)
  (after : forall X, userE F X -> X -> S -> S).
Context (print_allowed : forall x s, allowed _ (Print x) s)
  (print_after : forall x s, after _ (Print x) tt s = s).

Lemma obeys_println (Q : S -> unit -> Prop) s x :
  Q s tt -> obeys allowed after Q s (println (E := userE F) x).
Proof. intros HQ. apply obeys_event; [apply print_allowed|]. intros []. by rewrite print_after. Qed.

Lemma obeys_println_then {R} (Q : S -> R -> Prop) s x (t : itree (userE F) R) :
  obeys allowed after Q s t -> obeys allowed after Q s (println x;; t).
Proof.
  intros Ht. eapply (obeys_then _ _ (fun s' _ => s' = s)); [by apply obeys_println|].
  by intros s' _ ->.
Qed.

Lemma obeys_exit {R} (Q : S -> R -> Prop) s :
  allowed _ ThreadExit s -> obeys allowed after Q s (thread_exit (E := userE F)).
Proof. intros Ha. eapply obeys_then; [by apply (obeys_event _ _ (fun _ _ => True))|]. by intros ? []. Qed.

Lemma obeys_panic {R} (Q : S -> R -> Prop) s message :
  allowed _ ThreadExit s -> obeys allowed after Q s (panic (E := userE F) message).
Proof. intros Ha. by apply obeys_println_then, obeys_exit. Qed.

Lemma obeys_unwrap {A} (Q : S -> A -> Prop) s (r : result A Z) :
  match r with Ok a => Q s a | Err _ => allowed _ ThreadExit s end ->
  obeys allowed after Q s (unwrap (E := userE F) r).
Proof. destruct r as [a|e]; [apply obeys_ret|apply obeys_panic]. Qed.

Lemma obeys_for_in {X} (I : list X -> S -> Prop) (f : X -> itree (userE F) unit) s xs :
  I xs s -> (forall x xs s, I (x :: xs) s -> obeys allowed after (fun s' _ => I xs s') s (f x)) ->
  obeys allowed after (fun s' _ => I [] s') s (for_in xs f).
Proof.
  intros HI Hf. revert s HI. induction xs as [|x xs IH]; intros s HI; [by apply obeys_ret|].
  eapply obeys_then; [by apply Hf|]. intros s' [] Hs'. by apply IH.
Qed.
End Programs.
