(* ===== verification/Shell.v ===== *)
(** * The shell (bin/src/main.rs)

    The user program: it reads a key, runs the command of that key and sends
    the key on to the console; commands spawn threads that run the functions
    below.  Handle 0 is the keyboard, 1 the console, 2 the socket that hands
    out identifiers, 3 the socket threads report to. *)
From S2P Require Import Prelude Text Abi Runtime.
From ITree Require Import ITree ITreeFacts.

(** The functions threads are spawned on. *)
Variant function :=
| fn_tester
| fn_write_to_kernel_stack
| fn_recursive_too_deep_thread
| fn_recursive_thread
| fn_heap_alloc.

Abbreviation program := (itree (userE function)).

Section Shell.
Context `{PanicTexts}.

(** [recv_id] *)
Definition recv_id : program Z :=
  r ← receive 2;
  m ← unwrap r;
  let 'Packet value _ _ := m in mret value.

(** ** The threads *)

(** [recursive_function] and [recursive_too_deep_function], which differ in the
    step of the recursion. *)
Definition recursive_body (step : Z) (args : Z * Z) : itree (callE (Z * Z) unit +' userE function) unit :=
  let '(depth, thread_id) := args in
  (if decide (depth mod 50 = 0)
   then println (text "[thread " ++ decimal thread_id ++ text "]: Recursion depth " ++ decimal depth)
   else mret tt);;
  thread_yield;;
  if decide (depth < 500) then call (depth + step, thread_id) else mret tt.

Definition recursive_function (depth thread_id : Z) : program unit :=
  rec (recursive_body 10) (depth, thread_id).

Definition recursive_too_deep_function (depth thread_id : Z) : program unit :=
  rec (recursive_body 1) (depth, thread_id).

(** [recursive_thread] *)
Definition recursive_thread : program unit :=
  thread_id ← recv_id;
  println (text "[thread " ++ decimal thread_id ++ text "]: Starting recursive function");;
  recursive_function 0 thread_id;;
  r ← send 3 (Packet thread_id 0 0);
  unwrap r;;
  thread_exit.

(** [recursive_too_deep_thread] *)
Definition recursive_too_deep_thread : program unit :=
  thread_id ← recv_id;
  println (text "[thread " ++ decimal thread_id ++ text "]: Starting recursive function");;
  recursive_too_deep_function 0 thread_id;;
  r ← send 3 (Packet thread_id 0 0);
  unwrap r;;
  thread_exit.

(** The body of the loops of [write_to_kernel_stack] and [tester]. *)
Definition count (thread_id i : Z) : program unit :=
  println (text "[thread " ++ decimal thread_id ++ text "]: " ++ decimal i);;
  thread_yield.

Definition PARENT_THREAD_STACK_START : Z := 0x444444450280.
Definition PARENT_THREAD_STACK_END : Z := 0x44444445A280.

(** [write_to_kernel_stack] *)
Definition write_to_kernel_stack : program unit :=
  thread_id ← recv_id;
  for_in (seqZ 0 5) (count thread_id);;
  (if decide (PARENT_THREAD_STACK_START + 4 < PARENT_THREAD_STACK_END) then
     trigger (WriteByte (PARENT_THREAD_STACK_START + 4) 42);;
     read_value ← trigger (ReadByte (PARENT_THREAD_STACK_START + 4));
     println (text "[thread " ++ decimal 6 ++ text "]: Read value: " ++ decimal read_value)
   else
     println (text "[thread " ++ decimal 6 ++ text "]: Attempt to write out of bounds"));;
  r ← send 3 (Packet thread_id 0 0);
  unwrap r.

(** [tester] *)
Definition tester : program unit :=
  thread_id ← recv_id;
  for_in (seqZ 0 10) (count thread_id);;
  r ← send 3 (Packet thread_id 0 0);
  unwrap r.

(** [heap_alloc]: a box of an [i32]. *)
Definition heap_alloc : program unit :=
  recv_id;;
  p ← box_new 4 4;
  box_drop p 4 4.

(** ** The commands *)

(** [null_safety_demo]: [x] is [Some(5)]. *)
Definition null_safety_demo : program unit :=
  let x := Some 5 in
  match x with
  | Some val => println (text "Got value: " ++ decimal val)
  | None => println (text "Got nothing")
  end.

(** How each command starts a thread: spawn it and send it its identifier;
    [false] is the early [return]. *)
Definition spawn_named (f : function) : program bool :=
  tid_result ← thread_spawn f;
  match tid_result with
  | Ok thread_id =>
      println (text "[!] - Thread spawned with ID: " ++ decimal thread_id);;
      send 2 (Packet thread_id 0 0);;
      mret true
  | Err error_code =>
      println (text "[!] - Failed to spawn thread. Error code: " ++ decimal error_code);;
      mret false
  end.

(** How it waits for one. *)
Definition wait_completed : program unit :=
  r ← receive 3;
  match r with
  | Ok (Packet thread_id _ _) =>
      println (text "[main]: Thread " ++ decimal thread_id ++ text " has completed")
  | Err _ => println (text "[main]: Unexpected message")
  end.

Definition call_heap_alloc : program unit := spawn_named fn_heap_alloc;; mret tt.
Definition call_malicious_thread : program unit := spawn_named fn_write_to_kernel_stack;; mret tt.

Definition call_recursive_too_deep_threads : program unit :=
  spawned ← spawn_named fn_recursive_too_deep_thread;
  if spawned : bool then wait_completed else mret tt.

Definition call_recursive_threads : program unit :=
  spawned ← spawn_named fn_recursive_thread;
  if spawned : bool then wait_completed else mret tt.

Definition call_basic_threads (num : Z) : program unit :=
  spawned ← for_return (seqZ 0 num) (fun _ => spawn_named fn_tester);
  if spawned : bool then for_in (seqZ 0 num) (fun _ => wait_completed) else mret tt.

Definition usage : list Z := text "

User land program usage: 
Input: h - (show these prompts again)

Input: b - (calls 3 threads incrementing an individual counter)

Input: r - (calls a function that recurs and allocated some space in  the stack)

Input: m - (calls a function that attempts to write to a kernel stack (malicious!)
 
Input: number up to 4 - (atomically incremenet a counter in parallel (number times))
 
Input: e - (allocate some space on the heap and then free)
 
        ".

(** The command of a key other than [x]. *)
Definition command (ch : Z) : program unit :=
  if decide (ch = 0x62) then call_basic_threads 3
  else if decide (ch = 0x72) then call_recursive_threads
  else if decide (ch = 0x74) then call_recursive_too_deep_threads
  else if decide (ch = 0x6D) then call_malicious_thread
  else if decide (ch = 0x65) then call_heap_alloc
  else if decide (ch = 0x6E) then null_safety_demo
  else if decide (ch = 0x31 \/ ch = 0x32 \/ ch = 0x33 \/ ch = 0x34) then
    let ch_value := ch - 0x30 in
    println (decimal ch_value);;
    call_basic_threads ch_value
  else if decide (ch = 0x68) then println usage
  else mret tt.

(** One round of the loop of [main]; [inr] is [break]. *)
Definition main_round : program (unit + unit) :=
  r ← receive 0;
  message ← unwrap r;
  let 'Packet _ value _ := message in
  ch ← unwrap_option (char_from_u32 value);
  if decide (ch = 0x78) then println (text "[!] - Exiting");; mret (inr tt)
  else
    command ch;;
    r ← send 1 message;
    unwrap r;;
    mret (inl tt).

(** [main] *)
Definition main : program unit :=
  recv_id;;
  println usage;;
  ITree.iter (fun _ => main_round) tt.
End Shell.

(** ** The session of the main thread

    What an observer of the calls of [main] knows: whether it has its own
    identifier, the key it has read and not yet sent on, the thread it has
    spawned and not yet named, how many threads may still report on handle 3,
    and whether it has to panic. *)
Record session := mkSession {
  named : bool;
  echo : option Message;
  unnamed : option Z;
  outstanding : Z;
  failed : bool;
}.

Definition new_session : session := mkSession false None None 0 false.

Definition key_of (m : Message) : option Z := let 'Packet _ value _ := m in char_from_u32 value.

(** Does a thread on [f] report when it is done? *)
Definition reports (f : function) : bool :=
  match f with fn_heap_alloc => false | _ => true end.

(** The key that ends the program. *)
Definition quits (s : session) : Prop := exists m, echo s = Some m /\ key_of m = Some 0x78.

(** The protocol: the heap is set up, then an identifier is received; then one
    key at a time, each sent on once before the next is read; a thread that was
    spawned gets its identifier before any other message is sent or received
    and before another is spawned; no completion is waited for that no thread
    will report; an exit only if a call failed, the key was no character, or it
    was [x].  Printing is free. *)
Definition session_allowed (X : Type) (e : userE function X) (s : session) : Prop :=
  match e with
  | Print _ => True
  | ThreadExit => failed s = true \/ quits s
  | HeapInit _ _ => s = new_session
  | Receive handle => failed s = false /\ unnamed s = None /\
      (handle = 2 /\ named s = false \/
       handle = 0 /\ named s = true /\ echo s = None \/
       handle = 3 /\ is_Some (echo s) /\ 0 < outstanding s)
  | Send handle m => failed s = false /\
      (handle = 1 /\ echo s = Some m /\ unnamed s = None \/
       handle = 2 /\ exists id, unnamed s = Some id /\ m = Packet id 0 0)
  | ThreadSpawn _ => failed s = false /\ unnamed s = None /\ is_Some (echo s)
  | _ => False
  end.

Definition session_after (X : Type) (e : userE function X) : X -> session -> session :=
  match e in userE _ X return X -> session -> session with
  | Receive handle => fun r s =>
      match handle, r with
      | 3, _ => mkSession (named s) (echo s) (unnamed s) (outstanding s - 1) (failed s)
      | 2, Ok _ => mkSession true (echo s) (unnamed s) (outstanding s) (failed s)
      | _, Ok m =>
          mkSession (named s) (Some m) (unnamed s) (outstanding s) (bool_decide (key_of m = None))
      | _, Err _ => mkSession (named s) (echo s) (unnamed s) (outstanding s) true
      end
  | Send handle _ => fun r s =>
      match handle, r with
      | 2, _ => mkSession (named s) (echo s) None (outstanding s) (failed s)
      | _, Ok _ => mkSession (named s) None (unnamed s) (outstanding s) (failed s)
      | _, Err _ => mkSession (named s) (echo s) (unnamed s) (outstanding s) true
      end
  | ThreadSpawn f => fun r s =>
      match r with
      | Ok id => mkSession (named s) (echo s) (Some id)
                   (outstanding s + (if reports f then 1 else 0)) (failed s)
      | Err _ => s
      end
  | _ => fun _ s => s
  end.

Section Session.
Context `{PanicTexts}.
Implicit Types (s : session) (m : Message).

Abbreviation session_obeys := (obeys session_allowed session_after).

(** Between two keys, and while the command of the key in [m] runs, with at
    least [n] completions to come. *)
Definition idle s : Prop :=
  named s = true /\ echo s = None /\ unnamed s = None /\ 0 <= outstanding s /\ failed s = false.
Definition busy m (n : Z) s : Prop :=
  named s = true /\ echo s = Some m /\ unnamed s = None /\ 0 <= n <= outstanding s /\ failed s = false.

Lemma session_println (Q : session -> unit -> Prop) s x :
  Q s tt -> session_obeys Q s (println x).
Proof. by apply obeys_println. Qed.

Lemma session_println_then {R} (Q : session -> R -> Prop) s x (t : program R) :
  session_obeys Q s t -> session_obeys Q s (println x;; t).
Proof. by apply obeys_println_then. Qed.

Lemma spawn_named_session m n s f :
  busy m n s ->
  session_obeys (fun s' spawned => busy m (if spawned && reports f then n + 1 else n) s') s (spawn_named f).
Proof.
  intros (Hn & He & Hu & Hout & Hf). unfold spawn_named.
  eapply obeys_then; [apply (obeys_event _ _ (fun s' r => s' = session_after _ (ThreadSpawn f) r s))|].
  - cbn. by rewrite He.
  - done.
  - intros ? [id|e] ->; apply session_println_then; [|by apply obeys_ret].
    eapply (obeys_then _ _ (fun s' _ => busy m (if reports f then n + 1 else n) s')).
    + apply obeys_event; [cbn; naive_solver|]. intros r. cbn.
      unfold busy. cbn. split_and!; try done; destruct (reports f); lia.
    + intros s' _ Hs'. by apply obeys_ret.
Qed.

Lemma wait_completed_session m n s :
  0 <= n -> busy m (n + 1) s -> session_obeys (fun s' _ => busy m n s') s wait_completed.
Proof.
  intros Hpos (Hn & He & Hu & Hout & Hf). unfold wait_completed.
  eapply (obeys_then _ _ (fun s' _ => busy m n s')).
  - apply obeys_event.
    + cbn. rewrite He. split; [done|]. split; [done|]. do 2 right. split_and!; [done|done|lia].
    + intros r. unfold busy. cbn. split_and!; try done; lia.
  - intros s' [[id ? ?]|e] Hs'; by apply session_println.
Qed.

Lemma busy_weaken m n n' s : 0 <= n' <= n -> busy m n s -> busy m n' s.
Proof. unfold busy. intros ? (? & ? & ? & ? & ?). split_and!; try done; lia. Qed.

Lemma spawn_all_session {X} m n s (xs : list X) :
  busy m n s ->
  session_obeys (fun s' (spawned : bool) => busy m (if spawned then n + Z.of_nat (length xs) else n) s') s
    (for_return xs (fun _ => spawn_named fn_tester)).
Proof.
  revert n s. induction xs as [|x xs IH]; intros n s Hb; cbn [for_return].
  - apply obeys_ret. by rewrite Z.add_0_r.
  - assert (0 <= n) by (destruct Hb as (_ & _ & _ & ? & _); lia).
    eapply obeys_then; [by apply spawn_named_session|]. intros s' [] Hb'; cbn [andb reports] in Hb'.
    + eapply obeys_mono; [|by apply IH]. intros s2 [] Hs2; cbn [length].
      * by replace (n + Z.of_nat (S (length xs))) with (n + 1 + Z.of_nat (length xs)) by lia.
      * by apply (busy_weaken _ (n + 1)); [lia|].
    + by apply obeys_ret.
Qed.

Lemma call_basic_threads_session m num s :
  0 <= num -> busy m 0 s -> session_obeys (fun s' _ => busy m 0 s') s (call_basic_threads num).
Proof.
  intros Hnum Hb. unfold call_basic_threads.
  eapply obeys_then; [by apply spawn_all_session|]. intros s' [] Hs'; [|by apply obeys_ret].
  apply (obeys_for_in _ _ (fun xs s => busy m (Z.of_nat (length xs)) s)); [done|].
  intros x xs s2 Hs2. apply wait_completed_session; [lia|].
  by replace (Z.of_nat (length xs) + 1) with (Z.of_nat (length (x :: xs))) by (cbn; lia).
Qed.

Lemma spawn_then_wait_session m s f :
  reports f = true -> busy m 0 s ->
  session_obeys (fun s' _ => busy m 0 s') s
    (spawned ← spawn_named f; if spawned : bool then wait_completed else mret tt).
Proof.
  intros Hf Hb. eapply obeys_then; [by apply spawn_named_session|]. rewrite Hf.
  intros s' [] Hs'; cbn [andb] in Hs'; [by apply wait_completed_session|by apply obeys_ret].
Qed.

Lemma spawn_only_session m s f :
  busy m 0 s -> session_obeys (fun s' _ => busy m 0 s') s (spawn_named f;; mret tt).
Proof.
  intros Hb. eapply obeys_then; [by apply spawn_named_session|]. intros s' spawned Hs'.
  apply obeys_ret. eapply busy_weaken; [|exact Hs']. destruct (spawned && reports f); lia.
Qed.

Lemma command_session m ch s :
  busy m 0 s -> session_obeys (fun s' _ => busy m 0 s') s (command ch).
Proof.
  intros Hb. unfold command.
  repeat case_decide; try (by apply call_basic_threads_session); try (by apply spawn_then_wait_session);
    try (by apply spawn_only_session); try (by apply session_println); try by apply obeys_ret.
  apply session_println_then, call_basic_threads_session; [lia|done].
Qed.

Lemma main_round_session s :
  idle s ->
  session_obeys (fun s' lr => match lr with
    | inl _ => idle s'
    | inr _ => quits s'
    end) s main_round.
Proof.
  intros (Hn & He & Hu & Hout & Hf). unfold main_round.
  eapply obeys_then; [apply (obeys_event _ _ (fun s' r => s' = session_after _ (Receive 0) r s))|].
  { cbn. naive_solver. } { done. }
  intros ? r ->.
  eapply (obeys_then _ _ (fun s' m => r = Ok m /\ s' = session_after _ (Receive 0) (Ok m) s)).
  { apply obeys_unwrap; [done..|]. destruct r; [done|by left]. }
  intros ? m [-> ->]. destruct m as [a value c]. set (m := Packet a value c).
  destruct (char_from_u32 value) as [ch|] eqn:Hch; cbn [unwrap_option].
  2:{ eapply (obeys_then _ _ (fun _ _ => False)); [|by intros ? ? []].
      apply obeys_panic; [done..|]. left. cbn. by rewrite Hch. }
  assert (Hb : busy m 0 (session_after _ (Receive 0) (Ok m) s)).
  { unfold busy. cbn. rewrite Hch. split_and!; try done; lia. }
  eapply (obeys_then _ _ (fun s' c => s' = _ /\ c = ch)); [by apply obeys_ret|]. intros ? ? [-> ->].
  case_decide as Hx.
  - apply session_println_then, obeys_ret. exists m. split; [done|]. cbn. by rewrite Hch, Hx.
  - eapply obeys_then; [by apply command_session|]. intros s1 [] (Hn1 & He1 & Hu1 & Hout1 & Hf1).
    eapply obeys_then; [apply (obeys_event _ _ (fun s' r => s' = session_after _ (Send 1 m) r s1))|].
    { cbn. naive_solver. } { done. }
    intros ? r ->. eapply (obeys_then _ _ (fun s' _ => idle s')); [|intros s2 [] Hs2; by apply obeys_ret].
    apply obeys_unwrap; [done..|]. destruct r as [[]|e]; [|by left]. unfold idle. cbn. split_and!; try done; lia.
Qed.

Lemma main_session :
  session_obeys (fun s _ => quits s) new_session main.
Proof.
  unfold main, recv_id.
  eapply (obeys_then _ _ (fun s' _ => idle s')).
  - eapply obeys_then; [apply (obeys_event _ _ (fun s' r => s' = session_after _ (Receive 2) r new_session))|].
    { cbn. naive_solver. } { done. }
    intros ? r ->. eapply (obeys_then _ _ (fun s' _ => idle s')).
    + apply obeys_unwrap; [done..|]. destruct r; [done|by left].
    + intros s' [v ? ?] Hs'. by apply obeys_ret.
  - intros s' _ Hs'. apply session_println_then.
    apply (obeys_iter _ _ (fun s _ => idle s)); [|done]. intros s [] Hs. by apply main_round_session.
Qed.

(** C15: the shell.  Whatever the kernel answers to its calls, and however long
    it runs, the program (its entry point [_start], which sets the heap up,
    calls [main] and exits when [main] returns) follows the protocol of a
    session.  It gets its identifier before any key, reads one key at a time
    and sends exactly that key on, once, before it reads the next one; every
    thread it spawns gets the identifier the spawn returned before any other
    message is sent or received and before another thread is spawned; it waits
    for no more completions than threads will report; it exits only after a
    call that failed, a key that is no character, or the key [x], which is not
    sent on.  It may print at any time.  It never returns. *)
Theorem shell_session rax rcx :
  session_obeys (fun _ _ => False) new_session (_start main rax rcx).
Proof.
  unfold _start, init.
  eapply (obeys_then _ _ (fun s' _ => s' = new_session)).
  - apply session_println_then, obeys_event; [done|]. by intros [].
  - intros ? [] ->. eapply obeys_then; [apply main_session|]. intros s' [] Hs'.
    apply obeys_exit. by right.
Qed.
End Session.

(** ** The recursive functions as loops *)

Section Recursion.
Context `{PanicTexts}.

(** What one activation does before it calls itself. *)
Definition visit (thread_id depth : Z) : program unit :=
  (if decide (depth mod 50 = 0)
   then println (text "[thread " ++ decimal thread_id ++ text "]: Recursion depth " ++ decimal depth)
   else mret tt);;
  thread_yield.

Lemma recursion_step step depth thread_id :
  rec (recursive_body step) (depth, thread_id) ≈
    (visit thread_id depth;;
     if decide (depth < 500) then rec (recursive_body step) (depth + step, thread_id) else mret tt).
Proof.
  rewrite rec_as_interp. unfold recursive_body at 2, visit, println, thread_yield, mbind, itree_bind, mret, itree_ret.
  rewrite interp_bind, bind_bind. apply eutt_eq_bind'.
  - case_decide; [by rewrite interp_trigger|by rewrite interp_ret].
  - intros []. rewrite interp_bind. apply eutt_eq_bind'; [by rewrite interp_trigger|].
    intros []. case_decide; [by rewrite interp_recursive_call|by rewrite interp_ret].
Qed.

(** Enough activations to get past 500, from any depth on. *)
Lemma recursion_is_loop step n depth thread_id :
  0 < step -> depth + step * Z.of_nat n < 500 + step -> 500 <= depth + step * Z.of_nat n ->
  rec (recursive_body step) (depth, thread_id) ≈
    for_in ((fun i => depth + step * i) <$> seqZ 0 (Z.of_nat n + 1)) (visit thread_id).
Proof.
  intros Hstep. revert depth. induction n as [|n IH]; intros depth Hlt Hle; rewrite recursion_step.
  - rewrite decide_False by lia. change (seqZ 0 (Z.of_nat 0 + 1)) with [0]. cbn [fmap list_fmap for_in].
    by replace (depth + step * 0) with depth by lia.
  - rewrite decide_True by nia. rewrite seqZ_cons by lia. cbn [fmap list_fmap for_in].
    replace (depth + step * 0) with depth by lia.
    apply eutt_eq_bind; intros []. rewrite (IH (depth + step)) by lia.
    replace (Z.pred (Z.of_nat (S n) + 1)) with (Z.of_nat n + 1) by lia.
    apply eq_sub_eutt.
    assert (Heq : (fun i => depth + step + step * i) <$> seqZ 0 (Z.of_nat n + 1) =
      (fun i => depth + step * i) <$> seqZ (Z.succ 0) (Z.of_nat n + 1)).
    { change (Z.succ 0) with (1 + 0). rewrite <-(fmap_add_seqZ 1 0), <-list_fmap_compose. apply list_fmap_ext. intros ? i _. cbn. lia. }
    by rewrite Heq.
Qed.

(** The recursive functions.  [recursive_function] behaves exactly like a
    loop over the depths 0, 10, ..., 500: it terminates after 51 activations,
    each of which yields the processor once.  [recursive_too_deep_function]
    behaves like a loop over 0, 1, ..., 500, with 501 activations on the
    stack. *)
Lemma recursion_unrolled thread_id :
  recursive_function 0 thread_id ≈ for_in ((fun i => 10 * i) <$> seqZ 0 51) (visit thread_id) /\
  recursive_too_deep_function 0 thread_id ≈ for_in (seqZ 0 501) (visit thread_id).
Proof.
  split.
  - apply (recursion_is_loop 10 50 0 thread_id); lia.
  - unfold recursive_too_deep_function. rewrite (recursion_is_loop 1 500 0 thread_id) by lia.
    apply eq_sub_eutt. replace (Z.of_nat 500 + 1) with 501 by lia.
    rewrite <-(list_fmap_id (seqZ 0 501)) at 2.
    by rewrite (list_fmap_ext (fun i => 0 + 1 * i) id (seqZ 0 501)) by (intros; unfold id; lia).
Qed.
End Recursion.

(** ** What a spawned thread does *)

(** It has no identifier yet, it works, it has reported, a call failed. *)
Variant worker := Unnamed | Working (id : Z) | Reported | Failed.

(** It gets its identifier first and reports it on handle 3 once, at the end. *)
Definition worker_allowed (X : Type) (e : userE function X) (s : worker) : Prop :=
  match e with
  | Print _ => True
  | Receive handle => handle = 2 /\ s = Unnamed
  | Send handle m => handle = 3 /\ exists id, s = Working id /\ m = Packet id 0 0
  | ThreadYield | WriteByte _ _ | ReadByte _ => exists id, s = Working id
  | ThreadExit => s = Reported \/ s = Failed
  | _ => False
  end.

Definition worker_after (X : Type) (e : userE function X) : X -> worker -> worker :=
  match e in userE _ X return X -> worker -> worker with
  | Receive _ => fun r s =>
      match r with Ok (Packet id _ _) => Working id | Err _ => Failed end
  | Send _ _ => fun r s => match r with Ok _ => Reported | Err _ => Failed end
  | _ => fun _ s => s
  end.

(** The thread with a box: no identifier yet, the box to come, held, given back;
    or a call failed. *)
Variant borrower := Nameless | Named | Holds (p : Z) | GivenBack | GaveUp.

(** One allocation, freed once, and nothing is ever sent. *)
Definition borrower_allowed (X : Type) (e : userE function X) (s : borrower) : Prop :=
  match e with
  | Print _ => True
  | Receive handle => handle = 2 /\ s = Nameless
  | HeapAlloc size align => s = Named /\ size = 4 /\ align = 4
  | HeapDealloc p size align => s = Holds p /\ size = 4 /\ align = 4
  | ThreadExit => s = GaveUp
  | _ => False
  end.

Definition borrower_after (X : Type) (e : userE function X) : X -> borrower -> borrower :=
  match e in userE _ X return X -> borrower -> borrower with
  | Receive _ => fun r s => match r with Ok _ => Named | Err _ => GaveUp end
  | HeapAlloc _ _ => fun p s => if decide (p = 0) then GaveUp else Holds p
  | HeapDealloc _ _ _ => fun _ s => GivenBack
  | _ => fun _ s => s
  end.

Section Workers.
Context `{PanicTexts}.

Abbreviation worker_obeys := (obeys worker_allowed worker_after).

Lemma worker_println_then {R} (Q : worker -> R -> Prop) s x (t : program R) :
  worker_obeys Q s t -> worker_obeys Q s (println x;; t).
Proof. by apply obeys_println_then. Qed.

Lemma worker_yield id : worker_obeys (fun s _ => s = Working id) (Working id) thread_yield.
Proof. apply obeys_event; [by eexists|done]. Qed.

Lemma recv_id_worker :
  worker_obeys (fun s id => s = Working id) Unnamed recv_id.
Proof.
  eapply obeys_then; [by apply (obeys_event _ _ (fun s r => s = worker_after _ (Receive 2) r Unnamed))|].
  intros ? r ->. eapply (obeys_then _ _ (fun s m => let 'Packet id _ _ := m in s = Working id)).
  - apply obeys_unwrap; [done..|]. destruct r as [[? ? ?]|e]; [done|by right].
  - intros s [id ? ?] Hs. by apply obeys_ret.
Qed.

Lemma count_worker id i : worker_obeys (fun s _ => s = Working id) (Working id) (count id i).
Proof. apply worker_println_then, worker_yield. Qed.

Lemma visit_worker id depth : worker_obeys (fun s _ => s = Working id) (Working id) (visit id depth).
Proof.
  eapply (obeys_then _ _ (fun s _ => s = Working id)); [|intros ? _ ->; apply worker_yield].
  case_decide; [by apply obeys_println|by apply obeys_ret].
Qed.

Lemma loop_worker {X} id (f : X -> program unit) xs :
  (forall x, worker_obeys (fun s _ => s = Working id) (Working id) (f x)) ->
  worker_obeys (fun s _ => s = Working id) (Working id) (for_in xs f).
Proof. intros Hf. apply (obeys_for_in _ _ (fun _ s => s = Working id)); [done|]. by intros x _ s ->. Qed.

(** The report at the end, and what follows it. *)
Lemma report_worker {R} (Q : worker -> R -> Prop) id (t : unit -> program R) :
  worker_obeys Q Reported (t tt) ->
  worker_obeys Q (Working id) (r ← send 3 (Packet id 0 0); u ← unwrap r; t u).
Proof.
  intros Ht.
  eapply obeys_then; [apply (obeys_event _ _ (fun s r => s = worker_after _ (Send 3 (Packet id 0 0)) r (Working id)))|].
  { split; [done|]. by exists id. } { done. }
  intros ? r ->. eapply (obeys_then _ _ (fun s _ => s = Reported)).
  - apply obeys_unwrap; [done..|]. destruct r; [done|by right].
  - by intros ? [] ->.
Qed.

Lemma report_last id :
  worker_obeys (fun s _ => s = Reported) (Working id) (r ← send 3 (Packet id 0 0); unwrap r).
Proof.
  eapply (obeys_eutt _ _ _ _ (r ← send 3 (Packet id 0 0); u ← unwrap r; mret u)).
  - by apply report_worker, obeys_ret.
  - apply eutt_eq_bind; intros r. apply eq_sub_eutt, bind_ret_r.
Qed.

Lemma recursive_worker (f : Z -> Z -> program unit) xs :
  (forall id, f 0 id ≈ for_in xs (visit id)) ->
  worker_obeys (fun s _ => s = Reported) Unnamed
    (thread_id ← recv_id;
     println (text "[thread " ++ decimal thread_id ++ text "]: Starting recursive function");;
     f 0 thread_id;;
     r ← send 3 (Packet thread_id 0 0);
     unwrap r;;
     (thread_exit : program unit)).
Proof.
  intros Hf. eapply obeys_then; [apply recv_id_worker|]. intros ? id ->. apply worker_println_then.
  eapply (obeys_then _ _ (fun s _ => s = Working id)).
  - eapply (obeys_eutt _ _ _ _ (for_in xs (visit id))).
    + apply loop_worker, visit_worker.
    + symmetry. apply Hf.
  - intros ? [] ->. apply report_worker, obeys_exit. by left.
Qed.

Lemma recursion_loops id :
  recursive_function 0 id ≈ for_in ((fun i => 0 + 10 * i) <$> seqZ 0 (Z.of_nat 50 + 1)) (visit id) /\
  recursive_too_deep_function 0 id ≈ for_in ((fun i => 0 + 1 * i) <$> seqZ 0 (Z.of_nat 500 + 1)) (visit id).
Proof. split; [apply (recursion_is_loop 10 50)|apply (recursion_is_loop 1 500)]; lia. Qed.

Lemma heap_alloc_borrows :
  obeys borrower_allowed borrower_after (fun s _ => s = GivenBack) Nameless heap_alloc.
Proof.
  eapply (obeys_then _ _ (fun s _ => s = Named)).
  - eapply obeys_then; [by apply (obeys_event _ _ (fun s r => s = borrower_after _ (Receive 2) r Nameless))|].
    intros ? r ->. eapply (obeys_then _ _ (fun s _ => s = Named)).
    + apply obeys_unwrap; [done..|]. by destruct r.
    + intros s [id ? ?] Hs. by apply obeys_ret.
  - intros ? _ ->. eapply (obeys_then _ _ (fun s p => s = Holds p)).
    + eapply obeys_then; [by apply (obeys_event _ _ (fun s p => s = borrower_after _ (HeapAlloc 4 4) p Named))|].
      intros ? p ->. cbn. case_decide; [by apply obeys_panic|by apply obeys_ret].
    + intros ? p ->. by apply obeys_event.
Qed.

(** C31: the spawned threads.  Whatever the kernel answers, each of the five
    functions threads are spawned on receives its identifier first.  Four of
    them then do their work and report that identifier on handle 3 at most
    once, as their last message: they return only after the report, and they
    exit only after it or after a call that failed, in which case there may be
    no report.  The fifth, [heap_alloc], never reports: it allocates one box
    and gives it back, or exits when a call or the allocation fails. *)
Theorem worker_reports :
  Forall (worker_obeys (fun s _ => s = Reported) Unnamed)
    [tester; write_to_kernel_stack; recursive_thread; recursive_too_deep_thread] /\
  obeys borrower_allowed borrower_after (fun s _ => s = GivenBack) Nameless heap_alloc.
Proof.
  split; [|apply heap_alloc_borrows].
  repeat apply Forall_cons_2; [..|apply Forall_nil_2].
  - eapply obeys_then; [apply recv_id_worker|]. intros ? id ->.
    eapply (obeys_then _ _ (fun s _ => s = Working id)); [apply loop_worker, count_worker|].
    intros ? [] ->. apply report_last.
  - eapply obeys_then; [apply recv_id_worker|]. intros ? id ->.
    eapply (obeys_then _ _ (fun s _ => s = Working id)); [apply loop_worker, count_worker|]. intros ? [] ->.
    eapply (obeys_then _ _ (fun s _ => s = Working id)); [|intros ? [] ->; apply report_last].
    case_decide; [|by apply obeys_println].
    eapply (obeys_then _ _ (fun s _ => s = Working id)); [by apply obeys_event; [eexists|]|].
    intros ? [] ->.
    eapply (obeys_then _ _ (fun s _ => s = Working id)); [by apply obeys_event; [eexists|]|].
    intros ? v ->. by apply obeys_println.
  - eapply recursive_worker. intros id. apply recursion_loops.
  - eapply recursive_worker. intros id. apply recursion_loops.
Qed.
End Workers.
