(* ===== verification/Boot.v ===== *)
(** * From boot to the shell (kernel/src/main.rs, kernel/src/boot/gdt.rs, kernel/src/dev/vga_buffer.rs)

    The tables the processor is given at boot, and the first kernel thread:
    [kernel_thread_main] starts the console listener, loads the shell with the
    five sockets as its handles and sends it its identifier. *)
From S2P Require Import Prelude Text Logger Heap Bump FixedBlock Frames Paging Vga Keyboard Abi Sync Isf Thread Mapping Kernel Syscall Spawn Irq Arena System Loader Stacks Registers Asm Api Ipc.

(** ** The segments *)

(** [x86_64::structures::gdt::Descriptor] *)
Inductive Descriptor :=
| kernel_code_segment
| kernel_data_segment
| tss_segment
| user_data_segment
| user_code_segment.

(** [GlobalDescriptorTable]: an entry is added behind those there are, and its
    selector is its offset with the privilege level in the low bits.  A
    segment takes one slot of eight bytes, the TSS two; the first slot is the
    null descriptor. *)
Class GdtBuilder (G : Type) := {
  gdt_new : G;
  add_entry : Descriptor -> G -> Z * G;
}.

Definition slots (d : Descriptor) : Z := match d with tss_segment => 2 | _ => 1 end.
Definition privilege (d : Descriptor) : Z :=
  match d with user_data_segment | user_code_segment => 3 | _ => 0 end.

Class GdtBuilderLaws (G : Type) `{GdtBuilder G} := {
  gdt_slots : G -> Z;
  gdt_slots_new : gdt_slots gdt_new = 1;
  add_entry_spec d g : exists g',
    add_entry d g = (8 * gdt_slots g + privilege d, g') /\ gdt_slots g' = gdt_slots g + slots d;
}.

(** The static [GDT] *)
Definition GDT (G : Type) `{GdtBuilder G} : Selectors :=
  let gdt := gdt_new in
  let '(code_selector, gdt) := add_entry kernel_code_segment gdt in
  let '(data_selector, gdt) := add_entry kernel_data_segment gdt in
  let '(tss_selector, gdt) := add_entry tss_segment gdt in
  let '(user_data_selector, gdt) := add_entry user_data_segment gdt in
  let '(user_code_selector, gdt) := add_entry user_code_segment gdt in
  {| code_selector := code_selector; data_selector := data_selector;
     tss_selector := tss_selector; user_code_selector := user_code_selector;
     user_data_selector := user_data_selector |}.

(** The interrupt stack table of the static [TSS]; [stack_start] is the address
    of its static stack. *)
Definition DOUBLE_FAULT_IST_INDEX : Z := 0.
Definition TSS (stack_start : Z) : outcome (list Z) :=
  let interrupt_stack_table := replicate 7 0 in
  let stack_end := stack_start +w 4096 * 5 in
  interrupt_stack_table ← vset interrupt_stack_table DOUBLE_FAULT_IST_INDEX stack_end;
  stack ← vindex interrupt_stack_table DOUBLE_FAULT_IST_INDEX;
  vset interrupt_stack_table TIMER_INTERRUPT_INDEX stack.

Lemma TSS_spec stack_start :
  let stack_end := stack_start +w 4096 * 5 in
  TSS stack_start = Done [stack_end; stack_end; 0; 0; 0; 0; 0].
Proof. reflexivity. Qed.

Section Segments.
Context {G : Type} `{GdtBuilderLaws G}.

Lemma GDT_selectors : GDT G = mkSelectors 8 16 24 (40 + 3) (48 + 3).
Proof.
  unfold GDT.
  destruct (add_entry_spec kernel_code_segment gdt_new) as (g1 & -> & H1).
  destruct (add_entry_spec kernel_data_segment g1) as (g2 & -> & H2).
  destruct (add_entry_spec tss_segment g2) as (g3 & -> & H3).
  destruct (add_entry_spec user_data_segment g3) as (g4 & -> & H4).
  destruct (add_entry_spec user_code_segment g4) as (g5 & -> & _).
  rewrite gdt_slots_new in H1. cbn [slots privilege] in *. rewrite H4, H3, H2, H1, gdt_slots_new. done.
Qed.

(** The segments.  The selectors that [syscall] and [sysret] load, which
    follow from the constant [init] writes to the STAR register, are the ones
    of the descriptor table that contexts are given: code and data of the
    kernel on entry, code and data of user programs on return. *)
Lemma segments_agree :
  get_kernel_segments (gdt := GDT G) = (SYSCALL_CS, SYSCALL_SS) /\
  get_user_segments (gdt := GDT G) = (SYSRET_CS, SYSRET_SS).
Proof. unfold get_kernel_segments, get_user_segments. rewrite GDT_selectors. split; reflexivity. Qed.
End Segments.

(** ** The first kernel thread *)

Section FirstThread.
Context {MM : Type} `{MemoryManager MM} {gdt : Selectors} `{VirtPages} `{Mapper MM}
  `{PhysicalMemory MM} `{ElfParser}.
Implicit Types (k : kernel MM).

(** [start_listener] of vga_buffer.rs: a socket of its own and a kernel thread
    that reads it; [listener] is the address of the function. *)
Definition start_listener (listener : Z) k : outcome (Z * kernel MM) :=
  let rend := fresh (dom (socket_heap k)) in
  let k := with_sockets (<[rend := Socket.Empty]> (socket_heap k)) k in
  '(_, k) ← spawn_kernel_thread listener [rend] k;
  Done (rend, k).

(** [kernel_thread_main], up to the [hlt_loop] it ends in or, on an error, its
    [return]; [bin] is the included file. *)
Definition kernel_thread_main (listener : Z) (bin : list Z) k : outcome (kernel MM) :=
  let keyboard_listener := KEYBOARD_SOCKET in
  '(vga_listener, k) ← start_listener listener k;
  let resources := [keyboard_listener; vga_listener; ID_SOCKET; FIN_SOCKET; PROC_FIN_SOCKET] in
  '(proc, k) ← spawn_user_thread bin resources k;
  match proc with
  | Ok proc_id => notify_id proc_id k
  | Err e => Done (println (text "Error spawning user thread: " ++ text e) k)
  end.

(** A message that waits in a socket without a sender is received at once. *)
Lemma sys_receive_pending ctx handle k t s m :
  RUNNING_THREAD k = Some t -> thread_get_sockets t handle k = Some s ->
  socket_at s k = Socket.Sending None m ->
  exists k', sys_receive ctx handle k = Done (Return, k') /\
    memory k' = return_message (set_context ctx t) m (memory k) /\
    RUNNING_THREAD k' = Some (set_context ctx t) /\
    socket_heap k' = <[s := Socket.Empty]> (socket_heap k).
Proof.
  intros Hr Hh Hs. unfold sys_receive, take_current_thread. rewrite Hr.
  unfold thread_get_sockets, socket_at in *. cbn. rewrite Hh, Hs. cbn.
  rewrite decide_True by done. cbn. eexists. done.
Qed.

Lemma receive_pending ctx regs k t s m :
  RUNNING_THREAD k = Some t -> thread_get_sockets t 2 k = Some s ->
  socket_at s k = Socket.Sending None m ->
  exists k', handle_syscall ctx (Api.receive_request 2 regs) k = Done (Return, k') /\
    Api.receive_result (Isf.load (memory k') ctx) = Ok m.
Proof.
  intros Hr Hh Hs. rewrite handle_receive.
  destruct (sys_receive_pending ctx 2
    (with_memory (trap_memory ctx (Api.receive_request 2 regs) (memory k)) k) t s m)
    as (k' & Hrun & Hm & _); [done..|].
  exists k'. split; [done|]. rewrite Hm. cbn [memory with_memory].
  match goal with |- context [return_message ?u m ?mem] =>
    pose proof (receive_result_reply u _ (code_message u m mem)) as Hres end.
  by rewrite payload_message in Hres.
Qed.

(** The shell is started.  Run on a kernel whose ID socket is empty,
    [kernel_thread_main] puts the console listener in the queue, with a new
    socket as its only handle, and then, unless it prints an error, the shell
    in front of it: its five handles are the keyboard, the listener and the
    three static sockets, in the order of the numbers the shell uses, and its
    identifier waits in the ID socket.  When the shell runs, its first call
    ([recv_id]) returns that identifier at once. *)
Lemma shell_boots listener bin k k'
    (Hid : socket_heap k !! ID_SOCKET = Some Socket.Empty)
    (Hrun : kernel_thread_main listener bin k = Done k') :
  exists l vga, (vga ∉ dom (socket_heap k)) /\ RUNNING_THREAD k' = RUNNING_THREAD k /\
    thread_get_sockets l 0 k' = Some vga /\ socket_at vga k' = Socket.Empty /\
    ((WAIT_QUEUE k' = l :: WAIT_QUEUE k /\ exists s e,
       printed k' = (s ++ text "Error spawning user thread: " ++ text e ++ [0x0A])%list) \/
     exists t, WAIT_QUEUE k' = t :: l :: WAIT_QUEUE k /\
       ((fun h => thread_get_sockets t h k') <$> [0; 1; 2; 3; 4]) =
         (Some <$> [KEYBOARD_SOCKET; vga; ID_SOCKET; FIN_SOCKET; PROC_FIN_SOCKET]) /\
       socket_at ID_SOCKET k' = Socket.Sending None (Packet (thread_id t) 0 0) /\
       (exists obj, parse bin = Some obj /\
         let regs := Isf.load (memory k') (context t) in
         Isf.instruction_pointer regs = Elf.entry obj /\ Isf.stack_pointer regs = user_stack_end t) /\
       forall k2 ctx regs, RUNNING_THREAD k2 = Some t ->
         process_heap k2 !!! process t = process_heap k' !!! process t ->
         socket_at ID_SOCKET k2 = socket_at ID_SOCKET k' ->
         exists k3, handle_syscall ctx (Api.receive_request 2 regs) k2 = Done (Return, k3) /\
           Api.receive_result (Isf.load (memory k3) ctx) = Ok (Packet (thread_id t) 0 0)).
Proof.
  unfold kernel_thread_main, start_listener in Hrun.
  set (vga := fresh (dom (socket_heap k))) in Hrun.
  assert (Hvga : vga ∉ dom (socket_heap k)) by apply is_fresh.
  assert (Hne : vga <> ID_SOCKET) by (intros Heq; apply Hvga; rewrite Heq; by apply elem_of_dom).
  bind_Done Hrun. destruct r as [vga' k1]. bind_Done Hr. destruct r as [uid k0].
  apply Done_inj in Hr. injection Hr as <- <-.
  apply spawn_kernel_thread_starts in Hr0 as (Hsock1 & Hrun1 & l & Hq1 & Hl & _).
  cbn in Hsock1, Hq1, Hrun1.
  bind_Done Hrun. destruct r as [proc k2].
  apply spawn_user_thread_spec in Hr as (_ & Hrun2 & Hsock2 & Hprocs & Hr). rewrite Hrun1 in Hrun2. rewrite Hsock1 in Hsock2.
  assert (Hl2 : thread_get_sockets l 0 k2 = Some vga).
  { unfold thread_get_sockets, Handles.get_sockets.
    rewrite (lookup_total_correct _ _ (mkProcess 0 [Some vga])); [done|].
    rewrite Hprocs by (apply elem_of_dom; by eexists). exact Hl. }
  exists l, vga. split; [done|]. destruct proc as [uid'|e].
  - destruct Hr as (obj & table & m & m0 & k3 & t & _ & Hparse & _ & _ & _ & Hq & Hid' & _ & _ & Hpr & Hip & Hsp).
    unfold notify_id, kernel_send, socket_at in Hrun. rewrite Hsock2 in Hrun.
    rewrite (lookup_total_correct _ ID_SOCKET Socket.Empty) in Hrun by (by rewrite lookup_insert_ne).
    cbn in Hrun. simplify_eq. split; [exact Hrun2|]. split; [exact Hl2|]. unfold socket_at. cbn [socket_heap with_memory with_sockets]. split.
    { rewrite lookup_total_insert_ne by done. apply lookup_total_insert_eq. }
    right. exists t. split; [by rewrite <-Hq1|]. split.
    { unfold thread_get_sockets, Handles.get_sockets. cbn [process_heap with_memory with_sockets]. by rewrite Hpr. }
    split; [apply lookup_total_insert_eq|]. split; [by exists obj|]. intros k4 ctx regs Hr4 Hp4 Hs4.
    eapply receive_pending; [done| |].
    + unfold thread_get_sockets, Handles.get_sockets. rewrite Hp4. cbn [process_heap with_memory with_sockets]. by rewrite Hpr.
    + unfold socket_at. rewrite Hs4. apply lookup_total_insert_eq.
  - destruct Hr as [Hq _]. simplify_eq. split; [exact Hrun2|]. split; [exact Hl2|]. split.
    { unfold socket_at. cbn [socket_heap println print with_printed]. rewrite Hsock2. apply lookup_total_insert_eq. }
    left. split; [by rewrite <-Hq1|]. exists (printed k2), e. cbn. by rewrite <-!app_assoc.
Qed.
End FirstThread.

(** [kernel_thread_main] is a sequence of steps of the kernel, so what holds in
    every state holds after it. *)
Section Steps.
Context {MM K : Type} `{MemoryManager MM} {gdt : Selectors} `{VirtPagesLaws} `{Mapper MM}
  `{PhysicalMemory MM} `{!LoaderRemaps MM} `{ElfParser} `{KeyboardDecoder K}.
Implicit Types (k : kernel MM).

Lemma start_listener_steps listener k rend k' :
  0 <= COUNTER k -> ids_left k -> start_listener listener k = Done (rend, k') ->
  rtc (thread_step (K := K)) k k' /\ COUNTER k' = COUNTER k + 1.
Proof.
  intros Hpos Hids Hrun. unfold start_listener in Hrun. bind_Done Hrun. destruct r as [uid k1]. simplify_eq.
  pose proof (spawn_kernel_thread_cases thread_id _ _ _ _ _ Hr) as (t & p & _ & _ & Hu & Hc & _).
  cbn in Hu, Hc. split.
  - eapply rtc_l; [apply works_step, WorkSocket, is_fresh|]. apply rtc_once. by eexists; split; [|econstructor].
  - rewrite Hc, Hu. apply wrap64_small. unfold is_u64, ids_left in *. lia.
Qed.

Lemma kernel_thread_main_steps listener bin k k' :
  0 <= COUNTER k -> COUNTER k + 3 < 2 ^ 64 -> kernel_thread_main listener bin k = Done k' ->
  rtc (thread_step (K := K)) k k'.
Proof.
  intros Hpos Hids Hrun. unfold kernel_thread_main in Hrun. bind_Done Hrun. destruct r as [vga k1].
  apply start_listener_steps in Hr as [Hs1 Hc]; [|done|unfold ids_left; lia].
  bind_Done Hrun. destruct r as [proc k2].
  assert (Hs2 : rtc (thread_step (K := K)) k1 k2)
    by (eapply spawn_user_thread_steps; [unfold ids_left; lia|exact Hr]).
  etransitivity; [exact Hs1|]. eapply rtc_r; [exact Hs2|]. destruct proc as [uid|e].
  - by eexists; split; [|econstructor].
  - apply spawn_user_thread_spec in Hr as (_ & _ & _ & _ & _ & He). simplify_eq.
    apply works_step, WorkPrint.
    destruct He as [[-> _]|[[-> _]|[-> | ->]]]; vm_compute; reflexivity.
Qed.
End Steps.

(** ** The console listener

    One round of [listener] after its receive: the second data word of the
    message has to be a character. *)
Definition listener_round (regs : Isf.ISF) : outcome unit :=
  match char_from_u32 (Isf.rsi regs) with
  | Some _ => Done tt
  | None => Panic
  end.

(** C32: the listener.  When a program sends a message on its console handle
    while the listener waits, the call returns, the listener is the next to
    run, and its round panics, in the kernel, exactly if the second word of
    the message is no Unicode scalar value. *)
Theorem listener_survives {MM} `{MemoryManager MM} {gdt : Selectors} (k : kernel MM)
    (t l : Thread) (handle s ctx d1 d2 d3 : Z) (regs : Isf.ISF)
    (Hrun : RUNNING_THREAD k = Some t) (Hhandle : thread_get_sockets t handle k = Some s)
    (Hbound : 0 <= handle < 2 ^ 32) (Hwait : socket_at s k = Socket.Receiving l None)
    (Hne : thread_id l ≠ thread_id t) (Hapart : Isf.apart (context l) ctx) :
  exists k', handle_syscall ctx (Api.send_request handle (Packet d1 d2 d3) regs) k =
      Done (Return, k') /\
    WAIT_QUEUE k' = l :: WAIT_QUEUE k /\
    listener_round (Isf.load (memory k') (context l)) =
      if decide (is_char (d2 mod 2 ^ 32)) then Done tt else Panic.
Proof.
  rewrite handle_send by done.
  match goal with |- context [sys_send _ _ _ _ _ ?x] =>
    destruct (sys_send_receiving ctx handle d1 d2 d3 x t l s) as (k' & Hk & _ & Hq & _ & Hm); [done..|] end.
  exists k'. split; [done|]. split; [done|].
  assert (Hr : Api.receive_result (Isf.load (memory k') (context l)) = Ok (Packet d1 d2 d3)).
  { rewrite Hm, load_return_error by (simpl; auto with zephyr).
    rewrite receive_result_reply by apply code_message. by rewrite payload_message. }
  unfold Api.receive_result in Hr. case_decide; [|done]. injection Hr as _ <- _.
  unfold listener_round, char_from_u32. cbv zeta. by destruct (decide (is_char _)).
Qed.

(** ** At concrete inputs *)

(** A descriptor table as the number of its slots. *)
Definition counting_gdt : GdtBuilder Z := {|
  gdt_new := 1;
  add_entry d n := (8 * n + privilege d, n + slots d);
|}.

Lemma counting_gdt_laws : @GdtBuilderLaws Z counting_gdt.
Proof. refine {| gdt_slots := id |}; [done|]. intros d n. eexists. split; reflexivity. Qed.

#[local] Existing Instances flat_gdt.

(** Thread 1 sends a surrogate on the handle of socket 3, which thread 3
    reads. *)
Definition listening : kernel Z :=
  with_sockets {[3 := Socket.Receiving (demo_thread 3 7 0x5000) None]}
    (demo_kernel (Some (demo_thread 1 7 0)) []).

Lemma listener_survives_witness :
  exists k', handle_syscall (H := arena) 0x3000
      (Api.send_request 2 (Packet 0 0xD800 0) demo_regs) listening = Done (Return, k') /\
    listener_round (Isf.load (memory k') 0x5000) = Panic.
Proof.
  destruct (listener_survives (H := arena) listening (demo_thread 1 7 0) (demo_thread 3 7 0x5000)
    2 3 0x3000 0 0xD800 0 demo_regs) as (k' & Hk & _ & Hl).
  - reflexivity.
  - vm_compute. reflexivity.
  - done.
  - vm_compute. reflexivity.
  - done.
  - right. vm_compute. discriminate.
  - exists k'. split; [exact Hk|exact Hl].
Defined.
