(* ===== verification/Setup.v ===== *)
(** * Setting up the machine (kernel/src/lib.rs, kernel/src/main.rs, kernel/src/boot, kernel/src/syscall.rs, kernel/src/mem/memory.rs)

    What happens before the first thread runs: the interrupt descriptor table,
    [kernel::init], the model-specific registers of [syscall::init],
    [memory::init], and [kernel_main] which calls them in order. *)
From S2P Require Import Prelude Text Logger Heap Bump FixedBlock Frames Paging UserStack Hierarchy Vga Keyboard Abi Sync Isf Thread Mapping Kernel Syscall Spawn Irq Arena System Loader Stacks Registers Asm Memory TableMapper Walker Boot.

(** ** The interrupt descriptor table *)

Module Idt.

(** The handlers of interrupts.rs. *)
Variant Handler :=
| breakpoint_handler
| double_fault_handler
| page_fault_handler
| general_protection_fault_handler
| timer_handler_naked
| keyboard_interrupt_handler.

(** A gate: the handler, and the entry of the interrupt stack table the
    processor switches to. *)
Record Gate := mkGate {
  handler : Handler;
  stack_index : option Z;
}.

Definition PAGE_FAULT_IST_INDEX : Z := 0.
Definition GENERAL_PROTECTION_FAULT_IST_INDEX : Z := 0.

Definition PIC_1_OFFSET : Z := 32.
Definition PIC_2_OFFSET : Z := PIC_1_OFFSET + 8.

Variant InterruptIndex := Timer | Keyboard.

(** [InterruptIndex::as_u8] and [as_usize] *)
Definition as_u8 (i : InterruptIndex) : Z :=
  match i with Timer => PIC_1_OFFSET | Keyboard => PIC_1_OFFSET + 1 end.
Definition as_usize (i : InterruptIndex) : Z := as_u8 i.

(** The vectors of the processor's exceptions. *)
Definition BREAKPOINT : Z := 3.
Definition DOUBLE_FAULT : Z := 8.
Definition GENERAL_PROTECTION : Z := 13.
Definition PAGE_FAULT : Z := 14.

(** The static [IDT], by vector *)
Definition IDT : gmap Z Gate :=
  let idt := ∅ in
  let idt := <[BREAKPOINT := mkGate breakpoint_handler None]> idt in
  let idt := <[DOUBLE_FAULT := mkGate double_fault_handler (Some DOUBLE_FAULT_IST_INDEX)]> idt in
  let idt := <[PAGE_FAULT := mkGate page_fault_handler (Some PAGE_FAULT_IST_INDEX)]> idt in
  let idt := <[GENERAL_PROTECTION :=
    mkGate general_protection_fault_handler (Some GENERAL_PROTECTION_FAULT_IST_INDEX)]> idt in
  let idt := <[as_usize Timer := mkGate timer_handler_naked (Some TIMER_INTERRUPT_INDEX)]> idt in
  <[as_usize Keyboard := mkGate keyboard_interrupt_handler (Some KEYBOARD_INTERRUPT_INDEX)]> idt.

(** Where the processor starts to save registers for an interrupt: at the
    end of the stack the gate names, or on the stack in use. *)
Definition delivery (vector : Z) (ist : list Z) (stack_pointer : Z) : option (Handler * Z) :=
  gate ← IDT !! vector;
  match stack_index gate with
  | Some i => (fun stack => (handler gate, stack)) <$> vget ist i
  | None => Some (handler gate, stack_pointer)
  end.

Lemma delivery_stack vector h ist i sp stack :
  IDT !! vector = Some (mkGate h (Some i)) -> vget ist i = Some stack ->
  delivery vector ist sp = Some (h, stack).
Proof. intros Hv Hs. unfold delivery. rewrite Hv. cbn. by rewrite Hs. Qed.
End Idt.

(** ** The tables of the processor *)

Module Tables.

(** The registers that refer to tables: the descriptor table, known by its
    selectors, the segments, the interrupt descriptor table; the vectors the
    interrupt controllers were set to; and the interrupt flag. *)
Record Tables := mkTables {
  gdtr : option Selectors;
  cs : Z;
  ds : Z;
  tr : Z;
  idtr : gmap Z Idt.Gate;
  offsets : option (Z * Z);
  interrupts_enabled : bool;
}.
Implicit Type c : Tables.

(** [gdt::init] *)
Definition gdt_init {gdt : Selectors} c : Tables :=
  {| gdtr := Some gdt; cs := code_selector gdt; ds := data_selector gdt; tr := tss_selector gdt;
     idtr := idtr c; offsets := offsets c; interrupts_enabled := interrupts_enabled c |}.

(** [init_idt] *)
Definition init_idt c : Tables :=
  {| gdtr := gdtr c; cs := cs c; ds := ds c; tr := tr c; idtr := Idt.IDT;
     offsets := offsets c; interrupts_enabled := interrupts_enabled c |}.

(** The static [PICS], by its two offsets; [initialize] sets the controllers
    to them. *)
Definition PICS : Z * Z := (Idt.PIC_1_OFFSET, Idt.PIC_2_OFFSET).
Definition initialize c : Tables :=
  {| gdtr := gdtr c; cs := cs c; ds := ds c; tr := tr c; idtr := idtr c;
     offsets := Some PICS; interrupts_enabled := interrupts_enabled c |}.

Definition enable c : Tables :=
  {| gdtr := gdtr c; cs := cs c; ds := ds c; tr := tr c; idtr := idtr c;
     offsets := offsets c; interrupts_enabled := true |}.

(** [kernel::init] *)
Definition init {gdt : Selectors} c : Tables := enable (initialize (init_idt (gdt_init c))).

(** What the processor runs for line [n] of the first controller. *)
Definition on_line (n : Z) c : option Idt.Gate :=
  if interrupts_enabled c then
    match offsets c with Some (first, _) => idtr c !! (first + n) | None => None end
  else None.

(** After [kernel::init] both lines in use reach their handlers, and each step
    had what it relies on: the segments are those of the loaded table. *)
Lemma tables_init_spec {gdt : Selectors} c :
  gdtr (init c) = Some gdt /\ (cs (init c), ds (init c)) = get_kernel_segments /\
  tr (init c) = tss_selector gdt /\
  Idt.handler <$> on_line 0 (init c) = Some Idt.timer_handler_naked /\
  Idt.handler <$> on_line 1 (init c) = Some Idt.keyboard_interrupt_handler.
Proof. done. Qed.
End Tables.

(** ** Model-specific registers *)

(** The registers [syscall::init] uses, and those of [kernel::init]. *)
Record Cpu := mkCpu {
  rax : Z;
  rcx : Z;
  rdx : Z;
  msr : Z -> Z;
  loaded : Tables.Tables;
}.

Definition with_loaded t (c : Cpu) : Cpu := mkCpu (rax c) (rcx c) (rdx c) (msr c) t.

Module Msr.

Definition set_rax (v : Z) c : Cpu := mkCpu v (rcx c) (rdx c) (msr c) (loaded c).
Definition set_rcx (v : Z) c : Cpu := mkCpu (rax c) v (rdx c) (msr c) (loaded c).
Definition set_rdx (v : Z) c : Cpu := mkCpu (rax c) (rcx c) v (msr c) (loaded c).

(** The low half of a register, which an instruction on [eax], [ecx] or [edx]
    reads; writing it clears the high half. *)
Definition low (v : Z) : Z := v mod 2 ^ 32.

(** [rdmsr] and [wrmsr]: the register named by ECX, in EDX and EAX. *)
Definition rdmsr c : Cpu :=
  mkCpu (low (msr c (low (rcx c)))) (rcx c) (msr c (low (rcx c)) / 2 ^ 32) (msr c)
    (loaded c).
Definition wrmsr c : Cpu :=
  mkCpu (rax c) (rcx c) (rdx c)
    (fun r => if decide (r = low (rcx c)) then low (rdx c) * 2 ^ 32 + low (rax c) else msr c r)
    (loaded c).

Definition MSR_EFER : Z := 0xC0000080.
Definition MSR_STAR : Z := 0xc0000081.
Definition MSR_LSTAR : Z := 0xc0000082.
Definition MSR_FMASK : Z := 0xc0000084.
Definition MSR_KERNEL_GS_BASE : Z := 0xC0000102.

(** The five [asm!] blocks; operands are loaded before the first instruction. *)
Definition enable_sce c : Cpu :=
  let c := set_rcx 0xC0000080 c in
  let c := rdmsr c in
  let c := set_rax (Z.lor (low (rax c)) 1) c in
  wrmsr c.

Definition set_fmask c : Cpu :=
  let c := set_rcx MSR_FMASK c in
  let c := set_rdx (Z.lxor (rdx c) (rdx c)) c in
  let c := set_rax 0x300 c in
  wrmsr c.

Definition set_lstar (handler_addr : Z) c : Cpu :=
  let c := set_rcx MSR_LSTAR (set_rax handler_addr c) in
  let c := set_rdx (rax c) c in
  let c := set_rdx (Z.shiftr (rdx c) 32) c in
  wrmsr c.

Definition set_star c : Cpu :=
  let c := set_rcx MSR_STAR c in
  let c := set_rax (Z.lxor (rax c) (rax c)) c in
  let c := set_rdx 0x230008 c in
  wrmsr c.

Definition set_gs_base (tss_addr : Z) c : Cpu :=
  let c := set_rdx tss_addr (set_rcx MSR_KERNEL_GS_BASE c) in
  let c := set_rax (low (rdx c)) c in
  let c := set_rdx (Z.shiftr (rdx c) 32) c in
  wrmsr c.

(** [syscall::init]; [handler_addr] is the address of [handle_syscall]. *)
Definition init (handler_addr tss_addr : Z) c : Cpu :=
  set_gs_base tss_addr (set_star (set_lstar handler_addr (set_fmask (enable_sce c)))).

(** ** Lemmas *)

Lemma low_small v : 0 <= v < 2 ^ 32 -> low v = v.
Proof. intros Hv. by apply Z.mod_small. Qed.

Lemma halves v : is_u64 v -> low (v / 2 ^ 32) * 2 ^ 32 + low v = v.
Proof. unfold low, is_u64. intros Hv. Z.div_mod_to_equations. lia. Qed.

(** A write of the two halves of [v] sets the register to [v]. *)
Lemma wrmsr_spec c m a v :
  rcx c = m -> rax c = a -> 0 <= m < 2 ^ 32 -> low (rdx c) * 2 ^ 32 + low a = v ->
  msr (wrmsr c) = fun r => if decide (r = m) then v else msr c r.
Proof. intros <- <- Hm <-. unfold wrmsr. cbn [msr]. by rewrite low_small. Qed.

Lemma low_or_1 v : 0 <= v -> low (Z.lor (low v) 1) = Z.lor (low v) 1.
Proof.
  intros Hv. assert (Hl : 0 <= low v < 2 ^ 32) by (apply Z.mod_pos_bound; lia). apply low_small.
  assert (0 <= Z.lor (low v) 1) by (apply Z.lor_nonneg; lia). split; [done|].
  destruct (Z.eq_dec (Z.lor (low v) 1) 0) as [->|]; [lia|].
  apply Z.log2_lt_pow2; [lia|]. rewrite Z.log2_lor by lia.
  apply Z.max_lub_lt; [|done].
  destruct (Z.eq_dec (low v) 0) as [->|]; [done|]. apply Z.log2_lt_pow2; lia.
Qed.

(** Bit 0 of the low half is bit 0 of the register. *)
Lemma or_1_halves v : is_u64 v -> v / 2 ^ 32 * 2 ^ 32 + Z.lor (low v) 1 = Z.lor v 1.
Proof.
  intros [Hv _]. unfold low.
  assert (Hor : forall x, Z.lor x 1 = x + (1 - x mod 2)).
  { intros x. rewrite (Z_div_mod_eq_full x 2) at 1 2.
    destruct (Z.mod_pos_bound x 2) as [? ?]; [lia|].
    assert (x mod 2 = 0 \/ x mod 2 = 1) as [-> | ->] by lia.
    - rewrite Z.add_0_r. replace (2 * (x / 2)) with (Z.double (x / 2)) by (rewrite Z.double_spec; lia).
      change 1 with (Z.succ_double 0) at 1. by destruct (x / 2) as [|[]|[]].
    - replace (2 * (x / 2) + 1) with (Z.succ_double (x / 2)) by (rewrite Z.succ_double_spec; lia).
      rewrite Z.add_0_r. destruct (x / 2) as [|[]|[]]; done. }
  rewrite !Hor. change (2 ^ 32) with 4294967296. Z.div_mod_to_equations. lia.
Qed.

(** What each block writes. *)
Lemma enable_sce_msr c : is_u64 (msr c MSR_EFER) ->
  msr (enable_sce c) = fun r => if decide (r = MSR_EFER) then Z.lor (msr c MSR_EFER) 1 else msr c r.
Proof.
  intros He. unfold enable_sce. cbv zeta. erewrite (wrmsr_spec _ MSR_EFER); [reflexivity|done..|].
  cbn [rax rcx rdx set_rax set_rcx rdmsr]. change (low 0xC0000080) with MSR_EFER.
  change (msr (set_rcx _ c)) with (msr c). set (v := msr c MSR_EFER) in *. rewrite low_or_1 by (apply Z.mod_pos_bound; lia).
  rewrite (low_small (v / 2 ^ 32)) by (unfold is_u64 in He; Z.div_mod_to_equations; lia).
  rewrite <-(or_1_halves v He). f_equal. unfold low. by rewrite Z.mod_mod.
Qed.

Lemma set_fmask_msr c :
  msr (set_fmask c) = fun r => if decide (r = MSR_FMASK) then Asm.FMASK else msr c r.
Proof.
  unfold set_fmask. cbv zeta. erewrite (wrmsr_spec _ MSR_FMASK); [reflexivity|done..|]. cbn. by rewrite Z.lxor_nilpotent.
Qed.

Lemma set_lstar_msr handler_addr c : is_u64 handler_addr ->
  msr (set_lstar handler_addr c) = fun r => if decide (r = MSR_LSTAR) then handler_addr else msr c r.
Proof.
  intros Hh. unfold set_lstar. cbv zeta. erewrite (wrmsr_spec _ MSR_LSTAR); [reflexivity|done..|].
  cbn [rax rcx rdx set_rax set_rcx set_rdx]. rewrite Z.shiftr_div_pow2 by done. by apply halves.
Qed.

Lemma set_star_msr c :
  msr (set_star c) = fun r => if decide (r = MSR_STAR) then Asm.STAR else msr c r.
Proof.
  unfold set_star. cbv zeta. erewrite (wrmsr_spec _ MSR_STAR); [reflexivity|done..|]. cbn. by rewrite Z.lxor_nilpotent.
Qed.

Lemma set_gs_base_msr tss_addr c : is_u64 tss_addr ->
  msr (set_gs_base tss_addr c) = fun r => if decide (r = MSR_KERNEL_GS_BASE) then tss_addr else msr c r.
Proof.
  intros Ht. unfold set_gs_base. cbv zeta. erewrite (wrmsr_spec _ MSR_KERNEL_GS_BASE); [reflexivity|done..|].
  cbn [rax rcx rdx set_rax set_rcx set_rdx].
  rewrite Z.shiftr_div_pow2, (low_small (low _)) by (done || apply Z.mod_pos_bound; lia). by apply halves.
Qed.

Lemma init_spec handler_addr tss_addr c :
  is_u64 handler_addr -> is_u64 tss_addr -> is_u64 (msr c MSR_EFER) ->
  msr (init handler_addr tss_addr c) = fun r =>
    if decide (r = MSR_KERNEL_GS_BASE) then tss_addr
    else if decide (r = MSR_STAR) then Asm.STAR
    else if decide (r = MSR_LSTAR) then handler_addr
    else if decide (r = MSR_FMASK) then Asm.FMASK
    else if decide (r = MSR_EFER) then Z.lor (msr c MSR_EFER) 1
    else msr c r.
Proof.
  intros Hh Ht He. unfold init.
  by rewrite set_gs_base_msr, set_star_msr, set_lstar_msr, set_fmask_msr, enable_sce_msr by done.
Qed.
End Msr.

(** ** [memory::init] *)

(** What [memory::init] reads of [BootInfo]; the [Debug] text of a region type
    is the bootloader's. *)
Record BootInfo := mkBootInfo {
  boot_memory_map : list BootRegion;
  physical_memory_offset : Z;
}.

Class DebugRegion := { debug_region : MemoryRegionType -> list Z }.

Module MemoryInit.

(** [{:<n}]: padded with blanks on the right. *)
Definition left_aligned (n : nat) (s : list Z) : list Z := s ++ replicate (n - length s) 0x20.

(** [{:<#20X}] *)
Definition hexadecimal_20 (z : Z) : list Z :=
  left_aligned 20 (text "0x" ++ (upper <$> digits 64 16 z [])).

Definition line (s : list Z) : list Z := s ++ [0x0A].

Definition region_size (r : BootRegion) : Z := end_addr r -w start_addr r.

Definition region_line `{DebugRegion} (r : BootRegion) : list Z :=
  line (debug_region (region_type r) ++ text " " ++ hexadecimal_20 (start_addr r) ++ text " " ++
    hexadecimal_20 (end_addr r) ++ text " " ++ left_aligned 15 (decimal (region_size r))).

(** The loop over the regions: the sum of their sizes and the lines. *)
Definition memory_layout `{DebugRegion} (regions : list BootRegion) : Z * list Z :=
  foldl (fun '(memory_size, shown) r => (memory_size +w region_size r, shown ++ region_line r))
    (0, line (text "-------------------------------Memory Layout ----------------") ++
        line (left_aligned 20 (text "Region Type") ++ text " " ++ left_aligned 20 (text "Start Address") ++
          text " " ++ left_aligned 20 (text "End Address") ++ text " " ++ left_aligned 15 (text "Size")) ++
        line (text "-----------------------------------------------")) regions.

(** [active_level_4_table]; the table is named by its physical address, the
    frame in CR3. *)
Definition active_level_4_table `{VirtPages} (offset cr3 : Z) : outcome Z :=
  _ ← virt_add offset cr3;
  Done cr3.

(** [region_type_to_str] and [format_region_type], which nothing calls. *)
Definition region_type_to_str (region_type : MemoryRegionType) : list Z :=
  match region_type with
  | Usable => text "Usable"
  | Reserved => text "Reserved"
  | FrameZero | PageTableRegion | KernelRegion | KernelStackRegion | Frames.BootInfo | Bootloader =>
      text "FrameZero"
  | _ => text "Unknown"
  end.

(** [usize::saturating_sub] *)
Definition saturating_sub (a b : Z) : Z := Z.max 0 (a - b).

Definition format_region_type (region_type : list Z) (width : Z) : list Z :=
  let padding := saturating_sub width (Z.of_nat (length region_type)) in
  region_type ++ replicate (Z.to_nat padding) 0x20.

(** It agrees with the format [{:<n}] that [memory_layout] uses. *)
Lemma format_region_type_aligned s (n : nat) : format_region_type s (Z.of_nat n) = left_aligned n s.
Proof. unfold format_region_type, left_aligned, saturating_sub. do 2 f_equal. lia. Qed.

(** [translate_addr_phys_to_virt] and [translate_addr_virt_to_phys] of
    [PageFrameAllocator]; [offset] is the field [phys_memory_offset]. *)
Definition translate_addr_phys_to_virt `{VirtPages} (offset addr : Z) : outcome Z := virt_add offset addr.
Definition translate_addr_virt_to_phys (offset addr : Z) : Z := addr -w offset.

Lemma translate_addr_roundtrip `{VirtPagesLaws} offset addr :
  lower offset -> 0 <= addr -> lower (offset + addr) ->
  translate_addr_virt_to_phys offset <$> (match translate_addr_phys_to_virt offset addr with
    Done v => Some v | _ => None end) = Some addr.
Proof.
  intros Ho Ha Hl. unfold translate_addr_phys_to_virt, translate_addr_virt_to_phys.
  rewrite virt_add_lower by done. cbn. f_equal. rewrite Z.add_simpl_l.
  apply wrap64_small. unfold is_u64, lower in *. lia.
Qed.
End MemoryInit.

(** The memory of the kernel, with its own allocators. *)
Abbreviation BootMemory E F :=
  (KernelMemory (PageFrameAllocator * MemoryLogger) E (FixedBlock.FixedSizeBlockAllocator F)).

Section MemoryInit.
Context {E F : Type} `{FrameOf} `{VirtPages} `{FallbackHeap F} `{DebugRegion}.

Context `{Mapper (BootMemory E F)}.
Implicit Types (m : BootMemory E F) (s : PageFrameAllocator * MemoryLogger).

(** The frame allocator with the static [MEMORYLOGGER] it reports to. *)
Definition frames m : PageFrameAllocator * MemoryLogger := frame_allocator (memory_info m).
Definition with_frames s m : BootMemory E F := with_info (Paging.with_allocator s (memory_info m)) m.

(** [memory::init]; [cr3] is the table the boot loader left active. *)
Definition memory_init (boot_info : BootInfo) (cr3 : Z) m : outcome (list Z * BootMemory E F) :=
  let '(memory_size, shown) := MemoryInit.memory_layout (boot_memory_map boot_info) in
  let dashes := MemoryInit.line (text "-----------------------------------------------") in
  let shown := shown ++ dashes ++
    MemoryInit.line (text "Total Memory Size: " ++ decimal memory_size) ++ dashes in
  phys_memory_offset ← virt_new (physical_memory_offset boot_info);
  level_4_table ← MemoryInit.active_level_4_table phys_memory_offset cr3;
  let m := with_frames (Frames.init (boot_memory_map boot_info), (frames m).2) m in
  '(r, m, allocator) ← Mapping.init_heap level_4_table m (ALLOCATOR m);
  match r with
  | Err _ => Panic
  | Ok _ =>
      let shown := shown ++ MemoryInit.line (text "[] - Initialised Heap...") in
      let logger := Logger.setTotalMemory memory_size (frames m).2 in
      let memory_info :=
        mkMemoryInfo ((frames m).1, logger) (tables (memory_info m)) level_4_table in
      Done (shown, mkKernelMemory memory_info allocator (bytes m))
  end.

(** What the crate's [OffsetPageTable] does with the allocator it is lent: it
    takes frames and nothing else; what it maps is in the tables. *)
Class BorrowsFrames `{!MapperLaws (BootMemory E F)} := {
  allocate_frame_borrows m :
    allocate_frame m = ('(r, s) ← Frames.allocate_frame (frames m); Done (r, with_frames s m));
  map_to_borrows t page f flags m r m' : map_to t page f flags m = Done (r, m') ->
    exists n rs, Frames.allocate_n n (frames m) = Done (rs, frames m');
  translate_tables m m' t q :
    tables (memory_info m') = tables (memory_info m) -> translate m' t q = translate m t q;
  valid_table_same m m' t :
    tables (memory_info m') = tables (memory_info m) -> (frames m').1 = (frames m).1 ->
    valid_table m t -> valid_table m' t;
}.
End MemoryInit.

(** ** [kernel_main] *)

Section KernelMain.
Context {E F : Type} `{FrameOf} `{VirtPages} `{FallbackHeap F} `{DebugRegion}
  `{Mapper (BootMemory E F)} `{PageTableEntry E} `{VirtAddr} {gdt : Selectors}.

(** The addresses the linker chose: two functions, the TSS, and the static
    stack of interrupts. *)
Record Image := mkImage {
  kernel_thread_main_addr : Z;
  handle_syscall_addr : Z;
  tss_addr : Z;
  interrupt_stack : Z;
}.

(** [kernel_main] up to its [hlt_loop].  The interrupts that [kernel::init]
    enables find no thread yet and are not part of the model. *)
Definition kernel_main (image : Image) (boot_info : BootInfo) (table : Z) (cpu : Cpu)
    (m : BootMemory E F) : outcome (Cpu * kernel (BootMemory E F)) :=
  let shown := MemoryInit.line (text "[] - Setting up ZephyrRS!") in
  ist ← TSS (interrupt_stack image);
  let cpu := with_loaded (Tables.init (loaded cpu)) cpu in
  let shown := shown ++ MemoryInit.line (text "[] - Successfully initialised Kernel") in
  '(layout, m) ← memory_init boot_info table m;
  let cpu := Msr.init (handle_syscall_addr image) (tss_addr image) cpu in
  let shown := shown ++ layout ++
    MemoryInit.line (text "Successfully initialised syscall functionality") in
  '(_, k) ← spawn_kernel_thread (kernel_thread_main_addr image) [] (initial shown table ist m);
  Done (cpu, k).
End KernelMain.

(** ** Frames and their log at boot *)

Section Handed.
Context `{FrameOfLaws}.

Definition alloc_events (fs : list Z) : list Logger.event :=
  (fun f => Logger.Alloc (Frames.frame_region f) FRAME_SIZE true) <$> fs.

(** The first [n] frames of [fs] were handed out, and logged. *)
Record handed (fs : list Z) (n : nat) (s : PageFrameAllocator * MemoryLogger) : Prop := {
  hd_drawn : Frames.drawn n fs s.1;
  hd_le : (n <= length fs)%nat;
  hd_log : s.2 = Logger.run Logger.new (alloc_events (take n fs));
}.

Lemma allocate_frame_log a l f a' l' :
  Frames.allocate_frame (a, l) = Done (Some f, (a', l')) ->
  l' = Logger.log_allocation (Frames.frame_region f) FRAME_SIZE true l.
Proof.
  unfold Frames.allocate_frame. destruct (vget _ _) as [g|]; [|done]. intros Ha. bind_Done Ha.
  destruct r; [|done]. bind_Done Ha. by simplify_eq.
Qed.

Lemma handed_allocate fs n s r s' :
  Frames.tracked fs -> handed fs n s -> Frames.allocate_frame s = Done (r, s') ->
  match r with Some f => fs !! n = Some f /\ handed fs (S n) s' | None => s' = s end.
Proof.
  intros Ht [Hd Hle Hlog] Ha. destruct s as [a l]. cbn [fst snd] in *.
  destruct (fs !! n) as [f|] eqn:Hf.
  - destruct (Frames.allocate_frame_next fs a l n f Ht Hd Hf) as (a' & l' & Ha' & Hd').
    pose proof (allocate_frame_log _ _ _ _ _ Ha'). rewrite Ha in Ha'. simplify_eq.
    split; [done|]. apply lookup_lt_Some in Hf as Hlt. constructor; [done|lia|]. cbn [snd].
    unfold Logger.run, alloc_events. erewrite take_S_r by done.
    by rewrite fmap_app, fold_left_app.
  - apply lookup_ge_None in Hf. replace n with (length fs) in Hd by lia.
    rewrite (Frames.allocate_frame_end fs) in Ha by done. by simplify_eq.
Qed.

Lemma handed_allocate_n fs k : forall n s rs s',
  Frames.tracked fs -> handed fs n s -> Frames.allocate_n k s = Done (rs, s') ->
  exists n', (n <= n')%nat /\ handed fs n' s'.
Proof.
  induction k as [|k IH]; intros n s rs s' Ht Hh Ha; cbn in Ha.
  - simplify_eq. by exists n.
  - bind_Done Ha. destruct r as [f s1]. bind_Done Ha. destruct r as [fs1 s2]. simplify_eq.
    apply (handed_allocate fs n) in Hr; [|done..]. destruct f as [f|].
    + destruct Hr as [_ Hh1]. destruct (IH _ _ _ _ Ht Hh1 Hr0) as (n' & Hn & Hh'). exists n'.
      split; [lia|done].
    + subst s1. by eapply IH.
Qed.

(** What the logger says after [n] frames. *)
Lemma run_allocs fs : forall l u c,
  used_memory l = u -> allocation_successes l = c -> 0 <= u -> 0 <= c ->
  u + 4096 * Z.of_nat (length fs) < 2 ^ 64 -> c + Z.of_nat (length fs) < 2 ^ 64 ->
  used_memory (Logger.run l (alloc_events fs)) = u + 4096 * Z.of_nat (length fs) /\
  allocation_successes (Logger.run l (alloc_events fs)) = c + Z.of_nat (length fs).
Proof.
  induction fs as [|f fs IH]; intros l u c Hu Hc Hu0 Hc0 Hbu Hbc; [cbn; lia|].
  cbn [length] in *. unfold Logger.run, alloc_events in *. cbn [fmap list_fmap fold_left Logger.apply_event].
  edestruct (IH (Logger.log_allocation (Frames.frame_region f) FRAME_SIZE true l) (u + 4096) (c + 1))
    as [-> ->]; [| |lia..].
  - cbn. rewrite Hu. unfold FRAME_SIZE. rewrite wrap64_small by (unfold is_u64; lia). done.
  - cbn. rewrite Hc. rewrite wrap64_small by (unfold is_u64; lia). done.
Qed.

Lemma handed_log fs n s :
  Frames.tracked fs -> handed fs n s ->
  used_memory s.2 = 4096 * Z.of_nat n /\ allocation_successes s.2 = Z.of_nat n.
Proof.
  intros Ht [_ Hle ->]. pose proof (Frames.tracked_length _ Ht).
  destruct (run_allocs (take n fs) Logger.new 0 0) as [-> ->]; [done..| | |].
  all: rewrite length_take, Nat.min_l by done; lia.
Qed.
End Handed.

Section Boot.
Context {E F : Type} `{FrameOfLaws} `{VirtPagesLaws} `{FallbackHeapLaws F HEAP_START (HEAP_START + HEAP_SIZE)}
  `{DebugRegion} `{MapperLaws (BootMemory E F)} `{!BorrowsFrames (E := E) (F := F)}.
Implicit Types (m : BootMemory E F).

Definition HEAP_FLAGS : Z := Z.lor PRESENT WRITABLE.
Definition heap_page_list : list Z := Mapping.pages_of HEAP_START HEAP_SIZE.

(** The pages [dn] are mapped to frames among the first of [fs]. *)
Definition on_frames (t : Z) (fs dn : list Z) m : Prop :=
  valid_table m t /\ exists n, handed fs n (frames m) /\ (length dn <= n)%nat /\
    forall page, page ∈ dn -> exists f, translate m t page = Some (f, HEAP_FLAGS) /\ f ∈ take n fs.

Lemma on_frames_snoc t fs dn m page m' :
  Frames.tracked fs -> on_frames t fs dn m ->
  Mapping.map_new_page t HEAP_FLAGS page m = Done (Ok tt, m') -> on_frames t fs (dn ++ [page]) m'.
Proof.
  intros Htr (Hv & n & Hh & Hn & Hp) Hrun. unfold Mapping.map_new_page in Hrun. bind_Done Hrun.
  destruct r as [[f|] m1]; [|done].
  destruct (allocate_frame_Some _ _ _ Hr) as (_ & _ & _ & Hv1). destruct (Hv1 t) as [Hv2 _].
  rewrite allocate_frame_borrows in Hr. bind_Done Hr.
  destruct r as [f' s]. simplify_eq. apply (handed_allocate fs n) in Hr0 as [Hf Hh1]; [|done..].
  pose proof (map_to_Ok _ _ _ _ _ _ (Hv2 Hv) valid_flags_kernel Hrun) as (_ & Hv3 & Hre & _).
  destruct (map_to_borrows _ _ _ _ _ _ _ Hrun) as (k & rs & Hk).
  destruct (handed_allocate_n fs k (S n) s rs (frames m') Htr Hh1 Hk) as (n' & Hn' & Hh').
  split; [done|]. exists n'. split; [done|]. rewrite length_app. split; [cbn; lia|].
  intros q Hq. rewrite Hre. case_decide as Hpage.
  - exists f. split; [done|]. apply (list_elem_of_lookup_2 _ n). rewrite lookup_take_lt by lia. done.
  - destruct (Hp q) as (g & Hg & Hin); [set_solver|]. exists g. split.
    + rewrite <-Hg. by apply translate_tables.
    + apply (subseteq_take n). by rewrite take_take, Nat.min_l by lia.
Qed.

Lemma heap_pages_length : (75 <= length heap_page_list)%nat.
Proof.
  assert (Hs : (fun i => HEAP_START + 4096 * i) <$> seqZ 0 75 ⊆+ heap_page_list).
  { apply NoDup_submseteq.
    - apply NoDup_fmap; [intros x y; lia|apply NoDup_seqZ].
    - intros p (i & -> & Hi%elem_of_seqZ)%list_elem_of_fmap.
      assert (Ha : HEAP_START <= HEAP_START + 4096 * i < HEAP_START + HEAP_SIZE)
        by (unfold HEAP_SIZE; lia).
      pose proof (Mapping.page_in_range HEAP_START HEAP_SIZE _ ltac:(by constructor) Ha) as Hin.
      rewrite page_containing_lower in Hin by (unfold lower, HEAP_START, HEAP_SIZE in *; lia).
      replace (HEAP_START + 4096 * i) with (HEAP_START + 4096 * i - (HEAP_START + 4096 * i) mod 4096) at 1; [done|].
      unfold HEAP_START. Z.div_mod_to_equations. lia. }
  apply submseteq_length in Hs. by rewrite length_fmap, length_seqZ in Hs.
Qed.

(** [init_heap] on an allocator that has handed out nothing. *)
Lemma init_heap_on_frames t fs m allocator m' allocator' :
  Frames.tracked fs -> handed fs 0 (frames m) -> valid_table m t ->
  Mapping.init_heap t m allocator = Done (Ok tt, m', allocator') ->
  on_frames t fs heap_page_list m' /\ allocator' = FixedBlock.init HEAP_START HEAP_SIZE allocator /\
  exists gs, Mapping.backed t HEAP_FLAGS m heap_page_list gs m'.
Proof.
  intros Htr Hh Hv Hrun. assert (Hok : Mapping.range_ok HEAP_START HEAP_SIZE) by done.
  unfold Mapping.init_heap in Hrun. rewrite Mapping.page_range_ok in Hrun by done.
  cbn [mbind outcome_bind] in Hrun. bind_Done Hrun. destruct r as [[[]|e] m1]; [|done].
  apply Done_inj in Hrun. injection Hrun as -> <-. split; [|split; [done|]].
  - eapply (Mapping.try_each_Ok (on_frames t fs)); [| |exact Hr].
    + split; [done|]. exists 0%nat. split; [done|]. split; [done|]. by intros p ?%elem_of_nil.
    + intros dn x m1 m2 _ Hdn Hm. by eapply on_frames_snoc.
  - apply (Mapping.allocate_pages_backed t HEAP_START HEAP_SIZE HEAP_FLAGS m m');
      [done|apply valid_flags_kernel|done|].
    unfold Mapping.allocate_pages, Mapping.allocate_pages_mapper. by rewrite Mapping.page_range_ok.
Qed.

Lemma memory_layout_total rs :
  (MemoryInit.memory_layout rs).1 = wrap64 (Frames.sum_of MemoryInit.region_size rs).
Proof.
  unfold MemoryInit.memory_layout.
  rewrite <-(Z.add_0_l (Frames.sum_of _ _)), <-Frames.foldl_wrap by done.
  generalize 0 at 1 2. match goal with |- forall z, (foldl _ (z, ?t) _).1 = _ => generalize t end.
  induction rs as [|r rs IH]; intros shown z; [done|]. cbn [foldl]. by rewrite IH.
Qed.

(** What [memory::init] starts from: nothing was logged or allocated, and the
    tables of the boot loader are a hierarchy on frames it keeps. *)
Record statics_new (boot_info : BootInfo) (cr3 : Z) m : Prop := {
  sn_logger : (frames m).2 = Logger.new;
  sn_allocator : ALLOCATOR m = FixedBlock.new;
  sn_map : Frames.tracked (Frames.usable_frames (Frames.init (boot_memory_map boot_info)));
  sn_fallback : fb_inv (fb_init HEAP_START HEAP_SIZE fb_empty) [];
  sn_tables : valid_table (with_frames (Frames.init (boot_memory_map boot_info), (frames m).2) m) cr3;
}.

(** The memory [init_heap] starts from. *)
Definition at_init boot_info m : BootMemory E F :=
  with_frames (Frames.init (boot_memory_map boot_info), (frames m).2) m.

Lemma memory_init_steps boot_info cr3 m shown m' :
  memory_init boot_info cr3 m = Done (shown, m') ->
  exists m1, Mapping.init_heap cr3 (at_init boot_info m) (ALLOCATOR m) = Done (Ok tt, m1, ALLOCATOR m') /\
    tables (memory_info m') = tables (memory_info m1) /\ kernel_table (memory_info m') = cr3 /\
    frames m' = ((frames m1).1, Logger.setTotalMemory
      (wrap64 (Frames.sum_of MemoryInit.region_size (boot_memory_map boot_info))) (frames m1).2).
Proof.
  intros Hrun. unfold memory_init in Hrun. destruct (MemoryInit.memory_layout _) as [size layout] eqn:Hl.
  bind_Done Hrun. bind_Done Hrun. unfold MemoryInit.active_level_4_table in Hr0. bind_Done Hr0.
  apply Done_inj in Hr0 as <-. bind_Done Hrun. destruct r0 as [[[[]|e] m1] h]; [|done].
  apply Done_inj in Hrun. injection Hrun as _ <-. exists m1. do 3 (split; [done|]).
  unfold frames. cbn. f_equal. by rewrite <-memory_layout_total, Hl.
Qed.

Lemma memory_init_run boot_info cr3 m shown m' :
  statics_new boot_info cr3 m -> memory_init boot_info cr3 m = Done (shown, m') ->
  let fs := Frames.usable_frames (Frames.init (boot_memory_map boot_info)) in
  exists m0 m1, handed fs 0 (frames m0) /\ valid_table m0 cr3 /\
    Mapping.init_heap cr3 m0 FixedBlock.new = Done (Ok tt, m1, ALLOCATOR m') /\
    tables (memory_info m') = tables (memory_info m1) /\ kernel_table (memory_info m') = cr3 /\
    frames m' = ((frames m1).1, Logger.setTotalMemory
      (wrap64 (Frames.sum_of MemoryInit.region_size (boot_memory_map boot_info))) (frames m1).2).
Proof.
  intros [Hlog Hall _ _ Htab] (m1 & Hheap & Hrest)%memory_init_steps fs. rewrite Hall in Hheap.
  exists (at_init boot_info m), m1. split; [|by split].
  constructor; [apply Frames.drawn_init|lia|]. cbn. by rewrite Hlog.
Qed.
End Boot.

(** ** The first timer interrupt *)

Section FirstTick.
Context {MM K : Type} `{MemoryManagerLaws MM lo hi} {gdt : Selectors} `{CallingConventionLaws}
  `{KeyboardDecoder K}.
Implicit Types (k : kernel MM).

Lemma stack_in_heap k t :
  safely_reachable (K := K) k -> t ∈ all_threads k ->
  lo <= (stack_block (kernel_stack t)).1 /\ block_end (stack_block (kernel_stack t)) <= hi.
Proof.
  intros Hr Ht. destruct (stacked_reachable k Hr) as [Hown _].
  apply owns_placed in Hown as [Hrange _ _]. rewrite Forall_forall in Hrange.
  apply Hrange, list_elem_of_fmap. exists (stack_view t). split; [done|]. by apply list_elem_of_fmap_2.
Qed.

(** It takes a thread out of the queue when none runs, whatever the processor
    was doing, with the registers of its context. *)
Lemma first_tick k t top r on_tss :
  safely_reachable (K := K) k -> WAIT_QUEUE k = [t] -> RUNNING_THREAD k = None ->
  interrupt_stack_table k !! 1%nat = Some top ->
  (top <= lo \/ hi <= top - 20480) ->
  exists m', on_interrupt timer_handler (mkMachine r on_tss k) = Done (Stop, m') /\
    RUNNING_THREAD (state m') = Some t /\ WAIT_QUEUE (state m') = [] /\
    regs m' = Isf.load (memory k) (context t).
Proof.
  intros Hr Hq Hrun Htop Hroom. pose proof heap_bounds as Hheap.
  pose proof (wf_ist _ (wf_reachable _ _ _ Hr)) as Hlen.
  pose proof (stacked_reachable k Hr) as Hst.
  assert (Hin : t ∈ all_threads k) by (unfold all_threads; rewrite Hrun, Hq; set_solver).
  pose proof (stacked_ok k t Hst Hin) as (Hend & Hcap & Hlow & Hhigh).
  destruct (stack_in_heap k t Hr Hin) as [Hlo Hhi]. unfold block_end in Hhi. cbn in Hlo, Hhi.
  pose proof (interrupt_context_in top) as Hctx.
  unfold Isf.INTERRUPT_CONTEXT_SIZE, KERNEL_STACK_SIZE in *.
  rewrite (on_interrupt_spec _ _ top) by done. cbn [state regs Asm.on_tss].
  unfold timer_handler, schedule, update_current_thread. cbn. rewrite Hrun, Hq. cbn.
  unfold set_interrupt_stack_table, TIMER_INTERRUPT_INDEX. rewrite vset_in by (rewrite Hlen; lia). cbn.
  assert (Hapart : Isf.load (Isf.store (interrupt_context top) r (memory k)) (context t) =
    Isf.load (memory k) (context t)).
  { apply Isf.load_store_apart. unfold Isf.apart, Isf.INTERRUPT_CONTEXT_SIZE. lia. }
  eexists. split; [reflexivity|]. rewrite (decide_False (P := context t = 0)) by lia.
  by case_decide.
Qed.

(** A timer interrupt is a step, and changes neither sockets nor processes. *)
Lemma tick_reaches boot ok k top r on_tss m' :
  (forall ctx regs, saved_at interrupt_context ctx k -> ok k (Timer ctx regs)) ->
  reachable_by (K := K) boot ok k -> interrupt_stack_table k !! 1%nat = Some top ->
  on_interrupt timer_handler (mkMachine r on_tss k) = Done (Stop, m') ->
  reachable_by (K := K) boot ok (state m') /\ COUNTER (state m') = COUNTER k /\
  socket_heap (state m') = socket_heap k /\ process_heap (state m') = process_heap k.
Proof.
  intros Hok Hr Htop Htick. apply (timer_step (K := K) _ top) in Htick as (_ & Hstep & _); [|done].
  split.
  - eapply ReachStep; [exact Hr| |exact Hstep]. apply Hok. intros top' Ht. cbn [state] in Ht.
    rewrite Htop in Ht. by injection Ht as <-.
  - inversion Hstep as [|ctx' regs' k' a k'' Hd| | | | |]; subst.
    apply schedule_frame in Hd as (_ & -> & -> & -> & _). done.
Qed.

(** While a thread runs, the timer gives the processor to the next one in the
    queue, with the registers of its context. *)
Lemma next_tick k r0 t q r on_tss :
  safely_reachable (K := K) k -> RUNNING_THREAD k = Some r0 -> WAIT_QUEUE k = t :: q ->
  exists m', on_interrupt timer_handler (mkMachine r on_tss k) = Done (Stop, m') /\
    RUNNING_THREAD (state m') = Some t /\ regs m' = Isf.load (memory k) (context t) /\
    socket_heap (state m') = socket_heap k /\ process_heap (state m') = process_heap k.
Proof.
  intros Hr Hrun Hq. pose proof heap_bounds as Hheap. pose proof (wf_reachable _ _ _ Hr) as Hwf.
  pose proof (wf_on_stack _ Hwf _ Hrun) as Htop. pose proof (stacked_reachable k Hr) as Hst.
  assert (Hin : t ∈ WAIT_QUEUE k) by (rewrite Hq; apply list_elem_of_here).
  pose proof (stacked_ok k t Hst (waiting_owned k t Hin)) as (Hend & Hcap & Hlow & _).
  destruct (stack_in_heap k t Hr (waiting_owned k t Hin)) as [Hlo _].
  destruct (schedule_total (interrupt_context (kernel_stack_end r0))
    (interrupted (interrupt_context (kernel_stack_end r0)) r k) (wf_ist _ Hwf)) as (a & k' & Hs).
  pose proof (on_interrupt_spec timer_handler (mkMachine r on_tss k) _ Htop) as Hrun'.
  cbn [state regs Asm.on_tss] in Hrun'. unfold timer_handler at 2 in Hrun'. rewrite Hs in Hrun'.
  cbn [mbind outcome_bind] in Hrun'. eexists. split; [exact Hrun'|]. cbn [state regs].
  apply schedule_frame in Hs as Hf. destruct Hf as (Hm & _ & Hp & Hsk & _).
  apply schedule_ready in Hs as Hready. destruct Hready as (Hrd & Hhead & Ha). cbn in Hrd.
  rewrite Hrd, Hq in Hhead. cbn in Hhead. rewrite Hhead in Ha. cbn in Ha. subst a.
  split; [done|]. split; [|done].
  rewrite decide_False by (unfold KERNEL_STACK_SIZE, stack_block in *; cbn in *; lia).
  eapply (waiting_load (K := K) (Timer (interrupt_context (kernel_stack_end r0)) r));
    [done|done|intros Hnone; congruence| |done|by econstructor].
  intros top Ht. rewrite Htop in Ht. by injection Ht as <-.
Qed.
End FirstTick.

(** ** Properties *)

Section Properties.
Context {E F : Type} `{FrameOfLaws} `{VirtPagesLaws} `{FallbackHeapLaws F HEAP_START (HEAP_START + HEAP_SIZE)}
  `{DebugRegion} `{MapperLaws (BootMemory E F)} `{!BorrowsFrames (E := E) (F := F)}
  `{PageTableEntry E} `{VirtAddr} {gdt : Selectors} `{CallingConventionLaws} {K : Type}
  `{KeyboardDecoder K}.
Implicit Types (m : BootMemory E F) (k : kernel (BootMemory E F)).

#[local] Instance boot_laws : MemoryManagerLaws (BootMemory E F) HEAP_START (HEAP_START + HEAP_SIZE) :=
  kernel_memory_laws heap_range.

(** C11: the memory at boot.  After [memory::init] the pages of the kernel heap
    are on frames of their own, the allocator's state is that of an empty heap,
    and the frames in use are the first [n] of the memory map, at least 75; the
    logger has counted these [n] frames, but its free memory is the total: the
    frames of the heap were subtracted before the total was set.  The table
    of the boot loader, if it was a valid one, still is. *)
Theorem memory_initialised boot_info cr3 m shown m'
    (Hboot : statics_new boot_info cr3 m) (Hrun : memory_init boot_info cr3 m = Done (shown, m')) :
  let fs := Frames.usable_frames (Frames.init (boot_memory_map boot_info)) in
  exists (n : nat) (frame_of : Z -> Z), (75 <= n)%nat /\ Frames.drawn n fs (frames m').1 /\
    (forall page, page ∈ heap_page_list ->
      translate m' cr3 page = Some (frame_of page, HEAP_FLAGS) /\ frame_of page ∈ take n fs) /\
    (forall p q, p ∈ heap_page_list -> q ∈ heap_page_list -> frame_of p = frame_of q -> p = q) /\
    heap_inv (ALLOCATOR m') [] /\ kernel_table (memory_info m') = cr3 /\ valid_table m' cr3 /\
    let l := (frames m').2 in
    total_memory l = wrap64 (Frames.sum_of MemoryInit.region_size (boot_memory_map boot_info)) /\
    used_memory l = 4096 * Z.of_nat n /\ allocation_successes l = Z.of_nat n /\
    free_memory l = total_memory l.
Proof.
  intros fs. pose proof (sn_map _ _ _ Hboot) as Htr. pose proof (sn_fallback _ _ _ Hboot) as Hfb.
  destruct (memory_init_run _ _ _ _ _ Hboot Hrun) as (m0 & m1 & Hh & Hv & Hheap & Htab & Hkt & Hf).
  destruct (init_heap_on_frames _ _ _ _ _ _ Htr Hh Hv Hheap) as ((Hv1 & n & Hn & Hlen & Hp) & Ha & gs & Hb).
  exists n, (fun page => from_option fst 0 (translate m1 cr3 page)).
  split; [etransitivity; [apply heap_pages_length|done]|]. rewrite Hf. cbn [fst snd].
  split; [apply Hn|]. split; [|split; [|split; [|split; [done|split]]]].
  - intros page Hin. destruct (Hp page Hin) as (f & Hf' & Hin').
    rewrite (translate_tables m1) by done. by rewrite Hf'.
  - intros p q Hpin Hqin. destruct Hb as [_ Hpages _ _ Hnd _ _].
    apply list_elem_of_lookup in Hpin as [i Hi], Hqin as [j Hj].
    destruct (Forall2_lookup_l _ _ _ _ _ Hpages Hi) as (f & Hfi & ->).
    destruct (Forall2_lookup_l _ _ _ _ _ Hpages Hj) as (g & Hgj & ->). cbn. intros ->.
    assert (i = j) as -> by (by eapply NoDup_lookup). congruence.
  - rewrite Ha. by apply fixed_inv_fresh.
  - apply (valid_table_same m1); [done|by rewrite Hf|done].
  - destruct (handed_log _ _ _ Htr Hn) as [Hu Hs]. cbn. by rewrite Hu, Hs.
Qed.

(** What [kernel_main] leaves. *)
(** The four static sockets, all empty. *)
Definition idle_sockets : gmap Z (Socket.Socket Thread) :=
  {[KEYBOARD_SOCKET := Socket.Empty; ID_SOCKET := Socket.Empty;
    FIN_SOCKET := Socket.Empty; PROC_FIN_SOCKET := Socket.Empty]}.

Lemma kernel_main_spec image boot_info table cpu m cpu' k :
  statics_new boot_info table m -> kernel_main image boot_info table cpu m = Done (cpu', k) ->
  0 <= interrupt_stack image /\ interrupt_stack image + 20480 < 2 ^ 64 ->
  safely_reachable (K := K) k /\ reachable (K := K) k /\
  msr cpu' = msr (Msr.init (handle_syscall_addr image) (tss_addr image) cpu) /\
  loaded cpu' = Tables.init (loaded cpu) /\
  COUNTER k = 1 /\ socket_heap k = idle_sockets /\ RUNNING_THREAD k = None /\
  interrupt_stack_table k !! 1%nat = Some (interrupt_stack image + 20480) /\
  exists t, all_threads k = [t] /\ WAIT_QUEUE k = [t] /\ thread_id t = 1 /\
    thread_type t = Kernel /\
    let regs := Isf.load (memory k) (context t) in
    Isf.instruction_pointer regs = kernel_thread_main_addr image /\ Isf.flags regs = 0x200 /\
    (Isf.code_segment regs, Isf.stack_segment regs) = get_kernel_segments.
Proof.
  intros Hboot Hrun Hroom.
  unfold kernel_main in Hrun. bind_Done Hrun. rename r into ist, Hr into Htss.
  bind_Done Hrun. destruct r as [layout m1]. bind_Done Hrun. destruct r as [uid k1].
  apply Done_inj in Hrun. injection Hrun as <- <-. rewrite TSS_spec in Htss. apply Done_inj in Htss.
  assert (Hist : length ist = 7%nat) by (by rewrite <-Htss).
  set (k0 := initial _ table ist m1) in *.
  assert (Howns : owns m1 []).
  { destruct (memory_init_run _ _ _ _ _ Hboot Hr) as (m2 & m3 & Hh & Hv & Hheap & _).
    destruct (init_heap_on_frames _ _ _ _ _ _ (sn_map _ _ _ Hboot) Hh Hv Hheap) as (_ & Ha & _).
    exists []. split; [|done]. rewrite Ha. apply fixed_inv_fresh. by apply Hboot. }
  assert (Hstep : step (K := K) (SpawnKernel (kernel_thread_main_addr image) []) k0 k1)
    by (eapply StepSpawnKernel; [unfold ids_left; cbn; lia|exact Hr0]).
  destruct (spawn_kernel_thread_starts _ _ _ _ _ Hr0) as (Hs & Hrun & _).
  destruct (spawn_kernel_thread_context _ _ _ _ _ Hr0) as (t & Hq & Hid & Hty & Hregs).
  pose proof (spawn_kernel_thread_cases thread_id _ _ _ _ _ Hr0) as (t' & p & _ & _ & Hu & Hc & _).
  split; [eapply (ReachStep _ _ (SpawnKernel _ []) k0);
    [apply ReachInitial; [exact Hist|exact Howns]|exact I|exact Hstep]|].
  split; [eapply (ReachStep _ _ (SpawnKernel _ []) k0);
    [apply ReachInitial; [exact Hist|exact I]|exact I|exact Hstep]|].
  do 2 (split; [done|]). split; [by rewrite Hc, Hu|]. split; [by rewrite Hs|]. split; [done|]. split.
  - rewrite (spawn_kernel_thread_ist _ _ _ _ _ Hr0). cbn. rewrite <-Htss. cbn. f_equal.
    apply wrap64_small. unfold is_u64. lia.
  - exists t. split; [by unfold all_threads; rewrite Hs, Hrun, Hq|]. by split_and!.
Qed.

End Properties.

Section Interrupts.
Context {MM K : Type} `{MemoryManagerLaws MM lo hi} {gdt : Selectors} `{KeyboardDecoder K}.
Implicit Types (k : kernel MM).

Definition kernel_step k k' : Prop := exists e : @event K, entered k e /\ step e k k'.

(** What steps from a state keep. *)
Lemma steps_keep k0 k :
  safely_reachable (K := K) k0 -> rtc kernel_step k0 k ->
  safely_reachable (K := K) k /\ other_stacks k = other_stacks k0.
Proof.
  intros Hr Hs. induction Hs as [|k0 k1 k (e & He & Hstep) _ IH]; [done|].
  destruct IH as [Hk Ho]; [by eapply ReachStep|]. split; [done|].
  rewrite Ho. eapply step_other_stacks; [|exact Hstep]. by eapply wf_reachable.
Qed.

(** C12: the stacks of interrupts.  In every state after boot, whatever the
    kernel has done, the timer and the keyboard interrupt save the registers
    on the kernel stack of the running thread, while faults are handled on the
    static stack of gdt.rs, which no thread's stack shares a byte with; the
    two kinds of interrupt have different vectors, and a breakpoint keeps the
    stack in use. *)
Theorem interrupt_stacks stack_start ist shown table mem k stack_pointer
    (Htss : TSS stack_start = Done ist) (Howns : owns mem [])
    (Hroom : 0 <= stack_start /\ stack_start + 20480 < 2 ^ 64 /\
      (stack_start + 20480 <= lo \/ hi <= stack_start))
    (Hsteps : rtc kernel_step (initial shown table ist mem) k) :
  let deliver vector := Idt.delivery vector (interrupt_stack_table k) stack_pointer in
  let fault_stack := stack_start + 20480 in
  deliver Idt.DOUBLE_FAULT = Some (Idt.double_fault_handler, fault_stack) /\
  deliver Idt.PAGE_FAULT = Some (Idt.page_fault_handler, fault_stack) /\
  deliver Idt.GENERAL_PROTECTION = Some (Idt.general_protection_fault_handler, fault_stack) /\
  deliver Idt.BREAKPOINT = Some (Idt.breakpoint_handler, stack_pointer) /\
  (forall t, RUNNING_THREAD k = Some t ->
    deliver (Idt.as_usize Idt.Timer) = Some (Idt.timer_handler_naked, kernel_stack_end t) /\
    deliver (Idt.as_usize Idt.Keyboard) = Some (Idt.keyboard_interrupt_handler, kernel_stack_end t)) /\
  (forall t, t ∈ all_threads k ->
    disjoint_blocks (stack_start, u8_layout 20480) (stack_block (kernel_stack t))).
Proof.
  intros deliver fault_stack. rewrite TSS_spec in Htss. apply Done_inj in Htss. subst ist.
  apply steps_keep in Hsteps as [Hr Ho]; [|by apply ReachInitial].
  pose proof (wf_reachable _ _ _ Hr) as Hwf. pose proof heap_bounds as Hheap.
  assert (Htop : stack_start +w 4096 * 5 = fault_stack)
    by (apply wrap64_small; unfold is_u64; lia).
  assert (Hfault : vget (interrupt_stack_table k) 0 = Some fault_stack).
  { rewrite (vget_lookup _ 0). unfold other_stacks in Ho. apply (f_equal (lookup 0%nat)) in Ho.
    rewrite !list_lookup_insert_ne in Ho by done. rewrite Ho. cbn. by rewrite Htop. }
  do 3 (split; [by apply (Idt.delivery_stack _ _ _ 0)|]). split; [done|]. split.
  - intros t Ht. pose proof (wf_on_stack _ Hwf t Ht) as Htimer. rewrite <-(vget_lookup _ 1) in Htimer.
    split; by apply (Idt.delivery_stack _ _ _ 1).
  - intros t Ht. destruct (stack_in_heap k t Hr Ht) as [Hl Hh].
    unfold disjoint_blocks, block_end, u8_layout in *. cbn in *. lia.
Qed.
End Interrupts.

(** C36: [syscall::init].  It writes five model-specific registers and no other:
    system calls are enabled, [syscall] enters at the address of
    [handle_syscall] with interrupts masked, and the selectors that [syscall]
    and [sysret] derive from STAR are those the descriptor table has for the
    code and data of the kernel and of user programs; the task state segment is
    the kernel's GS base. *)
Theorem syscall_initialised {G} `{GdtBuilderLaws G} handler_addr tss_addr cpu
    (Hhandler : is_u64 handler_addr) (Htss : is_u64 tss_addr) (Hefer : is_u64 (msr cpu Msr.MSR_EFER)) :
  let before := msr cpu in
  let after := msr (Msr.init handler_addr tss_addr cpu) in
  let star := after Msr.MSR_STAR in
  after Msr.MSR_LSTAR = handler_addr /\ after Msr.MSR_KERNEL_GS_BASE = tss_addr /\
  (forall bit, Z.testbit (after Msr.MSR_EFER) bit = Z.testbit (before Msr.MSR_EFER) bit || (bit =? 0)) /\
  Z.testbit (after Msr.MSR_FMASK) IF_BIT = true /\
  get_kernel_segments (gdt := GDT G) =
    (Z.land (Z.shiftr star 32) 0xFFFF, Z.land (Z.shiftr star 32) 0xFFFF + 8) /\
  get_user_segments (gdt := GDT G) =
    (Z.lor (Z.land (Z.shiftr star 48) 0xFFFF + 16) 3, Z.lor (Z.land (Z.shiftr star 48) 0xFFFF + 8) 3) /\
  forall r, r ∉ [Msr.MSR_EFER; Msr.MSR_STAR; Msr.MSR_LSTAR; Msr.MSR_FMASK; Msr.MSR_KERNEL_GS_BASE] ->
    after r = before r.
Proof.
  intros before after star.
  assert (Hafter : after = msr (Msr.init handler_addr tss_addr cpu)) by done.
  rewrite Msr.init_spec in Hafter by done.
  split; [by rewrite Hafter|]. split; [by rewrite Hafter|].
  split.
  { intros bit. assert (after Msr.MSR_EFER = Z.lor (before Msr.MSR_EFER) 1) as -> by (rewrite Hafter; reflexivity).
    rewrite Z.lor_spec. f_equal. }
  split; [by rewrite Hafter|].
  assert (Hstar : star = STAR) by (unfold star; by rewrite Hafter).
  rewrite Hstar. destruct segments_agree as [Hk Hu]. split; [exact Hk|]. split; [exact Hu|].
  intros r Hr. rewrite Hafter. rewrite !not_elem_of_cons in Hr.
  destruct Hr as (? & ? & ? & ? & ? & _). by rewrite !decide_False.
Qed.

(** ** At concrete inputs *)

(** The mapper of Walker.v on the tables of the boot loader. *)
Section OffsetMapper.
Context {E F : Type} `{FrameOfLaws} `{PageTableEntryLaws E} `{VirtAddrLaws}.
Implicit Types (m : BootMemory E F) (i : MemoryInfo (PageFrameAllocator * MemoryLogger) E).
#[local] Existing Instances Walker.walker Walker.walker_laws tree_mapper.

Lemma allocate_n_app n1 n2 : forall s1 rs1 s2 rs2 s3,
  Frames.allocate_n n1 s1 = Done (rs1, s2) -> Frames.allocate_n n2 s2 = Done (rs2, s3) ->
  Frames.allocate_n (n1 + n2) s1 = Done (rs1 ++ rs2, s3).
Proof.
  induction n1 as [|n IH]; intros s1 rs1 s2 rs2 s3 H12 H23; cbn in H12 |- *; [by simplify_eq|].
  bind_Done H12. destruct r as [f s]. bind_Done H12. destruct r as [fs s']. simplify_eq.
  rewrite Hr. cbn. by rewrite (IH _ _ _ _ _ Hr0 H23).
Qed.

Lemma ensure_tables_borrows parent path : forall p i r i',
  Walker.ensure_tables parent path p i = Done (r, i') ->
  exists n rs, Frames.allocate_n n (frame_allocator i) = Done (rs, frame_allocator i').
Proof.
  induction path as [|x path IH]; intros p i r i' Hrun; cbn in Hrun; [simplify_eq; by exists 0%nat, []|].
  bind_Done Hrun. destruct r0 as [r0 i1].
  assert (Hnext : exists n rs, Frames.allocate_n n (frame_allocator i) = Done (rs, frame_allocator i1)).
  { unfold Walker.next_table in Hr. destruct (pte_is_unused _).
    - bind_Done Hr. destruct r1 as [f a]. exists 1%nat, [f]. cbn in Hr0 |- *. rewrite Hr0. cbn.
      by destruct f; simplify_eq.
    - repeat case_match; simplify_eq; by exists 0%nat, []. }
  destruct Hnext as (n1 & rs1 & Hn1). destruct r0 as [next|e].
  - apply IH in Hrun as (n2 & rs2 & Hn2). eexists _, _. by eapply allocate_n_app.
  - simplify_eq. by eexists _, _.
Qed.

#[export] Instance offset_borrows : BorrowsFrames (E := E) (F := F).
Proof.
  constructor.
  - intros m. cbn. unfold on_info, frames, with_frames. cbn.
    by destruct (Frames.allocate_frame _) as [[f s]| |].
  - intros t page f flags m r m' Hm. cbn in Hm. apply on_info_Done in Hm as (i & Hm & ->).
    unfold Walker.map_page in Hm. case_decide; [|done]. bind_Done Hm. destruct r0 as [r0 i1].
    apply ensure_tables_borrows in Hr as (n & rs & Hn). exists n, rs. unfold frames. rewrite Hn.
    f_equal. f_equal. destruct r0; [|by simplify_eq]. case_match; by simplify_eq.
  - intros m m' t q Ht. cbn. unfold PageTree.translate_page. by rewrite Ht.
  - intros m m' t Ht Ha [Htr Hr Htk]. unfold frames in Ha.
    constructor; rewrite ?Ht; [done..|]. intros p Hp. destruct (Htk p Hp) as [Hu|Hu]; [left|right];
      unfold Paging.mused in *; cbn in Hu |- *; by rewrite Ha.
Qed.
End OffsetMapper.

(** Compiled code that changes no register but its answer. *)
#[local] Instance keeping_convention : CallingConvention := {| clobber i := i |}.

#[local] Instance keeping_convention_laws : CallingConventionLaws.
Proof. by constructor. Qed.

#[local] Existing Instances plain_pages word_entry align_down_frames bit_indices bump_fallback
  bump_fallback_laws flat_gdt plain_keyboard align_down_laws plain_pages_laws
  Walker.walker Walker.walker_laws tree_mapper word_entry_laws bit_indices_laws counting_gdt counting_gdt_laws.

#[local] Instance short_region_names : DebugRegion := {|
  debug_region r := match r with Usable => text "Usable              " | _ => text "Reserved            " end;
|}.

(** A megabyte of memory above a reserved one. *)
Definition demo_boot_info : BootInfo :=
  mkBootInfo [mkBootRegion 0 0x100000 Reserved; mkBootRegion 0x100000 0x200000 Usable] 0x18000000000.

Definition raw_memory : BootMemory Z Bump.BumpAllocator :=
  mkKernelMemory (mkMemoryInfo (Frames.init [], Logger.new) (fun _ _ => 0) 0) FixedBlock.new (fun _ => 0).

Lemma demo_statics : statics_new demo_boot_info 0x9000 raw_memory.
Proof.
  constructor; [done|done| | |].
  - constructor.
    + apply (bool_decide_unpack _). vm_compute. exact I.
    + apply Forall_forall. apply (bool_decide_unpack _). vm_compute. exact I.
    + apply Forall_forall. apply (bool_decide_unpack _). vm_compute. exact I.
  - constructor; done || apply placed_nil.
  - assert (He : Paging.empty_table (E := Z) (fun _ _ => 0) 0x9000) by done.
    constructor; [by apply empty_is_tree|done|]. intros p Hp%empty_in_tree; [|done]. subst p. right.
    change (0x9000 ∉ Frames.usable_frames (Frames.init (boot_memory_map demo_boot_info))).
    apply (bool_decide_unpack _). vm_compute. exact I.
Qed.

Lemma memory_initialised_witness :
  exists (n : nat) shown m, memory_init demo_boot_info 0x9000 raw_memory = Done (shown, m) /\
    (75 <= n)%nat /\ used_memory (frames m).2 = 4096 * Z.of_nat n /\
    free_memory (frames m).2 = total_memory (frames m).2 /\
    total_memory (frames m).2 = 0x200000.
Proof.
  assert (Hdone : exists r, memory_init demo_boot_info 0x9000 raw_memory = Done r)
    by (eexists; apply (done_or_is ([], raw_memory)); vm_compute; reflexivity).
  destruct Hdone as [[shown m] Hrun].
  destruct (memory_initialised demo_boot_info 0x9000 raw_memory shown m demo_statics Hrun)
    as (n & frame_of & Hn & _ & _ & _ & _ & _ & _ & Ht & Hu & _ & Hf).
  exists n, shown, m. split; [exact Hrun|]. split; [exact Hn|]. split; [exact Hu|].
  split; [exact Hf|]. rewrite Ht. reflexivity.
Defined.

Definition demo_image : Image := mkImage 0x5000 0x6000 0x7000 0x10000.
Definition demo_cpu : Cpu := mkCpu 0 0 0 (fun _ => 0)
  (Tables.mkTables None 0 0 0 ∅ None false).
Abbreviation demo_boot := (kernel_main demo_image demo_boot_info 0x9000 demo_cpu raw_memory).
Definition unbooted : Cpu * kernel (BootMemory Z Bump.BumpAllocator) :=
  (demo_cpu, initial [] 0 [] raw_memory).


#[local] Instance demo_laws :
  MemoryManagerLaws (BootMemory Z Bump.BumpAllocator) HEAP_START (HEAP_START + HEAP_SIZE) :=
  kernel_memory_laws heap_range.

(** The first thread is created and started by the timer. *)
Definition demo_ist : list Z := [0x15000; 0x15000; 0; 0; 0; 0; 0].
Definition fresh_memory : BootMemory Z Bump.BumpAllocator :=
  mkKernelMemory (memory_info raw_memory) kernel_heap (fun _ => 0).
Abbreviation stage0 := (initial [] 0x9000 demo_ist fresh_memory).
Definition stage1 : kernel (BootMemory Z Bump.BumpAllocator) :=
  (done_or (0, stage0) (spawn_kernel_thread 0x5000 [] stage0)).2.
Definition stage2 : kernel (BootMemory Z Bump.BumpAllocator) :=
  (done_or (0, stage1) (timer_handler 0x14f60 (interrupted 0x14f60 boot_regs stage1))).2.

Lemma interrupt_stacks_witness :
  exists t, RUNNING_THREAD stage2 = Some t /\ kernel_stack_end t ≠ 0x15000 /\
    Idt.delivery 32 (interrupt_stack_table stage2) 0 = Some (Idt.timer_handler_naked, kernel_stack_end t) /\
    Idt.delivery 14 (interrupt_stack_table stage2) 0 = Some (Idt.page_fault_handler, 0x15000).
Proof.
  assert (Hrun : exists t, RUNNING_THREAD stage2 = Some t) by (vm_compute; eexists; reflexivity).
  destruct Hrun as [t Hrun].
  destruct (interrupt_stacks (K := unit) 0x10000 demo_ist [] 0x9000 fresh_memory stage2 0)
    as (_ & Hpf & _ & _ & Htimer & _).
  - reflexivity.
  - exists []. split; [|done]. apply fixed_inv_fresh. constructor; done || apply placed_nil.
  - split; [done|]. split; [done|]. left. vm_compute. discriminate.
  - apply (rtc_l _ _ stage1).
    + exists (SpawnKernel 0x5000 []). split; [done|].
      apply (StepSpawnKernel 0x5000 [] stage0 1 stage1); [vm_compute; reflexivity|].
      apply (done_or_snd (0, stage0) (spawn_kernel_thread 0x5000 [] stage0) 1). vm_compute. reflexivity.
    + apply rtc_once. exists (Timer 0x14f60 boot_regs). split.
      * intros top Htop. vm_compute in Htop. injection Htop as <-. reflexivity.
      * apply (StepTimer 0x14f60 boot_regs stage1 (from_option context 0 (RUNNING_THREAD stage2)) stage2).
        apply (done_or_snd (0, stage1) (timer_handler 0x14f60 (interrupted 0x14f60 boot_regs stage1))
          (from_option context 0 (RUNNING_THREAD stage2))). vm_compute. reflexivity.
  - exists t. split; [exact Hrun|]. split; [|split; [exact (proj1 (Htimer t Hrun))|exact Hpf]].
    intros Ht. vm_compute in Hrun. injection Hrun as <-. vm_compute in Ht. discriminate.
Defined.

Lemma syscall_initialised_witness :
  msr (Msr.init 0x6000 0x7000 demo_cpu) Msr.MSR_LSTAR = 0x6000 /\
  get_user_segments (gdt := GDT Z) = (0x33, 0x2b).
Proof.
  destruct (syscall_initialised (G := Z) 0x6000 0x7000 demo_cpu)
    as (Hl & _ & _ & _ & _ & Hu & _); [done..|].
  split; [exact Hl|]. rewrite Hu. reflexivity.
Defined.
