(* ===== verification/Start.v ===== *)
(** * From [kernel_main] to the shell (kernel/src/main.rs)

    The composition of Setup.v, Asm.v, Boot.v and Loader.v: the kernel boots, a
    timer interrupt runs its first thread, that thread loads the shell, and the
    next timer interrupt runs the shell, which asks for its identifier. *)
From S2P Require Import Prelude Text Logger Heap Bump FixedBlock Frames Paging UserStack Hierarchy Vga Keyboard Abi Sync Isf Thread Mapping Kernel Syscall Spawn Irq Arena System Loader Stacks Registers Asm Memory TableMapper Walker AddressSpace Api Boot Setup.

Section Properties.
Context {E F : Type} `{FrameOfLaws} `{VirtPagesLaws} `{FallbackHeapLaws F HEAP_START (HEAP_START + HEAP_SIZE)}
  `{DebugRegion} `{MapperLaws (BootMemory E F)} `{!BorrowsFrames (E := E) (F := F)}
  `{PageTableEntry E} `{VirtAddr} {gdt : Selectors} `{CallingConventionLaws} {K : Type}
  `{KeyboardDecoder K} `{PhysicalMemory (BootMemory E F)} `{!LoaderRemaps (BootMemory E F)} `{ElfParser}.
Implicit Types (m : BootMemory E F) (k : kernel (BootMemory E F)).

#[local] Instance boot_laws : MemoryManagerLaws (BootMemory E F) HEAP_START (HEAP_START + HEAP_SIZE) :=
  kernel_memory_laws heap_range.

(** C9: the system starts.  [kernel_main] ran, the first timer interrupt
    arrived and [kernel_thread_main], which it starts, ran to its end: the
    invariants hold in the state it leaves.  Unless it printed an error, the
    program it was given was parsed and the shell is first in the queue, before
    the listener of the console, with the keyboard, the console and the three
    static sockets as its handles; the next timer interrupt, whenever it
    comes, runs the shell at the entry point of the file on its own stack, and
    if the shell then asks for its identifier it gets it at once. *)
Theorem system_starts image boot_info table cpu m cpu' k r on_tss tick listener bin k'
    (Hboot : statics_new boot_info table m)
    (Hrun : kernel_main image boot_info table cpu m = Done (cpu', k))
    (Hroom : 0 <= interrupt_stack image /\ interrupt_stack image + 20480 < 2 ^ 64 /\
      (interrupt_stack image + 20480 <= HEAP_START \/ HEAP_START + HEAP_SIZE <= interrupt_stack image))
    (Htick : on_interrupt timer_handler (mkMachine r on_tss k) = Done (Stop, tick))
    (Hmain : kernel_thread_main listener bin (state tick) = Done k') :
  safely_reachable (K := K) k' /\ reachable (K := K) k' /\
  exists l vga, thread_get_sockets l 0 k' = Some vga /\ socket_at vga k' = Socket.Empty /\
  ((WAIT_QUEUE k' = [l] /\ exists s e,
      printed k' = (s ++ text "Error spawning user thread: " ++ text e ++ [0x0A])%list) \/
   exists t obj, WAIT_QUEUE k' = [t; l] /\ parse bin = Some obj /\
     ((fun h => thread_get_sockets t h k') <$> [0; 1; 2; 3; 4]) =
       (Some <$> [KEYBOARD_SOCKET; vga; ID_SOCKET; FIN_SOCKET; PROC_FIN_SOCKET]) /\
     forall (r' : Isf.ISF) (on_tss' : bool), exists shell,
       on_interrupt timer_handler (mkMachine r' on_tss' k') = Done (Stop, shell) /\
       RUNNING_THREAD (state shell) = Some t /\
       Isf.instruction_pointer (regs shell) = Elf.entry obj /\
       Isf.stack_pointer (regs shell) = user_stack_end t /\
       forall ctx, exists k3,
         handle_syscall ctx (Api.receive_request 2 (regs shell)) (state shell) = Done (Return, k3) /\
         Api.receive_result (Isf.load (memory k3) ctx) = Ok (Packet (thread_id t) 0 0)).
Proof.
  destruct (kernel_main_spec (K := K) _ _ _ _ _ _ _ Hboot Hrun ltac:(lia))
    as (Hsafe & Hreach & _ & _ & Hc & Hsk & Hidle & Htop & main & _ & Hq & _).
  assert (Hid : socket_heap k !! ID_SOCKET = Some Socket.Empty) by by rewrite Hsk.
  destruct (first_tick k main _ r on_tss Hsafe Hq Hidle Htop) as (tick' & Htick' & Hrt & Hqt & _); [lia|].
  rewrite Htick in Htick'. injection Htick' as <-.
  destruct (tick_reaches _ entered _ _ _ _ _ (fun ctx regs He => He) Hsafe Htop Htick)
    as (Hsafe1 & Hc1 & Hs1 & _).
  destruct (tick_reaches _ (fun _ _ => True) _ _ _ _ _ (fun _ _ _ => I) Hreach Htop Htick) as (Hreach1 & _).
  pose proof (kernel_thread_main_steps (K := K) listener bin (state tick) k' ltac:(lia) ltac:(lia) Hmain)
    as Hsteps.
  assert (Hsafe2 : safely_reachable (K := K) k').
  { eapply thread_steps_reach; [|exact Hsafe1|exact Hsteps]. by intros k0 []. }
  split; [done|]. split; [by eapply thread_steps_reach; [|exact Hreach1|exact Hsteps]|].
  rewrite <-Hs1 in Hid. destruct (shell_boots _ _ _ _ Hid Hmain) as (l & vga & _ & Hrun' & Hl & Hvga & Hcase).
  exists l, vga. split; [done|]. split; [done|]. rewrite Hqt in Hcase.
  destruct Hcase as [Herr|(t & Hqueue & Hhandles & _ & (obj & Hparse & Hip & Hsp) & Hrecv)]; [by left|].
  right. exists t, obj. do 3 (split; [done|]). intros r' on_tss'. rewrite Hrt in Hrun'.
  destruct (next_tick k' main t [l] r' on_tss' Hsafe2 Hrun' Hqueue)
    as (shell & Hshell & Hrs & Hregs & Hsocks & Hprocs).
  exists shell. rewrite Hregs. do 4 (split; [done|]). intros ctx.
  apply Hrecv; [done|by rewrite Hprocs|unfold socket_at; by rewrite Hsocks].
Qed.
End Properties.

(** ** The first address space

    With a mapper on the page tables (TableMapper.v), what [memory::init] leaves is what
    AddressSpace.v and Release.v ask of the kernel's own space, if the boot
    loader's tables are not in memory it calls usable, frame 0 is not usable,
    and no huge page lies where the stacks of programs go. *)
Section FirstSpace.
Context {E F : Type} `{FrameOfLaws} `{VirtPagesLaws} `{FallbackHeap F} `{DebugRegion}
  `{PageTableEntryLaws E} `{VirtAddrLaws} `{!TableMapper (PageFrameAllocator * MemoryLogger) E}
  `{!TableMapperLaws (PageFrameAllocator * MemoryLogger) E}.
Implicit Types (m : BootMemory E F).
#[local] Existing Instance tree_mapper.

Lemma frames_taken m m' p :
  (frames m').1 = (frames m).1 -> Paging.mtaken (memory_info m') p <-> Paging.mtaken (memory_info m) p.
Proof. intros Hf. unfold Paging.mtaken, taken. cbn. unfold frames in Hf. by rewrite Hf. Qed.

Lemma space_same m m' t :
  tables (memory_info m') = tables (memory_info m) -> (frames m').1 = (frames m).1 ->
  space (memory_info m) t -> space (memory_info m') t.
Proof.
  intros Ht Hf [[Htree Hroot Htk] Hclear]. constructor; [|by rewrite Ht].
  constructor; [by rewrite Ht|done|]. intros p. rewrite Ht. intros Hp.
  by apply (frames_taken m m' p Hf), Htk.
Qed.

Lemma kernel_space_boots boot_info cr3 m shown m' :
  space (memory_info (at_init boot_info m)) cr3 ->
  0 ∉ Frames.usable_frames (Frames.init (boot_memory_map boot_info)) ->
  memory_init boot_info cr3 m = Done (shown, m') -> kernel_space m'.
Proof.
  intros Hs Hz (m1 & Hheap & Htab & Hkt & Hf)%memory_init_steps.
  apply (Mapping.init_heap_keeps (R := confines cr3)) in Hheap.
  2: { split; [done|]. constructor; [apply flags_ok_kernel|done|done]. }
  destruct (Hheap Hs) as (Hs1 & Hc & _).
  constructor; [rewrite Hkt; apply (space_same m1); [done|by rewrite Hf|done]|].
  apply (frames_taken m1 m' 0); [by rewrite Hf|]. eapply confined_taken; [exact Hc|done|].
  right. exact Hz.
Qed.
End FirstSpace.

(** ** At a concrete input

    The machine of Setup.v with the file of Loader.v and the mapper of
    Walker.v. *)
#[local] Existing Instances plain_pages word_entry align_down_frames bit_indices bump_fallback
  bump_fallback_laws flat_gdt plain_keyboard align_down_laws plain_pages_laws Walker.walker Walker.walker_laws
  tree_mapper table_memory
  word_entry_laws bit_indices_laws short_region_names keeping_convention keeping_convention_laws
  demo_parser.

(** The run. *)
Abbreviation demo_tick k := (on_interrupt timer_handler (mkMachine boot_regs false k)).
Abbreviation demo_start := (
  '(_, k) ← demo_boot;
  '(f, tick) ← demo_tick k;
  match f with Stop => kernel_thread_main 0x4000 demo_file (state tick) | _ => Panic end).

Lemma system_starts_witness :
  exists cpu k tick k' t l shell, demo_boot = Done (cpu, k) /\ demo_tick k = Done (Stop, tick) /\
    kernel_thread_main 0x4000 demo_file (state tick) = Done k' /\ WAIT_QUEUE k' = [t; l] /\
    demo_tick k' = Done (Stop, shell) /\
    RUNNING_THREAD (state shell) = Some t /\ Isf.instruction_pointer (regs shell) = 0x5000010.
Proof.
  assert (Hdone : exists k', demo_start = Done k' /\ length (WAIT_QUEUE k') = 2%nat).
  { assert (Hrun : match demo_start with Done k' => Nat.eqb (length (WAIT_QUEUE k')) 2 | _ => false end = true)
      by (vm_compute; reflexivity).
    destruct demo_start as [k'| |]; [|discriminate|discriminate]. exists k'. split; [reflexivity|].
    exact (proj1 (Nat.eqb_eq _ _) Hrun). }
  destruct Hdone as (k' & Hstart & Hlen).
  apply outcome_bind_Done in Hstart as ([cpu k] & Hboot & Hstart).
  apply outcome_bind_Done in Hstart as ([f tick] & Htick & Hmain).
  destruct f; try discriminate Hmain.
  destruct (system_starts (K := unit) demo_image demo_boot_info 0x9000
    demo_cpu raw_memory cpu k boot_regs false tick 0x4000 demo_file k' demo_statics Hboot)
    as (_ & _ & l & vga & _ & _ & [[Hq _]|(t & obj & Hq & Hparse & _ & Hshell)]).
  - split; [done|]. split; [done|]. left. vm_compute. discriminate.
  - exact Htick.
  - exact Hmain.
  - rewrite Hq in Hlen. discriminate Hlen.
  - destruct (Hshell boot_regs false) as (shell & Hrun & Hr & Hip & _).
    exists cpu, k, tick, k', t, l, shell. do 6 (split; [assumption|]). rewrite Hip.
    assert (Hobj : parse demo_file = Some demo_elf) by reflexivity.
    rewrite Hobj in Hparse. injection Hparse as <-. reflexivity.
Defined.
